(* ===== verification/_CoqProject ===== *)
-Q . S2P
Prelude.v
GoString.v
GoFloat.v
GoTime.v
GoHttp.v
Sha256.v
Base64.v
Manifest.v
Conflict.v
Latency.v
World.v
Json.v
Claim.v
ClaimSpec.v
ClaimInv.v
ClaimSafety.v
ClaimProps.v
Interleave.v
InterleaveInv.v
InterleaveProps.v
Config.v
Downstream.v
Contract.v
ResultStore.v
ObjectStore.v
Retention.v
Partitions.v
Archive.v
Maintenance.v
Store.v
Reconcile.v
ReconcileProps.v
ReconcileRun.v
Api.v
JsonDecode.v
JsonRound.v
JsonMarshal.v
Canonical.v
Reads.v
ReadsProps.v
Relay.v
Telemetry.v
ApiProps.v
ApiSafety.v
Metered.v
Routes.v
System.v
Concurrent.v
FakeDownstream.v
Harness.v
AlertSink.v
TestDb.v
Decoding.v
Processes.v
