(* ===== verification/Prelude.v ===== *)
(** * idemio: a verification library

    idemio is a gateway that executes agents' writes on a downstream service at most once per
    idempotency key, and keeps conflicting writes to one resource apart.  A write is a POST with
    a key.  The gateway claims the key in Postgres, judges the write against the live intents of
    other writes to the same resource, calls the downstream, classifies what came back and
    records it.  A key whose process died is ended later by the reconciler, which asks the
    downstream how often the write ran.  Around this core, operators read intents and conflicts
    page by page, a relay publishes the intents from the outbox, a housekeeping pass makes,
    archives and drops partitions and expires keys, and the schema is migrated at start-up.

    ** The parts and the files

    - Prelude.v: Go errors, the state-and-error monad the operations are written in, its
      predicates [frames], [returns] and [yields] with their hint databases, 64-bit integers
      and durations.
    - GoString.v, GoFloat.v, GoTime.v, GoHttp.v, Sha256.v, Base64.v, Json.v, JsonDecode.v,
      JsonRound.v, JsonMarshal.v: what the code uses of Go's standard library (strings, strconv, unicode/utf8, float64, time, the mux
      of net/http, crypto/sha256, encoding/base64, encoding/json).  JsonDecode.v is json.Decoder
      with UseNumber, JsonRound.v that it reads back what json.Marshal wrote,
      JsonMarshal.v the same of whole documents, and the fields of structs.  Sha256.v also holds internal/correlation.
    - Manifest.v: internal/manifest.  [validate], [definition], [Load], [reload], [Watch].
    - Conflict.v: internal/conflict.  [Compatible], [ScopesDisjoint].
    - Latency.v: internal/latency.  The ring, and the p95 as a rank computed in doubles.
    - World.v: the tables of migrations/*.sql as a record, [begin]/[commit]/rollback over a
      committed state, and the outside world as scripts (below).
    - Claim.v: internal/claim.  Every SQL statement as a function on the tables, every Go
      function as a computation: [Claim], [Complete], [Lookup] and their helpers.
    - ClaimSpec.v: the abstract specification, [claim_step] and [complete_step], and the
      refinement of [Claim] and [Complete] to it.  ClaimInv.v and ClaimSafety.v: invariants of
      the steps and of every reachable database.  ClaimProps.v: the theorems and witnesses.
    - Interleave.v: the same functions as programs of single SQL statements, and a server that
      runs any number of them at once.  InterleaveInv.v: a rely-guarantee logic for the
      programs, and its proofs of the two.  InterleaveProps.v: the theorems.
    - Config.v: internal/config with [ParseInt] and [ParseDuration].
    - Downstream.v: internal/downstream.  [Execute] and the classification.  Contract.v: what
      the write path assumes of a downstream, [true_of], and what a disposition of [Execute] then
      means, [returned_reported].
    - ResultStore.v: internal/resultstore against the class [Objects], the Go interface with
      its laws; [bucket] implements it.  ObjectStore.v: internal/objectstore over the class
      [Minio]; its client implements [Objects] too.
    - Reconcile.v, ReconcileProps.v, ReconcileRun.v: internal/probe and internal/reconcile.
    - Api.v: internal/api (api.go, identity.go).  [handleWrite] and [handleRead] whole.
      ApiProps.v and ApiSafety.v: the theorems on them.
    - Canonical.v: internal/canonical.  The number check and [Hash]; [hash_of] is what
      [handleWrite] takes as [canonical_Hash].
    - Reads.v, ReadsProps.v: internal/api (reads.go, audit.go).  [handleIntents] and
      [handleConflicts] with their cursors, role rules and the audit of payload reads.
    - Relay.v: internal/relay.  [Publish] and the loop [Run] against a scripted Kafka writer.
    - Retention.v, Partitions.v: internal/maintenance.  [ExpireKeys], [RetireExpired],
      [EnsurePartitions] over a catalog of attached and detached partitions.
    - Archive.v: internal/archive.  [Archive] and [Restore] against the class [Parquet].
    - Maintenance.v: the housekeeping pass [runMaintenance] and the restore command of
      cmd/reconciler.
    - Store.v: internal/store.  [Migrate] and the verifications at start-up.
    - Telemetry.v: internal/telemetry.  The series a process registers and the gauges of a
      scrape.  Metered.v: that every computation moves only those series, rightly labelled.
    - Routes.v: internal/api (api.go).  [routes], [countResponses] and [route]: the handlers
      behind their mux, each answer counted.
    - Processes.v: cmd/idemio, cmd/reconciler, cmd/relay.  What each loads and verifies before
      it works ([run_service], [run_reconciler], [run_relay]), [activate], [maintain], and how
      serving ends.
    - System.v: handlers, downstream and reconciler together, as a step relation whose
      transactions are atomic.  Concurrent.v: the same over the server of Interleave.v, whose
      transactions run statement by statement.
    - FakeDownstream.v: cmd/fakedownstream.  Its ledger, its scripts, its listener and its two
      muxes.  Harness.v: its process from start to serving, and internal/faketest, the client the
      tests drive it with, through the JSON of both.
    - Decoding.v: the structs internal/api, internal/probe and internal/manifest decode, filled
      from the bytes: [read_write_body], [decode_probe_answer], [unmarshal_document].  The files
      of these packages take the decoded value or the decoder; these are what they get.
    - AlertSink.v: cmd/alertsink.  TestDb.v: internal/testdb, the databases of the tests.

    Definitions have the names of the Go functions.  Where a Rocq name would clash or a method
    has no receiver to qualify it, the name is close and the manifest gives the source lines.

    ** The world

    An operation is a function from a [world] to its result or error and the next world.  The
    outside is in the world as scripts, and theorems quantify over all of them: the fault of
    each database round trip, including a commit that takes effect and whose acknowledgement is
    lost; what other connections commit between the transactions of this one; what [time.Now]
    reads, under no assumption but, where termination is claimed, that it passes the deadline;
    which wait the request's context cuts short; what the HTTP client is left with for each call,
    a redirect whose target cannot be dialled included; the object store's failures.  The calls that left and the metrics are recorded as sequences.

    In the world a transaction is one atomic step of the tables.  Interleave.v is about what
    that leaves out: there a transaction is a sequence of statements under READ COMMITTED.  A
    statement sees the committed tables of the moment with the transaction's own writes over
    them ([view]); it waits for the advisory lock and for rows another open transaction has
    written ([waits_for]); the writes reach the tables at the commit ([overlay]), or never if
    the transaction fails, which it may before any statement.  [Tx.claim] and [Tx.complete] are
    the two programs, and [claim_program] and [complete_program] show that run in the world
    they are [Claim] and [Complete].  The advisory lock is the resource's hash, and resources
    may collide.  Key expiry and partition drops are not among the server's transactions.

    A NULL of a column is [None], and a slice that is nil where that can be seen is [None] too:
    the scope of an operation, the intents of an audit row.

    Class [Pg] holds what the database computes and the model cannot: the generated
    identifiers, distinct and not empty, the text a [jsonb] cast stores, and the hash of the
    advisory lock.

    Housekeeping, relay, archive and migrations have worlds of their own around this one
    ([mworld], [rworld], the [tworld] of Archive.v, [sworld]) that add the partition catalog, the topic, the
    tables by name and the schema, with the same script of faults.  [process] puts the schema,
    the rows and the partitions of one database together; the fake has a world of its own,
    and TestDb.v one of databases by name.

    ** What the theorems show

    - The tables (ClaimProps.v).  [claim_atomic], [complete_atomic]: under any faults a call
      takes one whole step of the specification or none.  [claim_verdict_exact],
      [claim_replays], [rejection_replays], [complete_then_lookup]: each verdict says what the
      tables held, and a stored outcome comes back.  [key_life], [live_intents]: a key moves
      only along the legal edges and has a live intent exactly while its write may have
      effect.  [conflicts_excluded]: under enforcement, of two live intents in one window that
      do not commute, both are one agent's and the earlier is over.
    - The server (InterleaveProps.v).  [interleaved_exclusion]: the same for any interleaving of
      statements, whatever fails.  [attempts_admitted_once]: no two claims of a key are told
      claimed for one attempt, and exactly the keys whose write may have effect have a live
      intent.  [transactions_end]: the locks cannot deadlock, and without new transactions none
      stays open.  [calls_run_alone] ties the two models of the transactions together: a call of
      the world is a run of the server in which its transaction is alone.
    - The handler (ApiSafety.v).  [write_calls_at_most_once], [write_response_honest],
      [outcome_recorded]: one call, only after the claim was committed, and what [Execute] made of it
      is what is recorded and answered.  [responses_counted] (Routes.v): which handler a request reaches, and that
      each answer is counted once.  [write_answers]: for every run of the clock past the deadlines there is a
      bound from which all fuel gives the response.  [key_check_exact], [read_own_key].
    - The list endpoints (ReadsProps.v).  [pages_complete]: following the cursors reads every
      row of the range once, newest first.  [payload_audited]: payloads go only to an
      investigator with a reason, and only with a committed audit row that names them.
      [cursor_round_trip].
    - The relay (Relay.v).  [publish_before_mark]: at least once, under partial deliveries.
      [outbox_drains]: enough ticks without faults publish everything.
    - Housekeeping.  [expiry_only_expired], [retirement_archives_first], [partitions_cover] on
      its three steps; [maintenance_keeps_future] on the pass they make together, which without an object store may
      panic; [archive_round_trip]: what was archived can be restored, but for the NULLs that the
      archive does not keep; [headroom_after_ensure]: what
      [EnsurePartitions] leaves passes the check of [VerifyPartitionHeadroom].
    - The hash (Canonical.v).  [hash_exact]: what is hashed is valid JSON whose integer literals
      are the doubles they are read as, so two integers are never taken for one.
      [hash_identifies]: under RFC 8785's law for the transform, equal hashes mean the same
      request, or two different documents with one SHA-256; the same request, however it is
      spelled, has one hash.  It rests on three round trips of JsonRound.v: a quoted string, a
      compacted raw message and an object are read back as what they were written from.
    - Migrations (Store.v).  [migrate_in_order]: each once, in order, with its record.
    - Operations.  [metrics_typed] (Routes.v): no metric call can panic and no label comes
      unchecked from a request.  [gauges_truthful], [series_registered] (Telemetry.v): what a
      scrape shows is true of the tables, and its alerts mean that the sweep or the retention
      has work.  [start_checked], [activations_follow] (Processes.v): what each process that started has
      checked, and which manifests it says it serves.  [object_client_exact]
      (ObjectStore.v).
    - The fake (FakeDownstream.v).  [fake_refines_downstream], [ledger_exact],
      [probe_truthful]: the oracle of the tests is a downstream as Contract.v describes one, and
      its probe is right.  [harness_truthful] (Harness.v): what a test scripts is what the fake
      does, and what a test reads back is what the ledger recorded, through JSON both ways.
      [shipped_faithful]: its refusals fit the classification of the subscription manifest and not
      that of the invoice manifest.
    - The reconciler (ReconcileProps.v).  [resolve_follows_probe], [sweep_only_stale],
      [stale_selection].  ReconcileRun.v: [stale_keys_drain], and [batch_blocks] for the batch
      whose probes never answer.
    - The system (System.v).  [at_most_once]: in every run of handlers that may stop anywhere,
      a write executes at most once, done means exactly once and failed, rejected or unknown
      never.  It assumes four things.  A call executes before its key is stale, which
      [Config.stale_margin] backs with three call budgets; an outcome is recorded for the current
      attempt only; the count of a probe's answer is that of the ledger; and the declared
      classifications are true of the downstream.  The first three are guards of steps, the last
      a hypothesis.  What is recorded is not assumed: it is what [Execute] and [resolve] return.
      The code checks none of them.  [unfenced_runs_twice] and
      [ClaimProps.completion_not_fenced] show what the lack of the second permits;
      [mislabelled_refusal_is_done], with the shipped invoice manifest, that of the last.
    - The system, transactions interleaving (Concurrent.v).  [concurrent_at_most_once]: the same when
      the statements of claims and completions interleave in any order, fail anywhere and lose
      acknowledgements; an execution belongs to an attempt whose claim was committed.  The
      assumptions are the same; the fence is a guard of the commit of an outcome.
    - The bytes (Decoding.v).  [write_body_read]: a write is decoded as the client wrote it, or
      refused as too large.  [probe_reads_fake]: the probe and the reconciler's verdict are
      right from the bytes of the fake's answer on.  [shipped_manifests_load]: the two files of manifests/
      are the documents the theorems use, and load.
    - The drill and the test databases.  [sink_exact] (AlertSink.v): the list is what was
      posted since the last reset.  [clones_migrated] (TestDb.v): a test runs on every
      migration, if the template it found was complete; [half_built_template_accepted] is a
      template that is not, and is taken.
    - The pure parts.  [compatible_correct] and [scopes_disjoint_correct] against the meaning
      of a scope as a set of fields; [validate_correct], [load_exact], [load_listing_order],
      [watch_serves_last_good]; [execute_classified], with the redirect that is taken for a
      failed dial; [result_is_json];
      [place_then_resolve]; [retry_after_is_p95]; [config_valid], [stale_margin].
      [window_overflow_accepted] and [stale_margin_overflow] are the 64-bit products that wrap
      before a check sees them.

    ** Fuel and bounds

    The decoder of JsonDecode.v has a unit of fuel for each level of its three mutual functions;
    twice the length of the text is enough ([Decode_fuel]).
    The polling loops of Api.v take fuel, one unit per turn, and [write_answers] shows that
    enough exists.  The batches of [ExpireKeys] take fuel, and more than there are keys is
    enough, as [expiry_only_expired] shows.  [extend] has the fuel it needs, a unit per week up
    to the horizon, since every step is at least a week; [partitions_cover] depends on it.  The
    loops that a context ends ([Relay.Run], [ReconcileRun.Run], [Watch]) take the number of ticks.  The scanner of
    Json.v, SHA-256 and the duration parser recurse on their input.  Durations and counters are [Z] with [wrap64] where the code computes;
    [attempt_count] is an int4 whose overflow is an error of the server.

    ** Not modelled

    Parameters: the texts of decoding errors, jcs.Transform, what the SQL text of a migration does, the Parquet format, the MinIO calls
    (class [Minio]), what the pool, the listener and [http.NewRequest] answer at start-up, and
    the readers and transports behind HTTP.  Of a redirect that the client follows only
    the reply of its target, or its failed dial, is part of the model.  Left out: logging, flags, the page of promhttp and the conversion
    of gauges to doubles; of the test packages the building of the fake's binary, the rewriting
    of connection strings, [Truncate], [Pooled] and internal/fixtures (directory and file
    operations around json.MarshalIndent).  A text that spells a struct's field
    twice is not read by [field] (fake, sink) as encoding/json would; Decoding.v reads it so, but for
    a slice given twice, where it takes the last.
    The goroutines of a process are sequences of their own: their interleaving is that of other
    connections in the world of each, but for Interleave.v and Concurrent.v.  In these the key
    expiry and the partition drops take no part.  The lock timeout of the advisory lock is an
    error of the statement, at any time. *)

From Stdlib Require Export Ascii.
From stdpp Require Export base gmap strings list fin_maps sorting pretty.
From Stdlib Require Export ZArith Lia.

#[global] Set Default Goal Selector "!".
#[global] Set Warnings "-clear-no-such-hyp,-register-all".

#[global] Arguments Ascii.eqb : simpl never.

Open Scope Z_scope.

(** ** Errors

    A Go [error] is a kind, which is what [errors.Is] and [errors.As] inspect, and a text.
    [NoRows] is [pgx.ErrNoRows], [PgError] a server error with its SQLSTATE, [NotDialed] the
    marker type of internal/downstream, [Misc] everything else. *)
Inductive errkind :=
| NoRows
| PgError (code : string)
| NotDialed
| Misc.

Record goerr := mkErr { e_kind : errkind; e_text : string }.

#[export] Instance errkind_eq_dec : EqDecision errkind.
Proof. solve_decision. Defined.
#[export] Instance goerr_eq_dec : EqDecision goerr.
Proof. solve_decision. Defined.

(** [fmt.Errorf("...: %w", err)]: the text grows, the kind stays visible through [Unwrap]. *)
Definition wrap (context : string) (e : goerr) : goerr :=
  mkErr (e_kind e) (context +:+ ": " +:+ e_text e).

Definition errorf (text : string) : goerr := mkErr Misc text.

(** ** The effect monad

    A computation over a world [W] returns a Go [(value, error)] pair, as a sum, and the world
    after it.  Sequencing stops at the first error, which is the [if err != nil { return }] of
    the source; an error the source inspects is caught with [try]. *)
Definition St (W A : Type) : Type := W → (goerr + A) * W.

#[export] Instance St_ret {W} : MRet (St W) := λ A x w, (inr x, w).
#[export] Instance St_bind {W} : MBind (St W) := λ A B k m w,
  match m w with
  | (inl e, w') => (inl e, w')
  | (inr x, w') => k x w'
  end.

#[export] Instance St_fmap {W} : FMap (St W) := λ A B f m, m ≫= λ x, mret (f x).

Definition throw {W A} (e : goerr) : St W A := λ w, (inl e, w).

(** Run [m] and hand its error to the program as a value. *)
Definition try {W A} (m : St W A) : St W (goerr + A) := λ w,
  let '(r, w') := m w in (inr r, w').

(** [defer f()]: [f] runs on every way out of [m]. *)
Definition finally {W A} (m : St W A) (f : W → W) : St W A := λ w,
  let '(r, w') := m w in (r, f w').

(** Wrap the error of [m] with a context. *)
Definition wrapping {W A} (context : string) (m : St W A) : St W A := λ w,
  match m w with
  | (inl e, w') => (inl (wrap context e), w')
  | (inr x, w') => (inr x, w')
  end.

Definition get {W} : St W W := λ w, (inr w, w).
Definition gets {W A} (f : W → A) : St W A := λ w, (inr (f w), w).
Definition modify {W} (f : W → W) : St W unit := λ w, (inr tt, f w).

(** [for _, x := range l { acc = body(acc, x) }]. *)
Fixpoint for_range {W A B} (l : list A) (acc : B) (body : B → A → St W B) : St W B :=
  match l with
  | [] => mret acc
  | x :: rest => acc' ← body acc x; for_range rest acc' body
  end.

(** ** Reasoning about computations *)

Section Runs.
Context {W : Type}.
Implicit Types w : W.

(** Running a sequence whose first part is known. *)
Lemma bind_inr {A B} (m : St W A) (k : A → St W B) w x w' :
  m w = (inr x, w') → (m ≫= k) w = k x w'.
Proof. unfold mbind, St_bind. by intros ->. Qed.

Lemma bind_inl {A B} (m : St W A) (k : A → St W B) w e w' :
  m w = (inl e, w') → (m ≫= k) w = (inl e, w').
Proof. unfold mbind, St_bind. by intros ->. Qed.

Lemma try_eq {A} (m : St W A) w x w' : m w = (x, w') → try m w = (inr x, w').
Proof. unfold try. by intros ->. Qed.
End Runs.

(** In a goal [(m ≫= k) s = r → …], run [m]: one goal where it stops with an error and one where
    [k] goes on. *)
Tactic Notation "run_first" simple_intropattern(p) "as" ident(E) :=
  match goal with
  | |- (?m ≫= _) ?s = _ → _ =>
      destruct (m s) as p eqn:E; [rewrite (bind_inl _ _ _ _ _ E)|rewrite (bind_inr _ _ _ _ _ E)]
  end.

(** ** Frames *)

(** Every run of [m] moves the world along [R]. *)
Definition frames {W A} (R : W → W → Prop) (m : St W A) : Prop := ∀ w, R w (m w).2.

Create HintDb frames.

Section Frames.
Context {W : Type} (R : W → W → Prop) `{!PreOrder R}.

Lemma frames_ret {A} (x : A) : frames R (mret x).
Proof. intros w. simpl. reflexivity. Qed.

Lemma frames_throw {A} e : frames R (throw e : St W A).
Proof. intros w. simpl. reflexivity. Qed.

Lemma frames_bind {A B} (m : St W A) (k : A → St W B) :
  frames R m → (∀ x, frames R (k x)) → frames R (m ≫= k).
Proof.
  intros Hm Hk w. unfold mbind, St_bind. specialize (Hm w).
  destruct (m w) as [[e|x] w']; [done|]. etransitivity; [done|apply Hk].
Qed.

Lemma frames_fmap {A B} (f : A → B) (m : St W A) : frames R m → frames R (f <$> m).
Proof. intros Hm. apply frames_bind; [done|]. intros x. apply frames_ret. Qed.

Lemma frames_try {A} (m : St W A) : frames R m → frames R (try m).
Proof. intros Hm w. unfold try. specialize (Hm w). by destruct (m w). Qed.

Lemma frames_wrapping {A} c (m : St W A) : frames R m → frames R (wrapping c m).
Proof. intros Hm w. unfold wrapping. specialize (Hm w). by destruct (m w) as [[]]. Qed.

Lemma frames_gets {A} (f : W → A) : frames R (gets f).
Proof. intros w. simpl. reflexivity. Qed.

Lemma frames_finally {A} (m : St W A) (f : W → W) :
  frames R m → (∀ w, R w (f w)) → frames R (finally m f).
Proof.
  intros Hm Hf w. unfold finally. specialize (Hm w). destruct (m w) as [r w']. simpl in *.
  etransitivity; [exact Hm|apply Hf].
Qed.
End Frames.

#[export] Hint Resolve frames_ret frames_throw frames_gets frames_bind frames_fmap frames_try
  frames_wrapping : frames.

(** Frames of compound computations, case by case. *)
Ltac frames_auto :=
  repeat (intros; first
    [ solve [auto with frames typeclass_instances]
    | apply frames_bind; [typeclasses eauto|..]
    | apply frames_fmap; [typeclasses eauto|..]
    | apply frames_try | apply frames_wrapping
    | match goal with |- frames _ (match ?x with _ => _ end) => destruct x end ]).

(** ** Computations that do not fail *)

Definition returns {W A} (m : St W A) : Prop := ∀ w, ∃ x, (m w).1 = inr x.

Create HintDb returns.

Section Returns.
Context {W : Type}.

Lemma returns_ret {A} (x : A) : returns (mret x : St W A).
Proof. intros w. by exists x. Qed.

Lemma returns_bind {A B} (m : St W A) (k : A → St W B) :
  returns m → (∀ x, returns (k x)) → returns (m ≫= k).
Proof.
  intros Hm Hk w. destruct (Hm w) as [x Hx]. destruct (m w) as [r w'] eqn:Hrun. simpl in Hx. subst r.
  rewrite (bind_inr _ _ _ _ _ Hrun). apply Hk.
Qed.

(** A sequence that ends with a value known beforehand. *)
Definition yields {A} (m : St W A) (y : A) : Prop := ∀ w, (m w).1 = inr y.

Lemma yields_ret {A} (y : A) : yields (mret y) y.
Proof. done. Qed.

Lemma yields_bind {A B} (m : St W A) (k : A → St W B) y :
  returns m → (∀ x, yields (k x) y) → yields (m ≫= k) y.
Proof.
  intros Hm Hk w. destruct (Hm w) as [x Hx]. destruct (m w) as [r w'] eqn:Hrun. simpl in Hx. subst r.
  rewrite (bind_inr _ _ _ _ _ Hrun). apply Hk.
Qed.

Lemma returns_fmap {A B} (f : A → B) (m : St W A) : returns m → returns (f <$> m).
Proof. intros Hm. apply returns_bind; [done|]. intros x. apply returns_ret. Qed.

(** The error of a computation that is tried is a value. *)
Lemma returns_try {A} (m : St W A) : returns (try m).
Proof. intros w. unfold try. destruct (m w) as [r w']. by exists r. Qed.

Lemma returns_gets {A} (f : W → A) : returns (gets f).
Proof. intros w. by eexists. Qed.

Lemma returns_modify (f : W → W) : returns (modify f).
Proof. intros w. by eexists. Qed.
End Returns.

#[export] Hint Resolve returns_ret returns_try returns_gets returns_modify : returns.

Ltac returns_auto :=
  repeat (intros; first
    [ solve [auto with returns]
    | apply returns_bind | apply returns_fmap
    | match goal with |- returns (match ?x with _ => _ end) => destruct x end ]).

(** ** Lists *)

Lemma filter_keeps {A} (P : A → Prop) `{!∀ x, Decision (P x)} (l : list A) :
  (∀ x, x ∈ l → P x) → filter P l = l.
Proof.
  induction l as [|x l IH]; intros Hall; [done|]. rewrite filter_cons_True by (apply Hall; by left).
  f_equal. apply IH. intros y Hy. apply Hall. by right.
Qed.

Lemma filter_drops {A} (P : A → Prop) `{!∀ x, Decision (P x)} (l : list A) :
  (∀ x, x ∈ l → ¬ P x) → filter P l = [].
Proof.
  induction l as [|x l IH]; intros Hall; [done|]. rewrite filter_cons_False by (apply Hall; by left).
  apply IH. intros y Hy. apply Hall. by right.
Qed.

(** Elements of a list whose images are distinct are equal when their images are. *)
Lemma image_once {A B} (f : A → B) (l : list A) x y :
  NoDup (f <$> l) → x ∈ l → y ∈ l → f x = f y → x = y.
Proof.
  intros Hnd [i Hi]%list_elem_of_lookup [j Hj]%list_elem_of_lookup He.
  assert (i = j) as ->; [|congruence].
  eapply NoDup_lookup; [exact Hnd| |]; rewrite list_lookup_fmap; [by rewrite Hi|].
  rewrite Hj. simpl. by rewrite He.
Qed.

(** ** Machine integers *)

Definition int4_max : Z := 2147483647.
Definition int64_max : Z := 9223372036854775807.
Definition int64_min : Z := -9223372036854775808.

(** Two's complement wrap-around of Go's [int64], of which [time.Duration] is one. *)
Definition wrap64 (z : Z) : Z :=
  let m := z mod 18446744073709551616 in
  if decide (m <= int64_max) then m else m - 18446744073709551616.

Lemma wrap64_id z : int64_min <= z <= int64_max → wrap64 z = z.
Proof.
  unfold wrap64, int64_min, int64_max. intros [H1 H2].
  destruct (decide (0 <= z)).
  - rewrite Z.mod_small by lia. case_decide; lia.
  - replace (z mod 18446744073709551616) with (z + 18446744073709551616).
    + case_decide; lia.
    + rewrite <- (Z_mod_plus_full z 1), Z.mul_1_l. by rewrite Z.mod_small by lia.
Qed.

(** [time.Duration] in nanoseconds. *)
Definition Microsecond : Z := 1000.
Definition Millisecond : Z := 1000000.
Definition Second : Z := 1000000000.
Definition Minute : Z := 60 * Second.
Definition Hour : Z := 60 * Minute.
