(* ===== verification/GoString.v ===== *)
(** * GoString: the parts of Go's [strings], [strconv] and [unicode/utf8] the program uses

    A Go [string] is a sequence of bytes, which is what Stdlib's [string] of [ascii] is.
    [range] over a string walks its runes, so [decode_rune] is [utf8.DecodeRuneInString].
    [ToLower] is exact on ASCII strings and leaves the bytes of other runes alone. *)

From S2P Require Import Prelude.

Definition byte_val (c : Ascii.ascii) : Z := Z.of_nat (Ascii.nat_of_ascii c).
Definition byte_of (z : Z) : Ascii.ascii := Ascii.ascii_of_nat (Z.to_nat z).

Fixpoint bytes_of_codes (l : list Z) : string :=
  match l with
  | [] => EmptyString
  | z :: r => String (byte_of z) (bytes_of_codes r)
  end.

(** ** Searching *)

(** [strings.HasPrefix]. *)
Fixpoint HasPrefix (s p : string) {struct p} : bool :=
  match p, s with
  | EmptyString, _ => true
  | String c p', String d s' => Ascii.eqb c d && HasPrefix s' p'
  | String _ _, EmptyString => false
  end.

(** [strings.HasSuffix]. *)
Fixpoint HasSuffix (s p : string) : bool :=
  String.eqb s p ||
  match s with
  | EmptyString => false
  | String _ s' => HasSuffix s' p
  end.

(** [strings.Contains]. *)
Fixpoint Contains (s sub : string) : bool :=
  HasPrefix s sub ||
  match s with
  | EmptyString => false
  | String _ s' => Contains s' sub
  end.

(** [strings.Join]. *)
Fixpoint Join (l : list string) (sep : string) : string :=
  match l with
  | [] => ""
  | [x] => x
  | x :: r => x +:+ sep +:+ Join r sep
  end.

(** [strconv.Itoa], [strconv.FormatInt(_, 10)], [%d]. *)
Definition Itoa (z : Z) : string := pretty z.

(** The byte order [slices.Sort] and [sort.Strings] sort by. *)
Definition str_le (a b : string) : Prop := String.leb a b = true.
#[export] Instance str_le_dec a b : Decision (str_le a b).
Proof. unfold str_le. apply _. Defined.

(** The value of a decimal digit. *)
Definition digit_of (c : Ascii.ascii) : option Z :=
  let v := byte_val c - 48 in if (0 <=? v) && (v <=? 9) then Some v else None.

(** ** Case and blanks *)

Definition lower_byte (c : Ascii.ascii) : Ascii.ascii :=
  let v := byte_val c in
  if (65 <=? v) && (v <=? 90) then byte_of (v + 32) else c.

(** [strings.ToLower], on ASCII. *)
Fixpoint ToLower (s : string) : string :=
  match s with
  | EmptyString => EmptyString
  | String c r => String (lower_byte c) (ToLower r)
  end.

(** The UTF-8 encodings of the runes [unicode.IsSpace] accepts. *)
Definition spaces : list string :=
  bytes_of_codes <$>
  [[9]; [10]; [11]; [12]; [13]; [32]; [194; 133]; [194; 160]; [225; 154; 128];
   [226; 128; 128]; [226; 128; 129]; [226; 128; 130]; [226; 128; 131]; [226; 128; 132];
   [226; 128; 133]; [226; 128; 134]; [226; 128; 135]; [226; 128; 136]; [226; 128; 137];
   [226; 128; 138]; [226; 128; 168]; [226; 128; 169]; [226; 128; 175]; [226; 129; 159];
   [227; 128; 128]].

Definition strip_one (sps : list string) (s : string) : option string :=
  match filter (λ p, HasPrefix s p = true) sps with
  | p :: _ =>
      Some (String.substring (String.length p) (String.length s - String.length p) s)
  | [] => None
  end.

Fixpoint strip (fuel : nat) (sps : list string) (s : string) : string :=
  match fuel with
  | O => s
  | S f => match strip_one sps s with Some s' => strip f sps s' | None => s end
  end.

(** [strings.TrimSpace]. *)
Definition TrimSpace (s : string) : string :=
  let l := strip (S (String.length s)) spaces s in
  String.rev (strip (S (String.length l)) (String.rev <$> spaces) (String.rev l)).

(** ** Runes *)

Definition RuneError : Z := 65533.

Definition cont (lo hi : Z) (b : Z) : bool := (lo <=? b) && (b <=? hi).

(** [utf8.DecodeRuneInString] on a non-empty string: the rune and its width. *)
Definition decode_rune (s : string) : Z * nat :=
  match s with
  | EmptyString => (RuneError, 0%nat)
  | String c0 r =>
      let b0 := byte_val c0 in
      let b i := match String.get i r with Some c => byte_val c | None => -1 end in
      let b1 := b 0%nat in let b2 := b 1%nat in let b3 := b 2%nat in
      if b0 <? 128 then (b0, 1%nat)
      else if cont 194 223 b0 then
        if cont 128 191 b1 then (Z.lor (Z.shiftl (Z.land b0 31) 6) (Z.land b1 63), 2%nat)
        else (RuneError, 1%nat)
      else if cont 224 239 b0 then
        let lo := if b0 =? 224 then 160 else 128 in
        let hi := if b0 =? 237 then 159 else 191 in
        if cont lo hi b1 && cont 128 191 b2 then
          (Z.lor (Z.lor (Z.shiftl (Z.land b0 15) 12) (Z.shiftl (Z.land b1 63) 6))
                 (Z.land b2 63), 3%nat)
        else (RuneError, 1%nat)
      else if cont 240 244 b0 then
        let lo := if b0 =? 240 then 144 else 128 in
        let hi := if b0 =? 244 then 143 else 191 in
        if cont lo hi b1 && cont 128 191 b2 && cont 128 191 b3 then
          (Z.lor (Z.lor (Z.shiftl (Z.land b0 7) 18) (Z.shiftl (Z.land b1 63) 12))
                 (Z.lor (Z.shiftl (Z.land b2 63) 6) (Z.land b3 63)), 4%nat)
        else (RuneError, 1%nat)
      else (RuneError, 1%nat)
  end.

Fixpoint drop_bytes (n : nat) (s : string) : string :=
  match n, s with
  | S n', String _ r => drop_bytes n' r
  | _, _ => s
  end.

(** [for i, c := range s]: the byte offset and the rune of each step.  A rune is at least one
    byte wide, so the length of the string is enough fuel. *)
Fixpoint range_runes (fuel : nat) (i : nat) (s : string) : list (nat * Z) :=
  match fuel, s with
  | S f, String _ _ =>
      let '(c, w) := decode_rune s in (i, c) :: range_runes f (i + w) (drop_bytes w s)
  | _, _ => []
  end.

Definition runes (s : string) : list (nat * Z) := range_runes (String.length s) 0 s.

(** ** Lemmas *)

#[local] Arguments String.append !_ _ /.

Lemma HasPrefix_spec s p : HasPrefix s p = true ↔ ∃ t, s = p +:+ t.
Proof.
  revert s. induction p as [|c p IH]; intros s; simpl.
  - split; [intros _; by exists s | done].
  - destruct s as [|d s]; simpl.
    { split; [by intros [=] | by intros [t ?]]. }
    rewrite andb_true_iff, Ascii.eqb_eq, IH. split.
    + intros [-> [t ->]]. by exists t.
    + intros [t [= -> ->]]. eauto.
Qed.

Lemma append_assoc (a b c : string) : (a +:+ b) +:+ c = a +:+ (b +:+ c).
Proof. induction a as [|x a IH]; simpl; [done | by rewrite IH]. Qed.

Lemma append_nil_r (a : string) : a +:+ "" = a.
Proof. induction a as [|x a IH]; simpl; [done | by rewrite IH]. Qed.

Lemma append_length (a b : string) :
  String.length (a +:+ b) = (String.length a + String.length b)%nat.
Proof. induction a as [|x a IH]; simpl; [done | by rewrite IH]. Qed.

#[export] Instance append_inj_r (a : string) : Inj (=) (=) (String.append a).
Proof. intros b c. induction a as [|x a IH]; simpl; [done|]. intros [= H]. auto. Qed.

Lemma append_inj_len (a a' b b' : string) :
  String.length b = String.length b' → a +:+ b = a' +:+ b' → a = a' ∧ b = b'.
Proof.
  intros Hl. revert a'. induction a as [|x a IH]; intros [|y a'] H; simpl in *.
  - done.
  - exfalso. apply (f_equal String.length) in H. simpl in H.
    rewrite append_length in H. lia.
  - exfalso. apply (f_equal String.length) in H. simpl in H.
    rewrite append_length in H. lia.
  - injection H as -> H. by destruct (IH a' H) as [-> ->].
Qed.

Lemma byte_val_range c : 0 <= byte_val c < 256.
Proof. unfold byte_val. pose proof (Ascii.nat_ascii_bounded c). lia. Qed.

Lemma decode_rune_ascii c r : byte_val c < 128 → decode_rune (String c r) = (byte_val c, 1%nat).
Proof. intros H. unfold decode_rune. by rewrite (proj2 (Z.ltb_lt _ _) H). Qed.

Lemma str_le_nil s : str_le "" s.
Proof. by destruct s. Qed.

Lemma str_le_cons a b s t :
  str_le (String a s) (String b t) ↔
  (N_of_ascii a < N_of_ascii b)%N ∨ (a = b ∧ str_le s t).
Proof.
  unfold str_le, String.leb. simpl. unfold Ascii.compare.
  destruct (N.compare_spec (N_of_ascii a) (N_of_ascii b)) as [E|E|E].
  - apply (f_equal ascii_of_N) in E. rewrite !ascii_N_embedding in E. subst b.
    split; [auto|]. intros [?|[_ ?]]; [lia|done].
  - naive_solver.
  - split; [done|]. intros [?|[-> _]]; lia.
Qed.

#[export] Instance str_le_total : Total str_le.
Proof. intros a b. apply String.leb_total. Qed.

#[export] Instance str_le_antisymm : AntiSymm (=) str_le.
Proof. intros a b. apply String.leb_antisym. Qed.

#[export] Instance str_le_trans : Transitive str_le.
Proof.
  intros x. induction x as [|a x IH]; intros y z; [intros; apply str_le_nil|].
  destruct y as [|b y]; [by intros H|]. destruct z as [|c z]; [by intros _ H|].
  rewrite !str_le_cons. intros [?|[-> ?]] [?|[-> ?]].
  - left. lia.
  - auto.
  - auto.
  - right. split; [done|]. by apply (IH y).
Qed.

Lemma append_inj_l (a b c : string) : a +:+ c = b +:+ c → a = b.
Proof. intros H. by apply append_inj_len in H as [-> _]. Qed.

(** ** Runes outside ASCII *)

Lemma lor_high a b : 128 <= a → 0 <= b → 128 <= Z.lor a b.
Proof.
  intros Ha Hb. change 128 with (2 ^ 7). apply Z.log2_le_pow2.
  - assert (Z.lor a b ≠ 0) by (rewrite Z.lor_eq_0_iff; lia). pose proof (proj2 (Z.lor_nonneg a b)). lia.
  - rewrite Z.log2_lor by lia. apply Z.max_le_iff. left. apply Z.log2_le_pow2; lia.
Qed.

Lemma land_low z n : 0 <= n → Z.land z (Z.ones n) = z mod 2 ^ n.
Proof. apply Z.land_ones. Qed.

(** The runes of two, three and four bytes. *)
Lemma rune2_high b0 b1 :
  194 <= b0 <= 223 → 128 <= Z.lor (Z.shiftl (Z.land b0 31) 6) (Z.land b1 63).
Proof.
  intros H. change 31 with (Z.ones 5). change 63 with (Z.ones 6). rewrite !land_low by lia.
  rewrite Z.shiftl_mul_pow2 by lia. apply lor_high.
  - replace (b0 mod 2 ^ 5) with (b0 - 192); [lia|].
    change (2 ^ 5) with 32. Z.to_euclidean_division_equations. lia.
  - apply Z.mod_pos_bound. lia.
Qed.

Lemma rune3_high b0 b1 b2 :
  224 <= b0 <= 239 → (b0 = 224 → 160 <= b1 <= 191) →
  128 <= Z.lor (Z.lor (Z.shiftl (Z.land b0 15) 12) (Z.shiftl (Z.land b1 63) 6)) (Z.land b2 63).
Proof.
  intros H H0. change 15 with (Z.ones 4). change 63 with (Z.ones 6). rewrite !land_low by lia.
  rewrite !Z.shiftl_mul_pow2 by lia.
  pose proof (Z.mod_pos_bound b0 (2 ^ 4)). pose proof (Z.mod_pos_bound b1 (2 ^ 6)).
  apply lor_high; [|apply Z.mod_pos_bound; lia].
  destruct (decide (b0 = 224)) as [->|Hne].
  - rewrite Z.lor_comm. apply lor_high; [|lia]. specialize (H0 eq_refl).
    replace (b1 mod 2 ^ 6) with (b1 - 128); [lia|].
    change (2 ^ 6) with 64. Z.to_euclidean_division_equations. lia.
  - apply lor_high; [|lia]. replace (b0 mod 2 ^ 4) with (b0 - 224); [lia|].
    change (2 ^ 4) with 16. Z.to_euclidean_division_equations. lia.
Qed.

Lemma rune4_high b0 b1 b2 b3 :
  240 <= b0 <= 244 → (b0 = 240 → 144 <= b1 <= 191) →
  128 <= Z.lor (Z.lor (Z.shiftl (Z.land b0 7) 18) (Z.shiftl (Z.land b1 63) 12))
           (Z.lor (Z.shiftl (Z.land b2 63) 6) (Z.land b3 63)).
Proof.
  intros H H0. change 7 with (Z.ones 3). change 63 with (Z.ones 6). rewrite !land_low by lia.
  rewrite !Z.shiftl_mul_pow2 by lia.
  pose proof (Z.mod_pos_bound b0 (2 ^ 3)). pose proof (Z.mod_pos_bound b1 (2 ^ 6)).
  pose proof (Z.mod_pos_bound b2 (2 ^ 6)). pose proof (Z.mod_pos_bound b3 (2 ^ 6)).
  apply lor_high; [|apply Z.lor_nonneg; lia].
  destruct (decide (b0 = 240)) as [->|Hne].
  - rewrite Z.lor_comm. apply lor_high; [|lia]. specialize (H0 eq_refl).
    replace (b1 mod 2 ^ 6) with (b1 - 128); [lia|].
    change (2 ^ 6) with 64. Z.to_euclidean_division_equations. lia.
  - apply lor_high; [|lia]. replace (b0 mod 2 ^ 3) with (b0 - 240); [lia|].
    change (2 ^ 3) with 8. Z.to_euclidean_division_equations. lia.
Qed.

Lemma cont_spec lo hi b : cont lo hi b = true ↔ lo <= b <= hi.
Proof. unfold cont. rewrite andb_true_iff, !Z.leb_le. done. Qed.

(** A byte outside ASCII never starts an ASCII rune. *)
Lemma decode_rune_not_ascii c r : 128 <= byte_val c → 128 <= (decode_rune (String c r)).1.
Proof.
  intros Hc. unfold decode_rune. rewrite (proj2 (Z.ltb_ge _ _) Hc).
  assert (Herr : 128 <= RuneError) by (by vm_compute).
  destruct (cont 194 223 (byte_val c)) eqn:H2.
  { apply cont_spec in H2. destruct (cont _ _ _); [by apply rune2_high|done]. }
  destruct (cont 224 239 (byte_val c)) eqn:H3.
  { apply cont_spec in H3. destruct (_ && _) eqn:Hb; [|done]. simpl. apply rune3_high; [done|].
    intros He. apply andb_true_iff in Hb as [Hb _]. apply cont_spec in Hb. rewrite He in Hb. done. }
  destruct (cont 240 244 (byte_val c)) eqn:H4; [|done].
  apply cont_spec in H4. destruct (_ && _) eqn:Hb; [|done]. simpl. apply rune4_high; [done|].
  intros He. apply andb_true_iff in Hb as [[Hb _]%andb_true_iff _]. apply cont_spec in Hb.
  rewrite He in Hb. done.
Qed.
