(* ===== verification/GoFloat.v ===== *)
(** * GoFloat: the double arithmetic the program uses

    [float64] as the IEEE 754 binary64 of the Standard Library's executable specification. *)

From Stdlib Require Export SpecFloat.
From S2P Require Import Prelude.

Definition float64_of_int (n : Z) : spec_float := binary_normalize 53 1024 n 0 false.

Definition float64_mul (a b : spec_float) : spec_float := SFmul 53 1024 a b.
Definition float64_div (a b : spec_float) : spec_float := SFdiv 53 1024 a b.

(** [int(f)] of a finite double in range: toward zero. *)
Definition int_of_float64 (f : spec_float) : Z :=
  match f with
  | S754_finite sign m e =>
      let v := if 0 <=? e then Z.pos m * 2 ^ e else Z.pos m / 2 ^ (- e) in
      if sign then - v else v
  | _ => 0
  end.

(** ** Rounding of integers *)

Definition maxSafeInteger : Z := 2 ^ 53 - 1.

Lemma digits2_bounds p : 2 ^ (Z.pos (digits2_pos p) - 1) <= Z.pos p < 2 ^ Z.pos (digits2_pos p).
Proof.
  induction p as [p IH|p IH|]; simpl digits2_pos; [| |done];
    rewrite Pos2Z.inj_succ; replace (Z.succ _ - 1) with (Z.pos (digits2_pos p)) by lia;
    rewrite Z.pow_succ_r by lia; split; try lia;
    replace (Z.pos (digits2_pos p)) with (Z.succ (Z.pos (digits2_pos p) - 1)) by lia;
    rewrite Z.pow_succ_r by lia; lia.
Qed.

Lemma digits2_small p : Z.pos p <= maxSafeInteger ↔ Z.pos (digits2_pos p) <= 53.
Proof.
  unfold maxSafeInteger. pose proof (digits2_bounds p) as [Hlo Hhi]. split; intros H.
  - destruct (Z.le_gt_cases (Z.pos (digits2_pos p)) 53) as [|Hgt]; [done|exfalso].
    pose proof (Z.pow_le_mono_r 2 53 (Z.pos (digits2_pos p) - 1) ltac:(lia) ltac:(lia)). lia.
  - pose proof (Z.pow_le_mono_r 2 (Z.pos (digits2_pos p)) 53 ltac:(lia) H). lia.
Qed.

(** Shifting a positive number right by less than its width leaves a positive number. *)
Lemma shr_1_half r : 0 <= shr_m r → shr_m (shr_1 r) = shr_m r / 2.
Proof.
  destruct r as [m rr ss]. simpl. intros Hm. destruct m as [|[p|p|]|p]; simpl; try done; try lia.
  - change (Z.pos p~1) with (2 * Z.pos p + 1). Z.to_euclidean_division_equations; lia.
  - change (Z.pos p~0) with (2 * Z.pos p). Z.to_euclidean_division_equations; lia.
Qed.

Lemma iter_shr p : ∀ r, 0 <= shr_m r →
  shr_m (SpecFloat.iter_pos shr_1 p r) = shr_m r / 2 ^ Z.pos p.
Proof.
  induction p as [p IH|p IH|]; intros r Hr; cbn [SpecFloat.iter_pos].
  - assert (H1 : shr_m (shr_1 r) = shr_m r / 2) by (by apply shr_1_half).
    assert (0 <= shr_m r / 2) by (apply Z.div_pos; lia).
    rewrite IH, IH, H1 by (rewrite ?IH, ?H1 by lia; try apply Z.div_pos; lia).
    rewrite !Z.div_div by lia. f_equal.
    replace (Z.pos p~1) with (Z.pos p + Z.pos p + 1) by lia. rewrite !Z.pow_add_r by lia. lia.
  - rewrite IH, IH by (rewrite ?IH by lia; try apply Z.div_pos; lia).
    rewrite Z.div_div by lia. f_equal.
    replace (Z.pos p~0) with (Z.pos p + Z.pos p) by lia. by rewrite Z.pow_add_r by lia.
  - by apply shr_1_half.
Qed.

(** Bringing a mantissa of an integer to 53 bits: exact when it has no more, and otherwise the
    exponent grows and the mantissa stays positive. *)
Lemma shr_fexp_big p e l mrs e' :
  0 <= e → shr_fexp 53 1024 (Z.pos p) e l = (mrs, e') →
  0 < shr_m mrs ∧ e <= e' ∧ (53 < Z.pos (digits2_pos p) → e < e').
Proof.
  intros He. unfold shr_fexp, fexp, emin. simpl Zdigits2.
  replace (Z.max (Z.pos (digits2_pos p) + e - 53) (3 - 1024 - 53) - e) with (Z.pos (digits2_pos p) - 53) by lia.
  assert (Hm : shr_m (shr_record_of_loc (Z.pos p) l) = Z.pos p) by (by destruct l as [|[]]).
  pose proof (digits2_bounds p) as [Hlo _].
  destruct (Z.pos (digits2_pos p) - 53) as [|k|k] eqn:Hk; intros [= <- <-]; rewrite ?Hm; [lia| |lia].
  rewrite iter_shr, Hm by (rewrite Hm; lia). split; [|lia].
  apply Z.div_str_pos. split; [lia|]. etrans; [apply (Z.pow_le_mono_r 2 (Z.pos k) (Z.pos (digits2_pos p) - 1)); lia|done].
Qed.

Lemma round_nearest_even_ge m l : m <= round_nearest_even m l <= m + 1.
Proof. unfold round_nearest_even. destruct l as [|[]]; try destruct (Z.even m); lia. Qed.

(** What an integer of more than 53 bits is rounded to is infinite or has a positive exponent. *)
Lemma binary_round_big sx p :
  53 < Z.pos (digits2_pos p) →
  binary_round 53 1024 sx p 0 = S754_infinity sx ∨
  ∃ m e, binary_round 53 1024 sx p 0 = S754_finite sx m e ∧ 0 < e.
Proof.
  intros Hd. unfold binary_round, shl_align, fexp, emin.
  replace (Z.max (Z.pos (digits2_pos p) + 0 - 53) (3 - 1024 - 53) - 0) with (Z.pos (digits2_pos p) - 53) by lia.
  destruct (Z.pos (digits2_pos p) - 53) as [|k|k] eqn:Hk; [lia| |lia].
  unfold binary_round_aux. destruct (shr_fexp 53 1024 (Z.pos p) 0 loc_Exact) as [mrs e1] eqn:E1.
  apply shr_fexp_big in E1 as (Hm1 & _ & He1); [|lia]. specialize (He1 Hd).
  pose proof (round_nearest_even_ge (shr_m mrs) (loc_of_shr_record mrs)) as Hr.
  destruct (round_nearest_even _ _) as [|q|q]; [lia| |lia].
  destruct (shr_fexp 53 1024 (Z.pos q) e1 loc_Exact) as [mrs2 e2] eqn:E2.
  apply shr_fexp_big in E2 as (Hm2 & He2 & _); [|lia].
  destruct (shr_m mrs2) as [|m|m]; [lia| |lia]. destruct (e2 <=? 1024 - 53); [|by left].
  right. exists m, e2. split; [done|lia].
Qed.

Lemma iter_xO p d : Z.pos (Pos.iter xO p d) = Z.pos p * 2 ^ Z.pos d.
Proof.
  induction d as [|d IH] using Pos.peano_ind; [by rewrite Z.mul_comm|].
  rewrite Pos.iter_succ, Pos2Z.inj_succ, Z.pow_succ_r by lia.
  change (Z.pos (xO (Pos.iter xO p d))) with (2 * Z.pos (Pos.iter xO p d)). rewrite IH. lia.
Qed.

Lemma digits2_iter p d : Z.pos (digits2_pos (Pos.iter xO p d)) = Z.pos (digits2_pos p) + Z.pos d.
Proof.
  induction d as [|d IH] using Pos.peano_ind; [simpl; lia|].
  rewrite Pos.iter_succ. simpl digits2_pos. lia.
Qed.

(** An integer of at most 53 bits is a double. *)
Lemma binary_round_small sx p :
  Z.pos (digits2_pos p) <= 53 →
  ∃ m e, binary_round 53 1024 sx p 0 = S754_finite sx m e ∧ e = Z.pos (digits2_pos p) - 53 ∧
    Z.pos m = Z.pos p * 2 ^ (- e).
Proof.
  intros Hd. unfold binary_round, shl_align.
  assert (Hf : fexp 53 1024 (Z.pos (digits2_pos p) + 0) = Z.pos (digits2_pos p) - 53) by (unfold fexp, emin; lia).
  rewrite Hf, Z.sub_0_r.
  assert (Hfit : ∀ q e, Z.pos (digits2_pos q) = 53 → -52 <= e <= 0 →
    binary_round_aux 53 1024 sx (Z.pos q) e loc_Exact = S754_finite sx q e).
  { intros q e Hq He. unfold binary_round_aux, shr_fexp, fexp, emin. simpl Zdigits2. rewrite Hq.
    replace (Z.max (53 + e - 53) (3 - 1024 - 53) - e) with 0 by lia. simpl. rewrite Hq.
    replace (Z.max (53 + e - 53) (3 - 1024 - 53) - e) with 0 by lia. simpl.
    by rewrite (proj2 (Z.leb_le e (1024 - 53))) by lia. }
  destruct (Z.pos (digits2_pos p) - 53) as [|k|k] eqn:Hk; [|lia|].
  - exists p, 0. rewrite Hfit by lia. split_and!; [done..|lia].
  - change (PosDef.Pos.iter xO p k) with (Pos.iter xO p k).
    exists (Pos.iter xO p k), (Z.neg k). rewrite Hfit by (rewrite ?digits2_iter; lia).
    split_and!; [done..|]. rewrite iter_xO. done.
Qed.

Lemma int_of_small sx p m e :
  e <= 0 → Z.pos m = Z.pos p * 2 ^ (- e) → int_of_float64 (S754_finite sx m e) = if sx then - Z.pos p else Z.pos p.
Proof.
  intros He Hm. unfold int_of_float64. rewrite Hm.
  assert (Hv : (if 0 <=? e then Z.pos p * 2 ^ (- e) * 2 ^ e else Z.pos p * 2 ^ (- e) / 2 ^ (- e)) = Z.pos p).
  { destruct (Z.leb_spec 0 e); [replace e with 0 by lia; simpl; lia|]. apply Z.div_mul, Z.pow_nonzero; lia. }
  by rewrite Hv.
Qed.

(** [math.Abs(float64(n)) > maxSafeInteger] decides the size of the integer itself, and an
    integer that passes is represented exactly. *)
Lemma safe_integer n :
  SFltb (float64_of_int maxSafeInteger) (SFabs (float64_of_int n)) = (maxSafeInteger <? Z.abs n) ∧
  (Z.abs n <= maxSafeInteger → int_of_float64 (float64_of_int n) = n).
Proof.
  change (float64_of_int maxSafeInteger) with (S754_finite false 9007199254740991 0).
  assert (Hpos : ∀ sx p,
    SFltb (S754_finite false 9007199254740991 0) (SFabs (binary_round 53 1024 sx p 0)) = (maxSafeInteger <? Z.pos p) ∧
    (Z.pos p <= maxSafeInteger → int_of_float64 (binary_round 53 1024 sx p 0) = if sx then - Z.pos p else Z.pos p)).
  { intros sx p. destruct (Z.le_gt_cases (Z.pos (digits2_pos p)) 53) as [Hd|Hd].
    - destruct (binary_round_small sx p Hd) as (m & e & -> & He & Hm).
      split; [|intros _; apply int_of_small; [lia|done]].
      apply digits2_small in Hd as Hle. rewrite (proj2 (Z.ltb_ge _ _)) by done. unfold SFltb, SFabs, SFcompare.
      destruct (Z.compare_spec 0 e) as [<-|?|?]; [|lia|done].
      change (Pos.compare_cont Eq 9007199254740991 m) with (Pos.compare 9007199254740991 m).
      destruct (Pos.compare_spec 9007199254740991 m); try done. unfold maxSafeInteger in Hle. simpl in *. lia.
    - assert (Hgt : maxSafeInteger < Z.pos p).
      { apply Z.lt_nge. intros Hle%digits2_small. lia. }
      rewrite (proj2 (Z.ltb_lt _ _)) by done. split; [|lia].
      destruct (binary_round_big sx p Hd) as [->|(m & e & -> & He)]; [done|].
      unfold SFltb, SFabs, SFcompare. destruct (Z.compare_spec 0 e); [lia|done|lia]. }
  destruct n as [|p|p]; [done|exact (Hpos false p)|].
  destruct (Hpos true p) as [H1 H2]. split; [exact H1|]. intros Hle. apply H2. exact Hle.
Qed.
