(* ===== verification/GoTime.v ===== *)
(** * GoTime: the parts of Go's [time] the program uses

    A [time.Time] is an instant, nanoseconds since the Unix epoch; the program only formats
    instants in UTC.  Dates are proleptic Gregorian.  [ParseRFC3339] is [time.Parse] with the
    layouts RFC3339 and RFC3339Nano, which read the same texts: the layout's fields in order, an
    hour of one or two digits, an optional fraction after a point or a comma, of which nine
    digits count, and a zone.  The fast path of [time.Parse] for these layouts accepts a subset
    with the same result. *)

From S2P Require Import Prelude GoString.

(** ** Dates *)

(** Days since the epoch of a date; [m] counts from 1. *)
Definition days_from_civil (y m d : Z) : Z :=
  let y' := if m <=? 2 then y - 1 else y in
  let era := y' / 400 in
  let yoe := y' mod 400 in
  let doy := (153 * ((m + 9) mod 12) + 2) / 5 + d - 1 in
  era * 146097 + (yoe * 365 + yoe / 4 - yoe / 100 + doy) - 719468.

(** The date of a day of an era of 400 years, which starts on a first of March. *)
Definition civil_of_doe (doe : Z) : Z * Z * Z :=
  let yoe := (doe - doe / 1460 + doe / 36524 - doe / 146096) / 365 in
  let doy := doe - (365 * yoe + yoe / 4 - yoe / 100) in
  let mp := (5 * doy + 2) / 153 in
  let d := doy - (153 * mp + 2) / 5 + 1 in
  let m := if mp <? 10 then mp + 3 else mp - 9 in
  (if m <=? 2 then yoe + 1 else yoe, m, d).

Definition civil_from_days (days : Z) : Z * Z * Z :=
  let z := days + 719468 in
  let '(y, m, d) := civil_of_doe (z mod 146097) in
  (y + z / 146097 * 400, m, d).

Definition is_leap (y : Z) : bool :=
  (y mod 4 =? 0) && (negb (y mod 100 =? 0) || (y mod 400 =? 0)).

Definition daysIn (m y : Z) : Z :=
  if (m =? 2) then (if is_leap y then 29 else 28)
  else if (m =? 4) || (m =? 6) || (m =? 9) || (m =? 11) then 30 else 31.

(** ** Instants *)

Definition day_seconds : Z := 86400.

Definition unix_sec (t : Z) : Z := t / Second.
Definition nanosecond (t : Z) : Z := t mod Second.
Definition date (t : Z) : Z * Z * Z := civil_from_days (unix_sec t / day_seconds).
Definition clock_of (t : Z) : Z * Z * Z :=
  let s := unix_sec t mod day_seconds in (s / 3600, s / 60 mod 60, s mod 60).

(** [time.Date] in UTC: months outside 1 to 12 and days outside the month overflow into the
    larger field. *)
Definition Date (y m d hour min sec nsec : Z) : Z :=
  let y' := y + (m - 1) / 12 in
  let m' := (m - 1) mod 12 + 1 in
  ((days_from_civil y' m' 1 + (d - 1)) * day_seconds + hour * 3600 + min * 60 + sec) * Second + nsec.

(** [t.AddDate(years, months, days)]. *)
Definition AddDate (years months days t : Z) : Z :=
  let '(y, m, d) := date t in
  let '(hour, min, sec) := clock_of t in
  Date (y + years) (m + months) (d + days) hour min sec (nanosecond t).

(** [t.Sub(u)] saturates. *)
Definition Sub (t u : Z) : Z := Z.max int64_min (Z.min int64_max (t - u)).

(** ** Text *)

(** The [k] low decimal digits of [n], most significant first. *)
Fixpoint fixed_digits (k : nat) (n : Z) : list Z :=
  match k with
  | O => []
  | S k' => fixed_digits k' (n / 10) ++ [n mod 10]
  end.

Definition digits_text (l : list Z) : string := bytes_of_codes ((λ d, 48 + d) <$> l).

(** The digits without the zeros they end with. *)
Fixpoint trim_zeros (l : list Z) : list Z :=
  match l with
  | [] => []
  | d :: r =>
      match trim_zeros r with
      | [] => if d =? 0 then [] else [d]
      | r' => d :: r'
      end
  end.

(** [appendInt(n, 4)] and [appendInt(n, 2)] of the formatter. *)
Definition year_text (y : Z) : string :=
  if y <? 0 then "-" +:+ (if Z.abs y <? 10000 then digits_text (fixed_digits 4 (Z.abs y)) else Itoa (Z.abs y))
  else if y <? 10000 then digits_text (fixed_digits 4 y) else Itoa y.
Definition two_text (n : Z) : string := digits_text (fixed_digits 2 n).

(** The fraction of layout [.999999999]. *)
Definition fraction_text (nsec : Z) : string :=
  match trim_zeros (fixed_digits 9 nsec) with
  | [] => ""
  | l => "." +:+ digits_text l
  end.

Definition seconds_text (t : Z) : string :=
  let '(y, m, d) := date t in
  let '(hour, min, sec) := clock_of t in
  year_text y +:+ "-" +:+ two_text m +:+ "-" +:+ two_text d +:+ "T" +:+
  two_text hour +:+ ":" +:+ two_text min +:+ ":" +:+ two_text sec.

(** [t.UTC().Format(time.RFC3339)], [time.RFC3339Nano], [20060102] and [200601]. *)
Definition FormatRFC3339 (t : Z) : string := seconds_text t +:+ "Z".
Definition FormatRFC3339Nano (t : Z) : string :=
  seconds_text t +:+ fraction_text (nanosecond t) +:+ "Z".
Definition FormatDay (t : Z) : string :=
  let '(y, m, d) := date t in year_text y +:+ two_text m +:+ two_text d.
Definition FormatMonth (t : Z) : string :=
  let '(y, m, d) := date t in year_text y +:+ two_text m.

(** ** Reading *)

(** A reader takes what it needs from the front of the text. *)
Definition reader (A : Type) : Type := string → option (A * string).

(** Exactly [k] digits. *)
Fixpoint read_digits (k : nat) (acc : Z) : reader Z := λ s,
  match k with
  | O => Some (acc, s)
  | S k' => match s with
            | String c r => match digit_of c with Some d => read_digits k' (10 * acc + d) r | None => None end
            | EmptyString => None
            end
  end.

(** [getnum(s, fixed)]. *)
Definition getnum (fixed : bool) : reader Z := λ s,
  match read_digits 2 0 s with
  | Some r => Some r
  | None => if fixed then None else read_digits 1 0 s
  end.

Definition read_char (c : Ascii.ascii) : reader unit := λ s,
  match s with
  | String d r => if Ascii.eqb c d then Some (tt, r) else None
  | EmptyString => None
  end.

(** All leading digits. *)
Fixpoint leading_digits (s : string) : list Z * string :=
  match s with
  | String c r =>
      match digit_of c with
      | Some d => let '(l, rest) := leading_digits r in (d :: l, rest)
      | None => ([], s)
      end
  | EmptyString => ([], EmptyString)
  end.

Definition decimal_value (l : list Z) : Z := fold_left (λ acc d, 10 * acc + d) l 0.

(** [parseNanoseconds]: nine digits count. *)
Definition nanoseconds (l : list Z) : Z :=
  let l := take 9 l in decimal_value l * 10 ^ (9 - Z.of_nat (length l)).

(** An optional fraction; a point without a digit is left for what follows. *)
Definition read_fraction (s : string) : Z * string :=
  match s with
  | String c r =>
      if (byte_val c =? 46) || (byte_val c =? 44) then
        match leading_digits r with
        | ([], _) => (0, s)
        | (l, rest) => (nanoseconds l, rest)
        end
      else (0, s)
  | EmptyString => (0, s)
  end.

(** The zone: its offset in seconds east of UTC. *)
Definition read_zone : reader Z := λ s,
  match s with
  | EmptyString => None
  | String c r =>
      if byte_val c =? 90 then Some (0, r)
      else
        match read_digits 2 0 r with
        | None => None
        | Some (hr, r) =>
            match read_char ":" r with
            | None => None
            | Some (_, r) =>
                match read_digits 2 0 r with
                | None => None
                | Some (mm, r) =>
                    if (24 <? hr) || (60 <? mm) then None
                    else if byte_val c =? 43 then Some ((hr * 60 + mm) * 60, r)
                    else if byte_val c =? 45 then Some (- ((hr * 60 + mm) * 60), r)
                    else None
                end
            end
        end
  end.

Definition in_range (lo hi n : Z) : bool := (lo <=? n) && (n <=? hi).

Definition ParseRFC3339 (s : string) : option Z :=
  '(year, s) ← read_digits 4 0 s;
  '(_, s) ← read_char "-" s;
  '(month, s) ← getnum true s;
  '(_, s) ← read_char "-" s;
  '(day, s) ← getnum true s;
  '(_, s) ← read_char "T" s;
  '(hour, s) ← getnum false s;
  '(_, s) ← read_char ":" s;
  '(min, s) ← getnum true s;
  '(_, s) ← read_char ":" s;
  '(sec, s) ← getnum true s;
  let '(nsec, s) := read_fraction s in
  '(offset, s) ← read_zone s;
  if in_range 1 12 month && in_range 0 23 hour && in_range 0 59 min && in_range 0 59 sec &&
     in_range 1 (daysIn month year) day && String.eqb s ""
  then Some (Date year month day hour min sec nsec - offset * Second)
  else None.

(** ** Durations *)

(** [d.Round(m)] for a positive [m]. *)
Definition Round (m d : Z) : Z :=
  let r := Z.rem d m in
  if d <? 0 then
    let r := - r in
    if r + r <? m then d + r else if int64_min <=? d - m + r then d - m + r else int64_min
  else
    if r + r <? m then d - r else if d + m - r <=? int64_max then d + m - r else int64_max.

(** [fmtFrac]: the fraction of [v] over [10 ^ prec], without trailing zeros. *)
Definition frac_text (prec : nat) (v : Z) : string :=
  match trim_zeros (fixed_digits prec v) with
  | [] => ""
  | l => "." +:+ digits_text l
  end.

(** [d.String()]. *)
Definition Duration_String (d : Z) : string :=
  let u := Z.abs d in
  let sign := if d <? 0 then "-" else "" in
  if u =? 0 then "0s"
  else if u <? Microsecond then sign +:+ Itoa u +:+ "ns"
  else if u <? Millisecond then
    sign +:+ Itoa (u / Microsecond) +:+ frac_text 3 u +:+ bytes_of_codes [194; 181; 115]
  else if u <? Second then sign +:+ Itoa (u / Millisecond) +:+ frac_text 6 u +:+ "ms"
  else
    let s := u / Second in
    let m := s / 60 in
    let h := m / 60 in
    sign +:+ (if 0 <? h then Itoa h +:+ "h" else "") +:+
    (if 0 <? m then Itoa (m mod 60) +:+ "m" else "") +:+
    Itoa (s mod 60) +:+ frac_text 9 u +:+ "s".

Example time_examples :
  FormatRFC3339Nano 1700000000123450000 = "2023-11-14T22:13:20.12345Z" ∧
  ParseRFC3339 "2023-11-14T22:13:20.12345Z" = Some 1700000000123450000 ∧
  ParseRFC3339 "2023-11-14T23:13:20,5+01:00" = Some 1700000000500000000 ∧
  ParseRFC3339 "2023-02-29T00:00:00Z" = None ∧ ParseRFC3339 "2024-02-29T0:00:00Z" = Some 1709164800000000000 ∧
  FormatDay 0 = "19700101" ∧ AddDate 0 1 0 (Date 2024 1 31 0 0 0 0) = Date 2024 3 2 0 0 0 0 ∧
  Duration_String (168 * Hour) = "168h0m0s" ∧ Duration_String 1500000000 = "1.5s".
Proof. by vm_compute. Qed.

(** ** Dates and days *)

Lemma in_range_spec lo hi n : in_range lo hi n = true ↔ lo <= n <= hi.
Proof. unfold in_range. rewrite andb_true_iff, !Z.leb_le. done. Qed.

(** The day of the era on which year [y] of the era starts, and the day after its last. *)
Definition year_start (y : Z) : Z := 365 * y + y / 4 - y / 100.
Definition year_end (y : Z) : Z := if y =? 399 then 146097 else year_start (y + 1).

(** The year of the era, times 365 and up to a remainder. *)
Definition year_weight (doe : Z) : Z := doe - doe / 1460 + doe / 36524 - doe / 146096.

Definition year_ok (y : Z) : bool :=
  (year_weight (year_start y) / 365 =? y) && (year_weight (year_end y - 1) / 365 =? y) &&
  (if is_leap (y + 1) then year_end y - year_start y =? 366 else year_end y - year_start y =? 365).

Definition month_of_doy (doy : Z) : Z * Z :=
  let mp := (5 * doy + 2) / 153 in
  (if mp <? 10 then mp + 3 else mp - 9, doy - (153 * mp + 2) / 5 + 1).

Definition doy_ok (doy : Z) : bool :=
  let '(m, d) := month_of_doy doy in
  in_range 1 12 m && ((153 * ((m + 9) mod 12) + 2) / 5 + d - 1 =? doy) &&
  (if doy =? 365 then (m =? 2) && (d =? 29) else in_range 1 (daysIn m 1) d).

Lemma years_ok : forallb year_ok (seqZ 0 400) = true.
Proof. by vm_compute. Qed.

Lemma doys_ok : forallb doy_ok (seqZ 0 366) = true.
Proof. by vm_compute. Qed.

Lemma checked (f : Z → bool) n x : forallb f (seqZ 0 n) = true → 0 <= x < n → f x = true.
Proof. rewrite forallb_forall. intros H Hx. apply H, list_elem_of_In, elem_of_seqZ. lia. Qed.

Lemma year_weight_mono a b : 0 <= a <= b → b < 146097 → year_weight a <= year_weight b.
Proof. unfold year_weight. intros. Z.to_euclidean_division_equations. lia. Qed.

(** Every day of the era is in one of its years. *)
Lemma year_of_doe doe : 0 <= doe < 146097 → ∃ y, 0 <= y < 400 ∧ year_start y <= doe < year_end y.
Proof.
  intros Hd. assert (Hn : ∀ n : nat, (n <= 399)%nat → doe < year_end (Z.of_nat n) →
    ∃ y, 0 <= y < 400 ∧ year_start y <= doe < year_end y).
  { induction n as [|n IH]; intros Hn He.
    - exists 0. split; [lia|]. split; [apply Hd|exact He].
    - destruct (decide (year_start (Z.of_nat (S n)) <= doe)) as [Hle|Hgt].
      + exists (Z.of_nat (S n)). lia.
      + apply IH; [lia|]. unfold year_end. rewrite (proj2 (Z.eqb_neq _ _)) by lia.
        replace (Z.of_nat n + 1) with (Z.of_nat (S n)) by lia. lia. }
  apply (Hn 399%nat); [lia|]. change (year_end (Z.of_nat 399)) with 146097. lia.
Qed.

Lemma civil_of_doe_spec doe y m d :
  0 <= doe < 146097 → civil_of_doe doe = (y, m, d) →
  1 <= m <= 12 ∧ 1 <= d <= daysIn m y ∧ days_from_civil y m d = doe - 719468.
Proof.
  intros Hd. destruct (year_of_doe doe Hd) as (yoe & Hy & Hs & He).
  pose proof (checked _ _ yoe years_ok Hy) as Hok. unfold year_ok in Hok.
  apply andb_true_iff in Hok as [[H1%Z.eqb_eq H2%Z.eqb_eq]%andb_true_iff Hlen].
  assert (Hend : year_end yoe <= 146097).
  { unfold year_end, year_start. destruct (Z.eqb_spec yoe 399); [lia|]. Z.to_euclidean_division_equations. lia. }
  assert (Hstart : 0 <= year_start yoe) by (unfold year_start; Z.to_euclidean_division_equations; lia).
  assert (Hyoe : year_weight doe / 365 = yoe).
  { pose proof (year_weight_mono (year_start yoe) doe ltac:(lia) ltac:(lia)) as M1.
    pose proof (year_weight_mono doe (year_end yoe - 1) ltac:(lia) ltac:(lia)) as M2.
    apply (Z.div_le_mono _ _ 365) in M1, M2; lia. }
  unfold civil_of_doe. change ((doe - doe / 1460 + doe / 36524 - doe / 146096)) with (year_weight doe).
  rewrite Hyoe. change (365 * yoe + yoe / 4 - yoe / 100) with (year_start yoe).
  set (doy := doe - year_start yoe).
  assert (Hdoy : 0 <= doy < 366) by (unfold doy; destruct (is_leap (yoe + 1)); apply Z.eqb_eq in Hlen; lia).
  pose proof (checked _ _ doy doys_ok Hdoy) as Hm. unfold doy_ok, month_of_doy in Hm.
  set (m0 := if (5 * doy + 2) / 153 <? 10 then _ else _) in *.
  set (d0 := doy - _ + 1) in *. intros [= <- <- <-].
  apply andb_true_iff in Hm as [[Hm%in_range_spec He2%Z.eqb_eq]%andb_true_iff Hday].
  set (y0 := if m0 <=? 2 then yoe + 1 else yoe).
  assert (Hfrom : days_from_civil y0 m0 d0 = doe - 719468).
  { unfold days_from_civil, y0. rewrite He2.
    replace (if m0 <=? 2 then (if m0 <=? 2 then yoe + 1 else yoe) - 1 else (if m0 <=? 2 then yoe + 1 else yoe))
      with yoe by (destruct (m0 <=? 2); lia).
    rewrite Z.div_small, Z.mod_small by lia. unfold doy, year_start. lia. }
  split; [lia|]. split; [|done]. destruct (Z.eqb_spec doy 365) as [E|E].
  - apply andb_true_iff in Hday as [Em%Z.eqb_eq Ed%Z.eqb_eq]. unfold y0. rewrite Em, Ed. simpl.
    destruct (is_leap (yoe + 1)) eqn:El; [unfold daysIn; rewrite El; simpl; lia|].
    apply Z.eqb_eq in Hlen. unfold doy in E. lia.
  - apply in_range_spec in Hday. split; [lia|]. etransitivity; [apply Hday|].
    unfold daysIn. destruct (m0 =? 2); [|done]. change (is_leap 1) with false. destruct (is_leap y0); lia.
Qed.

Lemma days_from_civil_era y m d k :
  days_from_civil (y + k * 400) m d = days_from_civil y m d + k * 146097.
Proof.
  unfold days_from_civil.
  assert (Hy : (if m <=? 2 then y + k * 400 - 1 else y + k * 400) = (if m <=? 2 then y - 1 else y) + k * 400)
    by (destruct (m <=? 2); lia).
  rewrite Hy, Z.div_add, Z_mod_plus_full by lia. lia.
Qed.

Lemma is_leap_era y k : is_leap (y + k * 400) = is_leap y.
Proof.
  unfold is_leap. replace (k * 400) with (k * 4 * 100) at 2 by lia.
  replace (k * 400) with (k * 100 * 4) at 1 by lia. by rewrite !Z_mod_plus_full.
Qed.

Lemma daysIn_era m y k : daysIn m (y + k * 400) = daysIn m y.
Proof. unfold daysIn. by rewrite is_leap_era. Qed.


Lemma civil_from_days_spec days y m d :
  civil_from_days days = (y, m, d) →
  1 <= m <= 12 ∧ 1 <= d <= daysIn m y ∧ days_from_civil y m d = days.
Proof.
  unfold civil_from_days. set (z := days + 719468).
  assert (Hb : 0 <= z mod 146097 < 146097) by (apply Z.mod_pos_bound; lia).
  destruct (civil_of_doe (z mod 146097)) as [[y0 m0] d0] eqn:E.
  apply civil_of_doe_spec in E as (Hm & Hd & He); [|done]. intros [= <- <- <-].
  rewrite daysIn_era, days_from_civil_era, He. split_and!; try lia.
  pose proof (Z.div_mod z 146097). lia.
Qed.

(** ** Digits *)

#[local] Arguments String.append !_ _ /.

Definition is_digits (l : list Z) : Prop := Forall (λ d, 0 <= d <= 9) l.

Lemma byte_of_val z : 0 <= z < 256 → byte_val (byte_of z) = z.
Proof. intros H. unfold byte_val, byte_of. rewrite nat_ascii_embedding by lia. lia. Qed.

Lemma digit_of_text d : 0 <= d <= 9 → digit_of (byte_of (48 + d)) = Some d.
Proof.
  intros H. unfold digit_of. rewrite byte_of_val by lia. replace (48 + d - 48) with d by lia.
  by rewrite (proj2 (Z.leb_le _ _)), (proj2 (Z.leb_le _ _)) by lia.
Qed.

Lemma read_digits_text l acc rest :
  is_digits l →
  read_digits (length l) acc (digits_text l +:+ rest) = Some (fold_left (λ a d, 10 * a + d) l acc, rest).
Proof.
  intros Hl. revert acc. induction Hl as [|d l Hd _ IH]; intros acc; [done|]. simpl.
  rewrite digit_of_text by done. apply IH.
Qed.

Lemma leading_digits_text l rest :
  is_digits l → (∀ c r, rest = String c r → digit_of c = None) →
  leading_digits (digits_text l +:+ rest) = (l, rest).
Proof.
  intros Hl Hrest. induction Hl as [|d l Hd _ IH]; simpl.
  - destruct rest as [|c r]; [done|]. simpl. by rewrite (Hrest c r eq_refl).
  - rewrite digit_of_text by done. change (bytes_of_codes (list_fmap Z Z (λ d, 48 + d) l)) with (digits_text l).
    by rewrite IH.
Qed.

Lemma fixed_digits_ok k n : is_digits (fixed_digits k n).
Proof.
  revert n. induction k as [|k IH]; intros n; simpl; [by apply Forall_nil|].
  apply Forall_app. split; [apply IH|]. apply Forall_singleton. pose proof (Z.mod_pos_bound n 10). lia.
Qed.

Lemma fixed_digits_length k n : length (fixed_digits k n) = k.
Proof. revert n. induction k as [|k IH]; intros n; simpl; [done|]. rewrite length_app, IH. simpl. lia. Qed.

Lemma fixed_decimal_value k n : 0 <= n → decimal_value (fixed_digits k n) = n mod 10 ^ Z.of_nat k.
Proof.
  unfold decimal_value. revert n. induction k as [|k IH]; intros n Hn.
  - simpl. by rewrite Z.mod_1_r.
  - simpl fixed_digits. rewrite fold_left_app, IH by (apply Z.div_pos; lia). simpl fold_left.
    rewrite Nat2Z.inj_succ, Z.pow_succ_r by lia. rewrite Z.rem_mul_r by lia. lia.
Qed.

Lemma decimal_value_zeros l j : decimal_value (l ++ replicate j 0) = decimal_value l * 10 ^ Z.of_nat j.
Proof.
  unfold decimal_value. rewrite fold_left_app. generalize (fold_left (λ a d, 10 * a + d) l 0). intros z.
  revert z. induction j as [|j IH]; intros z; simpl; [lia|]. rewrite IH.
  change (Z.pos (Pos.of_succ_nat j)) with (Z.of_nat (S j)). rewrite Nat2Z.inj_succ, Z.pow_succ_r by lia. lia.
Qed.

Lemma trim_zeros_spec l : ∃ j, l = trim_zeros l ++ replicate j 0.
Proof.
  induction l as [|d l [j IH]]; [by exists 0%nat|]. simpl. destruct (trim_zeros l) as [|x r].
  - destruct (Z.eqb_spec d 0) as [->|_]; simpl in *; [exists (S j)|exists j]; simpl; by rewrite <- IH.
  - exists j. simpl in *. by rewrite <- IH.
Qed.

Lemma two_text_read n rest : 0 <= n < 100 → read_digits 2 0 (two_text n +:+ rest) = Some (n, rest).
Proof.
  intros Hn. pose proof (read_digits_text (fixed_digits 2 n) 0 rest (fixed_digits_ok 2 n)) as H.
  rewrite fixed_digits_length in H. unfold two_text. rewrite H.
  change (fold_left (λ a d, 10 * a + d) (fixed_digits 2 n) 0) with (decimal_value (fixed_digits 2 n)).
  rewrite fixed_decimal_value by lia. by rewrite Z.mod_small by lia.
Qed.

Lemma year_text_read y rest : 0 <= y < 10000 → read_digits 4 0 (year_text y +:+ rest) = Some (y, rest).
Proof.
  intros Hy. unfold year_text. rewrite (proj2 (Z.ltb_ge _ _)), (proj2 (Z.ltb_lt _ _)) by lia.
  pose proof (read_digits_text (fixed_digits 4 y) 0 rest (fixed_digits_ok 4 y)) as H.
  rewrite fixed_digits_length in H. rewrite H.
  change (fold_left (λ a d, 10 * a + d) (fixed_digits 4 y) 0) with (decimal_value (fixed_digits 4 y)).
  rewrite fixed_decimal_value by lia. by rewrite Z.mod_small by lia.
Qed.

(** ** Instants and their parts *)

Lemma days_from_civil_first y m d : days_from_civil y m 1 + (d - 1) = days_from_civil y m d.
Proof. unfold days_from_civil. lia. Qed.

Lemma Date_valid y m d hour min sec nsec :
  1 <= m <= 12 →
  Date y m d hour min sec nsec =
  (days_from_civil y m d * day_seconds + hour * 3600 + min * 60 + sec) * Second + nsec.
Proof.
  intros Hm. unfold Date. rewrite Z.div_small, Z.mod_small, Z.add_0_r by lia.
  replace (m - 1 + 1) with m by lia. by rewrite days_from_civil_first.
Qed.

Lemma instant_parts t y m d hour min sec :
  date t = (y, m, d) → clock_of t = (hour, min, sec) →
  1 <= m <= 12 ∧ 1 <= d <= daysIn m y ∧ 0 <= hour <= 23 ∧ 0 <= min <= 59 ∧ 0 <= sec <= 59 ∧
  0 <= nanosecond t < Second ∧ Date y m d hour min sec (nanosecond t) = t.
Proof.
  unfold date, clock_of. intros (Hm & Hd & He)%civil_from_days_spec [= <- <- <-].
  rewrite Date_valid, He by done. unfold unix_sec, nanosecond, day_seconds, Second.
  split_and!; try done; Z.to_euclidean_division_equations; lia.
Qed.

(** ** Formatting and parsing back *)

Lemma read_char_text c rest : read_char c (String c "" +:+ rest) = Some (tt, rest).
Proof. simpl. by rewrite Ascii.eqb_refl. Qed.

Lemma getnum_text fixed n rest : 0 <= n < 100 → getnum fixed (two_text n +:+ rest) = Some (n, rest).
Proof. intros Hn. unfold getnum. by rewrite two_text_read. Qed.

Lemma read_fraction_text nsec :
  0 <= nsec < Second → read_fraction (fraction_text nsec +:+ "Z") = (nsec, "Z").
Proof.
  intros Hn. unfold fraction_text. destruct (trim_zeros_spec (fixed_digits 9 nsec)) as [j Hj].
  assert (Hval : decimal_value (fixed_digits 9 nsec) = nsec).
  { rewrite fixed_decimal_value by lia. apply Z.mod_small. exact Hn. }
  pose proof (fixed_digits_length 9 nsec) as Hlen. pose proof (fixed_digits_ok 9 nsec) as Hok.
  set (l := trim_zeros (fixed_digits 9 nsec)) in *. rewrite Hj in Hlen, Hok, Hval.
  rewrite length_app, length_replicate in Hlen. apply Forall_app in Hok as [Hok _].
  rewrite decimal_value_zeros in Hval. clearbody l. clear Hj.
  destruct l as [|x l].
  { unfold decimal_value in Hval. simpl in Hval. by rewrite <- Hval. }
  change (("." +:+ digits_text (x :: l)) +:+ "Z") with (String "." (digits_text (x :: l) +:+ "Z")).
  cbn [read_fraction]. change ((byte_val "." =? 46) || (byte_val "." =? 44)) with true. cbv iota.
  rewrite leading_digits_text; [|done|by intros c r [= <- <-]].
  f_equal. rewrite <- Hval. unfold nanoseconds. rewrite take_ge by (simpl in *; lia).
  f_equal. f_equal. simpl length in *. lia.
Qed.

(** The next field of the text. *)
Ltac read_step :=
  first [rewrite year_text_read by lia | rewrite getnum_text by lia | rewrite read_char_text];
  cbn [mbind option_bind].

Lemma parse_format t y m d :
  date t = (y, m, d) → 0 <= y < 10000 → ParseRFC3339 (FormatRFC3339Nano t) = Some t.
Proof.
  intros Hdate Hy. destruct (clock_of t) as [[hour min] sec] eqn:Hclock.
  destruct (instant_parts t _ _ _ _ _ _ Hdate Hclock) as (Hm & Hd & Hh & Hmi & Hs & Hn & Ht).
  assert (Hday : daysIn m y <= 31) by (unfold daysIn; repeat case_match; lia).
  unfold FormatRFC3339Nano, seconds_text. rewrite Hdate, Hclock. unfold ParseRFC3339.
  rewrite !append_assoc.
  do 11 read_step.
  rewrite read_fraction_text by done. change (read_zone "Z") with (Some (0, "")). cbn [mbind option_bind].
  rewrite !(proj2 (in_range_spec _ _ _)) by lia. simpl. rewrite Ht. f_equal. lia.
Qed.

(** ** Calendar steps *)

Lemma AddDate_days n t : AddDate 0 0 n t = t + n * day_seconds * Second.
Proof.
  unfold AddDate. destruct (date t) as [[y m] d] eqn:Hd. destruct (clock_of t) as [[hour min] sec] eqn:Hc.
  destruct (instant_parts t _ _ _ _ _ _ Hd Hc) as (Hm & _ & _ & _ & _ & _ & Ht). rewrite <- Ht at 2.
  rewrite !Z.add_0_r, !Date_valid, <- (days_from_civil_first y m d), <- (days_from_civil_first y m (d + n)) by done.
  lia.
Qed.

(** A month has at least 28 days. *)
Lemma next_month y m :
  1 <= m <= 12 →
  days_from_civil y m 1 + 28 <= days_from_civil (y + m / 12) (m mod 12 + 1) 1.
Proof.
  intros Hm.
  assert (m = 1 ∨ m = 2 ∨ m = 3 ∨ m = 4 ∨ m = 5 ∨ m = 6 ∨ m = 7 ∨ m = 8 ∨ m = 9 ∨ m = 10 ∨ m = 11 ∨ m = 12) as Hcase by lia.
  unfold days_from_civil.
  repeat (destruct Hcase as [->|Hcase]); try subst m; simpl; rewrite ?Z.add_0_r;
    try (replace (y + 1 - 1) with y by lia); Z.to_euclidean_division_equations; lia.
Qed.

Lemma AddDate_month_later t : t + 28 * day_seconds * Second <= AddDate 0 1 0 t.
Proof.
  unfold AddDate. destruct (date t) as [[y m] d] eqn:Hd. destruct (clock_of t) as [[hour min] sec] eqn:Hc.
  destruct (instant_parts t _ _ _ _ _ _ Hd Hc) as (Hm & _ & _ & _ & _ & _ & Ht). rewrite <- Ht at 1.
  rewrite Date_valid by done. unfold Date. rewrite !Z.add_0_r. replace (m + 1 - 1) with m by lia.
  pose proof (next_month y m Hm). rewrite <- (days_from_civil_first y m d).
  unfold day_seconds, Second. lia.
Qed.

(** ** Months and days of the calendar *)

(** The months since the year 0. *)
Definition month_index (t : Z) : Z := let '(y, m, _) := date t in 12 * y + (m - 1).

(** The first day of a month counted from the year 0. *)
Definition month_start (k : Z) : Z := days_from_civil (k / 12) (k mod 12 + 1) 1.

Lemma month_start_parts y m : 1 <= m <= 12 → month_start (12 * y + (m - 1)) = days_from_civil y m 1.
Proof.
  intros Hm. unfold month_start.
  replace ((12 * y + (m - 1)) / 12) with y by (Z.to_euclidean_division_equations; lia).
  f_equal. Z.to_euclidean_division_equations; lia.
Qed.

Lemma month_start_step k : month_start k + 28 <= month_start (k + 1).
Proof.
  pose proof (next_month (k / 12) (k mod 12 + 1)) as Hn.
  pose proof (Z.mod_pos_bound k 12 ltac:(lia)). unfold month_start at 1.
  etrans; [apply Hn; lia|]. apply Z.eq_le_incl. unfold month_start.
  f_equal; Z.to_euclidean_division_equations; lia.
Qed.

Lemma month_start_mono j k : j <= k → month_start j <= month_start k.
Proof.
  intros Hjk. replace k with (j + Z.of_nat (Z.to_nat (k - j))) by lia. generalize (Z.to_nat (k - j)) as n.
  induction n as [|n IH]; [by rewrite Z.add_0_r|].
  replace (j + Z.of_nat (S n)) with (j + Z.of_nat n + 1) by lia.
  pose proof (month_start_step (j + Z.of_nat n)). lia.
Qed.

(** The last day of a month is the one before the first of the next. *)
Lemma month_end y m :
  1 <= m <= 12 → days_from_civil y m (daysIn m y) + 1 = month_start (12 * y + (m - 1) + 1).
Proof.
  intros Hm.
  assert (m = 1 ∨ m = 2 ∨ m = 3 ∨ m = 4 ∨ m = 5 ∨ m = 6 ∨ m = 7 ∨ m = 8 ∨ m = 9 ∨ m = 10 ∨ m = 11 ∨ m = 12) as Hcase by lia.
  destruct (decide (m = 12)) as [->|Hne].
  - replace (12 * y + (12 - 1) + 1) with (12 * (y + 1) + (1 - 1)) by lia.
    rewrite month_start_parts by lia. unfold days_from_civil, daysIn. simpl.
    replace (y + 1 - 1) with y by lia. Z.to_euclidean_division_equations; lia.
  - replace (12 * y + (m - 1) + 1) with (12 * y + (m + 1 - 1)) by lia.
    rewrite month_start_parts by lia. unfold days_from_civil, daysIn, is_leap.
    repeat (destruct Hcase as [->|Hcase]); try lia; simpl; repeat case_match;
      Z.to_euclidean_division_equations; lia.
Qed.

Lemma month_of_day t : month_start (month_index t) <= unix_sec t / day_seconds < month_start (month_index t + 1).
Proof.
  unfold month_index. destruct (date t) as [[y m] d] eqn:Hd.
  apply civil_from_days_spec in Hd as (Hm & Hday & <-).
  rewrite <- month_end, month_start_parts, <- !(days_from_civil_first y m d) by done.
  rewrite <- (days_from_civil_first y m (daysIn m y)). lia.
Qed.

(** Adding a month leads into a later one. *)
Lemma AddDate_month_index t : month_index t < month_index (AddDate 0 1 0 t).
Proof.
  pose proof (month_of_day (AddDate 0 1 0 t)) as [_ Hlt].
  destruct (Z.lt_ge_cases (month_index t) (month_index (AddDate 0 1 0 t))) as [|Hge]; [done|exfalso].
  pose proof (month_start_mono _ _ (Zplus_le_compat_r _ _ 1 Hge)) as Hmono.
  enough (month_start (month_index t + 1) <= unix_sec (AddDate 0 1 0 t) / day_seconds) by lia.
  unfold AddDate, month_index. destruct (date t) as [[y m] d] eqn:Hd. destruct (clock_of t) as [[hour min] sec] eqn:Hc.
  destruct (instant_parts t _ _ _ _ _ _ Hd Hc) as (Hm & Hday & Hh & Hmi & Hs & Hn & _).
  unfold Date. replace (m + 1 - 1) with m by lia. rewrite !Z.add_0_r. unfold month_start.
  replace ((12 * y + (m - 1) + 1) / 12) with (y + m / 12) by (Z.to_euclidean_division_equations; lia).
  replace ((12 * y + (m - 1) + 1) mod 12) with (m mod 12) by (Z.to_euclidean_division_equations; lia).
  unfold unix_sec. generalize (days_from_civil (y + m / 12) (m mod 12 + 1) 1) as f. intros f.
  unfold day_seconds, Second in *. Z.to_euclidean_division_equations; lia.
Qed.

(** The years that four digits print, from 0 on. *)
Definition printable (t : Z) : Prop := -62167219200 * Second <= t < 253402300800 * Second.

Lemma year_printable t y m d : printable t → date t = (y, m, d) → 0 <= y < 10000.
Proof.
  intros Ht Hd. pose proof (month_of_day t) as Hb. unfold month_index in Hb. rewrite Hd in Hb.
  apply civil_from_days_spec in Hd as (Hm & _).
  assert (Hday : month_start 0 <= unix_sec t / day_seconds < month_start 120000).
  { change (month_start 0) with (-719528). change (month_start 120000) with 2932897.
    unfold printable, unix_sec, day_seconds, Second in *. Z.to_euclidean_division_equations; lia. }
  pose proof (month_start_mono (12 * y + (m - 1) + 1) 0). pose proof (month_start_mono 120000 (12 * y + (m - 1))).
  lia.
Qed.

Lemma year_text_inj y y' r s :
  0 <= y < 10000 → 0 <= y' < 10000 → year_text y +:+ r = year_text y' +:+ s → y = y' ∧ r = s.
Proof. intros Hy Hy' He. apply (f_equal (read_digits 4 0)) in He. rewrite !year_text_read in He by done. naive_solver. Qed.

Lemma two_text_inj n n' r s :
  0 <= n < 100 → 0 <= n' < 100 → two_text n +:+ r = two_text n' +:+ s → n = n' ∧ r = s.
Proof. intros Hn Hn' He. apply (f_equal (read_digits 2 0)) in He. rewrite !two_text_read in He by done. naive_solver. Qed.

Lemma two_text_inj_end n n' : 0 <= n < 100 → 0 <= n' < 100 → two_text n = two_text n' → n = n'.
Proof. intros Hn Hn' He. apply (two_text_inj n n' "" "" Hn Hn'). by rewrite He. Qed.

Lemma FormatMonth_inj t u : printable t → printable u → FormatMonth t = FormatMonth u → month_index t = month_index u.
Proof.
  intros Ht Hu. unfold FormatMonth, month_index.
  destruct (date t) as [[y m] d] eqn:Hd. destruct (date u) as [[y' m'] d'] eqn:Hd'.
  pose proof (year_printable _ _ _ _ Ht Hd). pose proof (year_printable _ _ _ _ Hu Hd').
  apply civil_from_days_spec in Hd as (Hm & _). apply civil_from_days_spec in Hd' as (Hm' & _).
  intros [-> ->%two_text_inj_end]%year_text_inj; lia.
Qed.

Lemma FormatDay_inj t u :
  printable t → printable u → FormatDay t = FormatDay u → unix_sec t / day_seconds = unix_sec u / day_seconds.
Proof.
  intros Ht Hu. unfold FormatDay.
  destruct (date t) as [[y m] d] eqn:Hd. destruct (date u) as [[y' m'] d'] eqn:Hd'.
  pose proof (year_printable _ _ _ _ Ht Hd). pose proof (year_printable _ _ _ _ Hu Hd').
  apply civil_from_days_spec in Hd as (Hm & Hday & <-). apply civil_from_days_spec in Hd' as (Hm' & Hday' & <-).
  assert (∀ m y, daysIn m y <= 31) as Hmax by (intros; unfold daysIn; repeat case_match; lia).
  pose proof (Hmax m y). pose proof (Hmax m' y').
  intros [-> [-> ->%two_text_inj_end]%two_text_inj]%year_text_inj; lia.
Qed.
