(* ===== verification/GoHttp.v ===== *)
(** * GoHttp: the parts of net/http's ServeMux the program uses

    Patterns of a method and a path whose segments are literal or wildcards, as in Go 1.22.  A
    request comes with the segments of its clean path without escapes, and none of them is
    empty; a GET pattern serves HEAD too.  A path that only patterns of other methods match is
    answered 405, any other 404. *)

From S2P Require Import Prelude GoString.

Inductive segment := Literal (text : string) | Wildcard (name : string).

Record pattern := mkPattern { p_method : string; p_segments : list segment }.

Definition segment_text (s : segment) : string :=
  match s with Literal text => text | Wildcard name => "{" +:+ name +:+ "}" end.

(** [Request.Pattern]. *)
Definition pattern_text (p : pattern) : string :=
  p_method p +:+ " /" +:+ Join (segment_text <$> p_segments p) "/".

(** The values of the wildcards. *)
Fixpoint match_segments (l : list segment) (path : list string) : option (list (string * string)) :=
  match l, path with
  | [], [] => Some []
  | Literal text :: l, x :: path => if String.eqb text x then match_segments l path else None
  | Wildcard name :: l, x :: path => vars ← match_segments l path; Some ((name, x) :: vars)
  | _, _ => None
  end.

Definition method_matches (p : pattern) (method : string) : bool :=
  String.eqb (p_method p) method || (String.eqb (p_method p) "GET" && String.eqb method "HEAD").

(** [Request.PathValue]. *)
Fixpoint PathValue (name : string) (vars : list (string * string)) : string :=
  match vars with
  | [] => ""
  | (n, v) :: rest => if String.eqb n name then v else PathValue name rest
  end.

Section Mux.
Context {HD : Type}.
Implicit Types (mux : list (pattern * HD)).

Inductive routed :=
| Found (p : pattern) (h : HD) (vars : list (string * string))
| MethodNotAllowed
| NotFound.

Fixpoint path_known mux (path : list string) : bool :=
  match mux with
  | [] => false
  | (p, _) :: rest => bool_decide (is_Some (match_segments (p_segments p) path)) || path_known rest path
  end.

Fixpoint find_route mux (method : string) (path : list string) : option (pattern * HD * list (string * string)) :=
  match mux with
  | [] => None
  | (p, h) :: rest =>
      match match_segments (p_segments p) path with
      | Some vars => if method_matches p method then Some (p, h, vars) else find_route rest method path
      | None => find_route rest method path
      end
  end.

Definition dispatch mux (method : string) (path : list string) : routed :=
  match find_route mux method path with
  | Some (p, h, vars) => Found p h vars
  | None => if path_known mux path then MethodNotAllowed else NotFound
  end.

(** A request matches the pattern. *)
Definition matched (p : pattern) (method : string) (path : list string) : Prop :=
  method_matches p method = true ∧ is_Some (match_segments (p_segments p) path).

(** Two patterns that no request matches both: their methods differ, or their paths do. *)
Fixpoint apart (a b : list segment) : bool :=
  match a, b with
  | Literal x :: a, Literal y :: b => negb (String.eqb x y) || apart a b
  | _ :: a, _ :: b => apart a b
  | [], [] => false
  | _, _ => true
  end.

Definition methods_apart (a b : string) : bool :=
  negb (String.eqb a b) && negb (String.eqb a "HEAD") && negb (String.eqb b "HEAD").

Fixpoint disjoint_from (p : pattern) mux : bool :=
  match mux with
  | [] => true
  | (q, _) :: rest =>
      (methods_apart (p_method p) (p_method q) || apart (p_segments p) (p_segments q)) && disjoint_from p rest
  end.

Fixpoint unambiguous mux : bool :=
  match mux with [] => true | (p, _) :: rest => disjoint_from p rest && unambiguous rest end.

Lemma apart_spec a : ∀ b path, apart a b = true →
  is_Some (match_segments a path) → is_Some (match_segments b path) → False.
Proof.
  induction a as [|[x|n] a IH]; intros [|[y|m] b] [|z path]; simpl; try done;
    try (by intros ? [? ?]); try (by intros ? ? [? ?]).
  - intros Hap. destruct (String.eqb_spec x z) as [->|]; [|by intros [? ?]].
    destruct (String.eqb_spec y z) as [->|]; [|by intros ? [? ?]].
    rewrite String.eqb_refl in Hap. by apply IH.
  - intros Hap. destruct (String.eqb_spec x z) as [->|]; [|by intros [? ?]]. intros Ha.
    destruct (match_segments b path) eqn:Hb; [|by intros [? ?]]. intros _. by apply (IH b path).
  - intros Hap. destruct (match_segments a path) eqn:Ha; [|by intros [? ?]]. intros _.
    destruct (String.eqb_spec y z) as [->|]; [|by intros [? ?]]. apply (IH b path); [done|by rewrite Ha].
  - intros Hap. destruct (match_segments a path) eqn:Ha; [|by intros [? ?]]. intros _.
    destruct (match_segments b path) eqn:Hb; [|by intros [? ?]]. intros _.
    apply (IH b path); [done|by rewrite Ha|by rewrite Hb].
Qed.

Lemma methods_apart_spec a b method :
  methods_apart (p_method a) (p_method b) = true → method_matches a method = true → method_matches b method = true → False.
Proof.
  unfold methods_apart, method_matches. rewrite !andb_true_iff, !negb_true_iff, !orb_true_iff, !andb_true_iff, !String.eqb_neq, !String.eqb_eq.
  intros [[Hne Ha] Hb] [Ha1|[Ha1 Hm]] [Hb1|[Hb1 Hm']]; congruence.
Qed.

Lemma disjoint_spec p mux q h method path :
  disjoint_from p mux = true → (q, h) ∈ mux → matched p method path → matched q method path → False.
Proof.
  induction mux as [|[q' h'] mux IH]; [by intros _ ?%not_elem_of_nil|]. simpl.
  rewrite andb_true_iff, orb_true_iff. intros [Hd Hrest] [[= -> ->]|Hin]%elem_of_cons; [|by apply IH].
  intros [Hm1 Hs1] [Hm2 Hs2]. destruct Hd as [Hd|Hd]; [by eapply methods_apart_spec|by eapply apart_spec].
Qed.

Lemma find_route_sound mux method path p h vars :
  find_route mux method path = Some (p, h, vars) →
  (p, h) ∈ mux ∧ matched p method path ∧ match_segments (p_segments p) path = Some vars.
Proof.
  induction mux as [|[q h'] mux IH]; simpl; [done|]. intros H.
  destruct (match_segments (p_segments q) path) as [vs|] eqn:Hs; [destruct (method_matches q method) eqn:Hm|].
  - injection H as <- <- <-. split; [by left|]. split; [split; [done|by rewrite Hs]|done].
  - destruct (IH H) as (? & ? & ?). split; [by right|done].
  - destruct (IH H) as (? & ? & ?). split; [by right|done].
Qed.

Lemma find_route_complete mux method path p h :
  (p, h) ∈ mux → matched p method path → is_Some (find_route mux method path).
Proof.
  induction mux as [|[q h'] mux IH]; [by intros ?%not_elem_of_nil|]. simpl.
  intros [[= -> ->]|Hin]%elem_of_cons [Hm [vs Hs]].
  - rewrite Hs, Hm. eauto.
  - destruct (match_segments (p_segments q) path); [destruct (method_matches q method); [eauto|]|];
      by apply IH; [|split; [|exists vs]].
Qed.

(** In an unambiguous mux the order of registration does not matter: whoever matches is found. *)
Lemma dispatch_found mux method path p h :
  unambiguous mux = true → (p, h) ∈ mux → matched p method path →
  ∃ vars, dispatch mux method path = Found p h vars ∧ match_segments (p_segments p) path = Some vars.
Proof.
  intros Hu Hin Hmatch. unfold dispatch.
  destruct (find_route_complete mux method path p h Hin Hmatch) as [[[q h'] vars] Hf]. rewrite Hf.
  destruct (find_route_sound _ _ _ _ _ _ Hf) as (Hinq & Hmq & Hs).
  enough (q = p ∧ h' = h) as [-> ->] by eauto. clear Hf Hs.
  induction mux as [|[p0 h0] mux IH]; [by apply not_elem_of_nil in Hin|].
  simpl in Hu. apply andb_true_iff in Hu as [Hd Hu].
  apply elem_of_cons in Hin. apply elem_of_cons in Hinq.
  destruct Hin as [[= -> ->]|Hin], Hinq as [[= -> ->]|Hinq]; [done| | |by apply IH].
  - by destruct (disjoint_spec p0 mux q h' method path Hd Hinq Hmatch Hmq).
  - by destruct (disjoint_spec p0 mux p h method path Hd Hin Hmq Hmatch).
Qed.

Lemma dispatch_not_found mux method path :
  (∀ p h, (p, h) ∈ mux → ¬ matched p method path) →
  dispatch mux method path = MethodNotAllowed ∨ dispatch mux method path = NotFound.
Proof.
  intros Hno. unfold dispatch. destruct (find_route mux method path) as [[[p h] vars]|] eqn:Hf.
  - destruct (find_route_sound _ _ _ _ _ _ Hf) as (Hin & Hm & _). by destruct (Hno p h).
  - destruct (path_known mux path); auto.
Qed.
End Mux.
Arguments routed : clear implicits.

(** ** Answers of the library *)

(** [http.Error]: a status and a line of text. *)
Definition not_found_text : Z * string := (404, "404 page not found").
Definition method_not_allowed_text : Z * string := (405, "Method Not Allowed").
