(* ===== verification/Sha256.v ===== *)
(** * Sha256: [crypto/sha256] and [encoding/hex], as used for correlation ids and versions

    FIPS 180-4 on 32-bit words kept as [Z]; [Sum256] is executable and checked on the
    standard's test vectors.  Also internal/correlation, whose only function it serves. *)

From S2P Require Import Prelude GoString.

Definition mask32 (z : Z) : Z := Z.land z 4294967295.
Definition add32 (a b : Z) : Z := mask32 (a + b).
Definition rotr (n x : Z) : Z := mask32 (Z.lor (Z.shiftr x n) (Z.shiftl x (32 - n))).
Definition not32 (x : Z) : Z := Z.lxor x 4294967295.

Definition Ch (x y z : Z) : Z := Z.lxor (Z.land x y) (Z.land (not32 x) z).
Definition Maj (x y z : Z) : Z := Z.lxor (Z.lxor (Z.land x y) (Z.land x z)) (Z.land y z).
Definition Sigma0 (x : Z) : Z := Z.lxor (Z.lxor (rotr 2 x) (rotr 13 x)) (rotr 22 x).
Definition Sigma1 (x : Z) : Z := Z.lxor (Z.lxor (rotr 6 x) (rotr 11 x)) (rotr 25 x).
Definition sigma0 (x : Z) : Z := Z.lxor (Z.lxor (rotr 7 x) (rotr 18 x)) (Z.shiftr x 3).
Definition sigma1 (x : Z) : Z := Z.lxor (Z.lxor (rotr 17 x) (rotr 19 x)) (Z.shiftr x 10).

(** The constants as the standard defines them: the first 32 bits of the fractional parts of
    the square roots of the first 8 primes and of the cube roots of the first 64. *)
Definition first_primes (n : nat) : list Z :=
  take n (filter (λ p, forallb (λ d, negb (p mod d =? 0)) (seqZ 2 (p - 2)) = true) (seqZ 2 310)).

(** The integer cube root, bit by bit from [2 ^ n] down. *)
Fixpoint cube_root (n : nat) (acc x : Z) : Z :=
  let acc' := acc + 2 ^ Z.of_nat n in
  let acc := if acc' * acc' * acc' <=? x then acc' else acc in
  match n with
  | O => acc
  | S n' => cube_root n' acc x
  end.

Definition sha_init : list Z :=
  Eval vm_compute in (λ p, mask32 (Z.sqrt (p * 2 ^ 64))) <$> first_primes 8.

Definition sha_K : list Z :=
  Eval vm_compute in (λ p, mask32 (cube_root 36 0 (p * 2 ^ 96))) <$> first_primes 64.

Fixpoint bytes_of (s : string) : list Z :=
  match s with
  | EmptyString => []
  | String c r => byte_val c :: bytes_of r
  end.

(** [n] big-endian bytes of [z]. *)
Fixpoint be_bytes (n : nat) (z : Z) : list Z :=
  match n with
  | O => []
  | S n' => Z.land (Z.shiftr z (8 * Z.of_nat n')) 255 :: be_bytes n' z
  end.

Definition sha_pad (m : list Z) : list Z :=
  let l := Z.of_nat (length m) in
  m ++ [128] ++ repeat 0 (Z.to_nat ((55 - l) mod 64)) ++ be_bytes 8 (8 * l).

Fixpoint words_of (l : list Z) : list Z :=
  match l with
  | a :: b :: c :: d :: r =>
      Z.lor (Z.lor (Z.shiftl a 24) (Z.shiftl b 16)) (Z.lor (Z.shiftl c 8) d) :: words_of r
  | _ => []
  end.

(** The message schedule, newest word first. *)
Fixpoint sha_schedule (n : nat) (w : list Z) : list Z :=
  match n with
  | O => w
  | S n' =>
      let t i := nth i w 0 in
      sha_schedule n'
        (add32 (add32 (sigma1 (t 1%nat)) (t 6%nat)) (add32 (sigma0 (t 14%nat)) (t 15%nat)) :: w)
  end.

Definition sha_round (st : list Z) (kw : Z * Z) : list Z :=
  match st with
  | [a; b; c; d; e; f; g; h] =>
      let t1 := add32 (add32 (add32 h (Sigma1 e)) (add32 (Ch e f g) kw.1)) kw.2 in
      let t2 := add32 (Sigma0 a) (Maj a b c) in
      [add32 t1 t2; a; b; c; add32 d t1; e; f; g]
  | _ => st
  end.

Definition sha_block (h : list Z) (block : list Z) : list Z :=
  let w := rev (sha_schedule 48 (rev (words_of block))) in
  zip_with add32 h (fold_left sha_round (zip sha_K w) h).

Fixpoint sha_blocks (fuel : nat) (h m : list Z) : list Z :=
  match fuel, m with
  | S f, _ :: _ => sha_blocks f (sha_block h (firstn 64 m)) (skipn 64 m)
  | _, _ => h
  end.

(** [sha256.Sum256], as its 32 bytes. *)
Definition Sum256 (s : string) : list Z :=
  let m := sha_pad (bytes_of s) in
  flat_map (be_bytes 4) (sha_blocks (length m) sha_init m).

Definition hex_digit (z : Z) : Ascii.ascii :=
  if z <? 10 then byte_of (48 + z) else byte_of (87 + z).

(** [hex.EncodeToString]. *)
Fixpoint EncodeToString (l : list Z) : string :=
  match l with
  | [] => EmptyString
  | b :: r => String (hex_digit (Z.shiftr b 4)) (String (hex_digit (Z.land b 15)) (EncodeToString r))
  end.

Example sha256_abc :
  EncodeToString (Sum256 "abc") =
  "ba7816bf8f01cfea414140de5dae2223b00361a396177a9cb410ff61f20015ad".
Proof. vm_compute. reflexivity. Qed.

Example sha256_two_blocks :
  EncodeToString (Sum256 "abcdbcdecdefdefgefghfghighijhijkijkljklmklmnlmnomnopnopq") =
  "248d6a61d20638b8e5c026930c3e6039a33ce45964ff2167f6ecedd419db06c1".
Proof. vm_compute. reflexivity. Qed.

(** *** The shape of a digest *)

Lemma sha_round_length st kw : length st = 8%nat → length (sha_round st kw) = 8%nat.
Proof. do 9 (destruct st as [|? st]; try done). Qed.

Lemma sha_block_length h block : length h = 8%nat → length (sha_block h block) = 8%nat.
Proof.
  intros Hh. unfold sha_block. rewrite length_zip_with.
  assert (Hfold : ∀ l st, length st = 8%nat → length (fold_left sha_round l st) = 8%nat).
  { induction l as [|kw l IH]; intros st Hst; [done|]. simpl. by apply IH, sha_round_length. }
  rewrite Hfold by done. by rewrite Hh.
Qed.

Lemma sha_blocks_length fuel : ∀ h m, length h = 8%nat → length (sha_blocks fuel h m) = 8%nat.
Proof.
  induction fuel as [|f IH]; intros h m Hh; [done|]. destruct m as [|x m]; [done|].
  apply IH. by apply sha_block_length.
Qed.

Lemma Sum256_length s : length (Sum256 s) = 32%nat.
Proof.
  unfold Sum256. assert (Hflat : ∀ l, length (flat_map (be_bytes 4) l) = (4 * length l)%nat).
  { induction l as [|x l IH]; [done|]. cbn [flat_map]. rewrite length_app, IH. simpl. lia. }
  by rewrite Hflat, sha_blocks_length.
Qed.

Lemma Sum256_bytes s : Forall (λ b, 0 <= b < 256) (Sum256 s).
Proof.
  unfold Sum256. induction (sha_blocks _ _ _) as [|x l IH]; [apply Forall_nil; done|]. cbn [flat_map].
  apply Forall_app. split; [|exact IH]. change 255 with (Z.ones 8).
  assert (Hb : ∀ z, 0 <= Z.land z 255 < 256).
  { intros z. change 255 with (Z.ones 8). rewrite Z.land_ones by lia. by apply Z.mod_pos_bound. }
  cbn [be_bytes]. repeat (apply Forall_cons; split; [apply Hb|]). by apply Forall_nil.
Qed.

Lemma hex_digit_inj a b : 0 <= a < 16 → 0 <= b < 16 → hex_digit a = hex_digit b → a = b.
Proof.
  intros Ha Hb H. assert (Hcheck : forallb (λ x, forallb (λ y,
    negb (Ascii.eqb (hex_digit x) (hex_digit y)) || (x =? y)) (seqZ 0 16)) (seqZ 0 16) = true) by (by vm_compute).
  rewrite forallb_forall in Hcheck. specialize (Hcheck a). rewrite forallb_forall in Hcheck.
  specialize (Hcheck ltac:(apply list_elem_of_In, elem_of_seqZ; lia) b ltac:(apply list_elem_of_In, elem_of_seqZ; lia)).
  rewrite H in Hcheck. rewrite (proj2 (Ascii.eqb_eq _ _) eq_refl) in Hcheck. by apply Z.eqb_eq in Hcheck.
Qed.

Lemma EncodeToString_inj l : ∀ l', Forall (λ b, 0 <= b < 256) l → Forall (λ b, 0 <= b < 256) l' →
  EncodeToString l = EncodeToString l' → l = l'.
Proof.
  induction l as [|b l IH]; intros [|b' l'] Hl Hl' H; try done.
  apply Forall_cons in Hl as [Hb Hl]. apply Forall_cons in Hl' as [Hb' Hl']. cbn [EncodeToString] in H.
  injection H as H1 H2 H3.
  assert (Hrange : ∀ x, 0 <= x < 256 → 0 <= Z.shiftr x 4 < 16 ∧ 0 <= Z.land x 15 < 16 ∧
    x = 16 * Z.shiftr x 4 + Z.land x 15).
  { intros x Hx. rewrite Z.shiftr_div_pow2 by lia. change 15 with (Z.ones 4). rewrite Z.land_ones by lia.
    change (2 ^ 4) with 16. Z.to_euclidean_division_equations. lia. }
  destruct (Hrange b Hb) as (? & ? & ->), (Hrange b' Hb') as (? & ? & ->).
  apply hex_digit_inj in H1; [|done..]. apply hex_digit_inj in H2; [|done..].
  f_equal; [lia|by apply IH].
Qed.

(** ** internal/correlation *)

Definition nul : string := bytes_of_codes [0].

(** The text [correlation.ID] hashes. *)
Definition correlation_text (agentID idempotencyKey : string) : string :=
  agentID +:+ nul +:+ idempotencyKey.

(** [correlation.ID]. *)
Definition correlation_ID (agentID idempotencyKey : string) : string :=
  EncodeToString (firstn 16 (Sum256 (correlation_text agentID idempotencyKey))).

(** Two keys of one length, which two UUIDs are, give different texts unless agent and key
    agree: a shared id is then a collision of the truncated hash and nothing else. *)
Lemma correlation_text_inj a k a' k' :
  String.length k = String.length k' →
  correlation_text a k = correlation_text a' k' → a = a' ∧ k = k'.
Proof.
  unfold correlation_text. intros Hl H.
  apply append_inj_len in H as [-> H].
  - split; [done|]. by apply append_inj_r in H.
  - rewrite !append_length. lia.
Qed.

Lemma correlation_ID_nonempty agentID k : correlation_ID agentID k ≠ EmptyString.
Proof.
  unfold correlation_ID. pose proof (Sum256_length (correlation_text agentID k)) as H.
  by destruct (Sum256 _).
Qed.

#[global] Opaque Sum256.
