(* ===== verification/Base64.v ===== *)
(** * Base64: [base64.RawURLEncoding] and the round trip

    Bytes in groups of three as four digits of six bits, without padding.  The decoder skips
    line ends and, not being strict, ignores the bits a last incomplete group leaves over. *)

From S2P Require Import Prelude GoString Sha256.

Definition sextet_char (v : Z) : ascii :=
  if v <? 26 then byte_of (65 + v)
  else if v <? 52 then byte_of (71 + v)
  else if v <? 62 then byte_of (v - 4)
  else if v =? 62 then byte_of 45 else byte_of 95.

Definition char_sextet (c : ascii) : option Z :=
  let v := byte_val c in
  if (65 <=? v) && (v <=? 90) then Some (v - 65)
  else if (97 <=? v) && (v <=? 122) then Some (v - 71)
  else if (48 <=? v) && (v <=? 57) then Some (v + 4)
  else if v =? 45 then Some 62
  else if v =? 95 then Some 63 else None.

Fixpoint sextets (l : list Z) : list Z :=
  match l with
  | a :: b :: c :: r => a / 4 :: a mod 4 * 16 + b / 16 :: b mod 16 * 4 + c / 64 :: c mod 64 :: sextets r
  | [a; b] => [a / 4; a mod 4 * 16 + b / 16; b mod 16 * 4]
  | [a] => [a / 4; a mod 4 * 16]
  | [] => []
  end.

Fixpoint unsextets (l : list Z) : option (list Z) :=
  match l with
  | a :: b :: c :: d :: r =>
      (λ rest, a * 4 + b / 16 :: b mod 16 * 16 + c / 4 :: c mod 4 * 64 + d :: rest) <$> unsextets r
  | [a; b; c] => Some [a * 4 + b / 16; b mod 16 * 16 + c / 4]
  | [a; b] => Some [a * 4 + b / 16]
  | [a] => None
  | [] => Some []
  end.

Fixpoint text_of_sextets (l : list Z) : string :=
  match l with
  | [] => EmptyString
  | v :: r => String (sextet_char v) (text_of_sextets r)
  end.

Fixpoint sextets_of_text (s : string) : option (list Z) :=
  match s with
  | EmptyString => Some []
  | String c r =>
      if (byte_val c =? 10) || (byte_val c =? 13) then sextets_of_text r
      else v ← char_sextet c; l ← sextets_of_text r; Some (v :: l)
  end.

Definition EncodeToString (s : string) : string := text_of_sextets (sextets (bytes_of s)).
Definition DecodeString (s : string) : option string :=
  l ← sextets_of_text s; bytes_of_codes <$> unsextets l.

Example base64_examples :
  EncodeToString "a" = "YQ" ∧ EncodeToString "ab?" = "YWI_" ∧ DecodeString "YWI_" = Some "ab?" ∧
  DecodeString "Y" = None ∧ DecodeString "YQ==" = None ∧ DecodeString "YR" = Some "a".
Proof. by vm_compute. Qed.

(** ** The round trip *)

Definition in_bits (n : Z) (l : list Z) : Prop := Forall (λ v, 0 <= v < 2 ^ n) l.

(** Induction in steps of three. *)
Lemma list_ind3 {A} (P : list A → Prop) :
  P [] → (∀ a, P [a]) → (∀ a b, P [a; b]) → (∀ a b c l, P l → P (a :: b :: c :: l)) → ∀ l, P l.
Proof.
  intros H0 H1 H2 H3. fix IH 1. intros [|a [|b [|c l]]]; [exact H0|apply H1|apply H2|apply H3, IH].
Qed.

Lemma unsextets_sextets l : in_bits 8 l → in_bits 6 (sextets l) ∧ unsextets (sextets l) = Some l.
Proof.
  unfold in_bits. change (2 ^ 8) with 256. change (2 ^ 6) with 64.
  induction l as [|a|a b|a b c l IH] using list_ind3; rewrite ?Forall_cons; intros Hl; cbn [sextets unsextets].
  - split; [by apply Forall_nil|done].
  - rewrite !Forall_cons. split; [split_and!; try by apply Forall_nil|do 2 f_equal];
      Z.to_euclidean_division_equations; lia.
  - rewrite !Forall_cons. split; [split_and!; try by apply Forall_nil|do 2 f_equal; [|f_equal]];
      Z.to_euclidean_division_equations; lia.
  - destruct Hl as (Ha & Hb & Hc & Hl). destruct (IH Hl) as [IH1 IH2]. rewrite IH2, !Forall_cons.
    split; [split_and!; try done|simpl; do 2 f_equal; [|f_equal; [|f_equal]]];
      Z.to_euclidean_division_equations; lia.
Qed.

Lemma char_sextet_char v :
  0 <= v < 64 →
  char_sextet (sextet_char v) = Some v ∧
  (byte_val (sextet_char v) =? 10) || (byte_val (sextet_char v) =? 13) = false.
Proof.
  intros Hv.
  assert (Hall : forallb (λ v, bool_decide (char_sextet (sextet_char v) = Some v) &&
    negb ((byte_val (sextet_char v) =? 10) || (byte_val (sextet_char v) =? 13))) (seqZ 0 64) = true)
    by (by vm_compute).
  rewrite forallb_forall in Hall. specialize (Hall v ltac:(apply list_elem_of_In, elem_of_seqZ; lia)).
  apply andb_true_iff in Hall as [H1%bool_decide_eq_true H2%negb_true_iff]. done.
Qed.

Lemma sextets_of_text_of l : in_bits 6 l → sextets_of_text (text_of_sextets l) = Some l.
Proof.
  induction 1 as [|v l Hv _ IH]; [done|]. simpl. change (2 ^ 6) with 64 in Hv.
  destruct (char_sextet_char v Hv) as [H1 H2]. rewrite H2, H1. cbn [mbind option_bind]. by rewrite IH.
Qed.

Lemma bytes_of_bits s : in_bits 8 (bytes_of s).
Proof.
  induction s as [|c s IH]; [by apply Forall_nil|]. apply Forall_cons. split; [|done].
  change (2 ^ 8) with 256. apply byte_val_range.
Qed.

Lemma codes_of_bytes s : bytes_of_codes (bytes_of s) = s.
Proof.
  induction s as [|c s IH]; [done|]. simpl. rewrite IH. f_equal. unfold byte_of, byte_val.
  by rewrite Nat2Z.id, ascii_nat_embedding.
Qed.

Lemma decode_encode s : DecodeString (EncodeToString s) = Some s.
Proof.
  destruct (unsextets_sextets (bytes_of s) (bytes_of_bits s)) as [Hb Hu].
  unfold DecodeString, EncodeToString. rewrite sextets_of_text_of by done.
  cbn [mbind option_bind]. rewrite Hu. simpl. by rewrite codes_of_bytes.
Qed.
