(* ===== verification/Manifest.v ===== *)
(** * Manifest: internal/manifest (manifest.go, load.go, activation.go)

    One JSON document per resource type declares its operations, its conflict window, whether
    conflicts are enforced, and how downstream statuses are classified.  [validate] is the
    admission check of one document, [Load] builds the snapshot of a directory, and the
    [Store] keeps the last snapshot that loaded.

    [json.Unmarshal] into [document] is the parameter [unmarshal]: the decoded document or its
    error, for a file's bytes; Decoding.v defines it. *)

From S2P Require Import Prelude GoString Sha256.

(** ** Data *)

Record StatusRange := mkRange { From : Z; To : Z }.

Definition contains (r : StatusRange) (status : Z) : bool :=
  (From r <=? status) && (status <=? To r).

Record ErrorClassification := mkErrors {
  Definitive : list StatusRange;
  NotExecuted : list StatusRange;
}.

Definition declared (c : ErrorClassification) : bool :=
  (0 <? length (Definitive c))%nat || (0 <? length (NotExecuted c))%nat.

Definition IsDefinitive (c : ErrorClassification) (status : Z) : bool :=
  existsb (λ r, contains r status) (Definitive c).

Definition IsNotExecuted (c : ErrorClassification) (status : Z) : bool :=
  existsb (λ r, contains r status) (NotExecuted c).

Definition ClassCreate : string := "create".
Definition ClassReplace : string := "replace".
Definition ClassMutate : string := "mutate".
Definition ClassAppend : string := "append".
Definition ClassDelete : string := "delete".

Definition classes : list string :=
  [ClassCreate; ClassReplace; ClassMutate; ClassAppend; ClassDelete].

(** A slice that is nil and one that is empty differ only where they are written out. *)
Record Operation := mkOperation { Class : string; Scope_ : option (list string) }.
Definition Scope (op : Operation) : list string := default [] (Scope_ op).
#[global] Arguments Scope !_ /.

#[export] Instance StatusRange_eq_dec : EqDecision StatusRange.
Proof. solve_decision. Defined.
#[export] Instance Operation_eq_dec : EqDecision Operation.
Proof. solve_decision. Defined.

Record document := mkDocument {
  d_ResourceType : string;
  d_ConflictWindowMS : Z;
  d_Enforce : bool;
  d_ProbePath : string;
  d_Operations : gmap string Operation;
  d_Errors : ErrorClassification;
}.

Record Definition_ := mkDefinition {
  Type_ : string;
  ConflictWindow : Z;
  Enforce : bool;
  ProbePath : string;
  Operations : gmap string Operation;
  Errors : ErrorClassification;
}.

(** [document.definition]: the window is an [int64] product, so it wraps. *)
Definition definition (d : document) : Definition_ := {|
  Type_ := d_ResourceType d;
  ConflictWindow := wrap64 (d_ConflictWindowMS d * Millisecond);
  Enforce := d_Enforce d;
  ProbePath := d_ProbePath d;
  Operations := d_Operations d;
  Errors := d_Errors d;
|}.

(** ** Validation *)

(** One constructor per [fail] call of [document.validate], with its arguments. *)
Inductive problem :=
| ResourceTypeEmpty
| ResourceTypeNotStem (declared_type stem : string)
| WindowNotPositive
| ProbePathNotPath (path : string)
| NoOperations
| NoErrorClassification
| BadStatusRange (r : StatusRange)
| OverlappingRanges (definitive notExecuted : StatusRange)
| UnknownClass (name class : string)
| ScopeOnNonMutate (name class : string)
| BadScopePath (name path : string)
| Undecodable (e : goerr)
| DeclaredTwice (declared_type : string).

Definition bad_range (r : StatusRange) : bool :=
  (From r <? 100) || (599 <? To r) || (To r <? From r).

Definition ranges_overlap (a b : StatusRange) : bool :=
  (From a <=? To b) && (From b <=? To a).

Definition bad_path (path : string) : bool :=
  String.eqb path "" || HasPrefix path "." || HasSuffix path "." || Contains path "..".

Definition operation_problems (name : string) (operation : Operation) : list problem :=
  (if bool_decide (Class operation ∈ classes) then [] else [UnknownClass name (Class operation)]) ++
  (if (0 <? length (Scope operation))%nat && negb (String.eqb (Class operation) ClassMutate)
   then [ScopeOnNonMutate name (Class operation)] else []) ++
  flat_map (λ path, if bad_path path then [BadScopePath name path] else []) (Scope operation).

(** [document.validate].  Go ranges over the operations in a random order; the problems are
    sorted before they are shown, so the order here is the map's own. *)
Definition validate (d : document) (stem : string) : list problem :=
  (if String.eqb (d_ResourceType d) "" then [ResourceTypeEmpty]
   else if String.eqb (d_ResourceType d) stem then []
   else [ResourceTypeNotStem (d_ResourceType d) stem]) ++
  (if d_ConflictWindowMS d <=? 0 then [WindowNotPositive] else []) ++
  (if HasPrefix (d_ProbePath d) "/" then [] else [ProbePathNotPath (d_ProbePath d)]) ++
  (if (size (d_Operations d) =? 0)%nat then [NoOperations] else []) ++
  (if declared (d_Errors d) then [] else [NoErrorClassification]) ++
  flat_map (λ r, if bad_range r then [BadStatusRange r] else [])
    (Definitive (d_Errors d) ++ NotExecuted (d_Errors d)) ++
  flat_map (λ a, flat_map (λ b, if ranges_overlap a b then [OverlappingRanges a b] else [])
                          (NotExecuted (d_Errors d)))
    (Definitive (d_Errors d)) ++
  flat_map (λ '(name, operation), operation_problems name operation)
    (map_to_list (d_Operations d)).

(** ** Snapshots *)

Record Snapshot := mkSnapshot { version : string; byType : gmap string Definition_ }.

Definition Lookup_type (s : Snapshot) (resourceType : string) : option Definition_ :=
  byType s !! resourceType.

(** [Snapshot.Operation]. *)
Definition Snapshot_Operation (s : Snapshot) (resourceType operation : string) : option Operation :=
  match byType s !! resourceType with
  | None => None
  | Some d => Operations d !! operation
  end.

(** [Snapshot.Types]: the declared types, sorted. *)
Definition Types (s : Snapshot) : list string :=
  merge_sort str_le (map_to_list (byType s)).*1.

(** A directory as [filepath.Glob(dir/*.json)] and [os.ReadFile] show it: the stem of each
    file and its bytes, or the error of reading it. *)
Abbreviation directory := (list (string * (goerr + string))).

Definition path_le (a b : string * (goerr + string)) : Prop :=
  str_le (a.1 +:+ ".json") (b.1 +:+ ".json").
#[export] Instance path_le_dec a b : Decision (path_le a b).
Proof. unfold path_le. apply _. Defined.

Section Load.
Context (unmarshal : string → goerr + document).

(** The loop state of [Load]: the bytes hashed so far, the types, the problems. *)
Record loading := mkLoading {
  l_sum : string;
  l_byType : gmap string Definition_;
  l_problems : list (string * problem);
}.

(** One iteration of [Load]'s loop. *)
Definition load_file (st : loading) (file : string * (goerr + string)) : goerr + loading :=
  let '(stem, content) := file in
  match content with
  | inl e => inl (wrap ("read " +:+ stem) e)
  | inr raw =>
      let sum := l_sum st +:+ stem +:+ raw in
      match unmarshal raw with
      | inl e => inr (mkLoading sum (l_byType st) (l_problems st ++ [(stem, Undecodable e)]))
      | inr doc =>
          let problems := l_problems st ++ ((λ p, (stem, p)) <$> validate doc stem) in
          match l_byType st !! d_ResourceType doc with
          | Some _ =>
              inr (mkLoading sum (l_byType st)
                     (problems ++ [(stem, DeclaredTwice (d_ResourceType doc))]))
          | None =>
              inr (mkLoading sum (<[d_ResourceType doc := definition doc]> (l_byType st)) problems)
          end
      end
  end.

Fixpoint load_files (st : loading) (files : directory) : goerr + loading :=
  match files with
  | [] => inr st
  | f :: rest => match load_file st f with inl e => inl e | inr st' => load_files st' rest end
  end.

Inductive load_error :=
| NoManifests
| ReadFailed (e : goerr)
| Invalid (problems : list (string * problem)).

(** [Load]. *)
Definition Load (dir : directory) : load_error + Snapshot :=
  let paths := merge_sort path_le dir in
  if (length paths =? 0)%nat then inl NoManifests
  else match load_files (mkLoading "" ∅ []) paths with
       | inl e => inl (ReadFailed e)
       | inr st =>
           if (0 <? length (l_problems st))%nat then inl (Invalid (l_problems st))
           else inr (mkSnapshot (String.substring 0 16 (EncodeToString (Sum256 (l_sum st))))
                       (l_byType st))
       end.

(** ** The store *)

Record Store := mkStore { current : Snapshot }.

(** [NewStore]: the directory at boot. *)
Definition NewStore (dir : directory) : load_error + Store :=
  match Load dir with inl e => inl e | inr s => inr (mkStore s) end.

Inductive reload_outcome :=
| Activated (s : Snapshot)
| Unchanged
| ReloadFailed (e : load_error).

(** [Store.reload]: the store after it, and what it returned. *)
Definition reload (store : Store) (dir : directory) : Store * reload_outcome :=
  match Load dir with
  | inl e => (store, ReloadFailed e)
  | inr snapshot =>
      if String.eqb (version snapshot) (version (current store)) then (store, Unchanged)
      else (mkStore snapshot, Activated snapshot)
  end.

(** What [Watch] tells its callbacks. *)
Inductive watch_event := OnActivate (s : Snapshot) | OnFailure.

(** [Watch]: one directory state per tick, until the context ends. *)
Fixpoint Watch (store : Store) (ticks : list directory) : Store * list watch_event :=
  match ticks with
  | [] => (store, [])
  | dir :: rest =>
      let '(store', outcome) := reload store dir in
      let '(final, events) := Watch store' rest in
      (final, match outcome with
              | Unchanged => events
              | ReloadFailed _ => OnFailure :: events
              | Activated s => OnActivate s :: events
              end)
  end.
End Load.

(** ** What a valid document is *)

(** The dot-separated segments of a field path. *)
Fixpoint segments (s : string) : list string :=
  match s with
  | EmptyString => [EmptyString]
  | String c r =>
      if bool_decide (c = "."%char) then EmptyString :: segments r
      else match segments r with
           | h :: t => String c h :: t
           | [] => [String c EmptyString]
           end
  end.

(** A field path has no empty segment. *)
Definition field_path (path : string) : Prop := Forall (λ s, s ≠ EmptyString) (segments path).

Record well_formed (d : document) (stem : string) : Prop := {
  wf_type : d_ResourceType d = stem ∧ stem ≠ EmptyString;
  wf_window : 0 < d_ConflictWindowMS d;
  wf_probe : ∃ rest, d_ProbePath d = "/" +:+ rest;
  wf_operations : d_Operations d ≠ ∅;
  wf_declared : Definitive (d_Errors d) ≠ [] ∨ NotExecuted (d_Errors d) ≠ [];
  wf_ranges : ∀ r, r ∈ Definitive (d_Errors d) ++ NotExecuted (d_Errors d) →
    100 <= From r ∧ From r <= To r ∧ To r <= 599;
  wf_exclusive : ∀ status,
    IsDefinitive (d_Errors d) status = true → IsNotExecuted (d_Errors d) status = true → False;
  wf_class : ∀ name op, d_Operations d !! name = Some op → Class op ∈ classes;
  wf_scope : ∀ name op, d_Operations d !! name = Some op →
    Scope op ≠ [] → Class op = ClassMutate;
  wf_paths : ∀ name op path, d_Operations d !! name = Some op →
    path ∈ Scope op → field_path path;
}.

(** ** Lemmas *)

Lemma flat_map_nil {A B} (f : A → list B) (l : list A) :
  flat_map f l = [] ↔ ∀ x, x ∈ l → f x = [].
Proof.
  induction l as [|a l IH]; simpl.
  - split; [intros _ x Hx; by apply elem_of_nil in Hx | done].
  - rewrite app_nil, IH. setoid_rewrite elem_of_cons. split; [intros [? ?] x [->|?]; auto | auto].
Qed.

Lemma if_nil {A} (b : bool) (x : A) : (if b then [x] else []) = [] ↔ b = false.
Proof. by destruct b. Qed.

Lemma if_nil' {A} (b : bool) (x : A) : (if b then [] else [x]) = [] ↔ b = true.
Proof. by destruct b. Qed.

Lemma segments_cons s : ∃ h t, segments s = h :: t.
Proof.
  destruct s as [|c r]; simpl; [by eauto|].
  case_bool_decide; [by eauto|]. destruct (segments r); by eauto.
Qed.

Lemma bad_path_dot r : bad_path (String "." r) = true.
Proof. by destruct r. Qed.

Lemma bad_path_one c : c ≠ "."%char → bad_path (String c "") = false.
Proof. intros Hc. unfold bad_path. simpl. by destruct (Ascii.eqb_spec "." c), (Ascii.eqb_spec c "."); [congruence..|]. Qed.

Lemma bad_path_skip c d r :
  c ≠ "."%char → d ≠ "."%char → bad_path (String c (String d r)) = bad_path (String d r).
Proof.
  intros Hc Hd. unfold bad_path. simpl.
  destruct (Ascii.eqb_spec "." c), (Ascii.eqb_spec c "."); [congruence..|].
  by destruct (Ascii.eqb_spec "." d); [congruence|].
Qed.

Lemma bad_path_step c r :
  c ≠ "."%char → bad_path (String c (String "." r)) = bad_path r.
Proof.
  intros Hc. unfold bad_path. simpl.
  destruct (Ascii.eqb_spec "." c), (Ascii.eqb_spec c "."); [congruence..|]. simpl.
  destruct r as [|d r]; [done|]. simpl.
  destruct (Ascii.eqb_spec "." d) as [<-|]; simpl; [|done].
  by destruct r; rewrite ?orb_true_r.
Qed.

(** The three string tests of [validate] accept exactly the paths with no empty segment. *)
Lemma bad_path_spec path : bad_path path = false ↔ field_path path.
Proof.
  unfold field_path.
  induction path as [path IH] using (induction_ltof1 _ String.length).
  unfold ltof in IH. destruct path as [|c r].
  { simpl. rewrite Forall_singleton. by split; [intros [=] | intros []]. }
  simpl segments. case_bool_decide as Hc.
  { subst c. rewrite bad_path_dot, Forall_cons. naive_solver. }
  destruct r as [|d r].
  { simpl. rewrite Forall_singleton, bad_path_one by done. naive_solver. }
  destruct (decide (d = "."%char)) as [->|Hd].
  - rewrite bad_path_step, (IH r) by (simpl; done || lia). simpl. rewrite Forall_cons. naive_solver.
  - rewrite bad_path_skip, (IH (String d r)) by (simpl; done || lia).
    simpl. rewrite bool_decide_eq_false_2 by done.
    destruct (segments_cons r) as (h & t & ->). rewrite !Forall_cons. naive_solver.
Qed.

Lemma contains_spec r s : contains r s = true ↔ From r <= s <= To r.
Proof. unfold contains. rewrite andb_true_iff, !Z.leb_le. done. Qed.

Lemma bad_range_spec r : bad_range r = false ↔ 100 <= From r ∧ From r <= To r ∧ To r <= 599.
Proof. unfold bad_range. rewrite !orb_false_iff, !Z.ltb_ge. lia. Qed.

Lemma classified_spec (l : list StatusRange) s :
  existsb (λ r, contains r s) l = true ↔ ∃ r, r ∈ l ∧ From r <= s <= To r.
Proof.
  rewrite existsb_exists. setoid_rewrite <- list_elem_of_In. by setoid_rewrite contains_spec.
Qed.

(** For ranges that hold a status at all, the endpoint test of [validate] finds an overlap
    exactly when some status is in both. *)
Lemma ranges_overlap_spec a b :
  From a <= To a → From b <= To b →
  ranges_overlap a b = true ↔ ∃ s, contains a s = true ∧ contains b s = true.
Proof.
  intros Ha Hb. unfold ranges_overlap. rewrite andb_true_iff, !Z.leb_le.
  setoid_rewrite contains_spec. split.
  - intros [? ?]. exists (Z.max (From a) (From b)). lia.
  - intros (s & ? & ?). lia.
Qed.

Lemma overlaps_nil (c : ErrorClassification) :
  (∀ r, r ∈ Definitive c ++ NotExecuted c → bad_range r = false) →
  (∀ a, a ∈ Definitive c → ∀ b, b ∈ NotExecuted c → ranges_overlap a b = false) ↔
  (∀ s, IsDefinitive c s = true → IsNotExecuted c s = true → False).
Proof.
  intros Hr. setoid_rewrite elem_of_app in Hr. setoid_rewrite bad_range_spec in Hr. split.
  - intros H s (a & Ha & Hsa)%classified_spec (b & Hb & Hsb)%classified_spec.
    specialize (H a Ha b Hb). revert H. unfold ranges_overlap.
    rewrite andb_false_iff, !Z.leb_gt. lia.
  - intros H a Ha b Hb. apply not_true_is_false. intros Ho.
    apply ranges_overlap_spec in Ho as (s & Hsa & Hsb);
      [|by apply Hr; auto..].
    rewrite contains_spec in *. apply (H s); apply classified_spec; eauto.
Qed.

Lemma operation_problems_nil name op :
  operation_problems name op = [] ↔
  Class op ∈ classes ∧ (Scope op ≠ [] → Class op = ClassMutate) ∧
  ∀ path, path ∈ Scope op → field_path path.
Proof.
  unfold operation_problems. rewrite !app_nil, if_nil, if_nil', flat_map_nil.
  setoid_rewrite if_nil. setoid_rewrite bad_path_spec.
  rewrite bool_decide_eq_true, andb_false_iff, negb_false_iff, String.eqb_eq.
  assert (Hs : ((0 <? length (Scope op))%nat = false ∨ Class op = ClassMutate) ↔
    (Scope op ≠ [] → Class op = ClassMutate)).
  { destruct (Scope op) as [|p l]; (split; [intros [[=]|?] ?|intros H]); auto; done. }
  by rewrite Hs.
Qed.

Lemma validate_nil d stem : validate d stem = [] ↔ well_formed d stem.
Proof.
  unfold validate. rewrite !app_nil, !if_nil, !if_nil', !flat_map_nil.
  setoid_rewrite flat_map_nil. setoid_rewrite if_nil.
  rewrite Z.leb_gt, HasPrefix_spec, Nat.eqb_neq, map_size_non_empty_iff.
  assert (Hdecl : declared (d_Errors d) = true ↔
    Definitive (d_Errors d) ≠ [] ∨ NotExecuted (d_Errors d) ≠ []).
  { unfold declared. by destruct (Definitive _), (NotExecuted _); simpl; naive_solver. }
  rewrite Hdecl. clear Hdecl.
  assert (Htype : (if String.eqb (d_ResourceType d) "" then [ResourceTypeEmpty]
     else if String.eqb (d_ResourceType d) stem then []
     else [ResourceTypeNotStem (d_ResourceType d) stem]) = [] ↔
    d_ResourceType d = stem ∧ stem ≠ EmptyString).
  { destruct (String.eqb_spec (d_ResourceType d) ""), (String.eqb_spec (d_ResourceType d) stem);
      naive_solver. }
  rewrite Htype. clear Htype.
  assert (Hops : (∀ x, x ∈ map_to_list (d_Operations d) →
      (let '(name, operation) := x in operation_problems name operation) = []) ↔
    ∀ name op, d_Operations d !! name = Some op → operation_problems name op = []).
  { split.
    - intros H name op Hl. by apply (H (name, op)), elem_of_map_to_list.
    - intros H [name op] Hl%elem_of_map_to_list. eauto. }
  rewrite Hops. clear Hops. setoid_rewrite operation_problems_nil. split.
  - intros (? & ? & ? & ? & ? & Hr & Ho & Hops). constructor; try done.
    + intros r Hx. apply bad_range_spec. auto.
    + by apply overlaps_nil.
    + intros name op Hl. apply (Hops name op Hl).
    + intros name op Hl. apply (Hops name op Hl).
    + intros name op path Hl. apply (Hops name op Hl).
  - intros [[? ?] ? ? ? ? Hr Hx Hc Hs Hp]. split_and!; try done.
    + intros r Hin. apply bad_range_spec. auto.
    + apply overlaps_nil; [|done]. intros r Hin. apply bad_range_spec. auto.
    + intros name op Hl. split_and!; eauto.
Qed.

(** ** Loading a directory *)

Section LoadLemmas.
Context (unmarshal : string → goerr + document).

(** A file whose document is valid and gives the definition [d] under its own stem. *)
Definition declares (file : string * (goerr + string)) (t : string) (d : Definition_) : Prop :=
  ∃ raw doc, file = (t, inr raw) ∧ unmarshal raw = inr doc ∧
    well_formed doc t ∧ d = definition doc.

Lemma load_file_clean st file st' :
  load_file unmarshal st file = inr st' → l_problems st' = [] →
  l_problems st = [] ∧
  ∃ t d, declares file t d ∧ l_byType st !! t = None ∧ l_byType st' = <[t := d]> (l_byType st).
Proof.
  destruct file as [stem [e|raw]]; simpl; [done|].
  destruct (unmarshal raw) as [e|doc] eqn:Hu.
  { intros [= <-]. simpl. intros [_ [=]]%app_nil. }
  destruct (l_byType st !! d_ResourceType doc) eqn:Hl; intros [= <-]; simpl.
  { intros [_ [=]]%app_nil. }
  intros [Hp Hv%fmap_nil_inv]%app_nil. split; [done|].
  apply validate_nil in Hv. pose proof (wf_type _ _ Hv) as [<- _].
  exists (d_ResourceType doc), (definition doc). split_and!; [|done..].
  exists raw, doc. done.
Qed.

Lemma load_files_clean files : ∀ st st',
  load_files unmarshal st files = inr st' → l_problems st' = [] →
  l_problems st = [] ∧
  (∀ t d, l_byType st' !! t = Some d ↔
     l_byType st !! t = Some d ∨ ∃ file, file ∈ files ∧ declares file t d) ∧
  (∀ file, file ∈ files → ∃ t d, declares file t d).
Proof.
  induction files as [|f files IH]; simpl; intros st st'.
  { intros [= <-] Hp. split_and!; [done| |].
    - intros t d. split; [by left|]. intros [?|(? & []%elem_of_nil & _)]. done.
    - by intros ? ?%elem_of_nil. }
  destruct (load_file unmarshal st f) as [e|st1] eqn:Hf; [done|]. intros Hr Hp.
  destruct (IH _ _ Hr Hp) as (Hp1 & Hiff & Hall).
  destruct (load_file_clean _ _ _ Hf Hp1) as (Hp0 & t0 & d0 & Hd0 & Hn & Hm).
  split_and!; [done| |].
  - intros t d. rewrite Hiff, Hm. setoid_rewrite elem_of_cons.
    rewrite lookup_insert_Some. split.
    + intros [[[<- <-]|[? ?]]|(file & ? & ?)]; eauto 10.
    + intros [Ht|(file & [->|?] & Hd)].
      * left. right. split; [congruence|done].
      * left. left. destruct Hd0 as (r & doc & Hf0 & Hu & _ & ->),
          Hd as (r' & doc' & Hf0' & Hu' & _ & ->). naive_solver congruence.
      * eauto 10.
  - intros file [->|?]%elem_of_cons; eauto.
Qed.

Lemma Load_inv dir s :
  Load unmarshal dir = inr s →
  dir ≠ [] ∧ ∃ st, load_files unmarshal (mkLoading "" ∅ []) (merge_sort path_le dir) = inr st ∧
    l_problems st = [] ∧ byType s = l_byType st.
Proof.
  unfold Load. destruct (Nat.eqb_spec (length (merge_sort path_le dir)) 0) as [|Hlen]; [done|].
  destruct (load_files _ _ _) as [e|st] eqn:Hf; [done|].
  destruct (l_problems st) eqn:Hp; simpl; [|done]. intros [= <-].
  split; [by intros ->|]. eauto.
Qed.

(** The whole directory is in the snapshot, and nothing else is. *)
Lemma Load_declares dir s :
  Load unmarshal dir = inr s →
  (∀ t d, Lookup_type s t = Some d ↔ ∃ file, file ∈ dir ∧ declares file t d) ∧
  (∀ file, file ∈ dir → ∃ t d, declares file t d).
Proof.
  intros (_ & st & Hf & Hp & Hb)%Load_inv.
  destruct (load_files_clean _ _ _ Hf Hp) as (_ & Hiff & Hall). simpl in Hiff.
  setoid_rewrite (merge_sort_Permutation path_le dir) in Hiff.
  setoid_rewrite (merge_sort_Permutation path_le dir) in Hall.
  split; [|done]. intros t d. unfold Lookup_type. rewrite Hb, Hiff, lookup_empty. naive_solver.
Qed.

Lemma reload_current store dir :
  (reload unmarshal store dir).1 = store ∨
  ∃ s, Load unmarshal dir = inr s ∧ (reload unmarshal store dir).1 = mkStore s.
Proof.
  unfold reload. destruct (Load unmarshal dir) as [e|s]; simpl; [by left|].
  destruct (String.eqb _ _); simpl; eauto.
Qed.
End LoadLemmas.

#[export] Instance path_le_total : Total path_le.
Proof. intros a b. apply (total str_le). Qed.

#[export] Instance path_le_trans : Transitive path_le.
Proof. intros a b c. apply (transitivity (R := str_le)). Qed.

(** Files of one directory have different names, so a listing has one sorted form. *)
Lemma sorted_listing (dir dir' : directory) :
  NoDup dir.*1 → dir ≡ₚ dir' → merge_sort path_le dir = merge_sort path_le dir'.
Proof.
  intros Hnd Hp.
  apply (StronglySorted_unique_strong path_le);
    [|apply (StronglySorted_merge_sort path_le)..|by rewrite !merge_sort_Permutation].
  intros [n1 c1] [n2 c2]. rewrite !merge_sort_Permutation, <- Hp. intros H1 H2 Hle1 Hle2.
  assert (n1 = n2) as ->.
  { apply (append_inj_l _ _ ".json"). by apply (anti_symm str_le). }
  f_equal. apply list_elem_of_lookup in H1 as [i Hi], H2 as [j Hj].
  assert (i = j) as ->; [|congruence].
  eapply NoDup_lookup; [exact Hnd| |]; rewrite list_lookup_fmap; [by rewrite Hi | by rewrite Hj].
Qed.

(** ** The manifests that ship (manifests/invoice.json, manifests/subscription.json) *)

Definition invoice_doc : document := {|
  d_ResourceType := "invoice"; d_ConflictWindowMS := 5000; d_Enforce := false;
  d_ProbePath := "/probe";
  d_Operations := list_to_map
    [("create_charge", mkOperation "create" None);
     ("add_line_item", mkOperation "append" None);
     ("update_status", mkOperation "mutate" (Some ["status"]));
     ("update_billing_address", mkOperation "mutate" (Some ["billing_address"]))];
  d_Errors := mkErrors [mkRange 200 299; mkRange 400 499] [];
|}.

Definition subscription_doc : document := {|
  d_ResourceType := "subscription"; d_ConflictWindowMS := 2000; d_Enforce := false;
  d_ProbePath := "/probe/subscription";
  d_Operations := list_to_map
    [("create_subscription", mkOperation "create" None);
     ("add_note", mkOperation "append" None);
     ("pause", mkOperation "mutate" (Some ["state"]));
     ("change_plan", mkOperation "mutate" (Some ["plan"]))];
  d_Errors := mkErrors [mkRange 200 299; mkRange 400 428] [mkRange 429 429; mkRange 503 503];
|}.

(** A decoder that knows the two shipped files by a one-letter name. *)
Definition shipped_unmarshal (raw : string) : goerr + document :=
  if String.eqb raw "I" then inr invoice_doc
  else if String.eqb raw "S" then inr subscription_doc
  else inl (errorf "invalid character").

Definition shipped_dir : directory :=
  [("subscription", inr "S"); ("invoice", inr "I")].

Example shipped_documents_valid :
  validate invoice_doc "invoice" = [] ∧ validate subscription_doc "subscription" = [].
Proof. by vm_compute. Qed.

(** ** Properties *)

(** C36: [document.validate] reports no problem exactly for the documents that are well formed:
    named after their file, a positive window, a probe path, at least one operation, status
    ranges inside 100-599, no status both definitive and not-executed, only known classes,
    selectors only on mutates, and selectors that are field paths with no empty segment. *)
Theorem validate_correct d stem : validate d stem = [] ↔ well_formed d stem.
Proof. apply validate_nil. Qed.

(** A directory that loads is in the snapshot as a whole: a type is declared exactly when
    some file of that name declares it in a well-formed document, with that document's
    definition, and every file does. *)
Theorem load_exact unmarshal dir s :
  Load unmarshal dir = inr s →
  (∀ t d, Lookup_type s t = Some d ↔
     ∃ raw doc, (t, inr raw) ∈ dir ∧ unmarshal raw = inr doc ∧
       well_formed doc t ∧ d = definition doc) ∧
  (∀ stem content, (stem, content) ∈ dir → is_Some (Lookup_type s stem)).
Proof.
  intros [Hiff Hall]%Load_declares. split.
  - intros t d. rewrite Hiff. unfold declares. naive_solver.
  - intros stem content Hin. destruct (Hall _ Hin) as (t & d & raw & doc & [= -> ->] & ?).
    exists d. apply Hiff. exists (t, inr raw). split; [done|]. by exists raw, doc.
Qed.

Lemma load_exact_witness :
  ∃ s, Load shipped_unmarshal shipped_dir = inr s ∧ is_Some (Lookup_type s "invoice").
Proof.
  destruct (Load shipped_unmarshal shipped_dir) as [e|s] eqn:H; [by vm_compute in H|].
  exists s. split; [done|].
  apply (proj2 (load_exact shipped_unmarshal shipped_dir s H) "invoice" (inr "I")).
  apply list_elem_of_further, list_elem_of_here.
Defined.

(** The snapshot, its version included, depends on the files and not on the order the
    directory lists them in, so replicas that hold the same files report the same version. *)
Theorem load_listing_order unmarshal (dir dir' : directory) :
  NoDup dir.*1 → dir ≡ₚ dir' → Load unmarshal dir = Load unmarshal dir'.
Proof. intros Hnd Hp. unfold Load. by rewrite (sorted_listing dir dir'). Qed.

Lemma load_listing_order_witness :
  NoDup shipped_dir.*1 ∧
  Load shipped_unmarshal shipped_dir = Load shipped_unmarshal (reverse shipped_dir).
Proof.
  assert (H : NoDup shipped_dir.*1) by (apply (bool_decide_unpack _); vm_compute; done).
  split; [exact H|].
  apply (load_listing_order shipped_unmarshal shipped_dir (reverse shipped_dir) H).
  symmetry. apply reverse_Permutation.
Defined.

(** A running process serves, after any sequence of reloads, either the snapshot it booted
    with or one that some directory it saw loads as a whole; a directory that does not load
    changes nothing and is reported once. *)
Theorem watch_serves_last_good unmarshal store ticks :
  (∃ dir, (dir ∈ ticks ∧ Load unmarshal dir = inr (current (Watch unmarshal store ticks).1))) ∨
  (Watch unmarshal store ticks).1 = store.
Proof.
  revert store. induction ticks as [|dir ticks IH]; intros store; simpl; [by right|].
  pose proof (reload_current unmarshal store dir) as Hr.
  destruct (reload unmarshal store dir) as [store' outcome]. simpl in Hr.
  specialize (IH store'). destruct (Watch unmarshal store' ticks) as [final events]. simpl in *.
  destruct IH as [(d & ? & ?)| ->]; [left; exists d; rewrite elem_of_cons; by auto|].
  destruct Hr as [->|(s & ? & ->)]; [by right|]. left. exists dir. rewrite elem_of_cons. by auto.
Qed.

(** A valid window below 2^63 nanoseconds is kept exactly and is positive; the bound is the
    largest count of milliseconds an [int64] of nanoseconds holds. *)
Theorem window_exact d stem :
  validate d stem = [] → d_ConflictWindowMS d <= 9223372036854 →
  ConflictWindow (definition d) = d_ConflictWindowMS d * Millisecond ∧
  0 < ConflictWindow (definition d).
Proof.
  intros Hv%validate_nil Hb. pose proof (wf_window _ _ Hv). simpl.
  rewrite wrap64_id by (unfold int64_min, int64_max, Millisecond; lia).
  unfold Millisecond. lia.
Qed.

Lemma window_exact_witness :
  ConflictWindow (definition invoice_doc) = 5000 * Millisecond ∧
  0 < ConflictWindow (definition invoice_doc).
Proof. apply (window_exact invoice_doc "invoice"); by vm_compute. Defined.

(** Past that bound [validate] still accepts the document and the product wraps: here a
    positive declared window becomes a negative one, which no intent is ever inside. *)
Theorem window_overflow_accepted :
  ∃ d, validate d (d_ResourceType d) = [] ∧ 0 < d_ConflictWindowMS d ∧
    ConflictWindow (definition d) < 0.
Proof.
  exists {| d_ResourceType := "invoice"; d_ConflictWindowMS := 9223372036855;
            d_Enforce := true; d_ProbePath := "/probe";
            d_Operations := d_Operations invoice_doc; d_Errors := d_Errors invoice_doc |}.
  by vm_compute.
Qed.
