(* ===== verification/Conflict.v ===== *)
(** * Conflict: internal/conflict/conflict.go

    ADR-0007's compatibility matrix between two declared operations and the disjointness of
    their scope selectors.  [writes] is what a selector means: the set of fields, as paths of
    segments, that an operation with that selector may write. *)

From S2P Require Import Prelude GoString Manifest.

(** Prefix containment on dotted paths. *)
Definition overlaps (a b : string) : bool :=
  String.eqb a b || HasPrefix a (b +:+ ".") || HasPrefix b (a +:+ ".").

Definition ScopesDisjoint (a b : list string) : bool :=
  if (length a =? 0)%nat || (length b =? 0)%nat then false
  else forallb (λ left, forallb (λ right, negb (overlaps left right)) b) a.

(** [Compatible]: the [switch] in the order of its cases. *)
Definition Compatible (a b : Operation) : bool :=
  let is_class (o : Operation) (c : string) := String.eqb (Class o) c in
  if is_class a ClassAppend && is_class b ClassAppend then true
  else if (is_class a ClassAppend && is_class b ClassMutate) ||
          (is_class a ClassMutate && is_class b ClassAppend) then true
  else if is_class a ClassMutate && is_class b ClassMutate
  then ScopesDisjoint (Scope a) (Scope b)
  else false.

Definition scopeText (scope : list string) : string :=
  if (length scope =? 0)%nat then "(whole resource)"
  else "[" +:+ Join scope " " +:+ "]".

Definition Reason (incoming existing : Operation) : string :=
  if String.eqb (Class incoming) ClassMutate && String.eqb (Class existing) ClassMutate
  then "mutate/mutate with overlapping scope " +:+ scopeText (Scope incoming) +:+
       " and " +:+ scopeText (Scope existing)
  else Class incoming +:+ "/" +:+ Class existing.

(** ** What a selector writes *)

(** The field [field] is written by selector [scope]: some path of the selector is the field
    or an ancestor of it, and an empty selector writes every field. *)
Definition writes (scope : list string) (field : string) : Prop :=
  match scope with
  | [] => True
  | _ => ∃ path, path ∈ scope ∧ segments path `prefix_of` segments field
  end.

(** The path made of the given segments. *)
Definition path_of (segs : list string) : string := Join segs ".".

(** ** Lemmas *)

#[local] Arguments String.append !_ _ /.

Lemma segments_dot a b :
  segments (a +:+ String "." b) = segments a ++ segments b.
Proof.
  induction a as [|c a IH]; [done|]. simpl.
  case_bool_decide as Hc; simpl.
  - by rewrite IH.
  - rewrite IH. by destruct (segments_cons a) as (h & t & ->).
Qed.

Lemma segments_join segs : segs ≠ [] →
  Forall (λ s, segments s = [s]) segs → segments (path_of segs) = segs.
Proof.
  unfold path_of. induction segs as [|s [|s' r] IH]; [done| |]; intros _ Hf; inversion Hf; subst.
  - done.
  - change (segments (s +:+ String "." (Join (s' :: r) ".")) = s :: s' :: r).
    by rewrite segments_dot, IH, H1.
Qed.

Lemma segments_simple s : Forall (λ x, segments x = [x]) (segments s).
Proof.
  induction s as [|c r IH]; simpl; [by repeat constructor|].
  case_bool_decide as Hc; [by constructor|].
  destruct (segments_cons r) as (h & t & E). rewrite E in *.
  inversion IH as [|? ? Hh Ht]; subst. constructor; [|done].
  simpl. rewrite bool_decide_eq_false_2 by done. by rewrite Hh.
Qed.

Lemma path_of_segments s : path_of (segments s) = s.
Proof.
  unfold path_of. induction s as [|c r IH]; [done|]. simpl.
  destruct (segments_cons r) as (h & t & E). rewrite E in *.
  case_bool_decide as Hc.
  - rewrite Hc. simpl in *. by rewrite IH.
  - rewrite <- IH. by destruct t.
Qed.

Lemma segments_inj a b : segments a = segments b → a = b.
Proof. intros H. by rewrite <- (path_of_segments a), <- (path_of_segments b), H. Qed.

(** String prefix up to a dot is containment of the segment lists. *)
Lemma prefix_dot_segments a b :
  HasPrefix a (b +:+ ".") = true ↔ ∃ rest, rest ≠ [] ∧ segments a = segments b ++ rest.
Proof.
  rewrite HasPrefix_spec. split.
  - intros [t ->]. exists (segments t). rewrite append_assoc. simpl. rewrite segments_dot.
    destruct (segments_cons t) as (h & l & ->). done.
  - intros (rest & Hne & H). exists (path_of rest). rewrite append_assoc. simpl.
    apply segments_inj. rewrite segments_dot, H, segments_join; [done..|].
    pose proof (segments_simple a) as Hf. rewrite H in Hf. by apply Forall_app in Hf as [_ ?].
Qed.

Lemma overlaps_spec a b :
  overlaps a b = true ↔
  segments a `prefix_of` segments b ∨ segments b `prefix_of` segments a.
Proof.
  unfold overlaps. rewrite !orb_true_iff, String.eqb_eq, !prefix_dot_segments. split.
  - intros [[->|(r & _ & ->)]|(r & _ & ->)]; [by left|right|left]; apply prefix_app_r; done.
  - intros [[[|x r] H]|[[|x r] H]].
    + left. left. apply segments_inj. by rewrite H, app_nil_r.
    + right. exists (x :: r). done.
    + left. left. apply segments_inj. by rewrite H, app_nil_r.
    + left. right. exists (x :: r). done.
Qed.

Lemma overlaps_comm a b : overlaps a b = overlaps b a.
Proof. apply eq_iff_eq_true. rewrite !overlaps_spec. tauto. Qed.

Lemma ScopesDisjoint_spec a b :
  ScopesDisjoint a b = true ↔
  a ≠ [] ∧ b ≠ [] ∧ ∀ x y, x ∈ a → y ∈ b → overlaps x y = false.
Proof.
  unfold ScopesDisjoint. destruct a as [|x0 a]; [naive_solver|].
  destruct b as [|y0 b]; [naive_solver|].
  cbv [length Nat.eqb orb]. rewrite forallb_forall. setoid_rewrite forallb_forall.
  setoid_rewrite <- list_elem_of_In. setoid_rewrite negb_true_iff. naive_solver.
Qed.

Lemma prefix_common {A} (l1 l2 l : list A) :
  l1 `prefix_of` l → l2 `prefix_of` l → l1 `prefix_of` l2 ∨ l2 `prefix_of` l1.
Proof. apply prefix_weak_total. Qed.

Lemma ScopesDisjoint_comm a b : ScopesDisjoint a b = ScopesDisjoint b a.
Proof.
  apply eq_iff_eq_true. rewrite !ScopesDisjoint_spec. setoid_rewrite overlaps_comm at 1.
  naive_solver.
Qed.

Lemma Compatible_comm a b : Compatible a b = Compatible b a.
Proof.
  unfold Compatible. rewrite (ScopesDisjoint_comm (Scope a)).
  destruct (String.eqb (Class a) ClassAppend), (String.eqb (Class b) ClassAppend),
    (String.eqb (Class a) ClassMutate), (String.eqb (Class b) ClassMutate); done.
Qed.

Lemma writes_disjoint a b :
  ScopesDisjoint a b = true ↔ ∀ field, writes a field → writes b field → False.
Proof.
  rewrite ScopesDisjoint_spec. split.
  - intros (Ha & Hb & Hd) field Hwa Hwb.
    destruct a as [|x0 a]; [done|]. destruct b as [|y0 b]; [done|].
    destruct Hwa as (x & Hx & Hpx), Hwb as (y & Hy & Hpy).
    specialize (Hd x y Hx Hy). apply not_true_iff_false in Hd. apply Hd, overlaps_spec.
    by eapply prefix_common.
  - intros H. split_and!.
    + intros ->. destruct b as [|y b]; [by apply (H EmptyString)|].
      apply (H y); [done|]. exists y. split; [apply list_elem_of_here|done].
    + intros ->. destruct a as [|x a]; [by apply (H EmptyString)|].
      apply (H x); [|done]. exists x. split; [apply list_elem_of_here|done].
    + intros x y Hx Hy. apply not_true_is_false. intros Ho%overlaps_spec.
      assert (Hw : ∀ l p q, p ∈ l → segments p `prefix_of` segments q → writes l q).
      { intros [|z l] p q Hp ?; [done|]. by exists p. }
      destruct Ho; [apply (H y)|apply (H x)]; eauto.
Qed.

(** ** Properties *)

(** Two selectors are reported disjoint exactly when no field of the resource is written by
    both, reading a path as that field and everything below it and the empty selector as the
    whole resource; comparing dotted strings by prefix is therefore neither too coarse nor too
    fine. *)
Theorem scopes_disjoint_correct a b :
  ScopesDisjoint a b = true ↔ ∀ field, writes a field → writes b field → False.
Proof. apply writes_disjoint. Qed.

(** The compatibility matrix of ADR-0007, and its symmetry, so a verdict does not depend on
    which of two writers came first: two operations are compatible exactly when each is an
    append or a mutate and, if both are mutates, no field is written by both. *)
Theorem compatible_correct a b :
  (Compatible a b = true ↔
     (Class a = ClassAppend ∨ Class a = ClassMutate) ∧
     (Class b = ClassAppend ∨ Class b = ClassMutate) ∧
     (Class a = ClassMutate → Class b = ClassMutate →
        ∀ field, writes (Scope a) field → writes (Scope b) field → False)) ∧
  Compatible a b = Compatible b a.
Proof.
  split; [|apply Compatible_comm]. rewrite <- writes_disjoint. unfold Compatible.
  destruct (String.eqb_spec (Class a) ClassAppend) as [Ha|Ha],
    (String.eqb_spec (Class b) ClassAppend) as [Hb|Hb]; rewrite ?Ha, ?Hb; simpl;
  destruct (String.eqb_spec (Class a) ClassMutate) as [Ha'|Ha'],
    (String.eqb_spec (Class b) ClassMutate) as [Hb'|Hb']; rewrite ?Ha', ?Hb'; simpl;
  naive_solver.
Qed.

Example overlaps_examples :
  overlaps "billing_address" "billing_address.city" = true ∧
  overlaps "billing_address" "billing" = false ∧
  Reason (mkOperation "mutate" (Some ["status"])) (mkOperation "mutate" (Some ["status"; "note"])) =
    "mutate/mutate with overlapping scope [status] and [status note]".
Proof. by vm_compute. Qed.
