(* ===== verification/Latency.v ===== *)
(** * Latency: internal/latency

    Per resource type, the last 256 downstream latencies in a ring, and the Retry-After advice:
    their p95, clamped.  The index of the p95 is a product of doubles truncated to an integer;
    it is computed with the IEEE 754 model of the Standard Library. *)

From S2P Require Import Prelude GoFloat.

Module Latency.

Definition window : nat := 256.
Definition Floor : Z := 50 * Millisecond.
Definition Ceiling : Z := 5 * Second.
Definition Default : Z := Second.

Record Tracker := mkTracker {
  samples : gmap string (list Z);
  next : gmap string nat;
}.

Definition NewTracker : Tracker := mkTracker ∅ ∅.

(** [Observe]; [held[at] = took] writes the array the map holds. *)
Definition Observe (resourceType : string) (took : Z) (t : Tracker) : Tracker :=
  let held := default [] (samples t !! resourceType) in
  if (length held <? window)%nat
  then mkTracker (<[resourceType := held ++ [took]]> (samples t)) (next t)
  else
    let at_ := default 0%nat (next t !! resourceType) in
    mkTracker (<[resourceType := <[at_ := took]> held]> (samples t))
      (<[resourceType := ((at_ + 1) `mod` window)%nat]> (next t)).

Definition clamp (d : Z) : Z :=
  if decide (d < Floor) then Floor else if decide (Ceiling < d) then Ceiling else d.

(** ** Doubles *)

(** The double nearest to 0.95, 8556839292003942 / 2^53. *)
Definition double_0_95 : spec_float := S754_finite false 8556839292003942 (-53).

Definition p95_index (n : nat) : Z :=
  int_of_float64 (float64_mul (float64_of_int (Z.of_nat n - 1)) double_0_95).

Definition RetryAfter (resourceType : string) (t : Tracker) : Z :=
  let held := default [] (samples t !! resourceType) in
  if (length held =? 0)%nat then Default
  else clamp (default 0 (merge_sort Z.le held !! Z.to_nat (p95_index (length held)))).

(** ** Lemmas *)

Lemma p95_index_exact_all :
  forallb (λ n, p95_index n =? (Z.of_nat n - 1) * 95 / 100) (seq 1 window) = true.
Proof. by vm_compute. Qed.

(** For every size the ring can have, the double is the exact rank. *)
Lemma p95_index_exact n : (1 <= n <= window)%nat → p95_index n = (Z.of_nat n - 1) * 95 / 100.
Proof.
  intros Hn. pose proof p95_index_exact_all as Hall. rewrite forallb_forall in Hall.
  apply Z.eqb_eq, Hall. apply in_seq. lia.
Qed.

Lemma clamp_bounds d : Floor <= clamp d <= Ceiling.
Proof. unfold clamp, Floor, Ceiling, Millisecond, Second. repeat case_decide; lia. Qed.

(** What the ring of a type holds after the observations [l], oldest first. *)
Definition ring_holds (l : list Z) (held : list Z) (at_ : nat) : Prop :=
  (length l < window)%nat ∧ held = l ∧ at_ = 0%nat ∨
  (window <= length l)%nat ∧ length held = window ∧ (at_ < window)%nat ∧
    drop at_ held ++ take at_ held = drop (length l - window) l.

Lemma ring_append l took :
  (length l < window)%nat → ring_holds (l ++ [took]) (l ++ [took]) 0.
Proof.
  intros Hl. unfold ring_holds. rewrite length_app. simpl.
  destruct (decide (length l + 1 < window)%nat); [by left|]. right. unfold window in *.
  split_and!; [lia..|]. by replace (length l + 1 - 256)%nat with 0%nat by lia; rewrite drop_0, app_nil_r.
Qed.

Lemma ring_overwrite l held at_ took :
  (window <= length l)%nat → ring_holds l held at_ →
  ring_holds (l ++ [took]) (<[at_ := took]> held) ((at_ + 1) `mod` window).
Proof.
  intros Hl [[? _]|(_ & Hlen & Hat & Hrot)]; [lia|]. right. rewrite length_insert, length_app.
  cbn [length]. split_and!; [lia|done|by apply Nat.mod_upper_bound|]. unfold window in *.
  assert (Hsplit : drop (at_ + 1) (<[at_ := took]> held) ++ take (at_ + 1) (<[at_ := took]> held) =
    drop (length l + 1 - 256) (l ++ [took])).
  { rewrite drop_insert_lt by lia. rewrite Nat.add_1_r at 2.
    rewrite (take_S_r _ _ took) by (apply list_lookup_insert_eq; lia).
    rewrite take_insert_ge by lia. rewrite app_assoc.
    replace (length l + 1 - 256)%nat with ((length l - 256) + 1)%nat by lia.
    rewrite drop_app_le by lia. rewrite <- !drop_drop, <- Hrot. f_equal.
    by rewrite drop_app_le by (rewrite length_drop; lia). }
  destruct (decide (at_ + 1 = 256)%nat) as [He|Hne].
  - rewrite He in *. change (256 `mod` 256)%nat with 0%nat. rewrite <- Hsplit.
    rewrite drop_0, (drop_ge _ 256), (take_ge _ 256) by (rewrite length_insert; lia).
    by rewrite take_0, app_nil_r.
  - rewrite Nat.mod_small by lia. done.
Qed.

(** Observations of several types, in the order they are made. *)
Definition observe_all (l : list (string * Z)) (t : Tracker) : Tracker :=
  fold_left (λ t '(resourceType, took), Observe resourceType took t) l t.

(** Those of one type. *)
Definition observed_of (resourceType : string) (l : list (string * Z)) : list Z :=
  (filter (λ o, o.1 = resourceType) l).*2.

Lemma observe_ring l resourceType :
  let t := observe_all l NewTracker in
  ring_holds (observed_of resourceType l) (default [] (samples t !! resourceType))
    (default 0%nat (next t !! resourceType)).
Proof.
  induction l as [|[rt took] l IH] using rev_ind; intros t.
  { left. unfold t, NewTracker. simpl. rewrite !lookup_empty. split; [unfold window; simpl; lia|done]. }
  subst t. unfold observe_all, observed_of in *. rewrite fold_left_app, filter_app, fmap_app. simpl.
  set (t := fold_left _ l NewTracker) in *. unfold Observe.
  destruct (decide (rt = resourceType)) as [->|Hne].
  - rewrite filter_cons_True, filter_nil by done. simpl.
    set (seen := (filter _ l).*2) in *.
    assert (Hlen : (length (default [] (samples t !! resourceType)) < window)%nat ↔
      (length seen < window)%nat).
    { destruct IH as [(? & -> & _)|(? & -> & _)]; lia. }
    destruct (Nat.ltb_spec (length (default [] (samples t !! resourceType))) window) as [Hlt|Hge]; simpl.
    + destruct IH as [(Hs & -> & ->)|(? & ? & _)]; [|lia].
      rewrite lookup_insert_eq. simpl. by apply ring_append.
    + rewrite !lookup_insert_eq. simpl. apply ring_overwrite; [lia|done].
  - rewrite filter_cons_False, filter_nil, app_nil_r by done.
    destruct (Nat.ltb _ _); simpl; by rewrite !lookup_insert_ne by done.
Qed.

(** The most recent [window] observations. *)
Definition recent (l : list Z) : list Z := drop (length l - window) l.

Lemma ring_recent l held at_ : ring_holds l held at_ → held ≡ₚ recent l.
Proof.
  unfold recent. intros [(Hl & -> & _)|(_ & _ & _ & <-)].
  - by replace (length l - window)%nat with 0%nat by lia.
  - by rewrite Permutation_app_comm, take_drop.
Qed.

#[export] Instance Zle_total : Total Z.le.
Proof. intros a b. lia. Qed.

Lemma sort_permutation (l l' : list Z) : l ≡ₚ l' → merge_sort Z.le l = merge_sort Z.le l'.
Proof.
  intros Hp. apply (Sorted_unique Z.le).
  - apply Sorted_merge_sort, _.
  - apply Sorted_merge_sort, _.
  - by rewrite !merge_sort_Permutation.
Qed.

(** ** Theorems *)

(** C38: the advice is the clamped p95 of the most recent observations: after any interleaving
    of observations, of any types, [RetryAfter] of a type without observations is the default,
    and otherwise the value of rank (n-1)*95/100, exactly, in the sorted list of that type's
    last n <= 256 latencies, clamped; the ring and the double arithmetic do not show. *)
Theorem retry_after_is_p95 l resourceType :
  let t := observe_all l NewTracker in
  let last := recent (observed_of resourceType l) in
  RetryAfter resourceType t =
    match last with
    | [] => Default
    | _ => clamp (default 0 (merge_sort Z.le last !! ((length last - 1) * 95 / 100)%nat))
    end.
Proof.
  intros t last. pose proof (observe_ring l resourceType) as Hr. fold t in Hr. simpl in Hr.
  assert (Hw : (length last <= window)%nat).
  { unfold last, recent. rewrite length_drop. lia. }
  apply ring_recent in Hr. fold last in Hr. unfold RetryAfter.
  set (held := default [] (samples t !! resourceType)) in *.
  rewrite (Permutation_length Hr), (sort_permutation _ _ Hr).
  destruct last as [|x rest] eqn:Hlast; [done|]. simpl (length _ =? 0)%nat. cbv iota.
  rewrite p95_index_exact by (simpl in *; lia). do 3 f_equal.
  rewrite Z2Nat.inj_div by (simpl; lia). f_equal; simpl; lia.
Qed.

(** The advice always lies between 50 ms and 5 s, and the rank is a position of the list, so
    the read is never out of range. *)
Theorem retry_after_bounds resourceType t :
  Floor <= RetryAfter resourceType t <= Ceiling ∧
  ∀ n, (1 <= n <= window)%nat → 0 <= p95_index n < Z.of_nat n.
Proof.
  split.
  - unfold RetryAfter. destruct (_ =? _)%nat; [by vm_compute|apply clamp_bounds].
  - intros n Hn. rewrite p95_index_exact by done. unfold window in *.
    pose proof (Z.div_pos ((Z.of_nat n - 1) * 95) 100).
    pose proof (Z.div_lt_upper_bound ((Z.of_nat n - 1) * 95) 100 (Z.of_nat n)). lia.
Qed.

End Latency.
