(* ===== verification/World.v ===== *)
(** * World: the database, the transaction discipline and the other effects

    The tables of migrations/0001_init.sql and 0002_*.sql as a record, one transaction at a
    time over a committed state, and the outside world as scripts: what each round trip to the
    database does ([w_faults]), what other connections commit in between ([w_env]), what
    [time.Now] reads ([w_clock]), which wait is cut short by the request context
    ([w_cancel]), what the downstream answers ([w_replies]) and whether the object store
    takes a request ([w_objfaults]); [w_metrics] and [w_latency] are the process's own.  A theorem quantifies over all of them.

    A transaction is one atomic step here; Interleave.v runs the statements of several
    transactions side by side. *)

From S2P Require Import Prelude GoString Sha256 Manifest Latency.

(** ** Postgres

    [uuidv7 n] is the text of the [n]-th generated identifier; [jsonb_in] is the text of the
    [jsonb] value a text casts to, if it casts; [hashtextextended] is the hash with which
    claim.go asks for its advisory lock. *)
Class Pg := {
  uuidv7 : nat → string;
  uuidv7_inj :: Inj (=) (=) uuidv7;
  uuidv7_nonempty n : uuidv7 n ≠ EmptyString;
  jsonb_in : string → option string;
  hashtextextended : string → Z;
}.

(** A concrete database server for examples: numbered identifiers, text kept as it is. *)
Definition demo_uuid (n : nat) : string := "id-" +:+ pretty n.

#[export] Instance demo_uuid_inj : Inj (=) (=) demo_uuid.
Proof. intros n m H. unfold demo_uuid in H. by apply append_inj_r, pretty_nat_inj in H. Qed.

Lemma demo_uuid_nonempty n : demo_uuid n ≠ EmptyString.
Proof. done. Qed.

Definition demo_pg : Pg := {|
  uuidv7 := demo_uuid;
  uuidv7_inj := demo_uuid_inj;
  uuidv7_nonempty := demo_uuid_nonempty;
  jsonb_in := λ s, Some s;
  hashtextextended := λ s, Z.of_nat (String.length s);
|}.

(** ** Tables *)

Inductive Status :=
| StatusPending
| StatusDone
| StatusFailed
| StatusIndeterminate
| StatusRejected.

Inductive Resolution :=
| ResolutionSerialized
| ResolutionRejected
| ResolutionObserved.

#[export] Instance Status_eq_dec : EqDecision Status.
Proof. solve_decision. Defined.
#[export] Instance Resolution_eq_dec : EqDecision Resolution.
Proof. solve_decision. Defined.

(** The constants behind the two string types. *)
Definition status_text (s : Status) : string :=
  match s with
  | StatusPending => "pending"
  | StatusDone => "done"
  | StatusFailed => "failed"
  | StatusIndeterminate => "indeterminate"
  | StatusRejected => "rejected"
  end.

Definition resolution_text (r : Resolution) : string :=
  match r with
  | ResolutionSerialized => "serialized"
  | ResolutionRejected => "rejected"
  | ResolutionObserved => "observed"
  end.

(** A row of [idempotency_keys]; its primary key is the map key. *)
Record key_row := mkKey {
  k_hash : string;
  k_status : Status;
  k_rtype : string;
  k_rid : string;
  k_op : string;
  k_result : option string;
  k_ref : option string;
  k_detail : option string;
  k_attempt : Z;
  k_created : Z;
  k_claimed : Z;
  k_completed : option Z;
}.

(** A row of [write_intents]; a NULL [scope_selector] is the nil slice of [i_declared]. *)
Record intent_row := mkIntent {
  i_id : string;
  i_agent : string;
  i_key : string;
  i_rtype : string;
  i_rid : string;
  i_op : string;
  i_declared : Operation;
  i_payload : string;
  i_emitted : Z;
  i_published : option Z;
  i_voided : option Z;
}.

(** A row of [conflicts]. *)
Record conflict_row := mkConflict {
  c_id : string;
  c_intent_a : string;
  c_intent_b : string;
  c_agent_a : string;
  c_agent_b : string;
  c_rtype : string;
  c_rid : string;
  c_reason : string;
  c_resolution : Resolution;
  c_version : option string;
  c_detected : Z;
}.

(** A row of [manifest_activations]. *)
Record activation_row := mkActivation {
  a_version : string;
  a_principal : string;
  a_types : list string;
  a_at : Z;
}.

(** A row of [payload_access_audit]. *)
Record audit_row := mkAudit {
  u_id : string;
  u_principal : string;
  u_role : string;
  u_endpoint : string;
  u_params : string;
  u_count : Z;
  u_intents : option (list string);
  u_reason : option string;
  u_at : Z;
}.

(** The database: timestamps are microseconds, [db_now] is what [now()] reads, [db_next]
    counts the identifiers generated. *)
Record DB := mkDB {
  db_now : Z;
  db_next : nat;
  db_keys : gmap (string * string) key_row;
  db_intents : list intent_row;
  db_conflicts : list conflict_row;
  db_activations : list activation_row;
  db_audit : list audit_row;
}.

Definition set_keys (f : gmap (string * string) key_row → gmap (string * string) key_row)
    (d : DB) : DB :=
  mkDB (db_now d) (db_next d) (f (db_keys d)) (db_intents d) (db_conflicts d) (db_activations d) (db_audit d).
Definition set_intents (f : list intent_row → list intent_row) (d : DB) : DB :=
  mkDB (db_now d) (db_next d) (db_keys d) (f (db_intents d)) (db_conflicts d) (db_activations d) (db_audit d).
Definition set_conflicts (f : list conflict_row → list conflict_row) (d : DB) : DB :=
  mkDB (db_now d) (db_next d) (db_keys d) (db_intents d) (f (db_conflicts d)) (db_activations d) (db_audit d).
Definition set_activations (f : list activation_row → list activation_row) (d : DB) : DB :=
  mkDB (db_now d) (db_next d) (db_keys d) (db_intents d) (db_conflicts d) (f (db_activations d)) (db_audit d).
Definition bump_next (d : DB) : DB :=
  mkDB (db_now d) (S (db_next d)) (db_keys d) (db_intents d) (db_conflicts d) (db_activations d) (db_audit d).
Definition set_now (t : Z) (d : DB) : DB :=
  mkDB t (db_next d) (db_keys d) (db_intents d) (db_conflicts d) (db_activations d) (db_audit d).
Definition set_audit (f : list audit_row → list audit_row) (d : DB) : DB :=
  mkDB (db_now d) (db_next d) (db_keys d) (db_intents d) (db_conflicts d) (db_activations d) (f (db_audit d)).

Definition empty_db : DB := mkDB 0 0 ∅ [] [] [] [].

(** [make_interval(secs => d.Seconds())] in microseconds, for a duration in nanoseconds. *)
Definition interval_us (d : Z) : Z := (d + 500) / 1000.

(** A statement: its result and the table state after it, or the server's error. *)
Abbreviation stmt X := (DB → goerr + (X * DB)).

(** ** The world *)

(** One round trip: it works, it is refused with an error and no effect, or it takes effect
    and its acknowledgement is lost. *)
Inductive fault :=
| Fine
| Refused (e : goerr)
| LostAck (e : goerr).

(** What [http.Client.Do] and the reading of the body give.  The client follows redirects: a POST
    that is answered 301, 302 or 303 is followed by a GET of the location, whose reply is then the
    [Response]; 307 and 308 are a [Response] themselves, for the body of a POST cannot be read
    again.  [DialError]: no connection for the call itself; [RedirectDialError]: the call was
    answered by a redirect of that status, and no connection could be had for the GET. *)
Inductive transport :=
| DialError (text : string)
| RedirectDialError (status : Z) (text : string)
| SendError (text : string)
| ReadError (text : string)
| Response (status : Z) (payload : string).

(** The statuses after which the client goes on with a GET. *)
Definition redirecting (status : Z) : Prop := status ∈ [301; 302; 303].
#[export] Instance redirecting_dec status : Decision (redirecting status).
Proof. unfold redirecting. apply _. Defined.

(** A call that left this process for the downstream. *)
Record call := mkCall {
  call_correlation : string;
  call_agent : string;
  call_key : string;
  call_rtype : string;
  call_rid : string;
  call_op : string;
  call_payload : string;
}.

#[export] Instance call_eq_dec : EqDecision call.
Proof. solve_decision. Defined.

(** A change of a Prometheus series, with its label values. *)
Inductive metric :=
| Inc (name : string) (labels : list string)
| Add (name : string) (labels : list string) (n : Z)
| Observe (name : string) (labels : list string) (v : Z).

Record world := mkWorld {
  w_db : DB;
  w_tx : option DB;
  w_faults : list fault;
  w_env : list (DB → DB);
  w_clock : nat → Z;
  w_cancel : list bool;
  w_replies : list transport;
  w_sent : list call;
  w_objects : gmap string string;
  w_objfaults : list fault;
  w_metrics : list metric;
  w_latency : Latency.Tracker;
}.

Definition set_db (d : DB) (w : world) : world :=
  mkWorld d (w_tx w) (w_faults w) (w_env w) (w_clock w) (w_cancel w) (w_replies w) (w_sent w)
    (w_objects w) (w_objfaults w) (w_metrics w) (w_latency w).
Definition set_tx (t : option DB) (w : world) : world :=
  mkWorld (w_db w) t (w_faults w) (w_env w) (w_clock w) (w_cancel w) (w_replies w) (w_sent w)
    (w_objects w) (w_objfaults w) (w_metrics w) (w_latency w).
Definition set_faults (l : list fault) (w : world) : world :=
  mkWorld (w_db w) (w_tx w) l (w_env w) (w_clock w) (w_cancel w) (w_replies w) (w_sent w)
    (w_objects w) (w_objfaults w) (w_metrics w) (w_latency w).
Definition set_env (l : list (DB → DB)) (w : world) : world :=
  mkWorld (w_db w) (w_tx w) (w_faults w) l (w_clock w) (w_cancel w) (w_replies w) (w_sent w)
    (w_objects w) (w_objfaults w) (w_metrics w) (w_latency w).
Definition set_clock (l : nat → Z) (w : world) : world :=
  mkWorld (w_db w) (w_tx w) (w_faults w) (w_env w) l (w_cancel w) (w_replies w) (w_sent w)
    (w_objects w) (w_objfaults w) (w_metrics w) (w_latency w).
Definition set_cancel (l : list bool) (w : world) : world :=
  mkWorld (w_db w) (w_tx w) (w_faults w) (w_env w) (w_clock w) l (w_replies w) (w_sent w)
    (w_objects w) (w_objfaults w) (w_metrics w) (w_latency w).
Definition set_replies (l : list transport) (w : world) : world :=
  mkWorld (w_db w) (w_tx w) (w_faults w) (w_env w) (w_clock w) (w_cancel w) l (w_sent w)
    (w_objects w) (w_objfaults w) (w_metrics w) (w_latency w).
Definition set_sent (l : list call) (w : world) : world :=
  mkWorld (w_db w) (w_tx w) (w_faults w) (w_env w) (w_clock w) (w_cancel w) (w_replies w) l
    (w_objects w) (w_objfaults w) (w_metrics w) (w_latency w).
Definition set_objects (m : gmap string string) (w : world) : world :=
  mkWorld (w_db w) (w_tx w) (w_faults w) (w_env w) (w_clock w) (w_cancel w) (w_replies w)
    (w_sent w) m (w_objfaults w) (w_metrics w) (w_latency w).
Definition set_objfaults (l : list fault) (w : world) : world :=
  mkWorld (w_db w) (w_tx w) (w_faults w) (w_env w) (w_clock w) (w_cancel w) (w_replies w)
    (w_sent w) (w_objects w) l (w_metrics w) (w_latency w).
Definition set_metrics (l : list metric) (w : world) : world :=
  mkWorld (w_db w) (w_tx w) (w_faults w) (w_env w) (w_clock w) (w_cancel w) (w_replies w)
    (w_sent w) (w_objects w) (w_objfaults w) l (w_latency w).
Definition set_latency (t : Latency.Tracker) (w : world) : world :=
  mkWorld (w_db w) (w_tx w) (w_faults w) (w_env w) (w_clock w) (w_cancel w) (w_replies w)
    (w_sent w) (w_objects w) (w_objfaults w) (w_metrics w) t.

(** A world with the given database and nothing scripted. *)
Definition world_of (d : DB) : world := mkWorld d None [] [] (λ _, 0) [] [] [] ∅ [] [] Latency.NewTracker.

Abbreviation M := (St world).

(** ** Effects *)

Definition tx_closed : goerr := errorf "tx is closed".

(** Run a statement in the open transaction. *)
Definition exec {X} (s : stmt X) : M X := λ w,
  let w1 := set_faults (tail (w_faults w)) w in
  match default Fine (head (w_faults w)) with
  | Fine =>
      match w_tx w with
      | None => (inl tx_closed, w1)
      | Some v => match s v with
                  | inl e => (inl e, w1)
                  | inr (x, v') => (inr x, set_tx (Some v') w1)
                  end
      end
  | Refused e | LostAck e => (inl e, w1)
  end.

(** Run a statement on the pool, in a transaction of its own. *)
Definition query {X} (s : stmt X) : M X := λ w,
  let w1 := set_faults (tail (w_faults w)) w in
  match default Fine (head (w_faults w)) with
  | Refused e => (inl e, w1)
  | f => match s (w_db w) with
         | inl e => (inl e, w1)
         | inr (x, d) =>
             (match f with LostAck e => inl e | _ => inr x end, set_db d w1)
         end
  end.

Definition begin_tx : M unit := λ w,
  let w1 := set_faults (tail (w_faults w)) w in
  match default Fine (head (w_faults w)) with
  | Fine => (inr tt, set_tx (Some (w_db w)) w1)
  | Refused e | LostAck e => (inl e, w1)
  end.

Definition commit : M unit := λ w,
  let w1 := set_tx None (set_faults (tail (w_faults w)) w) in
  match w_tx w with
  | None => (inl tx_closed, w1)
  | Some v =>
      match default Fine (head (w_faults w)) with
      | Fine => (inr tt, set_db v w1)
      | Refused e => (inl e, w1)
      | LostAck e => (inl e, set_db v w1)
      end
  end.

(** [tx.Rollback]: nothing once the transaction is over. *)
Definition rollback (w : world) : world := set_tx None w.

(** [tx, err := pool.Begin; defer tx.Rollback; body]. *)
Definition with_tx {X} (context : string) (body : M X) : M X :=
  finally (_ ← wrapping context begin_tx; body) rollback.

(** [time.Now()]: the next reading. *)
Definition now : M Z := λ w, (inr (w_clock w 0%nat), set_clock (λ n, w_clock w (S n)) w).

(** Other connections commit. *)
Definition interleave : M unit := λ w,
  match w_env w with
  | [] => (inr tt, w)
  | f :: r => (inr tt, set_env r (set_db (f (w_db w)) w))
  end.

(** [select { case <-ctx.Done(): true; case <-time.After(_): false }]. *)
Definition ctx_done : M bool := λ w,
  (inr (default false (head (w_cancel w))), set_cancel (tail (w_cancel w)) w).

Definition emit (m : metric) : M unit := modify (λ w, set_metrics (w_metrics w ++ [m]) w).

(** [http.Client.Do] of a POST: it leaves unless no connection could be had for it; a dial that
    fails for the target of a redirect comes after it. *)
Definition send (c : call) : M transport := λ w,
  let t := default (SendError "EOF") (head (w_replies w)) in
  let w1 := set_replies (tail (w_replies w)) w in
  match t with
  | DialError _ => (inr t, w1)
  | _ => (inr t, set_sent (w_sent w ++ [c]) w1)
  end.

(** ** Reasoning about transactions *)

(** Every round trip of the script works. *)
Definition quiet (w : world) : Prop := Forall (λ f, f = Fine) (w_faults w).

(** Readings of the clock were consumed, none invented. *)
Definition later (w w' : world) : Prop := ∃ j, ∀ n, w_clock w' n = w_clock w (j + n)%nat.

(** Inside a transaction only the transaction, the script and the clock move. *)
Definition tx_frame (w w' : world) : Prop :=
  w' = set_tx (w_tx w') (set_faults (w_faults w') (set_clock (w_clock w') w)) ∧ later w w'.

(** [txwp m v ok Q]: run in a transaction whose table state is [v], [m] either stops with an
    error or ends with a value and a table state that satisfy [Q].  [ok] is a proposition under
    which the script is quiet; under it there is no error. *)
Definition txwp {A} (m : M A) (v : DB) (ok : Prop) (Q : A → DB → Prop) : Prop :=
  ∀ w, w_tx w = Some v → (ok → quiet w) →
  match m w with
  | (inl e, w') => tx_frame w w' ∧ (ok → False)
  | (inr x, w') => tx_frame w w' ∧ (ok → quiet w') ∧ ∃ v', w_tx w' = Some v' ∧ Q x v'
  end.

Lemma later_same w w' : w_clock w' = w_clock w → later w w'.
Proof. intros He. exists 0%nat. by rewrite He. Qed.

Lemma later_trans w1 w2 w3 : later w1 w2 → later w2 w3 → later w1 w3.
Proof.
  intros [i Hi] [j Hj]. exists (i + j)%nat. intros n. by rewrite Hj, Hi, Nat.add_assoc.
Qed.

Lemma tx_frame_same w w' : w' = set_tx (w_tx w') (set_faults (w_faults w') w) → tx_frame w w'.
Proof. intros ->. split; [by destruct w|by apply later_same]. Qed.

Lemma tx_frame_refl w : tx_frame w w.
Proof. apply tx_frame_same. by destruct w. Qed.

Lemma tx_frame_trans w1 w2 w3 : tx_frame w1 w2 → tx_frame w2 w3 → tx_frame w1 w3.
Proof.
  intros [H1 L1] [H2 L2]. split; [|by eapply later_trans].
  rewrite H2, H1. by destruct w1.
Qed.

Lemma quiet_tail w : quiet w → quiet (set_faults (tail (w_faults w)) w).
Proof. unfold quiet. destruct (w_faults w) as [|f l] eqn:E; simpl; [done|]. by inversion 1. Qed.

Lemma quiet_head w : quiet w → default Fine (head (w_faults w)) = Fine.
Proof. unfold quiet. destruct (w_faults w); simpl; [done|]. by inversion 1. Qed.

Section TxWp.
Context (ok : Prop).

Lemma txwp_ret {A} (x : A) v (Q : A → DB → Prop) : Q x v → txwp (mret x) v ok Q.
Proof. intros HQ w Hw Hq. simpl. split_and!; [apply tx_frame_refl|done|eauto]. Qed.

Lemma txwp_throw {A} e v (Q : A → DB → Prop) : (ok → False) → txwp (throw e) v ok Q.
Proof. intros Hok w Hw Hq. simpl. split; [apply tx_frame_refl|done]. Qed.

Lemma txwp_now v (Q : Z → DB → Prop) : (∀ t, Q t v) → txwp now v ok Q.
Proof.
  intros HQ w Hw Hq. unfold now. split_and!; [|done|exists v; auto].
  split; [by destruct w|by exists 1%nat].
Qed.

Lemma txwp_exec {X} (s : stmt X) v (Q : X → DB → Prop) :
  match s v with inl e => ok → False | inr (x, v') => Q x v' end → txwp (exec s) v ok Q.
Proof.
  intros HQ w Hw Hq. unfold exec. rewrite Hw.
  destruct (default Fine (head (w_faults w))) eqn:Ef.
  - destruct (s v) as [e|[x v']] eqn:Hs; [by split; [apply tx_frame_same; destruct w|]|].
    split_and!; [by apply tx_frame_same; destruct w| |by exists v']. intros H%Hq. by apply quiet_tail in H.
  - split; [by apply tx_frame_same; destruct w|]. intros H%Hq. rewrite (quiet_head _ H) in Ef. done.
  - split; [by apply tx_frame_same; destruct w|]. intros H%Hq. rewrite (quiet_head _ H) in Ef. done.
Qed.

(** A statement whose error the program inspects. *)
Lemma txwp_try_exec {X} (s : stmt X) v (Q : goerr + X → DB → Prop) :
  match s v with inl e => Q (inl e) v | inr (x, v') => Q (inr x) v' end →
  (∀ e, (ok → False) → Q (inl e) v) → txwp (try (exec s)) v ok Q.
Proof.
  intros HQ HE w Hw Hq. unfold try, exec. rewrite Hw.
  destruct (default Fine (head (w_faults w))) eqn:Ef.
  - destruct (s v) as [e|[x v']] eqn:Hs;
      (split_and!; [by apply tx_frame_same; destruct w| |by eexists]; intros H%Hq; by apply quiet_tail in H).
  - assert (ok → False) by (intros H%Hq; rewrite (quiet_head _ H) in Ef; done).
    split_and!; [by apply tx_frame_same; destruct w|done|]. exists v. auto.
  - assert (ok → False) by (intros H%Hq; rewrite (quiet_head _ H) in Ef; done).
    split_and!; [by apply tx_frame_same; destruct w|done|]. exists v. auto.
Qed.

Lemma txwp_bind {A B} (m : M A) (k : A → M B) v (Q : B → DB → Prop) :
  txwp m v ok (λ x v', txwp (k x) v' ok Q) → txwp (m ≫= k) v ok Q.
Proof.
  intros Hm w Hw Hq. specialize (Hm w Hw Hq).
  unfold mbind, St_bind. destruct (m w) as [[e|x] w1]; [done|].
  destruct Hm as (Hf & Hq1 & u & Hu & Hk). specialize (Hk w1 Hu Hq1).
  destruct (k x w1) as [[e|y] w2].
  - destruct Hk as [Hf2 HE]. split; [by eapply tx_frame_trans|done].
  - destruct Hk as (Hf2 & Hq2 & v' & Hv' & HR2).
    split_and!; [by eapply tx_frame_trans|done|]. eauto.
Qed.

Lemma txwp_mono {A} (m : M A) v (Q Q' : A → DB → Prop) :
  txwp m v ok Q → (∀ x v', Q x v' → Q' x v') → txwp m v ok Q'.
Proof.
  intros Hm HQ w Hw Hq. specialize (Hm w Hw Hq). destruct (m w) as [[e|x] w']; [done|].
  destruct Hm as (? & ? & v' & ? & ?). split_and!; [done..|]. eauto.
Qed.

Lemma txwp_ext {A} (m m' : M A) v (Q : A → DB → Prop) :
  (∀ w, m w = m' w) → txwp m v ok Q → txwp m' v ok Q.
Proof. intros He Hm w. rewrite <- He. apply Hm. Qed.

Lemma txwp_wrapping {A} c (m : M A) v (Q : A → DB → Prop) :
  txwp m v ok Q → txwp (wrapping c m) v ok Q.
Proof.
  intros Hm w Hw Hq. specialize (Hm w Hw Hq). unfold wrapping. by destruct (m w) as [[e|x] w'].
Qed.
End TxWp.

(** One step of symbolic execution inside a transaction. *)
Ltac tx_step :=
  lazymatch goal with
  | |- txwp (mret _) _ _ _ => apply txwp_ret
  | |- txwp (throw _) _ _ _ => apply txwp_throw
  | |- txwp (wrapping _ _) _ _ _ => apply txwp_wrapping
  | |- txwp (exec _) _ _ _ => apply txwp_exec
  | |- txwp (_ ≫= _) _ _ _ => apply txwp_bind
  end.
Ltac tx_steps := repeat (tx_step; simpl).

(** ** internal/manifest/activation.go *)

(** [INSERT INTO manifest_activations ... ON CONFLICT (principal, manifest_version) DO NOTHING]. *)
Definition recordActivation (ver principal : string) (types : list string) : stmt unit := λ d,
  if existsb (λ a, String.eqb (a_version a) ver && String.eqb (a_principal a) principal)
       (db_activations d)
  then inr (tt, d)
  else inr (tt, set_activations (λ l, l ++ [mkActivation ver principal types (db_now d)]) d).

Definition RecordActivation (snapshot : Snapshot) (principal : string) : M unit :=
  wrapping "record manifest activation"
    (query (recordActivation (version snapshot) principal (Types snapshot))).
