(* ===== verification/Json.v ===== *)
(** * Json: the parts of encoding/json the program uses

    The values the program builds and [json.Marshal] of them: the keys of a map ([JObj]) sorted, the fields
    of a struct ([JStruct]) in order, strings escaped as
    the default encoder does, bytes that are not UTF-8 replaced, a [json.RawMessage] compacted.
    And the scanner behind [json.Valid] and the compaction: a state machine over bytes with a
    stack of open objects and arrays, as in encoding/json/scanner.go. *)

From S2P Require Import Prelude GoString.

Inductive json :=
| JStr (s : string)
| JInt (z : Z)
| JBool (b : bool)
| JRaw (raw : string)
| JNull
| JList (items : list json)
| JStruct (fields : list (string * json))
| JObj (fields : list (string * json)).

Definition quote_char : ascii := byte_of 34.
Definition backslash : ascii := byte_of 92.

(** ** The scanner *)

Inductive parse_state := ParseObjectKey | ParseObjectValue | ParseArrayValue.

Inductive scan_state :=
| BeginValue | BeginValueOrEmpty | BeginStringOrEmpty | BeginString
| EndValue | EndTop
| InString | InStringEsc | InStringEscU (left : nat)
| Neg | S1 | S0 | Dot | Dot0 | SE | ESign | E0
| Lit (rest : list Z).

(** What a byte does: the next state and stack, and whether the byte is skipped blank space. *)
Definition scanned := option (scan_state * list parse_state * bool).

Definition is_space (v : Z) : bool := (v =? 32) || (v =? 9) || (v =? 13) || (v =? 10).
Definition is_digit (v : Z) : bool := (48 <=? v) && (v <=? 57).
Definition is_hex (v : Z) : bool :=
  is_digit v || ((97 <=? v) && (v <=? 102)) || ((65 <=? v) && (v <=? 70)).

Definition maxNestingDepth : Z := 10000.

Definition push (p : parse_state) (st : list parse_state) (next : scan_state) : scanned :=
  if Z.of_nat (length st) <? maxNestingDepth then Some (next, p :: st, false) else None.

Definition pop (st : list parse_state) : scanned :=
  match st with
  | [] => None
  | [_] => Some (EndTop, [], false)
  | _ :: rest => Some (EndValue, rest, false)
  end.

Definition stateEndTop (v : Z) : scanned := if is_space v then Some (EndTop, [], true) else None.

Definition stateEndValue (st : list parse_state) (v : Z) : scanned :=
  match st with
  | [] => stateEndTop v
  | top :: rest =>
      if is_space v then Some (EndValue, st, true) else
      match top with
      | ParseObjectKey => if v =? 58 then Some (BeginValue, ParseObjectValue :: rest, false) else None
      | ParseObjectValue =>
          if v =? 44 then Some (BeginString, ParseObjectKey :: rest, false)
          else if v =? 125 then pop st else None
      | ParseArrayValue =>
          if v =? 44 then Some (BeginValue, st, false)
          else if v =? 93 then pop st else None
      end
  end.

Definition stateBeginValue (st : list parse_state) (v : Z) : scanned :=
  if is_space v then Some (BeginValue, st, true)
  else if v =? 123 then push ParseObjectKey st BeginStringOrEmpty
  else if v =? 91 then push ParseArrayValue st BeginValueOrEmpty
  else if v =? 34 then Some (InString, st, false)
  else if v =? 45 then Some (Neg, st, false)
  else if v =? 48 then Some (S0, st, false)
  else if v =? 116 then Some (Lit [114; 117; 101], st, false)
  else if v =? 102 then Some (Lit [97; 108; 115; 101], st, false)
  else if v =? 110 then Some (Lit [117; 108; 108], st, false)
  else if (49 <=? v) && (v <=? 57) then Some (S1, st, false)
  else None.

Definition stateBeginString (st : list parse_state) (v : Z) : scanned :=
  if is_space v then Some (BeginString, st, true)
  else if v =? 34 then Some (InString, st, false) else None.

Definition state0 (st : list parse_state) (v : Z) : scanned :=
  if v =? 46 then Some (Dot, st, false)
  else if (v =? 101) || (v =? 69) then Some (SE, st, false)
  else stateEndValue st v.

Definition stateESign (st : list parse_state) (v : Z) : scanned :=
  if is_digit v then Some (E0, st, false) else None.

(** [scan.step]. *)
Definition scan_step (s : scan_state) (st : list parse_state) (v : Z) : scanned :=
  match s with
  | BeginValue => stateBeginValue st v
  | BeginValueOrEmpty =>
      if is_space v then Some (BeginValueOrEmpty, st, true)
      else if v =? 93 then stateEndValue st v else stateBeginValue st v
  | BeginStringOrEmpty =>
      if is_space v then Some (BeginStringOrEmpty, st, true)
      else if v =? 125 then stateEndValue (ParseObjectValue :: tail st) v else stateBeginString st v
  | BeginString => stateBeginString st v
  | EndValue => stateEndValue st v
  | EndTop => stateEndTop v
  | InString =>
      if v =? 34 then Some (EndValue, st, false)
      else if v =? 92 then Some (InStringEsc, st, false)
      else if v <? 32 then None else Some (InString, st, false)
  | InStringEsc =>
      if (v =? 98) || (v =? 102) || (v =? 110) || (v =? 114) || (v =? 116) || (v =? 92) ||
         (v =? 47) || (v =? 34) then Some (InString, st, false)
      else if v =? 117 then Some (InStringEscU 3, st, false) else None
  | InStringEscU n =>
      if is_hex v then Some (match n with O => InString | S m => InStringEscU m end, st, false)
      else None
  | Neg =>
      if v =? 48 then Some (S0, st, false)
      else if (49 <=? v) && (v <=? 57) then Some (S1, st, false) else None
  | S1 => if is_digit v then Some (S1, st, false) else state0 st v
  | S0 => state0 st v
  | Dot => if is_digit v then Some (Dot0, st, false) else None
  | Dot0 =>
      if is_digit v then Some (Dot0, st, false)
      else if (v =? 101) || (v =? 69) then Some (SE, st, false) else stateEndValue st v
  | SE => if (v =? 43) || (v =? 45) then Some (ESign, st, false) else stateESign st v
  | ESign => stateESign st v
  | E0 => if is_digit v then Some (E0, st, false) else stateEndValue st v
  | Lit [] => None
  | Lit (c :: rest) =>
      if v =? c then Some (match rest with [] => EndValue | _ => Lit rest end, st, false) else None
  end.

(** The bytes of a string, through the scanner. *)
Fixpoint scan (s : scan_state) (st : list parse_state) (text : string) :
    option (scan_state * list parse_state) :=
  match text with
  | EmptyString => Some (s, st)
  | String c r =>
      match scan_step s st (byte_val c) with
      | None => None
      | Some (s', st', _) => scan s' st' r
      end
  end.

(** [scan.eof]. *)
Definition at_end (s : scan_state) (st : list parse_state) : bool :=
  match s with
  | EndTop => true
  | _ => match scan_step s st 32 with Some (EndTop, _, _) => true | _ => false end
  end.

(** [json.Valid]. *)
Definition Valid (text : string) : bool :=
  match scan BeginValue [] text with Some (s, st) => at_end s st | None => false end.

(** ** Marshal *)

Definition hex_digit (d : Z) : ascii := if d <? 10 then byte_of (48 + d) else byte_of (87 + d).

(** A \u escape with the four digits of [z]. *)
Definition escape_u (z : Z) : string :=
  String backslash (String "u" (String (hex_digit (z / 4096)) (String (hex_digit (z / 256 mod 16))
    (String (hex_digit (z / 16 mod 16)) (String (hex_digit (z mod 16)) ""))))).

Definition escape_byte (c : ascii) : string :=
  let v := byte_val c in
  let esc (d : ascii) := String backslash (String d "") in
  if v =? 34 then esc quote_char
  else if v =? 92 then esc backslash
  else if v =? 8 then esc "b"%char
  else if v =? 12 then esc "f"%char
  else if v =? 10 then esc "n"%char
  else if v =? 13 then esc "r"%char
  else if v =? 9 then esc "t"%char
  else if (v <? 32) || (v =? 60) || (v =? 62) || (v =? 38) then escape_u v
  else String c "".

(** Bytes of a rune already dealt with are copied or dropped. *)
Inductive pending := Copy (n : nat) | Drop (n : nat).

(** The loop of [appendString]. *)
Fixpoint escape_from (p : pending) (s : string) : string :=
  match s with
  | EmptyString => EmptyString
  | String c r =>
      match p with
      | Copy (S n) => String c (escape_from (Copy n) r)
      | Drop (S n) => escape_from (Drop n) r
      | Copy O | Drop O =>
          if byte_val c <? 128 then escape_byte c +:+ escape_from (Copy 0) r
          else
            let '(rune, w) := decode_rune s in
            if (rune =? RuneError) && (w =? 1)%nat then escape_u RuneError +:+ escape_from (Copy 0) r
            else if (rune =? 8232) || (rune =? 8233) then escape_u rune +:+ escape_from (Drop (w - 1)) r
            else String c (escape_from (Copy (w - 1)) r)
      end
  end.

Definition escape (s : string) : string := escape_from (Copy 0) s.

Definition quoted (s : string) : string :=
  String quote_char (escape s +:+ String quote_char "").

(** The loop of [appendCompact]: blank space outside strings goes, the characters HTML and
    JavaScript would read are escaped. *)
Fixpoint compact_from (skip : nat) (s : scan_state) (st : list parse_state) (text : string) :
    string :=
  match text with
  | EmptyString => EmptyString
  | String c r =>
      let v := byte_val c in
      match scan_step s st v with
      | None => EmptyString
      | Some (s', st', blank) =>
          match skip with
          | S n => compact_from n s' st' r
          | O =>
              if (v =? 60) || (v =? 62) || (v =? 38) then escape_u v +:+ compact_from 0 s' st' r
              else
                let b i := match String.get i r with Some d => byte_val d | None => -1 end in
                if (v =? 226) && (b 0%nat =? 128) && ((b 1%nat =? 168) || (b 1%nat =? 169))
                then escape_u (8064 + b 1%nat) +:+ compact_from 2 s' st' r
                else if blank : bool then compact_from 0 s' st' r
                else String c (compact_from 0 s' st' r)
          end
      end
  end.

Definition compact (text : string) : string := compact_from 0 BeginValue [] text.

Definition field_le {A} (a b : string * A) : Prop := str_le a.1 b.1.
#[export] Instance field_le_dec {A} (a b : string * A) : Decision (field_le a b).
Proof. unfold field_le. apply _. Defined.

(** The text of a value whose raw messages are valid; a nil raw message is [null]. *)
Fixpoint marshal (j : json) : string :=
  match j with
  | JStr s => quoted s
  | JInt z => Itoa z
  | JBool b => if b then "true" else "false"
  | JRaw raw => if String.eqb raw "" then "null" else compact raw
  | JNull => "null"
  | JList items => "[" +:+ Join (marshal <$> items) "," +:+ "]"
  | JStruct fields =>
      "{" +:+ Join ((λ '(k, v), quoted k +:+ ":" +:+ marshal v) <$> fields) "," +:+ "}"
  | JObj fields =>
      let parts := (fix go (l : list (string * json)) : list (string * string) :=
        match l with
        | [] => []
        | (k, v) :: r => (k, quoted k +:+ ":" +:+ marshal v) :: go r
        end) fields in
      "{" +:+ Join (snd <$> merge_sort field_le parts) "," +:+ "}"
  end.

(** The raw messages of a value are valid. *)
Fixpoint raws_valid (j : json) : bool :=
  match j with
  | JRaw raw => String.eqb raw "" || Valid raw
  | JList items => forallb raws_valid items
  | JStruct fields => forallb (λ '(_, v), raws_valid v) fields
  | JObj fields =>
      (fix go (l : list (string * json)) : bool :=
         match l with
         | [] => true
         | (_, v) :: r => raws_valid v && go r
         end) fields
  | _ => true
  end.

(** [json.Marshal]. *)
Definition Marshal (j : json) : goerr + string :=
  if raws_valid j then inr (marshal j) else inl (errorf "json: error calling MarshalJSON").

Example marshal_example :
  bytes_of_codes [123; 34; 97; 34; 58; 34; 92; 34; 34; 44; 34; 98; 34; 58; 49; 125] =
  marshal (JObj [("b", JInt 1); ("a", JStr (bytes_of_codes [34]))]).
Proof. by vm_compute. Qed.

Example valid_examples :
  (Valid <$> ["{}"; " [1, -2.5e+3 ,true] "; "null"; "0"; "01"; "[1,]"; "{1:2}"; ""; "nul"; "1 2";
    bytes_of_codes [34; 92; 117; 48; 48; 52; 49; 34]; bytes_of_codes [34; 10; 34];
    bytes_of_codes [123; 34; 97; 34; 58; 123; 125; 125]]) =
  [true; true; true; true; false; false; false; false; false; false; true; false; true].
Proof. by vm_compute. Qed.

Example escape_examples :
  escape (bytes_of_codes [255; 226; 128; 168; 195; 169; 60]) =
  bytes_of_codes [92; 117; 102; 102; 102; 100; 92; 117; 50; 48; 50; 56; 195; 169; 92; 117; 48; 48; 51; 99] ∧
  compact (" [ 1 , 2 ] ") = "[1,2]".
Proof. by vm_compute. Qed.

#[global] Arguments marshal : simpl never.

(** ** Lemmas *)

#[local] Arguments String.append !_ _ /.

Lemma scan_app s st a b :
  scan s st (a +:+ b) = match scan s st a with Some (s', st') => scan s' st' b | None => None end.
Proof.
  revert s st. induction a as [|c a IH]; intros s st; simpl; [done|].
  destruct (scan_step s st (byte_val c)) as [[[s' st'] blank]|]; [apply IH|done].
Qed.

(** The first [n] bytes are outside ASCII. *)
Fixpoint high (n : nat) (s : string) : Prop :=
  match n, s with
  | S n', String c r => 128 <= byte_val c ∧ high n' r
  | _, _ => True
  end.

Lemma cont_high lo hi b : 128 <= lo → cont lo hi b = true → 128 <= b.
Proof. unfold cont. intros H [H1 H2]%andb_true_iff. apply Z.leb_le in H1. lia. Qed.

Lemma get_high n s :
  (∀ i, (i < n)%nat → 128 <= match String.get i s with Some c => byte_val c | None => -1 end) →
  high n s.
Proof.
  revert s. induction n as [|n IH]; intros [|c s] Hall; simpl; try done.
  split; [apply (Hall 0%nat); lia|]. apply IH. intros i Hi. apply (Hall (S i)). lia.
Qed.

Lemma decode_rune_high c r rune w :
  128 <= byte_val c → decode_rune (String c r) = (rune, w) → high (w - 1) r.
Proof.
  intros Hc. unfold decode_rune. rewrite (proj2 (Z.ltb_ge _ _) Hc).
  set (b := λ i, match String.get i r with Some x => byte_val x | None => -1 end).
  repeat match goal with |- context [if ?x then _ else _] => destruct x eqn:? end;
    intros [= _ <-]; try done; apply get_high; fold b; intros i Hi;
    repeat match goal with H : _ && _ = true |- _ => apply andb_true_iff in H as [? ?] end;
    assert (i = 0%nat ∨ i = 1%nat ∨ i = 2%nat) as [->|[->| ->]] by lia; try lia;
    (eapply cont_high; [|eassumption]; repeat case_match; lia).
Qed.

Lemma scan_escape_byte c st rest :
  byte_val c < 128 → scan InString st (escape_byte c +:+ rest) = scan InString st rest.
Proof. intros H. destruct c as [[] [] [] [] [] [] [] []]; first [done|by vm_compute in H]. Qed.

Lemma scan_high c st rest :
  128 <= byte_val c → scan InString st (String c rest) = scan InString st rest.
Proof.
  intros H. simpl. rewrite (proj2 (Z.eqb_neq (byte_val c) 34)) by lia.
  rewrite (proj2 (Z.eqb_neq (byte_val c) 92)) by lia.
  by rewrite (proj2 (Z.ltb_ge (byte_val c) 32)) by lia.
Qed.

Lemma scan_escape_from s : ∀ p st rest,
  match p with Copy n => high n s | Drop n => True end →
  scan InString st (escape_from p s +:+ rest) = scan InString st rest.
Proof.
  induction s as [|c s IH]; intros p st rest Hp; [done|].
  assert (Hzero : scan InString st
    ((if byte_val c <? 128 then escape_byte c +:+ escape_from (Copy 0) s
      else let '(rune, w) := decode_rune (String c s) in
           if (rune =? RuneError) && (w =? 1)%nat then escape_u RuneError +:+ escape_from (Copy 0) s
           else if (rune =? 8232) || (rune =? 8233) then escape_u rune +:+ escape_from (Drop (w - 1)) s
           else String c (escape_from (Copy (w - 1)) s)) +:+ rest) = scan InString st rest).
  { destruct (Z.ltb_spec (byte_val c) 128) as [Hc|Hc].
    - rewrite append_assoc, scan_escape_byte by done. by apply IH.
    - destruct (decode_rune (String c s)) as [rune w] eqn:Hd.
      destruct ((rune =? RuneError) && (w =? 1)%nat).
      { rewrite append_assoc. etransitivity; [|by apply (IH (Copy 0))]. done. }
      destruct ((rune =? 8232) || (rune =? 8233)) eqn:Hr.
      { rewrite append_assoc. apply orb_true_iff in Hr as [->%Z.eqb_eq| ->%Z.eqb_eq];
          (etransitivity; [|by apply (IH (Drop (w - 1)))]; done). }
      change (String c (escape_from (Copy (w - 1)) s) +:+ rest)
        with (String c (escape_from (Copy (w - 1)) s +:+ rest)).
      rewrite scan_high by done. apply IH. by eapply decode_rune_high. }
  destruct p as [[|n]|[|n]]; [exact Hzero| |exact Hzero|by apply (IH (Drop n))].
  destruct Hp as [Hc Hn].
  change (escape_from (Copy (S n)) (String c s) +:+ rest)
    with (String c (escape_from (Copy n) s +:+ rest)).
  rewrite scan_high by done. by apply (IH (Copy n)).
Qed.

(** A quoted string is one JSON value wherever a value or a key may begin. *)
Lemma scan_quoted s0 st text rest :
  scan_step s0 st 34 = Some (InString, st, false) →
  scan s0 st (quoted text +:+ rest) = scan EndValue st rest.
Proof.
  intros H0. unfold quoted.
  change (scan s0 st (String quote_char ((escape text +:+ String quote_char "") +:+ rest)) =
    scan EndValue st rest). simpl. change (byte_val quote_char) with 34. rewrite H0.
  rewrite append_assoc. unfold escape. by rewrite scan_escape_from.
Qed.
