(* ===== verification/Claim.v ===== *)
(** * Claim: internal/claim (claim.go, resolve.go)

    The claim transaction: lock the resource, claim or re-claim the key, record the intent,
    judge it against the live window, commit.  And [Complete], which ends a claim.  The SQL
    statements are functions on the tables; the Go functions are computations that run them in
    the order and with the early returns of the source. *)

From S2P Require Import Prelude GoString Sha256 Manifest Conflict World Json.

(** ** Data *)

Inductive Verdict :=
| VerdictClaimed
| VerdictExisting
| VerdictMismatch
| VerdictRejected
| VerdictSerialize
| VerdictLockTimeout
| VerdictSerializeTimeout.

#[export] Instance Verdict_eq_dec : EqDecision Verdict.
Proof. solve_decision. Defined.

Definition terminal (s : Status) : bool := negb (bool_decide (s = StatusPending)).

Record Request := mkRequest {
  r_AgentID : string;
  r_Key : string;
  r_RequestHash : string;
  r_ResourceType : string;
  r_ResourceID : string;
  r_Operation : string;
  r_Declared : Operation;
  r_Payload : string;
  r_Window : Z;
  r_Enforce : bool;
  r_ManifestVersion : string;
  r_LockTimeout : Z;
}.

(** A nil [json.RawMessage] is the empty string, which is no JSON text. *)
Record Record_ := mkRecord {
  AgentID : string;
  Key : string;
  RequestHash : string;
  Status_ : Status;
  Result_ : string;
  ResultRef : string;
  OutcomeDetail : string;
  AttemptCount : Z;
}.

Record Blocking_ := mkBlocking { b_AgentID : string; b_Key : string }.

(** [Record] is [None] for Go's zero record; likewise [Blocking]. *)
Record Result := mkResult {
  Verdict_ : Verdict;
  Record_of : option Record_;
  IntentID : string;
  Collided : bool;
  LockWait : Z;
  Blocking : option Blocking_;
  Observed : Z;
}.

(** The part of a [Result] that [resolveConflicts] fills. *)
Record Outcome_ := mkOutcome {
  o_Verdict : Verdict;
  o_Observed : Z;
  o_Blocking : option Blocking_;
  o_Result : string;
  o_Detail : string;
}.

(** A row of the conflict window. *)
Record intent := mkCandidate {
  cd_id : string;
  cd_agentID : string;
  cd_key : string;
  cd_declared : Operation;
}.

Definition lockNotAvailable : string := "55P03".
Definition maxRecordedConflicts : nat := 10.

(** ** Statements *)

Definition pg_error (code text : string) : goerr := mkErr (PgError code) text.

Section Statements.
Context `{!Pg}.

(** [lockResourceStmt]: the advisory lock.  Waiting for it past [lock_timeout] is a fault of
    the round trip with code 55P03. *)
Definition lockResourceStmt (timeout_ms : string) (resource : string) : stmt unit := λ d,
  inr (tt, d).

Definition insertKey (agent k hash rtype rid op : string) : stmt (option Status) := λ d,
  match db_keys d !! (agent, k) with
  | Some _ => inr (None, d)
  | None =>
      inr (Some StatusPending,
           set_keys (insert (agent, k)
             (mkKey hash StatusPending rtype rid op None None None 1 (db_now d) (db_now d) None)) d)
  end.

(** [selectKey], with its [coalesce]s. *)
Definition selectKey (agent k : string) : stmt (option Record_) := λ d,
  inr ((λ r, mkRecord agent k (k_hash r) (k_status r) (default "" (k_result r))
               (default "" (k_ref r)) (default "" (k_detail r)) (k_attempt r))
         <$> db_keys d !! (agent, k), d).

Definition reclaimKey (agent k : string) : stmt (option Z) := λ d,
  match db_keys d !! (agent, k) with
  | Some r =>
      if decide (k_status r = StatusFailed) then
        if decide (k_attempt r + 1 <= int4_max) then
          inr (Some (k_attempt r + 1),
               set_keys (insert (agent, k)
                 (mkKey (k_hash r) StatusPending (k_rtype r) (k_rid r) (k_op r) None None None
                    (k_attempt r + 1) (k_created r) (db_now d) None)) d)
        else inl (pg_error "22003" "integer out of range")
      else inr (None, d)
  | None => inr (None, d)
  end.

Definition insertIntent (agent k rtype rid op : string) (declared_op : Operation)
    (payload : string) : stmt (string * Z) := λ d,
  if decide (Class declared_op ∈ classes) then
    match jsonb_in payload with
    | None => inl (pg_error "22P02" "invalid input syntax for type json")
    | Some stored =>
        let i := uuidv7 (db_next d) in
        inr ((i, db_now d),
             bump_next (set_intents (λ l, l ++
               [mkIntent i agent k rtype rid op declared_op stored (db_now d) None None]) d))
    end
  else inl (pg_error "22P02" "invalid input value for enum operation_class").

(** [ORDER BY emitted_at DESC]: newest first; rows of one instant in the order of insertion,
    newest first. *)
Definition newer (a b : intent_row) : Prop := i_emitted b <= i_emitted a.
#[export] Instance newer_dec a b : Decision (newer a b).
Proof. unfold newer. apply _. Defined.

Definition by_emitted_desc (l : list intent_row) : list intent_row :=
  merge_sort newer (reverse l).

(** The [WHERE] of [selectWindow]. *)
Definition in_window (rtype rid : string) (window : Z) (exclude : string) (d : DB)
    (i : intent_row) : Prop :=
  i_rtype i = rtype ∧ i_rid i = rid ∧ db_now d - interval_us window < i_emitted i ∧
  i_voided i = None ∧ i_id i ≠ exclude.
#[export] Instance in_window_dec rtype rid window exclude d i :
  Decision (in_window rtype rid window exclude d i).
Proof. unfold in_window. apply _. Defined.

Definition selectWindow (rtype rid : string) (window : Z) (exclude : string) :
    stmt (list intent) := λ d,
  inr ((λ i, mkCandidate (i_id i) (i_agent i) (i_key i) (i_declared i)) <$>
         by_emitted_desc (filter (in_window rtype rid window exclude d) (db_intents d)), d).

(** [selectStatuses]; SQL leaves the order open, this is the map's. *)
Definition selectStatuses (agent : string) (ks : list string) : stmt (list (string * Status)) := λ d,
  inr ((λ '((a, k), r), (k, k_status r)) <$>
         filter (λ '((a, k), r), a = agent ∧ k ∈ ks) (map_to_list (db_keys d)), d).

Definition insertConflict (intent_a intent_b agent_a agent_b rtype rid reason : string)
    (resolution : Resolution) (ver : string) : stmt string := λ d,
  let i := uuidv7 (db_next d) in
  inr (i, bump_next (set_conflicts (λ l, l ++
    [mkConflict i intent_a intent_b agent_a agent_b rtype rid reason resolution (Some ver) (db_now d)]) d)).

Definition rejectKey (agent k body detail : string) : stmt (option string) := λ d,
  match jsonb_in body with
  | None => inl (pg_error "22P02" "invalid input syntax for type json")
  | Some stored =>
      match db_keys d !! (agent, k) with
      | None => inr (None, d)
      | Some r =>
          if decide (k_ref r = None) then
            inr (Some stored,
                 set_keys (insert (agent, k)
                   (mkKey (k_hash r) StatusRejected (k_rtype r) (k_rid r) (k_op r) (Some stored)
                      (k_ref r) (Some detail) (k_attempt r) (k_created r) (k_claimed r)
                      (Some (db_now d)))) d)
          else inl (pg_error "23514" "result_inline_xor_ref")
      end
  end.

Definition void_row (t : Z) (i : intent_row) : intent_row :=
  mkIntent (i_id i) (i_agent i) (i_key i) (i_rtype i) (i_rid i) (i_op i) (i_declared i)
    (i_payload i) (i_emitted i) (i_published i) (Some t).

Definition void_where (P : intent_row → Prop) `{!∀ i, Decision (P i)} (t : Z)
    (l : list intent_row) : list intent_row :=
  (λ i, if decide (P i) then void_row t i else i) <$> l.

Definition voidIntent (intentID : string) (emittedAt : Z) : stmt unit := λ d,
  inr (tt, set_intents (void_where (λ i, i_id i = intentID ∧ i_emitted i = emittedAt) (db_now d)) d).

(** [completeKey]: the rows it updated.  The CHECK constraint refuses a row with both a
    result and a reference. *)
Definition completeKey (agent k : string) (status : Status)
    (result ref detail : option string) : stmt Z := λ d,
  match match result with None => Some None | Some body => Some <$> jsonb_in body end with
  | None => inl (pg_error "22P02" "invalid input syntax for type json")
  | Some stored =>
      match db_keys d !! (agent, k) with
      | None => inr (0, d)
      | Some r =>
          if decide (k_status r = StatusPending) then
            if decide (is_Some stored ∧ is_Some ref)
            then inl (pg_error "23514" "result_inline_xor_ref")
            else inr (1, set_keys (insert (agent, k)
                   (mkKey (k_hash r) status (k_rtype r) (k_rid r) (k_op r) stored ref detail
                      (k_attempt r) (k_created r) (k_claimed r) (Some (db_now d)))) d)
          else inr (0, d)
      end
  end.

Definition live_for (agent k : string) (i : intent_row) : Prop :=
  i_agent i = agent ∧ i_key i = k ∧ i_voided i = None.
#[export] Instance live_for_dec agent k i : Decision (live_for agent k i).
Proof. unfold live_for. apply _. Defined.

Definition voidLatestIntent (agent k : string) : stmt unit := λ d,
  match head (by_emitted_desc (filter (live_for agent k) (db_intents d))) with
  | None => inr (tt, d)
  | Some latest =>
      inr (tt, set_intents
        (void_where (λ i, i_id i = i_id latest ∧ i_emitted i = i_emitted latest) (db_now d)) d)
  end.
End Statements.

(** ** The claim transaction *)

Section Operations.
Context `{!Pg}.

(** [lockResource]: how long the statement took, and its error. *)
Definition lockResource (req : Request) : M (Z * (goerr + unit)) :=
  started ← now;
  r ← try (exec (lockResourceStmt (Itoa (r_LockTimeout req / Millisecond))
                   (r_ResourceType req +:+ ":" +:+ r_ResourceID req)));
  ended ← now;
  mret (ended - started, r).

Definition insertClaim (req : Request) : M bool :=
  row ← wrapping "insert claim"
    (exec (insertKey (r_AgentID req) (r_Key req) (r_RequestHash req)
             (r_ResourceType req) (r_ResourceID req) (r_Operation req)));
  match row with None => mret false | Some _ => mret true end.

Definition readRecord (run : ∀ X, stmt X → M X) (agent k : string) : M Record_ :=
  wrapping "read key" (
    row ← run _ (selectKey agent k);
    match row with
    | None => throw (mkErr NoRows "no rows in result set")
    | Some record => mret record
    end).

Definition reclaim (req : Request) : M (option Z) :=
  wrapping "reclaim key" (exec (reclaimKey (r_AgentID req) (r_Key req))).

Definition claimKey (req : Request) : M (Result * bool) :=
  won ← insertClaim req;
  if (won : bool) then
    mret (mkResult VerdictClaimed
            (Some (mkRecord (r_AgentID req) (r_Key req) (r_RequestHash req) StatusPending
                     "" "" "" 1)) "" false 0 None 0, true)
  else
    existing ← readRecord (@exec) (r_AgentID req) (r_Key req);
    if negb (String.eqb (RequestHash existing) (r_RequestHash req)) then
      mret (mkResult VerdictMismatch (Some existing) "" true 0 None 0, false)
    else if negb (bool_decide (Status_ existing = StatusFailed)) then
      mret (mkResult VerdictExisting (Some existing) "" true 0 None 0, false)
    else
      reclaimed ← reclaim req;
      match reclaimed with
      | None =>
          mret (mkResult VerdictExisting
                  (Some (mkRecord (AgentID existing) (Key existing) (RequestHash existing)
                           StatusPending (Result_ existing) (ResultRef existing)
                           (OutcomeDetail existing) (AttemptCount existing)))
                  "" true 0 None 0, false)
      | Some attempt =>
          mret (mkResult VerdictClaimed
                  (Some (mkRecord (AgentID existing) (Key existing) (RequestHash existing)
                           StatusPending "" (ResultRef existing) "" attempt))
                  "" true 0 None 0, true)
      end.

Definition recordIntent (req : Request) : M (string * Z) :=
  wrapping "insert intent"
    (exec (insertIntent (r_AgentID req) (r_Key req) (r_ResourceType req) (r_ResourceID req)
             (r_Operation req) (r_Declared req) (r_Payload req))).

Definition conflictingIntents (req : Request) (exclude : string) : M (list intent) :=
  rows ← wrapping "read conflict window"
    (exec (selectWindow (r_ResourceType req) (r_ResourceID req) (r_Window req) exclude));
  mret (filter (λ c, Compatible (r_Declared req) (cd_declared c) = false) rows).

(** The loop of [recordConflicts]; the accumulator is [primary]. *)
Definition recordConflict (req : Request) (intentID : string) (resolution : Resolution)
    (primary : string) (candidate : intent) : M string :=
  conflictID ← wrapping "record conflict"
    (exec (insertConflict intentID (cd_id candidate) (r_AgentID req) (cd_agentID candidate)
             (r_ResourceType req) (r_ResourceID req)
             (Reason (r_Declared req) (cd_declared candidate)) resolution (r_ManifestVersion req)));
  mret (if String.eqb primary "" then conflictID else primary).

Definition recordConflicts (req : Request) (intentID : string) (candidates : list intent)
    (resolution : Resolution) : M string :=
  let candidates :=
    if (maxRecordedConflicts <? length candidates)%nat
    then take maxRecordedConflicts candidates else candidates in
  for_range candidates "" (recordConflict req intentID resolution).

(** The scan of [firstPending] over the rows. *)
Definition first_pending_of (rows : list (string * Status)) : string :=
  fold_left (λ pending '(k, status),
    if negb (terminal status) && String.eqb pending "" then k else pending) rows "".

Definition firstPending (agent : string) (candidates : list intent) : M string :=
  rows ← wrapping "read conflicting key statuses"
    (exec (selectStatuses agent (cd_key <$> candidates)));
  mret (first_pending_of rows).

Definition reject_detail (req : Request) (primary : intent) : string :=
  Reason (r_Declared req) (cd_declared primary) +:+ " on " +:+
  r_ResourceType req +:+ ":" +:+ r_ResourceID req.

Definition reject_body (req : Request) (detail primary_id conflictID : string) : json :=
  JObj [("idempotency_key", JStr (r_Key req));
        ("status", JStr (status_text StatusRejected));
        ("reason", JStr "conflicting_write");
        ("detail", JStr detail);
        ("conflicting_intent_id", JStr primary_id);
        ("conflict_id", JStr conflictID)].

(** [reject]; [others] is not empty. *)
Definition reject (req : Request) (intentID : string) (emittedAt : Z)
    (primary : intent) (all : list intent) : M Outcome_ :=
  conflictID ← recordConflicts req intentID all ResolutionRejected;
  let detail := reject_detail req primary in
  let body := marshal (reject_body req detail (cd_id primary) conflictID) in
  row ← wrapping "reject key" (
    row ← exec (rejectKey (r_AgentID req) (r_Key req) body detail);
    match row with
    | None => throw (mkErr NoRows "no rows in result set")
    | Some stored => mret stored
    end);
  _ ← wrapping "void rejected intent" (exec (voidIntent intentID emittedAt));
  mret (mkOutcome VerdictRejected 0 None row detail).

Definition resolveConflicts (req : Request) (intentID : string) (emittedAt : Z) : M Outcome_ :=
  candidates ← conflictingIntents req intentID;
  match candidates with
  | [] => mret (mkOutcome VerdictClaimed 0 None "" "")
  | _ :: _ =>
      if negb (r_Enforce req) then
        _ ← recordConflicts req intentID candidates ResolutionObserved;
        mret (mkOutcome VerdictClaimed (Z.of_nat (length candidates)) None "" "")
      else
        let same := filter (λ c, cd_agentID c = r_AgentID req) candidates in
        let others := filter (λ c, cd_agentID c ≠ r_AgentID req) candidates in
        match others with
        | primary :: _ => reject req intentID emittedAt primary candidates
        | [] =>
            blocking ← firstPending (r_AgentID req) same;
            if negb (String.eqb blocking "") then
              mret (mkOutcome VerdictSerialize 0 (Some (mkBlocking (r_AgentID req) blocking)) "" "")
            else
              _ ← recordConflicts req intentID same ResolutionSerialized;
              mret (mkOutcome VerdictClaimed 0 None "" "")
        end
  end.

Definition with_outcome (lockWait : Z) (intentID : string) (result : Result)
    (outcome : Outcome_) : Result :=
  mkResult (o_Verdict outcome)
    (if decide (o_Verdict outcome = VerdictRejected) then
       (λ r, mkRecord (AgentID r) (Key r) (RequestHash r) StatusRejected (o_Result outcome)
               (ResultRef r) (o_Detail outcome) (AttemptCount r)) <$> Record_of result
     else Record_of result)
    intentID (Collided result) lockWait (o_Blocking outcome) (o_Observed outcome).

(** The body of [Claim] once the lock is held. *)
Definition claim_body (req : Request) (lockWait : Z) : M Result :=
  '(result, fresh) ← claimKey req;
  let result := mkResult (Verdict_ result) (Record_of result) (IntentID result)
                  (Collided result) lockWait (Blocking result) (Observed result) in
  if negb fresh then mret result
  else
    '(intentID, emittedAt) ← recordIntent req;
    outcome ← resolveConflicts req intentID emittedAt;
    let result := with_outcome lockWait intentID result outcome in
    if decide (o_Verdict outcome = VerdictSerialize) then mret result
    else
      _ ← wrapping "commit claim" commit;
      mret result.

Definition lock_not_available (e : goerr) : bool :=
  bool_decide (e_kind e = PgError lockNotAvailable).

Definition Claim (req : Request) : M Result :=
  with_tx "begin claim" (
    '(lockWait, locked) ← lockResource req;
    match locked with
    | inl e =>
        if lock_not_available e
        then mret (mkResult VerdictLockTimeout None "" false lockWait None 0)
        else throw e
    | inr _ => claim_body req lockWait
    end).

(** [Lookup]: the record, and whether there is one. *)
Definition Lookup (agent k : string) : M (option Record_) :=
  r ← try (readRecord (@query) agent k);
  match r with
  | inr record => mret (Some record)
  | inl e => if bool_decide (e_kind e = NoRows) then mret None else throw e
  end.

(** An empty Go value is stored as NULL. *)
Definition nullable (s : string) : option string :=
  if String.eqb s "" then None else Some s.

Definition Complete (agent k : string) (status : Status) (result resultRef detail : string) :
    M bool :=
  with_tx "begin complete" (
    affected ← wrapping "complete key"
      (exec (completeKey agent k status (nullable result) (nullable resultRef) (nullable detail)));
    if negb (affected =? 1) then mret false
    else
      _ ← (if decide (status = StatusFailed)
           then wrapping "void failed intent" (exec (voidLatestIntent agent k))
           else mret tt);
      _ ← wrapping "commit complete" commit;
      mret true).
End Operations.
