(* ===== verification/ClaimSpec.v ===== *)
(** * ClaimSpec: what the claim transaction and [Complete] do to the tables

    [claim_step] and [complete_step] are the abstract specification: one atomic step of the
    tables per call, with the result it returns.  The refinement lemmas [Claim_refines] and
    [Complete_refines] show that the statement-by-statement programs of Claim.v, under any
    script of faults, either take exactly such a step or leave the tables alone, with one
    exception the protocol cannot exclude: a commit whose acknowledgement is lost is a step
    whose caller sees an error. *)

From S2P Require Import Prelude GoString Sha256 Manifest Conflict World Json Claim.

Section Spec.
Context `{!Pg}.
Implicit Types (req : Request) (d : DB) (r : key_row).

(** ** The specification *)

Definition req_key req : string * string := (r_AgentID req, r_Key req).

Definition record_of (k : string * string) r : Record_ :=
  mkRecord k.1 k.2 (k_hash r) (k_status r) (default "" (k_result r)) (default "" (k_ref r))
    (default "" (k_detail r)) (k_attempt r).

Definition fresh_row req d : key_row :=
  mkKey (r_RequestHash req) StatusPending (r_ResourceType req) (r_ResourceID req)
    (r_Operation req) None None None 1 (db_now d) (db_now d) None.

Definition reclaimed_row d r : key_row :=
  mkKey (k_hash r) StatusPending (k_rtype r) (k_rid r) (k_op r) None None None
    (k_attempt r + 1) (k_created r) (db_now d) None.

Definition collided (v : Verdict) (record : Record_) : Result :=
  mkResult v (Some record) "" true 0 None 0.

(** Claiming the key: it is new, its row answers, or its failed row is taken over. *)
Inductive key_step req d : Result * bool → DB → Prop :=
| key_won :
    db_keys d !! req_key req = None →
    key_step req d
      (mkResult VerdictClaimed
         (Some (mkRecord (r_AgentID req) (r_Key req) (r_RequestHash req) StatusPending "" "" "" 1))
         "" false 0 None 0, true)
      (set_keys (insert (req_key req) (fresh_row req d)) d)
| key_mismatch r :
    db_keys d !! req_key req = Some r → k_hash r ≠ r_RequestHash req →
    key_step req d (collided VerdictMismatch (record_of (req_key req) r), false) d
| key_existing r :
    db_keys d !! req_key req = Some r → k_hash r = r_RequestHash req →
    k_status r ≠ StatusFailed →
    key_step req d (collided VerdictExisting (record_of (req_key req) r), false) d
| key_reclaimed r :
    db_keys d !! req_key req = Some r → k_hash r = r_RequestHash req →
    k_status r = StatusFailed → k_attempt r + 1 <= int4_max →
    key_step req d
      (collided VerdictClaimed
         (mkRecord (r_AgentID req) (r_Key req) (k_hash r) StatusPending ""
            (default "" (k_ref r)) "" (k_attempt r + 1)), true)
      (set_keys (insert (req_key req) (reclaimed_row d r)) d).

Definition new_intent req d (stored : string) : intent_row :=
  mkIntent (uuidv7 (db_next d)) (r_AgentID req) (r_Key req) (r_ResourceType req)
    (r_ResourceID req) (r_Operation req) (r_Declared req) stored (db_now d) None None.

(** The live intents of the window that do not commute with the request, newest first. *)
Definition window_conflicts req (exclude : string) d : list intent :=
  filter (λ c, Compatible (r_Declared req) (cd_declared c) = false)
    ((λ i, mkCandidate (i_id i) (i_agent i) (i_key i) (i_declared i)) <$>
       by_emitted_desc
         (filter (in_window (r_ResourceType req) (r_ResourceID req) (r_Window req) exclude d)
            (db_intents d))).

Definition conflict_for req (intentID : string) (res : Resolution) d (n : nat) (c : intent) :
    conflict_row :=
  mkConflict (uuidv7 (db_next d + n)) intentID (cd_id c) (r_AgentID req) (cd_agentID c)
    (r_ResourceType req) (r_ResourceID req) (Reason (r_Declared req) (cd_declared c)) res
    (Some (r_ManifestVersion req)) (db_now d).

Definition add_conflicts (rows : list conflict_row) d : DB :=
  mkDB (db_now d) (db_next d + length rows) (db_keys d) (db_intents d)
    (db_conflicts d ++ rows) (db_activations d) (db_audit d).

(** [recordConflicts]: the ten newest pairs, in order. *)
Definition recorded req (intentID : string) (res : Resolution) (cs : list intent) d : DB :=
  add_conflicts (imap (conflict_for req intentID res d) (take maxRecordedConflicts cs)) d.

Definition others_of req (cs : list intent) : list intent :=
  filter (λ c, cd_agentID c ≠ r_AgentID req) cs.
Definition same_of req (cs : list intent) : list intent :=
  filter (λ c, cd_agentID c = r_AgentID req) cs.

(** The statuses [firstPending] reads, and the key it blocks on. *)
Definition statuses (agent : string) (ks : list string) d : list (string * Status) :=
  (λ '((a, k), r), (k, k_status r)) <$>
    filter (λ '((a, k), r), a = agent ∧ k ∈ ks) (map_to_list (db_keys d)).
Definition blocking_key req (cs : list intent) d : string :=
  first_pending_of (statuses (r_AgentID req) (cd_key <$> same_of req cs) d).

Definition rejected_row d r (stored detail : string) : key_row :=
  mkKey (k_hash r) StatusRejected (k_rtype r) (k_rid r) (k_op r) (Some stored) (k_ref r)
    (Some detail) (k_attempt r) (k_created r) (k_claimed r) (Some (db_now d)).

(** The verdict on the recorded intent. *)
Inductive resolve_step req (intentID : string) (emittedAt : Z) d : Outcome_ → DB → Prop :=
| res_clear :
    window_conflicts req intentID d = [] →
    resolve_step req intentID emittedAt d (mkOutcome VerdictClaimed 0 None "" "") d
| res_observed cs :
    window_conflicts req intentID d = cs → cs ≠ [] → r_Enforce req = false →
    resolve_step req intentID emittedAt d
      (mkOutcome VerdictClaimed (Z.of_nat (length cs)) None "" "")
      (recorded req intentID ResolutionObserved cs d)
| res_rejected cs primary rest r stored :
    window_conflicts req intentID d = cs → r_Enforce req = true →
    others_of req cs = primary :: rest →
    db_keys d !! req_key req = Some r →
    jsonb_in (marshal (reject_body req (reject_detail req primary) (cd_id primary)
                         (uuidv7 (db_next d)))) = Some stored →
    resolve_step req intentID emittedAt d
      (mkOutcome VerdictRejected 0 None stored (reject_detail req primary))
      (set_intents (void_where (λ i, i_id i = intentID ∧ i_emitted i = emittedAt) (db_now d))
         (set_keys (insert (req_key req) (rejected_row d r stored (reject_detail req primary)))
            (recorded req intentID ResolutionRejected cs d)))
| res_serialize cs :
    window_conflicts req intentID d = cs → cs ≠ [] → r_Enforce req = true →
    others_of req cs = [] → blocking_key req cs d ≠ EmptyString →
    resolve_step req intentID emittedAt d
      (mkOutcome VerdictSerialize 0 (Some (mkBlocking (r_AgentID req) (blocking_key req cs d)))
         "" "") d
| res_serialized cs :
    window_conflicts req intentID d = cs → cs ≠ [] → r_Enforce req = true →
    others_of req cs = [] → blocking_key req cs d = EmptyString →
    resolve_step req intentID emittedAt d (mkOutcome VerdictClaimed 0 None "" "")
      (recorded req intentID ResolutionSerialized (same_of req cs) d).

(** One claim: the result, and the tables after it. *)
Inductive claim_step req (lockWait : Z) d : Result → DB → Prop :=
| cs_answered result :
    key_step req d (result, false) d →
    claim_step req lockWait d
      (mkResult (Verdict_ result) (Record_of result) "" true lockWait None 0) d
| cs_judged result d1 stored outcome d3 :
    key_step req d (result, true) d1 →
    Class (r_Declared req) ∈ classes → jsonb_in (r_Payload req) = Some stored →
    resolve_step req (uuidv7 (db_next d1)) (db_now d1)
      (bump_next (set_intents (λ l, l ++ [new_intent req d1 stored]) d1)) outcome d3 →
    claim_step req lockWait d
      (with_outcome lockWait (uuidv7 (db_next d1)) result outcome)
      (if decide (o_Verdict outcome = VerdictSerialize) then d else d3).

(** What the tables must offer for a fault-free claim to return: the server takes the
    documents, the class is one of the enum's, and the attempt counter has room. *)
Definition acceptable req d : Prop :=
  Class (r_Declared req) ∈ classes ∧ is_Some (jsonb_in (r_Payload req)) ∧
  (∀ detail i c, is_Some (jsonb_in (marshal (reject_body req detail i c)))) ∧
  (∀ r, db_keys d !! req_key req = Some r → k_attempt r + 1 <= int4_max).

Definition completed_row d r (status : Status) (result ref detail : option string) : key_row :=
  mkKey (k_hash r) status (k_rtype r) (k_rid r) (k_op r) result ref detail (k_attempt r)
    (k_created r) (k_claimed r) (Some (db_now d)).

Definition void_latest (agent k : string) d : DB :=
  match head (by_emitted_desc (filter (live_for agent k) (db_intents d))) with
  | None => d
  | Some latest =>
      set_intents
        (void_where (λ i, i_id i = i_id latest ∧ i_emitted i = i_emitted latest) (db_now d)) d
  end.

(** [Complete]: only a pending row ends, and a failed end voids its live intent. *)
Inductive complete_step (agent k : string) (status : Status) (result ref detail : string) d :
    bool → DB → Prop :=
| complete_ignored :
    (∀ r, db_keys d !! (agent, k) = Some r → k_status r ≠ StatusPending) →
    complete_step agent k status result ref detail d false d
| complete_done r stored :
    db_keys d !! (agent, k) = Some r → k_status r = StatusPending →
    (match nullable result with None => Some None | Some b => Some <$> jsonb_in b end)
      = Some stored →
    (stored = None ∨ nullable ref = None) →
    complete_step agent k status result ref detail d true
      ((if decide (status = StatusFailed) then void_latest agent k else (λ x, x))
         (set_keys (insert (agent, k)
            (completed_row d r status stored (nullable ref) (nullable detail))) d)).
End Spec.

(** ** Refinement of the functions that run inside a transaction *)

Section Inside.
Context `{!Pg}.
Implicit Types (req : Request) (d : DB) (r : key_row).

Lemma claimKey_refines req d (ok : Prop) :
  (ok → ∀ r, db_keys d !! req_key req = Some r → k_attempt r + 1 <= int4_max) →
  txwp (claimKey req) d ok (key_step req d).
Proof.
  intros Hroom. unfold claimKey, insertClaim. do 3 tx_step. tx_step.
  unfold insertKey. fold (req_key req).
  destruct (db_keys d !! req_key req) as [r|] eqn:Hr; tx_steps; [|by apply key_won].
  unfold readRecord. do 3 tx_step. unfold selectKey. fold (req_key req). rewrite Hr. simpl.
  tx_step. simpl. destruct (String.eqb_spec (k_hash r) (r_RequestHash req)) as [Hh|Hh]; simpl.
  2: { tx_step. by apply (key_mismatch req d r). }
  case_bool_decide as Hs; simpl.
  2: { tx_step. by apply (key_existing req d r). }
  unfold reclaim. do 3 tx_step. unfold reclaimKey. fold (req_key req). rewrite Hr.
  rewrite decide_True by done. case_decide as Ha.
  - tx_step. by apply (key_reclaimed req d r).
  - intros Hok. by apply Ha, Hroom.
Qed.

Lemma add_conflicts_nil d : add_conflicts [] d = d.
Proof. destruct d. unfold add_conflicts. simpl. by rewrite app_nil_r, Nat.add_0_r. Qed.

Lemma add_conflicts_cons row rows d :
  add_conflicts rows (bump_next (set_conflicts (λ l, l ++ [row]) d)) = add_conflicts (row :: rows) d.
Proof.
  unfold add_conflicts. simpl. rewrite <- app_assoc. f_equal. lia.
Qed.

Lemma record_loop_refines req i res d ok : ∀ cs acc,
  txwp (for_range cs acc (recordConflict req i res)) d ok (λ p d',
    d' = add_conflicts (imap (conflict_for req i res d) cs) d ∧
    p = if String.eqb acc "" then match cs with [] => "" | _ => uuidv7 (db_next d) end else acc).
Proof.
  intros cs. revert d. induction cs as [|c cs IH]; intros d acc; simpl.
  - tx_step. rewrite add_conflicts_nil. by destruct (String.eqb_spec acc "").
  - tx_step. unfold recordConflict at 1. do 3 tx_step. unfold insertConflict. tx_step.
    eapply txwp_mono; [apply IH|]. intros p d' [-> ->]. split.
    + rewrite add_conflicts_cons. do 2 f_equal.
      * unfold conflict_for. by rewrite Nat.add_0_r.
      * apply imap_ext. intros n c' _. unfold conflict_for. simpl. by rewrite Nat.add_succ_r.
    + destruct (String.eqb_spec acc "") as [->|Hne].
      * destruct (String.eqb_spec (uuidv7 (db_next d)) ""); [|done].
        exfalso. by eapply uuidv7_nonempty.
      * destruct (String.eqb_spec acc ""); done.
Qed.

Lemma recordConflicts_refines req i cs res d ok :
  txwp (recordConflicts req i cs res) d ok (λ p d',
    d' = recorded req i res cs d ∧
    p = match cs with [] => "" | _ => uuidv7 (db_next d) end).
Proof.
  unfold recordConflicts, recorded.
  replace (if (maxRecordedConflicts <? length cs)%nat then take maxRecordedConflicts cs else cs)
    with (take maxRecordedConflicts cs).
  - eapply txwp_mono; [apply record_loop_refines|]. intros p d' [-> ->]. by destruct cs.
  - destruct (Nat.ltb_spec maxRecordedConflicts (length cs)); [done|]. by rewrite take_ge.
Qed.

Lemma reject_refines req i t primary cs d r (ok : Prop) :
  db_keys d !! req_key req = Some r → k_ref r = None → cs ≠ [] →
  (ok → ∀ detail i c, is_Some (jsonb_in (marshal (reject_body req detail i c)))) →
  txwp (reject req i t primary cs) d ok (λ o d', ∃ stored,
    jsonb_in (marshal (reject_body req (reject_detail req primary) (cd_id primary)
                         (uuidv7 (db_next d)))) = Some stored ∧
    o = mkOutcome VerdictRejected 0 None stored (reject_detail req primary) ∧
    d' = set_intents (void_where (λ x, i_id x = i ∧ i_emitted x = t) (db_now d))
           (set_keys (insert (req_key req) (rejected_row d r stored (reject_detail req primary)))
              (recorded req i ResolutionRejected cs d))).
Proof.
  intros Hr Href Hne Hjson. unfold reject. tx_step.
  eapply txwp_mono; [apply recordConflicts_refines|]. intros p d1 [-> Hp].
  assert (p = uuidv7 (db_next d)) as -> by (by destruct cs). clear Hp. simpl.
  do 4 tx_step. unfold rejectKey. fold (req_key req).
  destruct (jsonb_in _) as [stored|] eqn:Hj.
  2: { intros Hok. destruct (Hjson Hok (reject_detail req primary) (cd_id primary)
         (uuidv7 (db_next d))) as [? Hs]. by rewrite Hs in Hj. }
  simpl. rewrite Hr. rewrite decide_True by done. do 4 tx_step. simpl. tx_step.
  exists stored. done.
Qed.

Lemma resolveConflicts_refines req i t d r (ok : Prop) :
  db_keys d !! req_key req = Some r → k_ref r = None →
  (ok → ∀ detail i c, is_Some (jsonb_in (marshal (reject_body req detail i c)))) →
  txwp (resolveConflicts req i t) d ok (resolve_step req i t d).
Proof.
  intros Hr Href Hjson. unfold resolveConflicts, conflictingIntents. do 4 tx_step.
  unfold selectWindow. tx_step. fold (window_conflicts req i d).
  destruct (window_conflicts req i d) as [|c cs] eqn:Hcs; [tx_step; by apply res_clear|].
  rewrite <- Hcs. destruct (r_Enforce req) eqn:Henf; simpl.
  2: { tx_step. eapply txwp_mono; [apply recordConflicts_refines|]. intros p d' [-> _].
       tx_step. apply res_observed; [done|by rewrite Hcs|done]. }
  fold (others_of req (window_conflicts req i d)) (same_of req (window_conflicts req i d)).
  destruct (others_of req (window_conflicts req i d)) as [|primary rest] eqn:Ho.
  2: { eapply txwp_mono; [by eapply reject_refines; [..|rewrite Hcs|]|].
       intros o d' (stored & Hs & -> & ->). by eapply res_rejected. }
  unfold firstPending. do 4 tx_step. unfold selectStatuses. tx_step.
  fold (statuses (r_AgentID req) (cd_key <$> same_of req (window_conflicts req i d)) d).
  fold (blocking_key req (window_conflicts req i d) d).
  destruct (String.eqb_spec (blocking_key req (window_conflicts req i d) d) "") as [Hb|Hb]; simpl.
  - tx_step. eapply txwp_mono; [apply recordConflicts_refines|]. intros p d' [-> _].
    tx_step. apply res_serialized; [done|by rewrite Hcs|done..].
  - tx_step. apply res_serialize; [done|by rewrite Hcs|done..].
Qed.

Lemma key_step_row req d x d' :
  key_step req d x d' → x.2 = true →
  ∃ r, db_keys d' !! req_key req = Some r ∧ k_status r = StatusPending ∧
    k_ref r = None ∧ k_result r = None ∧ k_hash r = r_RequestHash req ∧
    k_claimed r = db_now d.
Proof.
  intros Hs Hx. destruct Hs; try done; eexists; (split; [apply lookup_insert_eq|]); done.
Qed.
End Inside.

(** ** Refinement of the whole calls *)

(** Outside the tables, a database call moves only the transaction, the script and the clock. *)
Definition call_frame (w w' : world) : Prop :=
  w' = set_db (w_db w') (set_tx (w_tx w') (set_faults (w_faults w') (set_clock (w_clock w') w))) ∧
  later w w'.

Lemma call_frame_same w w' :
  w' = set_db (w_db w') (set_tx (w_tx w') (set_faults (w_faults w') w)) → call_frame w w'.
Proof. intros ->. split; [by destruct w|by apply later_same]. Qed.

Lemma call_frame_refl w : call_frame w w.
Proof. apply call_frame_same. by destruct w. Qed.

Lemma call_frame_trans w1 w2 w3 : call_frame w1 w2 → call_frame w2 w3 → call_frame w1 w3.
Proof.
  intros [H1 L1] [H2 L2]. split; [|by eapply later_trans]. rewrite H2, H1. by destruct w1.
Qed.

Lemma tx_call_frame w w' : tx_frame w w' → call_frame w w'.
Proof. intros [Hf Hl]. split; [|done]. rewrite Hf. by destruct w. Qed.

Lemma tx_frame_db w w' : tx_frame w w' → w_db w' = w_db w.
Proof. intros [-> _]. done. Qed.

(** What a call leaves alone. *)
Lemma call_frame_env w w' : call_frame w w' →
  w_env w' = w_env w ∧ w_sent w' = w_sent w ∧ w_replies w' = w_replies w ∧
  w_objects w' = w_objects w ∧ w_objfaults w' = w_objfaults w ∧ w_cancel w' = w_cancel w.
Proof. by intros [-> _]. Qed.

Section Calls.
Context `{!Pg}.
Implicit Types (req : Request) (d : DB) (r : key_row).

(** The transaction [body] computes a value and whether to commit; [finish] commits. *)
Definition finish {A} (context : string) (xc : A * bool) : M A :=
  if xc.2 then _ ← wrapping context commit; mret xc.1 else mret xc.1.

(** A transaction whose body satisfies [Q] and that commits as the body says. *)
Lemma run_tx {A} c1 c2 (body : M (A * bool)) w (ok : Prop) (Q : A * bool → DB → Prop) :
  (ok → quiet w) → txwp body (w_db w) ok Q →
  match with_tx c1 (body ≫= finish c2) w with
  | (inl e, w') =>
      call_frame w w' ∧ w_tx w' = None ∧ (ok → False) ∧
      (w_db w' = w_db w ∨ ∃ x, Q (x, true) (w_db w'))
  | (inr x, w') =>
      call_frame w w' ∧ w_tx w' = None ∧ (ok → quiet w') ∧
      ((w_db w' = w_db w ∧ ∃ d', Q (x, false) d') ∨ Q (x, true) (w_db w'))
  end.
Proof.
  intros Hok Hb. unfold with_tx, finally, wrapping, begin_tx, mbind, St_bind.
  destruct (default Fine (head (w_faults w))) eqn:Ef.
  2-3: split_and!; [by apply call_frame_same; destruct w|done| |by left];
       intros Hq%Hok; rewrite (quiet_head _ Hq) in Ef; done.
  set (w1 := set_tx (Some (w_db w)) (set_faults (tail (w_faults w)) w)).
  assert (Hq1 : ok → quiet w1) by (intros Hq%Hok; by apply quiet_tail in Hq).
  specialize (Hb w1 eq_refl Hq1).
  assert (Hf1 : call_frame w w1) by (by apply call_frame_same; destruct w).
  destruct (body w1) as [[e|[x c]] w2].
  - destruct Hb as [Hf HE]. split_and!; [|done|eauto|left; simpl; by rewrite (tx_frame_db w1 w2)].
    apply (call_frame_trans _ w2); [|by apply call_frame_same; destruct w2].
    eapply call_frame_trans; [done|by apply tx_call_frame].
  - destruct Hb as (Hf & Hq & v & Hv & HQ). unfold finish. simpl.
    pose proof (call_frame_trans _ _ _ Hf1 (tx_call_frame _ _ Hf)) as Hcf.
    assert (Hdb : w_db w2 = w_db w) by (by rewrite (tx_frame_db w1 w2)).
    destruct c; simpl.
    + unfold mbind, St_bind, wrapping, commit. rewrite Hv.
      destruct (default Fine (head (w_faults w2))) eqn:Ef2.
      * split_and!; [by eapply call_frame_trans; [done|by apply call_frame_same; destruct w2]|done| |by right].
        intros Hqw. by apply Hq, quiet_tail in Hqw.
      * split_and!; [by eapply call_frame_trans; [done|by apply call_frame_same; destruct w2]|done| |by left].
        intros Hqw. apply Hq, quiet_head in Hqw. by rewrite Hqw in Ef2.
      * split_and!; [by eapply call_frame_trans; [done|by apply call_frame_same; destruct w2]|done| |by right; eauto].
        intros Hqw. apply Hq, quiet_head in Hqw. by rewrite Hqw in Ef2.
    + split_and!; [by eapply call_frame_trans; [done|by apply call_frame_same; destruct w2]|done|done|by left; eauto].
Qed.

Lemma with_tx_ext {A} c (m m' : M A) w : (∀ u, m u = m' u) → with_tx c m w = with_tx c m' w.
Proof.
  intros Hext. unfold with_tx, finally, mbind, St_bind.
  destruct (wrapping c begin_tx w) as [[e|x] w1]; [done|]. by rewrite Hext.
Qed.

(** *** Claim *)

(** The claim without its commit. *)
Definition claim_work req : M (Result * bool) :=
  '(lockWait, locked) ← lockResource req;
  match locked with
  | inl e =>
      if lock_not_available e
      then mret (mkResult VerdictLockTimeout None "" false lockWait None 0, false)
      else throw e
  | inr _ =>
      '(result, fresh) ← claimKey req;
      let result := mkResult (Verdict_ result) (Record_of result) (IntentID result)
                      (Collided result) lockWait (Blocking result) (Observed result) in
      if negb fresh then mret (result, false)
      else
        '(intentID, emittedAt) ← recordIntent req;
        outcome ← resolveConflicts req intentID emittedAt;
        mret (with_outcome lockWait intentID result outcome,
              negb (bool_decide (o_Verdict outcome = VerdictSerialize)))
  end.

Lemma Claim_split req w :
  Claim req w = with_tx "begin claim" (claim_work req ≫= finish "commit claim") w.
Proof.
  apply with_tx_ext. intros u. unfold claim_work, claim_body, mbind, St_bind.
  destruct (lockResource req u) as [[e|[lw [e|[]]]] u1]; [done| |].
  { by destruct (lock_not_available e). }
  destruct (claimKey req u1) as [[e|[result fresh]] u2]; [done|].
  destruct fresh; simpl; [|done].
  destruct (recordIntent req u2) as [[e|[i t]] u3]; [done|].
  destruct (resolveConflicts req i t u3) as [[e|o] u4]; [done|].
  unfold finish. simpl. by destruct (decide _); [rewrite bool_decide_eq_true_2|
    rewrite bool_decide_eq_false_2].
Qed.

Definition claim_post req d (xc : Result * bool) (d' : DB) (ok : Prop) : Prop :=
  (Verdict_ xc.1 = VerdictLockTimeout ∧ xc.2 = false ∧ (ok → False)) ∨
  ∃ lockWait, claim_step req lockWait d xc.1 (if xc.2 then d' else d).

Lemma claim_work_refines req d (ok : Prop) :
  (ok → acceptable req d) →
  txwp (claim_work req) d ok (λ xc d', claim_post req d xc d' ok).
Proof.
  intros Hacc. unfold claim_work, lockResource. do 2 tx_step. apply txwp_now. intros t0.
  tx_step. apply txwp_try_exec; simpl.
  2: { intros e Hne. tx_step. apply txwp_now. intros t1. tx_step.
       destruct (lock_not_available e); tx_step; [|done]. left. done. }
  tx_step. apply txwp_now. intros t1. do 2 tx_step.
  eapply txwp_mono; [apply claimKey_refines; intros Hok; by apply Hacc|].
  intros [result fresh] d1 Hk. destruct fresh; simpl.
  2: { tx_step. right. exists (t1 - t0). simpl. assert (d1 = d) as -> by (by inversion Hk).
       pose proof (cs_answered req (t1 - t0) d result Hk). by inversion Hk; subst. }
  destruct (key_step_row _ _ _ _ Hk eq_refl) as (r & Hr & _ & Href & _).
  unfold recordIntent. do 3 tx_step. unfold insertIntent.
  destruct (decide _) as [Hcl|Hcl]; [|intros Hok; by apply Hcl, Hacc].
  destruct (jsonb_in (r_Payload req)) as [stored|] eqn:Hj.
  2: { intros Hok. destruct (Hacc Hok) as (_ & [? Hs] & _). by rewrite Hs in Hj. }
  tx_step. eapply txwp_mono; [eapply resolveConflicts_refines; [exact Hr|done|]|].
  { intros Hok. by apply Hacc. }
  intros o d3 Ho. tx_step. right. exists (t1 - t0). simpl.
  pose proof (cs_judged req (t1 - t0) d result d1 stored o d3 Hk Hcl Hj Ho) as Hcs.
  destruct (decide (o_Verdict o = VerdictSerialize)) as [Hv|Hv];
    [rewrite bool_decide_eq_true_2 by done | rewrite bool_decide_eq_false_2 by done];
    by inversion Hk; subst.
Qed.

Lemma Claim_refines req w :
  let ok := quiet w ∧ acceptable req (w_db w) in
  match Claim req w with
  | (inl e, w') =>
      call_frame w w' ∧ w_tx w' = None ∧ (ok → False) ∧
      (w_db w' = w_db w ∨ ∃ lockWait res, claim_step req lockWait (w_db w) res (w_db w'))
  | (inr res, w') =>
      call_frame w w' ∧ w_tx w' = None ∧ (ok → quiet w') ∧
      ((Verdict_ res = VerdictLockTimeout ∧ w_db w' = w_db w ∧ (ok → False)) ∨
       ∃ lockWait, claim_step req lockWait (w_db w) res (w_db w'))
  end.
Proof.
  intros ok. rewrite Claim_split.
  pose proof (run_tx "begin claim" "commit claim" (claim_work req) w ok
    (λ xc d', claim_post req (w_db w) xc d' ok)) as Hrun.
  specialize (Hrun ltac:(by intros [? _]) ltac:(apply claim_work_refines; by intros [_ ?])).
  destruct (with_tx _ _ w) as [[e|res] w'].
  - destruct Hrun as (? & ? & ? & [?|[x Hx]]); split_and!; auto. right.
    destruct Hx as [(_ & [=] & _)|[lw Hx]]. eauto.
  - destruct Hrun as (? & ? & ? & [[Hdb [d' Hx]]|Hx]); split_and!; auto.
    + destruct Hx as [(? & _ & ?)|[lw Hx]]; [by left|]. right. exists lw. by rewrite Hdb.
    + destruct Hx as [(_ & [=] & _)|[lw Hx]]. right. by exists lw.
Qed.

(** *** Complete *)

Definition complete_work (agent k : string) (status : Status) (result ref detail : string) :
    M (bool * bool) :=
  affected ← wrapping "complete key"
    (exec (completeKey agent k status (nullable result) (nullable ref) (nullable detail)));
  if negb (affected =? 1) then mret (false, false)
  else
    _ ← (if decide (status = StatusFailed)
         then wrapping "void failed intent" (exec (voidLatestIntent agent k))
         else mret tt);
    mret (true, true).

Lemma Complete_split agent k status result ref detail w :
  Complete agent k status result ref detail w =
  with_tx "begin complete"
    (complete_work agent k status result ref detail ≫= finish "commit complete") w.
Proof.
  apply with_tx_ext. intros u. unfold complete_work, mbind, St_bind.
  destruct (wrapping "complete key" _ u) as [[e|n] u1]; [done|].
  destruct (n =? 1); simpl; [|done].
  destruct (decide _); [|done]. by destruct (wrapping "void failed intent" _ u1) as [[]].
Qed.

(** What a fault-free [Complete] needs: the server takes the result, and it is not stored
    twice. *)
Definition storable (result ref : string) : Prop :=
  (result = EmptyString ∨ is_Some (jsonb_in result)) ∧
  (result = EmptyString ∨ ref = EmptyString).

Lemma complete_work_refines agent k status result ref detail d (ok : Prop) :
  (ok → storable result ref) →
  txwp (complete_work agent k status result ref detail) d ok (λ xc d',
    xc.2 = xc.1 ∧ complete_step agent k status result ref detail d xc.1 (if xc.2 then d' else d)).
Proof.
  intros Hs. unfold complete_work. do 3 tx_step. unfold completeKey.
  destruct (match nullable result with None => Some None | Some b => Some <$> jsonb_in b end)
    as [stored|] eqn:Hj.
  2: { intros Hok. destruct (Hs Hok) as [[->|[j Hj']] _]; [done|].
       unfold nullable in Hj. destruct (String.eqb result ""); [done|]. by rewrite Hj' in Hj. }
  destruct (db_keys d !! (agent, k)) as [r|] eqn:Hr.
  2: { simpl. tx_step. split; [done|]. apply complete_ignored. simpl. congruence. }
  destruct (decide (k_status r = StatusPending)) as [Hp|Hp].
  2: { simpl. tx_step. split; [done|]. apply complete_ignored. simpl. congruence. }
  destruct (decide (is_Some stored ∧ is_Some (nullable ref))) as [[H1 H2]|Hx].
  { intros Hok. destruct (Hs Hok) as [_ [->| ->]]; [|by destruct H2].
    simpl in Hj. injection Hj as <-. by destruct H1. }
  simpl. tx_step.
  assert (Hstep := complete_done agent k status result ref detail d r stored Hr Hp Hj).
  assert (Hxor : stored = None ∨ nullable ref = None).
  { destruct stored; [|by left]. destruct (nullable ref); [|by right]. exfalso. apply Hx. eauto. }
  specialize (Hstep Hxor).
  case_decide as Hst.
  - do 2 tx_step. unfold voidLatestIntent. unfold void_latest in Hstep.
    destruct (head _); by tx_step.
  - tx_step. by tx_step.
Qed.

Lemma Complete_refines agent k status result ref detail w :
  let ok := quiet w ∧ storable result ref in
  let step := complete_step agent k status result ref detail (w_db w) in
  match Complete agent k status result ref detail w with
  | (inl e, w') =>
      call_frame w w' ∧ w_tx w' = None ∧ (ok → False) ∧
      (w_db w' = w_db w ∨ step true (w_db w'))
  | (inr b, w') =>
      call_frame w w' ∧ w_tx w' = None ∧ (ok → quiet w') ∧ step b (w_db w')
  end.
Proof.
  intros ok step. rewrite Complete_split.
  pose proof (run_tx "begin complete" "commit complete"
    (complete_work agent k status result ref detail) w ok
    (λ xc d', xc.2 = xc.1 ∧ step xc.1 (if xc.2 then d' else w_db w))) as Hrun.
  specialize (Hrun ltac:(by intros [? _]) ltac:(apply complete_work_refines; by intros [_ ?])).
  destruct (with_tx _ _ w) as [[e|b] w'].
  - destruct Hrun as (? & ? & ? & [?|[x [Hx Hs]]]); split_and!; auto. simpl in *. subst. by right.
  - destruct Hrun as (? & ? & ? & [[Hdb [d' [Hx Hs]]]|[Hx Hs]]); split_and!; auto.
    simpl in Hs. by rewrite Hdb.
Qed.

(** A claim that asks to wait names the key to wait for. *)
Lemma claim_step_blocking req lockWait d res d' :
  claim_step req lockWait d res d' → Verdict_ res = VerdictSerialize → is_Some (Blocking res).
Proof.
  intros [result Hk|result d1 stored o d3 Hk Hcl Hj Ho].
  - by inversion Hk; subst.
  - simpl. intros Hv. by inversion Ho; subst.
Qed.

(** A claim that won leaves its row pending. *)
Lemma claim_step_pending req lockWait d res d' :
  claim_step req lockWait d res d' → Verdict_ res = VerdictClaimed →
  ∃ r, db_keys d' !! req_key req = Some r ∧ k_status r = StatusPending ∧
    k_hash r = r_RequestHash req ∧ k_claimed r = db_now d.
Proof.
  intros [result Hk|result d1 stored o d3 Hk Hcl Hj Ho]; [by inversion Hk; subst|].
  intros Hv. simpl in Hv. rewrite decide_False by congruence.
  destruct (key_step_row _ _ _ _ Hk eq_refl) as (r & Hr & Hp & _ & _ & Hh & Hc).
  exists r. split; [|done]. by inversion Ho; subst.
Qed.

(** A verdict on the row comes with its record. *)
Lemma claim_step_record req lockWait d res d' :
  claim_step req lockWait d res d' → is_Some (Record_of res).
Proof.
  intros [result Hk|result d1 stored o d3 Hk Hcl Hj Ho].
  - by inversion Hk; subst.
  - simpl. inversion Hk; subst; simpl; by case_decide.
Qed.
End Calls.
