(* ===== verification/ClaimInv.v ===== *)
(** * ClaimInv: the invariants of the claim tables

    The life of a key, the one live intent of a claim, and the exclusion of conflicting live
    intents: proved for the steps of ClaimSpec.v, then, through the refinement lemmas, for
    [Claim] and [Complete] under every script of faults. *)

From S2P Require Import Prelude GoString Sha256 Manifest Conflict World Json Claim ClaimSpec.

(** ** Counting intents *)

Section Counting.
Implicit Types (i : intent_row) (l : list intent_row).

Definition of_key (agent k : string) i : Prop := i_agent i = agent ∧ i_key i = k.
#[export] Instance of_key_dec agent k i : Decision (of_key agent k i).
Proof. unfold of_key. apply _. Defined.

Definition live_count l (key : string * string) : nat :=
  length (filter (live_for key.1 key.2) l).
Definition total_count l (key : string * string) : nat :=
  length (filter (of_key key.1 key.2) l).

(** Voiding the intent with one identifier. *)
Abbreviation void_id i := (λ x, i_id x = i_id i ∧ i_emitted x = i_emitted i).

Lemma live_count_app l1 l2 key : live_count (l1 ++ l2) key = (live_count l1 key + live_count l2 key)%nat.
Proof. unfold live_count. by rewrite filter_app, length_app. Qed.
Lemma total_count_app l1 l2 key :
  total_count (l1 ++ l2) key = (total_count l1 key + total_count l2 key)%nat.
Proof. unfold total_count. by rewrite filter_app, length_app. Qed.

Lemma live_count_single i key :
  live_count [i] key = if decide (key = (i_agent i, i_key i) ∧ i_voided i = None) then 1%nat else 0%nat.
Proof.
  unfold live_count. destruct key as [a k]. simpl. rewrite filter_cons, filter_nil.
  unfold live_for. case_decide as H1; case_decide as H2; try done; naive_solver.
Qed.
Lemma total_count_single i key :
  total_count [i] key = if decide (key = (i_agent i, i_key i)) then 1%nat else 0%nat.
Proof.
  unfold total_count. destruct key as [a k]. simpl. rewrite filter_cons, filter_nil.
  unfold of_key. case_decide as H1; case_decide as H2; try done; naive_solver.
Qed.

Lemma live_count_zero l key i :
  live_count l key = 0%nat → i ∈ l → i_agent i = key.1 → i_key i = key.2 → i_voided i ≠ None.
Proof.
  unfold live_count. intros Hz Hi Ha Hk Hv. apply length_zero_iff_nil in Hz.
  assert (i ∈ filter (live_for key.1 key.2) l) as Hin by (by apply list_elem_of_filter).
  rewrite Hz in Hin. by apply not_elem_of_nil in Hin.
Qed.

Lemma void_where_ids P `{!∀ i, Decision (P i)} t l : i_id <$> void_where P t l = i_id <$> l.
Proof.
  unfold void_where. rewrite <- list_fmap_compose. apply list_fmap_ext.
  intros n x _. simpl. by case_decide.
Qed.

Lemma total_count_void P `{!∀ i, Decision (P i)} t l key :
  total_count (void_where P t l) key = total_count l key.
Proof.
  unfold total_count, void_where. induction l as [|x l IH]; [done|].
  rewrite fmap_cons, !filter_cons.
  assert (of_key key.1 key.2 (if decide (P x) then void_row t x else x) ↔ of_key key.1 key.2 x)
    as Hiff by (by destruct (decide (P x))).
  destruct (decide (of_key key.1 key.2 x)).
  - rewrite decide_True by (by apply Hiff). simpl. by rewrite IH.
  - rewrite decide_False by (by intros ?%Hiff). done.
Qed.

(** A list without the identifier is left alone. *)
Lemma void_where_none t i l : i_id i ∉ i_id <$> l → void_where (void_id i) t l = l.
Proof.
  unfold void_where. induction l as [|x l IH]; intros Hn; [done|].
  rewrite fmap_cons, not_elem_of_cons in Hn. destruct Hn as [Hx Hn].
  rewrite fmap_cons, IH by done. rewrite decide_False; [done|]. intros [He _]. by apply Hx.
Qed.

Lemma void_where_snoc t i l :
  i_id i ∉ i_id <$> l → void_where (void_id i) t (l ++ [i]) = l ++ [void_row t i].
Proof.
  intros Hn. pose proof (void_where_none t i l Hn) as Hl. unfold void_where in *.
  rewrite fmap_app, Hl. simpl. by rewrite decide_True.
Qed.

(** Voiding a live intent takes one live intent from its key and none from the others. *)
Lemma live_count_void t i l key :
  NoDup (i_id <$> l) → i ∈ l → i_voided i = None →
  live_count l key =
    ((if decide (key = (i_agent i, i_key i)) then 1 else 0)
     + live_count (void_where (void_id i) t l) key)%nat.
Proof.
  intros Hnd Hi Hv. apply list_elem_of_split in Hi as (l1 & l2 & ->).
  rewrite fmap_app, fmap_cons, NoDup_app, NoDup_cons in Hnd.
  destruct Hnd as (_ & Hl1 & Hl2 & _).
  assert (void_where (void_id i) t (l1 ++ i :: l2) = l1 ++ void_row t i :: l2) as ->.
  { unfold void_where. rewrite fmap_app, fmap_cons, decide_True by done.
    fold (void_where (void_id i) t l1) (void_where (void_id i) t l2).
    rewrite !void_where_none; [done|done|]. intros Hin. apply (Hl1 _ Hin). by left. }
  rewrite (cons_middle (void_row t i)), (cons_middle i), !live_count_app, !live_count_single.
  rewrite (decide_False (P:=key = _ ∧ i_voided (void_row t i) = None)) by (by intros [_ ?]).
  destruct (decide (key = (i_agent i, i_key i))).
  - rewrite decide_True by done. lia.
  - rewrite decide_False by (by intros [? _]). lia.
Qed.
End Counting.

(** ** The shape of a step *)

Section Shape.
Context `{!Pg}.
Implicit Types (req : Request) (d : DB) (r : key_row).

(** Identifiers come from the counter. *)
Definition ids_below (n : nat) (ids : list string) : Prop :=
  NoDup ids ∧ ∀ x, x ∈ ids → ∃ m, (m < n)%nat ∧ x = uuidv7 m.

Lemma ids_below_fresh n ids : ids_below n ids → uuidv7 n ∉ ids.
Proof. intros [_ Hb] Hin. destruct (Hb _ Hin) as (m & Hm & He%(inj uuidv7)). lia. Qed.

Lemma ids_below_snoc n ids : ids_below n ids → ids_below (S n) (ids ++ [uuidv7 n]).
Proof.
  intros Hids. split.
  - apply NoDup_app. split_and!; [apply Hids| |apply NoDup_singleton].
    intros x Hx ->%list_elem_of_singleton. by eapply ids_below_fresh.
  - intros x [Hx| ->%list_elem_of_singleton]%elem_of_app; [|by exists n; auto].
    destruct Hids as [_ Hb]. destruct (Hb _ Hx) as (m & ? & ?). exists m. split; [lia|done].
Qed.

Lemma ids_below_mono n m ids : (n <= m)%nat → ids_below n ids → ids_below m ids.
Proof.
  intros Hle [Hnd Hb]. split; [done|]. intros x Hx. destruct (Hb x Hx) as (j & ? & ?).
  exists j. split; [lia|done].
Qed.

(** The row a fresh claim writes, from the row it found. *)
Inductive taken req d : key_row → Prop :=
| taken_new : db_keys d !! req_key req = None → taken req d (fresh_row req d)
| taken_over r :
    db_keys d !! req_key req = Some r → k_hash r = r_RequestHash req →
    k_status r = StatusFailed → k_attempt r + 1 <= int4_max → taken req d (reclaimed_row d r).

(** The tables after a claim that wrote: the key row, one intent, some conflicts. *)
Definition wrote req d (row : key_row) (i : intent_row) (rows : list conflict_row) : DB :=
  mkDB (db_now d) (S (db_next d) + length rows) (<[req_key req := row]> (db_keys d))
    (db_intents d ++ [i]) (db_conflicts d ++ rows) (db_activations d) (db_audit d).

(** The incompatible intents the request meets in its window. *)
Definition met req d : list intent :=
  filter (λ c, Compatible (r_Declared req) (cd_declared c) = false)
    ((λ i, mkCandidate (i_id i) (i_agent i) (i_key i) (i_declared i)) <$>
       by_emitted_desc
         (filter (in_window (r_ResourceType req) (r_ResourceID req) (r_Window req)
                    (uuidv7 (db_next d)) d) (db_intents d))).

(** The conflict rows of a claim. *)
Definition pairs req d (res : Resolution) (cs : list intent) : list conflict_row :=
  imap (λ n, conflict_for req (uuidv7 (db_next d)) res d (S n)) (take maxRecordedConflicts cs).

Inductive claim_shape req (lockWait : Z) d : Result → DB → Prop :=
| sh_answered v r :
    db_keys d !! req_key req = Some r →
    (v = VerdictMismatch ∧ k_hash r ≠ r_RequestHash req ∨
     v = VerdictExisting ∧ k_hash r = r_RequestHash req ∧ k_status r ≠ StatusFailed) →
    claim_shape req lockWait d
      (mkResult v (Some (record_of (req_key req) r)) "" true lockWait None 0) d
| sh_serialize row res :
    taken req d row → r_Enforce req = true → met req d ≠ [] → others_of req (met req d) = [] →
    blocking_key req (met req d) (set_keys <[req_key req := row]> d) ≠ EmptyString →
    Verdict_ res = VerdictSerialize →
    Blocking res = Some (mkBlocking (r_AgentID req)
      (blocking_key req (met req d) (set_keys <[req_key req := row]> d))) →
    claim_shape req lockWait d res d
| sh_admitted row res stored rows :
    taken req d row → Class (r_Declared req) ∈ classes → jsonb_in (r_Payload req) = Some stored →
    Verdict_ res = VerdictClaimed →
    IntentID res = uuidv7 (db_next d) →
    (∃ ref, Record_of res = Some (mkRecord (r_AgentID req) (r_Key req) (k_hash row) StatusPending ""
                               ref "" (k_attempt row))) →
    (met req d = [] ∧ rows = [] ∨
     r_Enforce req = false ∧ met req d ≠ [] ∧ rows = pairs req d ResolutionObserved (met req d) ∨
     r_Enforce req = true ∧ met req d ≠ [] ∧ others_of req (met req d) = [] ∧
       blocking_key req (met req d) (set_keys <[req_key req := row]> d) = EmptyString ∧
       rows = pairs req d ResolutionSerialized (same_of req (met req d))) →
    claim_shape req lockWait d res (wrote req d row (new_intent req d stored) rows)
| sh_rejected row res stored primary rest body :
    taken req d row → Class (r_Declared req) ∈ classes → jsonb_in (r_Payload req) = Some stored →
    r_Enforce req = true → others_of req (met req d) = primary :: rest →
    jsonb_in (marshal (reject_body req (reject_detail req primary) (cd_id primary)
                         (uuidv7 (S (db_next d))))) = Some body →
    Verdict_ res = VerdictRejected →
    (∃ ref, Record_of res = Some (mkRecord (r_AgentID req) (r_Key req) (k_hash row) StatusRejected
                               body ref (reject_detail req primary) (k_attempt row))) →
    claim_shape req lockWait d res
      (wrote req d (rejected_row d row body (reject_detail req primary))
         (void_row (db_now d) (new_intent req d stored))
         (pairs req d ResolutionRejected (met req d))).

(** The tables when the intent is judged. *)
Abbreviation judged req d row stored :=
  (bump_next (set_intents (λ l, l ++ [new_intent req d stored]) (set_keys <[req_key req := row]> d))).

Lemma window_is_met req d row stored :
  window_conflicts req (uuidv7 (db_next d)) (judged req d row stored) = met req d.
Proof.
  unfold window_conflicts, met. simpl. rewrite filter_app, filter_cons, filter_nil.
  rewrite decide_False by (by intros (_ & _ & _ & _ & ?)). by rewrite app_nil_r.
Qed.

Lemma recorded_is_wrote req d row stored res cs :
  recorded req (uuidv7 (db_next d)) res cs (judged req d row stored) =
  wrote req d row (new_intent req d stored) (pairs req d res cs).
Proof.
  unfold recorded, add_conflicts, wrote, pairs. simpl. rewrite !length_imap. f_equal.
  f_equal. apply imap_ext. intros n c _. unfold conflict_for. simpl. by rewrite Nat.add_succ_r.
Qed.

Lemma judged_is_wrote req d row stored :
  judged req d row stored = wrote req d row (new_intent req d stored) [].
Proof. unfold wrote, bump_next, set_intents, set_keys. simpl. by rewrite app_nil_r, Nat.add_0_r. Qed.

Lemma key_step_taken req d result d1 :
  key_step req d (result, true) d1 →
  ∃ row, taken req d row ∧ d1 = set_keys <[req_key req := row]> d ∧
    k_status row = StatusPending ∧ k_ref row = None ∧
    ∃ ref, Record_of result = Some (mkRecord (r_AgentID req) (r_Key req) (k_hash row)
                                     StatusPending "" ref "" (k_attempt row)).
Proof.
  inversion 1; subst.
  - exists (fresh_row req d). split_and!; [by apply taken_new|done..|]. by eexists.
  - exists (reclaimed_row d r). split_and!; [by apply taken_over|done..|]. by eexists.
Qed.

Lemma claim_step_shape req lockWait d res d' :
  ids_below (db_next d) (i_id <$> db_intents d) →
  claim_step req lockWait d res d' → claim_shape req lockWait d res d'.
Proof.
  intros Hids [result Hk|result d1 stored o d3 Hk Hcl Hj Ho].
  { inversion Hk; subst; eapply sh_answered; eauto. }
  apply key_step_taken in Hk as (row & Ht & -> & Hst & Href & ref & Hrec).
  change (new_intent req (set_keys _ d) stored) with (new_intent req d stored) in Ho.
  change (db_next (set_keys _ d)) with (db_next d) in *.
  change (db_now (set_keys _ d)) with (db_now d) in *.
  inversion Ho as [Hw|cs Hw Hne He|cs primary rest r body Hw He Hot Hr Hb|cs Hw Hne He Hot Hbk
    |cs Hw Hne He Hot Hbk]; subst; rewrite window_is_met in *; clear Ho.
  - rewrite decide_False by done. rewrite judged_is_wrote. eapply sh_admitted; eauto.
  - rewrite decide_False by done. rewrite recorded_is_wrote. eapply sh_admitted; eauto 6.
  - rewrite decide_False by done. simpl in Hr. rewrite lookup_insert_eq in Hr. injection Hr as <-.
    rewrite recorded_is_wrote. simpl in Hb.
    replace (set_intents _ _) with
      (wrote req d (rejected_row d row body (reject_detail req primary))
         (void_row (db_now d) (new_intent req d stored))
         (pairs req d ResolutionRejected (met req d))).
    { eapply sh_rejected; eauto. exists ref. simpl. by rewrite Hrec. }
    unfold wrote, set_intents, set_keys. simpl. rewrite insert_insert_eq. f_equal.
    symmetry. apply (void_where_snoc (db_now d) (new_intent req d stored)).
    by apply ids_below_fresh.
  - rewrite decide_True by done. by eapply sh_serialize.
  - rewrite decide_False by done. rewrite recorded_is_wrote. eapply sh_admitted; eauto.
    do 2 right. done.
Qed.
End Shape.

(** ** Well-formed tables *)

(** A key in one of these states holds a live intent. *)
Definition holds_intent (s : Status) : bool :=
  match s with
  | StatusPending | StatusDone | StatusIndeterminate => true
  | StatusFailed | StatusRejected => false
  end.

Record row_ok (r : key_row) : Prop := {
  ro_attempt : 1 <= k_attempt r <= int4_max;
  ro_xor : k_result r = None ∨ k_ref r = None;
  ro_pending : k_status r = StatusPending →
    k_result r = None ∧ k_ref r = None ∧ k_detail r = None;
  ro_completed : k_completed r = None ↔ k_status r = StatusPending;
}.

Section Invariant.
Context `{!Pg}.
Implicit Types (req : Request) (d : DB) (r : key_row).

(** Identifiers are unique, rows are well formed, an attempt is an intent, and exactly the
    keys that are pending, done or indeterminate hold one live intent. *)
Record db_ok d : Prop := {
  do_intents : ids_below (db_next d) (i_id <$> db_intents d);
  do_conflicts : ids_below (db_next d) (c_id <$> db_conflicts d);
  do_pairs c : c ∈ db_conflicts d →
    c_intent_a c ∈ i_id <$> db_intents d ∧ c_intent_b c ∈ i_id <$> db_intents d ∧
    c_intent_a c ≠ c_intent_b c;
  do_rows : map_Forall (λ _ r, row_ok r) (db_keys d);
  do_live key : live_count (db_intents d) key =
    match db_keys d !! key with
    | Some r => if holds_intent (k_status r) then 1%nat else 0%nat
    | None => 0%nat
    end;
  do_total key : Z.of_nat (total_count (db_intents d) key) =
    match db_keys d !! key with Some r => k_attempt r | None => 0 end;
}.

Lemma empty_db_ok : db_ok empty_db.
Proof.
  split; [split; [apply NoDup_nil_2|by intros ? ?%not_elem_of_nil]..| | | |]; try done.
  by intros ? ?%not_elem_of_nil.
Qed.

(** What a claim takes holds no live intent, and its new row is in order. *)
Lemma taken_free req d row :
  db_ok d → taken req d row →
  live_count (db_intents d) (req_key req) = 0%nat ∧
  Z.of_nat (total_count (db_intents d) (req_key req)) + 1 = k_attempt row ∧
  k_status row = StatusPending ∧ row_ok row.
Proof.
  intros Hd Ht. pose proof (do_live d Hd (req_key req)) as Hl.
  pose proof (do_total d Hd (req_key req)) as Htot.
  destruct Ht as [Hn|r Hr Hh Hs Ha]; [rewrite Hn in *|rewrite Hr in *].
  - split_and!; [done|simpl; lia|done|]. split; try done; simpl; unfold int4_max; lia || auto.
  - rewrite Hs in Hl. split_and!; [done|simpl; lia|done|].
    pose proof (do_rows d Hd _ _ Hr) as Hro. simpl in Hro. destruct Hro as [[H1 H2] _ _ _].
    split; try done; simpl; lia || auto.
Qed.

Lemma pairs_ids req d res cs : c_id <$> pairs req d res cs =
  imap (λ n _, uuidv7 (db_next d + S n)) (take maxRecordedConflicts cs).
Proof. unfold pairs. by rewrite fmap_imap. Qed.

Lemma ids_below_imap {X} : ∀ (cs : list X) n ids, ids_below n ids →
  ids_below (n + length cs) (ids ++ imap (λ j _, uuidv7 (n + j)) cs).
Proof.
  induction cs as [|c cs IH]; intros n ids Hids; simpl.
  - by rewrite Nat.add_0_r, app_nil_r.
  - rewrite Nat.add_0_r, cons_middle, app_assoc, Nat.add_succ_r.
    erewrite imap_ext; [apply (IH (S n)); by apply ids_below_snoc|].
    intros j x _. simpl. by rewrite Nat.add_succ_r.
Qed.

Lemma met_elem req d c : c ∈ met req d ↔
  ∃ i, i ∈ db_intents d ∧
    in_window (r_ResourceType req) (r_ResourceID req) (r_Window req) (uuidv7 (db_next d)) d i ∧
    Compatible (r_Declared req) (i_declared i) = false ∧
    c = mkCandidate (i_id i) (i_agent i) (i_key i) (i_declared i).
Proof.
  unfold met, by_emitted_desc. rewrite list_elem_of_filter, list_elem_of_fmap. split.
  - intros (Hc & i & -> & Hi). rewrite merge_sort_Permutation, reverse_Permutation in Hi.
    apply list_elem_of_filter in Hi as [Hw Hi]. by exists i.
  - intros (i & Hi & Hw & Hc & ->). split; [done|]. exists i. split; [done|].
    rewrite merge_sort_Permutation, reverse_Permutation. by apply list_elem_of_filter.
Qed.

(** A claim that wrote keeps the tables well formed, when the row it wrote and the intent it
    added agree. *)
Lemma wrote_ok req d taken_row row i rows (cs : list intent) res :
  db_ok d → taken req d taken_row → row_ok row → k_attempt row = k_attempt taken_row →
  i_id i = uuidv7 (db_next d) → (i_agent i, i_key i) = req_key req →
  (i_voided i = None ↔ holds_intent (k_status row) = true) →
  rows = pairs req d res cs → (∀ c, c ∈ cs → c ∈ met req d) →
  db_ok (wrote req d row i rows).
Proof.
  intros Hd Ht Hrow Hatt Hid Hkey Hv -> Hcs.
  destruct (taken_free _ _ _ Hd Ht) as (Hfree & Htot & _).
  assert (Hpair : ∀ c, c ∈ pairs req d res cs →
    c_intent_a c = uuidv7 (db_next d) ∧ c_intent_b c ∈ i_id <$> db_intents d).
  { intros c (n & Hn)%list_elem_of_lookup_1. unfold pairs in Hn. rewrite list_lookup_imap in Hn.
    apply fmap_Some in Hn as (x & Hx & ->). split; [done|]. simpl.
    apply list_elem_of_lookup_2, subseteq_take, Hcs, met_elem in Hx as (j & Hj & _ & _ & ->).
    simpl. by apply (list_elem_of_fmap_2 i_id). }
  split; simpl.
  - rewrite fmap_app. simpl. rewrite Hid.
    eapply ids_below_mono; [|apply ids_below_snoc, Hd]. lia.
  - rewrite fmap_app, pairs_ids. unfold pairs. rewrite length_imap.
    erewrite imap_ext; [apply (ids_below_imap _ (S (db_next d)))|].
    + eapply ids_below_mono; [|apply Hd]. lia.
    + intros n x _. simpl. by rewrite Nat.add_succ_r.
  - intros c [Hc|Hc]%elem_of_app; rewrite fmap_app, !elem_of_app; simpl.
    + destruct (do_pairs d Hd c Hc) as (? & ? & ?). auto.
    + destruct (Hpair c Hc) as [Ha Hb]. rewrite Ha, Hid. split_and!; [right; by left|by left|].
      intros Heq. rewrite <- Heq in Hb. by eapply ids_below_fresh; [apply Hd|].
  - apply map_Forall_insert_2; [done|apply Hd].
  - intros key. rewrite live_count_app, live_count_single, Hkey.
    destruct (decide (key = req_key req)) as [->|Hne].
    + rewrite lookup_insert_eq, Hfree. destruct (holds_intent (k_status row)).
      * by rewrite decide_True by naive_solver.
      * by rewrite decide_False by naive_solver.
    + rewrite lookup_insert_ne by done. rewrite decide_False by naive_solver.
      rewrite (do_live d Hd). lia.
  - intros key. rewrite total_count_app, total_count_single, Hkey.
    destruct (decide (key = req_key req)) as [->|Hne].
    + rewrite lookup_insert_eq. lia.
    + rewrite lookup_insert_ne by done. rewrite <- (do_total d Hd). lia.
Qed.

Lemma claim_step_ok req lockWait d res d' :
  db_ok d → claim_step req lockWait d res d' → db_ok d'.
Proof.
  intros Hd Hstep. apply claim_step_shape in Hstep; [|apply Hd].
  destruct Hstep as [|
    |row res stored rows Ht Hcl Hj Hv Hi Hrec Hrows
    |row res stored primary rest body Ht Hcl Hj He Ho Hb Hv Hrec]; try done;
    destruct (taken_free _ _ _ Hd Ht) as (_ & _ & Hst & Hrow).
  - assert (∃ cs rs, rows = pairs req d rs cs ∧ ∀ c, c ∈ cs → c ∈ met req d) as (cs & rs & -> & Hcs).
    { destruct Hrows as [[_ ->]|[(_ & _ & ->)|(_ & _ & _ & _ & ->)]].
      - exists [], ResolutionObserved. split; [done|]. intros c Hc. by apply not_elem_of_nil in Hc.
      - eauto.
      - eexists _, _. split; [done|]. intros c. unfold same_of. by intros [_ ?]%list_elem_of_filter. }
    eapply wrote_ok; eauto. by rewrite Hst.
  - eapply wrote_ok; eauto; [|done..].
    destruct Hrow as [? _ Hp _]. destruct (Hp Hst) as (_ & Href & _).
    split; simpl; auto; naive_solver.
Qed.

(** The states [Complete] is called with. *)
Definition outcome_status (s : Status) : Prop :=
  s = StatusDone ∨ s = StatusFailed ∨ s = StatusIndeterminate.

(** A live intent of the key, when there is one. *)
Lemma latest_live l agent k latest :
  head (by_emitted_desc (filter (live_for agent k) l)) = Some latest →
  latest ∈ l ∧ live_for agent k latest.
Proof.
  intros Hh. assert (latest ∈ by_emitted_desc (filter (live_for agent k) l)) as Hin.
  { destruct (by_emitted_desc _); [done|]. injection Hh as ->. by left. }
  unfold by_emitted_desc in Hin. rewrite merge_sort_Permutation, reverse_Permutation in Hin.
  by apply list_elem_of_filter in Hin as [? ?].
Qed.

Lemma latest_none l agent k :
  head (by_emitted_desc (filter (live_for agent k) l)) = None → live_count l (agent, k) = 0%nat.
Proof.
  unfold live_count, by_emitted_desc. intros Hh. simpl.
  assert (Hp : merge_sort newer (reverse (filter (live_for agent k) l)) ≡ₚ filter (live_for agent k) l)
    by (by rewrite merge_sort_Permutation, reverse_Permutation).
  destruct (merge_sort _ _); [|done]. by rewrite <- Hp.
Qed.

Lemma complete_step_ok agent k status result ref detail d b d' :
  db_ok d → outcome_status status → complete_step agent k status result ref detail d b d' →
  db_ok d'.
Proof.
  intros Hd Hs [|r stored Hr Hp Hj Hx]; [done|].
  set (row := completed_row d r status stored (nullable ref) (nullable detail)).
  assert (Hrow : map_Forall (λ _ r, row_ok r) (<[(agent, k) := row]> (db_keys d))).
  { apply map_Forall_insert_2; [|apply Hd]. pose proof (do_rows d Hd _ _ Hr) as [? _ _ _].
    unfold outcome_status in Hs. split; simpl; try done; naive_solver. }
  pose proof (do_live d Hd (agent, k)) as Hl. rewrite Hr, Hp in Hl. simpl in Hl.
  destruct Hd as [Hi Hc Hpr Hro Hlive Htot].
  assert (Htot' : ∀ key, Z.of_nat (total_count (db_intents d) key) =
    match <[(agent, k) := row]> (db_keys d) !! key with Some x => k_attempt x | None => 0 end).
  { intros key. rewrite Htot. destruct (decide (key = (agent, k))) as [->|Hne].
    - by rewrite lookup_insert_eq, Hr.
    - by rewrite lookup_insert_ne. }
  case_decide as Hf.
  - unfold void_latest. simpl. destruct (head _) as [latest|] eqn:Hh.
    2: { apply latest_none in Hh. lia. }
    apply latest_live in Hh as (Hin & Ha & Hk & Hv).
    split; simpl; rewrite ?void_where_ids; try done.
    + intros key. pose proof (live_count_void (db_now d) latest (db_intents d) key) as Hcount.
      specialize (Hcount (proj1 Hi) Hin Hv). rewrite Ha, Hk in Hcount.
      pose proof (Hlive key) as Hk'. destruct (decide (key = (agent, k))) as [->|Hne].
      * rewrite lookup_insert_eq. simpl. rewrite Hf. simpl. lia.
      * rewrite lookup_insert_ne by done. rewrite <- Hk'. lia.
    + intros key. by rewrite total_count_void.
  - split; simpl; try done. intros key. destruct (decide (key = (agent, k))) as [->|Hne].
    + rewrite lookup_insert_eq. simpl. destruct Hs as [->|[->| ->]]; done.
    + rewrite lookup_insert_ne by done. apply Hlive.
Qed.
End Invariant.
