(* ===== verification/ClaimSafety.v ===== *)
(** * ClaimSafety: what the claim tables guarantee

    The theorems on [Claim], [Complete] and [Lookup]: refinement of the table specification
    under faults, the life of a key, the invariants of ClaimInv.v over every reachable
    database, the meaning of the verdicts, and the exclusion of conflicting writes. *)

From S2P Require Import Prelude GoString Sha256 Manifest Conflict World Json Claim ClaimSpec ClaimInv.

(** ** Databases the program can produce *)

Section Reach.
Context `{!Pg}.
Implicit Types (req : Request) (d : DB) (w : world).

(** Any interleaving of whole calls, each under any script of faults, with requests from
    [allowed], while the server's clock moves freely. *)
Inductive reach (allowed : Request → Prop) : DB → Prop :=
| reach_empty : reach allowed empty_db
| reach_claim req w :
    allowed req → reach allowed (w_db w) → reach allowed (w_db (Claim req w).2)
| reach_complete agent k status result ref detail w :
    outcome_status status → reach allowed (w_db w) →
    reach allowed (w_db (Complete agent k status result ref detail w).2)
| reach_now t d : reach allowed d → reach allowed (set_now t d)
| reach_activation snapshot principal w :
    reach allowed (w_db w) → reach allowed (w_db (RecordActivation snapshot principal w).2).

(** What a call does to the tables, read off the refinement lemmas. *)
Lemma Claim_db req w :
  w_db (Claim req w).2 = w_db w ∨
  ∃ lockWait res, claim_step req lockWait (w_db w) res (w_db (Claim req w).2).
Proof.
  pose proof (Claim_refines req w) as Href. simpl in Href.
  destruct (Claim req w) as [[e|res] w']; simpl.
  - by destruct Href as (_ & _ & _ & [?|?]); auto.
  - destruct Href as (_ & _ & _ & [(_ & ? & _)|[lw ?]]); eauto.
Qed.

Lemma Complete_db agent k status result ref detail w :
  w_db (Complete agent k status result ref detail w).2 = w_db w ∨
  ∃ b, complete_step agent k status result ref detail (w_db w) b
         (w_db (Complete agent k status result ref detail w).2).
Proof.
  pose proof (Complete_refines agent k status result ref detail w) as Href. simpl in Href.
  destruct (Complete agent k status result ref detail w) as [[e|b] w']; simpl.
  - destruct Href as (_ & _ & _ & [?|?]); eauto.
  - destruct Href as (_ & _ & _ & ?). eauto.
Qed.

Lemma RecordActivation_db snapshot principal w :
  ∃ f, w_db (RecordActivation snapshot principal w).2 = set_activations f (w_db w).
Proof.
  assert (∃ f, w_db w = set_activations f (w_db w)) as Hid.
  { exists id. by destruct (w_db w). }
  unfold RecordActivation, wrapping, query, recordActivation.
  destruct (default Fine (head (w_faults w))); try (destruct (existsb _ _)); simpl; eauto.
Qed.

(** An invariant of well-formed tables that every step keeps holds wherever the program can
    get. *)
Lemma reach_invariant allowed (I : DB → Prop) :
  I empty_db →
  (∀ req lockWait d res d', allowed req → db_ok d → I d →
     claim_step req lockWait d res d' → I d') →
  (∀ agent k status result ref detail d b d', outcome_status status → db_ok d → I d →
     complete_step agent k status result ref detail d b d' → I d') →
  (∀ t d, I d → I (set_now t d)) → (∀ f d, I d → I (set_activations f d)) →
  ∀ d, reach allowed d → db_ok d ∧ I d.
Proof.
  intros H0 Hclaim Hcomplete Hnow Hact d Hr.
  induction Hr as [|req w Ha _ [Hd HI]|agent k status result ref detail w Hs _ [Hd HI]
                   |t d _ [Hd HI]|snapshot principal w _ [Hd HI]].
  - split; [apply empty_db_ok|done].
  - destruct (Claim_db req w) as [->|(lw & res & Hstep)]; [done|].
    split; [by eapply claim_step_ok|by eapply Hclaim].
  - destruct (Complete_db agent k status result ref detail w) as [->|(b & Hstep)]; [done|].
    split; [by eapply complete_step_ok|by eapply Hcomplete].
  - split; [|by apply Hnow]. by destruct Hd.
  - destruct (RecordActivation_db snapshot principal w) as [f ->].
    split; [|by apply Hact]. by destruct Hd.
Qed.

Lemma reach_ok allowed d : reach allowed d → db_ok d.
Proof. intros Hr. by apply (reach_invariant allowed (λ _, True)) in Hr as [? _]. Qed.
End Reach.

(** ** The life of a key *)

Section Life.
Context `{!Pg}.
Implicit Types (req : Request) (d : DB) (w : world).

(** The columns a row keeps for life. *)
Definition same_identity (r r' : key_row) : Prop :=
  k_hash r' = k_hash r ∧ k_rtype r' = k_rtype r ∧ k_rid r' = k_rid r ∧ k_op r' = k_op r ∧
  k_created r' = k_created r.

(** The moves of a row.  Done, indeterminate and rejected are final; failed is left only
    by another attempt; pending only by an outcome. *)
Inductive row_step : option key_row → option key_row → Prop :=
| row_same o : row_step o o
| row_new r :
    k_status r = StatusPending ∨ k_status r = StatusRejected → k_attempt r = 1 →
    row_step None (Some r)
| row_retried r r' :
    k_status r = StatusFailed → k_status r' = StatusPending ∨ k_status r' = StatusRejected →
    k_attempt r' = k_attempt r + 1 → same_identity r r' → row_step (Some r) (Some r')
| row_ended r r' :
    k_status r = StatusPending → outcome_status (k_status r') →
    k_attempt r' = k_attempt r → same_identity r r' → row_step (Some r) (Some r').

(** A row that a claim may write: where there was none, or the next attempt of a failed one. *)
Definition next_row (o : option key_row) (row : key_row) : Prop :=
  o = None ∨ ∃ r, o = Some r ∧ k_status r = StatusFailed ∧ k_attempt row = k_attempt r + 1.

Lemma taken_step req d row row' :
  taken req d row → k_status row' = StatusPending ∨ k_status row' = StatusRejected →
  k_attempt row' = k_attempt row → same_identity row row' →
  row_step (db_keys d !! req_key req) (Some row').
Proof.
  intros [Hn|r Hr _ Hs _] Hst Ha Hid.
  - rewrite Hn. by apply row_new.
  - rewrite Hr. by eapply row_retried.
Qed.

Lemma claim_step_rows req lockWait d res d' key :
  db_ok d → claim_step req lockWait d res d' → row_step (db_keys d !! key) (db_keys d' !! key).
Proof.
  intros Hd Hs. apply claim_step_shape in Hs; [|apply Hd].
  destruct Hs as [|
    |row res stored rows Ht Hcl Hj Hv Hi Hrec Hrows
    |row res stored primary rest body Ht Hcl Hj He Ho Hb Hv Hrec]; [apply row_same..| |];
    destruct (taken_free _ _ _ Hd Ht) as (_ & _ & Hst & _); simpl;
    (destruct (decide (key = req_key req)) as [->|Hne];
     [rewrite lookup_insert_eq; eapply taken_step; eauto; repeat split
     |rewrite lookup_insert_ne by done; apply row_same]).
Qed.

Lemma claim_step_others req lockWait d res d' key :
  db_ok d → claim_step req lockWait d res d' → key ≠ req_key req →
  db_keys d' !! key = db_keys d !! key.
Proof.
  intros Hd Hs Hne. apply claim_step_shape in Hs; [|apply Hd].
  destruct Hs; simpl; try done; by rewrite lookup_insert_ne.
Qed.

Lemma complete_step_rows agent k status result ref detail d b d' key :
  outcome_status status → complete_step agent k status result ref detail d b d' →
  row_step (db_keys d !! key) (db_keys d' !! key) ∧
  (key ≠ (agent, k) → db_keys d' !! key = db_keys d !! key).
Proof.
  intros Hs [|r stored Hr Hp Hj Hx]; [split; [apply row_same|done]|].
  assert (∀ x, db_keys ((if decide (status = StatusFailed) then void_latest agent k
                         else (λ y, y)) x) = db_keys x) as Hkeys.
  { intros x. case_decide; [|done]. unfold void_latest. by destruct (head _). }
  rewrite Hkeys. simpl. destruct (decide (key = (agent, k))) as [->|Hne].
  - rewrite lookup_insert_eq, Hr. split; [|done]. by eapply row_ended.
  - rewrite lookup_insert_ne by done. split; [apply row_same|done].
Qed.
End Life.

(** ** Exclusion of conflicting writes *)

Section Exclusion.
Context `{!Pg} (window : string → Z).
Implicit Types (req : Request) (d : DB) (i j : intent_row).

(** Requests as the handler builds them in enforce mode: the window is the type's, the key
    is not empty. *)
Definition enforced req : Prop :=
  r_Enforce req = true ∧ r_Window req = window (r_ResourceType req) ∧ r_Key req ≠ EmptyString.

(** [i] is a live intent that [j], recorded later on the same resource, met in its window
    and does not commute with. *)
Definition clash i j : Prop :=
  i_voided i = None ∧ i_voided j = None ∧ i_rtype i = i_rtype j ∧ i_rid i = i_rid j ∧
  i_emitted j - interval_us (window (i_rtype j)) < i_emitted i ∧
  Compatible (i_declared j) (i_declared i) = false.

(** The earlier write of a clash belongs to the same agent and is over. *)
Definition ordered d i j : Prop :=
  i_agent i = i_agent j ∧
  ∃ r, db_keys d !! (i_agent i, i_key i) = Some r ∧
    (k_status r = StatusDone ∨ k_status r = StatusIndeterminate).

Record excluded d : Prop := {
  ex_keys i : i ∈ db_intents d → i_key i ≠ EmptyString;
  ex_pairs n m i j : (n < m)%nat → db_intents d !! n = Some i → db_intents d !! m = Some j →
    clash i j → ordered d i j;
}.

(** [firstPending] finds nothing only when every key it looked at is over. *)
Lemma fold_pending_stuck rows acc : acc ≠ EmptyString →
  fold_left (λ pending '(k, status),
    if negb (terminal status) && String.eqb pending "" then k else pending) rows acc = acc.
Proof.
  revert acc. induction rows as [|[k s] rows IH]; intros acc Hne; [done|]. simpl.
  destruct (String.eqb_spec acc ""); [done|]. rewrite andb_false_r. by apply IH.
Qed.

Lemma first_pending_none rows :
  first_pending_of rows = EmptyString ↔
  ∀ k s, (k, s) ∈ rows → k ≠ EmptyString → s ≠ StatusPending.
Proof.
  unfold first_pending_of. induction rows as [|[k s] rows IH]; simpl.
  - split; [|done]. by intros _ k s ?%not_elem_of_nil.
  - rewrite andb_true_r. destruct (terminal s) eqn:Hs; simpl.
    + rewrite IH. split; intros Hall k' s' Hin; [|apply Hall; by right].
      apply elem_of_cons in Hin as [[= -> ->]|Hin]; [|by apply Hall]. intros _ ->. done.
    + assert (s = StatusPending) as -> by (destruct s; done).
      destruct (decide (k = EmptyString)) as [->|Hne].
      * rewrite IH. split; intros Hall k' s' Hin; [|apply Hall; by right].
        apply elem_of_cons in Hin as [[= -> ->]|Hin]; [done|by apply Hall].
      * rewrite fold_pending_stuck by done. split; [done|]. intros Hall.
        exfalso. eapply Hall; [by left|done|done].
Qed.

(** And what it finds is the key of a pending row it looked at. *)
Lemma first_pending_some rows k :
  first_pending_of rows = k → k ≠ EmptyString → (k, StatusPending) ∈ rows.
Proof.
  unfold first_pending_of. induction rows as [|[k' s] rows IH]; simpl; [done|].
  rewrite andb_true_r. destruct (terminal s) eqn:Hs; simpl; [intros; right; auto|].
  assert (s = StatusPending) as -> by (destruct s; done).
  destruct (decide (k' = EmptyString)) as [->|Hne]; [intros; right; auto|].
  rewrite fold_pending_stuck by done. intros -> _. by left.
Qed.

Lemma statuses_elem agent ks d k s :
  (k, s) ∈ statuses agent ks d ↔ k ∈ ks ∧ ∃ r, db_keys d !! (agent, k) = Some r ∧ k_status r = s.
Proof.
  unfold statuses. rewrite list_elem_of_fmap. split.
  - intros ([[a k'] r] & [= -> ->] & [[-> Hin] Hr]%list_elem_of_filter).
    split; [done|]. exists r. by apply elem_of_map_to_list in Hr.
  - intros (Hin & r & Hr & <-). exists ((agent, k), r). split; [done|].
    apply list_elem_of_filter. split; [done|]. by apply elem_of_map_to_list.
Qed.

(** A live intent's key is not the one a claim takes, and its row holds it. *)
Lemma live_row d i : db_ok d → i ∈ db_intents d → i_voided i = None →
  ∃ r, db_keys d !! (i_agent i, i_key i) = Some r ∧ holds_intent (k_status r) = true.
Proof.
  intros Hd Hi Hv. pose proof (do_live d Hd (i_agent i, i_key i)) as Hl.
  destruct (db_keys d !! (i_agent i, i_key i)) as [r|]; [exists r; split; [done|]|].
  - destruct (holds_intent (k_status r)); [done|]. by destruct (live_count_zero _ _ i Hl Hi).
  - by destruct (live_count_zero _ _ i Hl Hi).
Qed.

Lemma live_not_taken req d row i :
  db_ok d → taken req d row → i ∈ db_intents d → i_voided i = None →
  (i_agent i, i_key i) ≠ req_key req.
Proof.
  intros Hd Ht Hi Hv He. destruct (taken_free _ _ _ Hd Ht) as (Hz & _).
  rewrite <- He in Hz. by apply (live_count_zero _ _ i Hz).
Qed.

Lemma others_none req cs c : others_of req cs = [] → c ∈ cs → cd_agentID c = r_AgentID req.
Proof.
  intros Ho Hc. destruct (decide (cd_agentID c = r_AgentID req)) as [|Hne]; [done|].
  assert (c ∈ others_of req cs) as Hin by (by apply list_elem_of_filter).
  rewrite Ho in Hin. by apply not_elem_of_nil in Hin.
Qed.

(** Same-agent conflicts that do not block belong to keys that are over. *)
Lemma unblocked_ordered req d row i :
  db_ok d → taken req d row → i ∈ db_intents d → i_voided i = None →
  i_key i ≠ EmptyString → i_agent i = r_AgentID req →
  mkCandidate (i_id i) (i_agent i) (i_key i) (i_declared i) ∈ met req d →
  blocking_key req (met req d) (set_keys <[req_key req := row]> d) = EmptyString →
  ∃ r, db_keys d !! (i_agent i, i_key i) = Some r ∧
    (k_status r = StatusDone ∨ k_status r = StatusIndeterminate).
Proof.
  intros Hd Ht Hi Hv Hk Ha Hmet Hb.
  destruct (live_row d i Hd Hi Hv) as (r & Hr & Hh). exists r. split; [done|].
  assert (k_status r ≠ StatusPending) as Hp.
  { eapply (proj1 (first_pending_none _) Hb (i_key i)); [|done].
    apply statuses_elem. split.
    - apply list_elem_of_fmap. eexists. split; [|apply list_elem_of_filter; split; [|exact Hmet]]; done.
    - exists r. split; [|done]. rewrite <- Ha. simpl.
      rewrite lookup_insert_ne; [done|]. intros He. by eapply (live_not_taken req d row i). }
  destruct (k_status r); auto; done.
Qed.

Lemma wrote_excluded req d row row' j rows :
  db_ok d → excluded d → taken req d row → enforced req → i_key j = r_Key req →
  (∀ i, i ∈ db_intents d → clash i j → ordered d i j) →
  excluded (wrote req d row' j rows).
Proof.
  intros Hd Hx Ht (_ & _ & Hkey) Hk Hnew.
  assert (Hkeep : ∀ i j', i ∈ db_intents d → clash i j' → ordered d i j' →
    ordered (wrote req d row' j rows) i j').
  { intros i j' Hi (Hv & _) (Ha & r & Hr & Hs). split; [done|]. exists r. split; [|done].
    simpl. rewrite lookup_insert_ne; [done|]. intros He. by eapply (live_not_taken req d row i). }
  split; simpl.
  - intros i [Hi| ->%list_elem_of_singleton]%elem_of_app; [by apply Hx|by rewrite Hk].
  - intros n m x y Hnm Hn Hm Hc.
    assert (Hlen : (m <= length (db_intents d))%nat).
    { apply lookup_lt_Some in Hm. rewrite length_app in Hm. simpl in Hm. lia. }
    rewrite lookup_app_l in Hn by lia.
    assert (Hin : x ∈ db_intents d) by (by eapply list_elem_of_lookup_2).
    apply Hkeep; [done|done|]. destruct (decide (m < length (db_intents d))%nat).
    + rewrite lookup_app_l in Hm by done. by eapply (ex_pairs d Hx n m).
    + rewrite lookup_app_r in Hm by lia.
      replace (m - length (db_intents d))%nat with 0%nat in Hm by lia.
      injection Hm as <-. by apply Hnew.
Qed.

Lemma claim_step_excluded req lockWait d res d' :
  enforced req → db_ok d → excluded d → claim_step req lockWait d res d' → excluded d'.
Proof.
  intros Hen Hd Hx Hs. apply claim_step_shape in Hs; [|apply Hd].
  destruct Hs as [|
    |row res stored rows Ht Hcl Hj Hv Hi Hrec Hrows
    |row res stored primary rest body Ht Hcl Hj He Ho Hb Hv Hrec]; try done;
    (eapply wrote_excluded; [done..|]; intros i Hin Hc).
  2: { by destruct Hc as (_ & ? & _). }
  pose proof Hc as (Hvi & _ & Hty & Hid & Hwin & Hcomp). simpl in *.
  assert (mkCandidate (i_id i) (i_agent i) (i_key i) (i_declared i) ∈ met req d) as Hmet.
  { apply met_elem. exists i. split_and!; [done| |done|done]. unfold in_window.
    rewrite (proj1 (proj2 Hen)). split_and!; [done..|lia|done|]. intros Heq.
    apply (ids_below_fresh _ _ (do_intents d Hd)). rewrite <- Heq. by apply list_elem_of_fmap_2. }
  destruct Hrows as [[Hm _]|[(Hf & _)|(_ & _ & Ho & Hb & _)]].
  - rewrite Hm in Hmet. by apply not_elem_of_nil in Hmet.
  - destruct Hen as [Hen _]. congruence.
  - assert (i_agent i = r_AgentID req) as Ha by (by apply (others_none _ _ _ Ho Hmet)).
    split; [done|]. eapply unblocked_ordered; eauto. by apply Hx.
Qed.

Lemma complete_step_excluded agent k status result ref detail d b d' :
  outcome_status status → excluded d →
  complete_step agent k status result ref detail d b d' → excluded d'.
Proof.
  intros Hs Hx [|r stored Hr Hp Hj Hxor]; [done|].
  set (d1 := set_keys _ d).
  assert (Hx1 : excluded d1).
  { split; [apply Hx|]. intros n m i j Hnm Hn Hm Hc.
    destruct (ex_pairs d Hx n m i j Hnm Hn Hm Hc) as (Ha & r' & Hr' & Hs'). split; [done|].
    exists r'. split; [|done]. simpl. rewrite lookup_insert_ne; [done|].
    intros He. rewrite <- He, Hr in Hr'. injection Hr' as <-. rewrite Hp in Hs'. by destruct Hs'. }
  case_decide; [|done]. unfold void_latest. destruct (head _) as [latest|]; [|done].
  split; simpl; unfold void_where.
  - intros i (x & -> & Hin)%list_elem_of_fmap. case_decide; by apply (ex_keys d1 Hx1 x).
  - intros n m i j Hnm Hn Hm Hc. rewrite list_lookup_fmap in Hn, Hm.
    apply fmap_Some in Hn as (x & Hn & ->), Hm as (y & Hm & ->).
    repeat case_decide; try (by destruct Hc as (? & ? & _)).
    by eapply (ex_pairs d1 Hx1 n m).
Qed.

Lemma reach_excluded d : reach enforced d → db_ok d ∧ excluded d.
Proof.
  apply reach_invariant.
  - split; simpl; [by intros ? ?%not_elem_of_nil|done].
  - intros req lw d0 res d' Hen Hd Hx Hs. by eapply claim_step_excluded.
  - intros agent k status result ref detail d0 b d' Hs Hd Hx Hst. by eapply complete_step_excluded.
  - intros t d0 [Hk Hp]. by split.
  - intros f d0 [Hk Hp]. by split.
Qed.
End Exclusion.

(** ** The verdicts *)

Section Verdicts.
Context `{!Pg}.
Implicit Types (req : Request) (d : DB) (i : intent_row).

Definition keyed req : Prop := r_Key req ≠ EmptyString.

Lemma reach_keyed d : reach keyed d → db_ok d ∧ ∀ i, i ∈ db_intents d → i_key i ≠ EmptyString.
Proof.
  apply (reach_invariant keyed (λ d, ∀ i, i ∈ db_intents d → i_key i ≠ EmptyString)); try done.
  - by intros ? ?%not_elem_of_nil.
  - intros req lw d0 res d' Hk Hd Hx Hs. apply claim_step_shape in Hs; [|apply Hd].
    destruct Hs; try apply Hx; simpl;
      intros x [Hi| ->%list_elem_of_singleton]%elem_of_app; done || by apply Hx.
  - intros agent k status result ref detail d0 b d' Hs Hd Hx [|r stored ? ? ? ?]; [done|].
    case_decide; [|done]. unfold void_latest. destruct (head _) as [latest|]; [|done]. simpl. unfold void_where.
    intros i (x & -> & Hin)%list_elem_of_fmap. case_decide; by apply (Hx x).
Qed.

(** A live intent on the request's resource, inside its window, that does not commute with
    it. *)
Definition rival req d i : Prop :=
  i ∈ db_intents d ∧ i_voided i = None ∧
  i_rtype i = r_ResourceType req ∧ i_rid i = r_ResourceID req ∧
  db_now d - interval_us (r_Window req) < i_emitted i ∧
  Compatible (r_Declared req) (i_declared i) = false.

(** The key can be claimed: it is new, or this very request failed. *)
Definition claimable req d : Prop :=
  ∀ r, db_keys d !! req_key req = Some r → k_hash r = r_RequestHash req ∧ k_status r = StatusFailed.

Definition pending_key d (agent k : string) : Prop :=
  ∃ r, db_keys d !! (agent, k) = Some r ∧ k_status r = StatusPending.

(** What each verdict says of the tables the claim found. *)
Definition verdict_means req d (v : Verdict) : Prop :=
  match v with
  | VerdictMismatch => ∃ r, db_keys d !! req_key req = Some r ∧ k_hash r ≠ r_RequestHash req
  | VerdictExisting => ∃ r, db_keys d !! req_key req = Some r ∧
      k_hash r = r_RequestHash req ∧ k_status r ≠ StatusFailed
  | VerdictRejected => claimable req d ∧ r_Enforce req = true ∧
      ∃ i, rival req d i ∧ i_agent i ≠ r_AgentID req
  | VerdictSerialize => claimable req d ∧ r_Enforce req = true ∧
      (∀ i, rival req d i → i_agent i = r_AgentID req) ∧
      ∃ i, rival req d i ∧ pending_key d (r_AgentID req) (i_key i)
  | VerdictClaimed => claimable req d ∧
      (r_Enforce req = true → ∀ i, rival req d i →
         i_agent i = r_AgentID req ∧ ¬ pending_key d (r_AgentID req) (i_key i))
  | VerdictLockTimeout | VerdictSerializeTimeout => False
  end.

Lemma verdict_means_unique req d v v' : verdict_means req d v → verdict_means req d v' → v = v'.
Proof.
  destruct v, v'; simpl; try done; intros Hv Hv'; exfalso; unfold claimable in *;
    repeat match goal with
    | H : _ ∧ _ |- _ => destruct H
    | H : ∃ _, _ |- _ => destruct H
    | H : r_Enforce req = true → _, He : r_Enforce req = true |- _ => specialize (H He)
    | H : ∀ x, _ = Some x → _, Hr : db_keys d !! req_key req = Some ?r |- _ =>
        pose proof (H r Hr); clear H
    end; try congruence;
    match goal with
    | H : ∀ x, rival req d x → _, Hi : rival req d ?i |- _ =>
        specialize (H i Hi); intuition congruence
    end.
Qed.

Lemma rival_met req d i :
  db_ok d → rival req d i ↔
  i ∈ db_intents d ∧ i_voided i = None ∧
  mkCandidate (i_id i) (i_agent i) (i_key i) (i_declared i) ∈ met req d.
Proof.
  intros Hd. rewrite met_elem. split.
  - intros (Hi & Hv & Ht & Hr & Hw & Hc). split_and!; [done..|]. exists i. split; [done|]. unfold in_window. split; [|done]. split_and!; try done.
    intros Heq. apply (ids_below_fresh _ _ (do_intents d Hd)). rewrite <- Heq.
    by apply list_elem_of_fmap_2.
  - intros (Hi & Hv & i' & Hi' & (Ht & Hr & Hw & Hv' & Hne) & Hc & [= Hid Ha Hk Hde]).
    assert (i = i') as <-; [|by unfold rival].
    apply (list_elem_of_lookup_1) in Hi as [n Hn], Hi' as [m Hm].
    assert (n = m) as ->; [|congruence].
    eapply NoDup_lookup; [apply (do_intents d Hd)|..]; rewrite list_lookup_fmap.
    + by rewrite Hn.
    + by rewrite Hm, Hid.
Qed.

Lemma met_rival req d c : db_ok d → c ∈ met req d → ∃ i, rival req d i ∧
  c = mkCandidate (i_id i) (i_agent i) (i_key i) (i_declared i).
Proof.
  intros Hd (i & Hi & (Ht & Hr & Hw & Hv & _) & Hc & ->)%met_elem. by exists i.
Qed.

Lemma taken_claimable req d row : taken req d row → claimable req d.
Proof. intros [Hn|r Hr Hh Hs _] x Hx; [congruence|]. rewrite Hr in Hx. by injection Hx as <-. Qed.

(** The key that blocks is the pending key of a rival. *)
Lemma blocking_rival req d row :
  db_ok d → taken req d row → blocking_key req (met req d) (set_keys <[req_key req := row]> d) ≠ EmptyString →
  ∃ i, rival req d i ∧ i_agent i = r_AgentID req ∧
    i_key i = blocking_key req (met req d) (set_keys <[req_key req := row]> d) ∧
    pending_key d (r_AgentID req) (i_key i).
Proof.
  intros Hd Ht Hb. pose proof (first_pending_some _ _ eq_refl Hb) as Hin.
  apply statuses_elem in Hin as (Hk & r & Hr & Hs).
  apply list_elem_of_fmap in Hk as (c & Hc & [Ha Hmet]%list_elem_of_filter).
  destruct (met_rival req d c Hd Hmet) as (i & Hriv & ->). simpl in *.
  exists i. split_and!; [done..|]. exists r. split; [|done].
  unfold blocking_key. rewrite <- Hc in *. simpl in Hr.
  rewrite lookup_insert_ne in Hr; [done|]. intros He. destruct Hriv as (Hi & Hv & _).
  eapply (live_not_taken req d row i); [done..|]. rewrite Ha, <- Hc. done.
Qed.

Lemma claim_step_verdict req lockWait d res d' :
  db_ok d → (∀ i, i ∈ db_intents d → i_key i ≠ EmptyString) →
  claim_step req lockWait d res d' → verdict_means req d (Verdict_ res).
Proof.
  intros Hd Hkeys Hs. apply claim_step_shape in Hs; [|apply Hd].
  destruct Hs as [v r Hr Hv|row res Ht He Hne Ho Hb Hv Hbl
    |row res stored rows Ht Hcl Hj Hv Hi Hrec Hrows
    |row res stored primary rest body Ht Hcl Hj He Ho Hb Hv Hrec].
  - destruct Hv as [[-> Hh]|(-> & Hh & Hs)]; simpl; eauto.
  - rewrite Hv. simpl. split_and!; [by eapply taken_claimable|done| |].
    + intros i Hi. apply rival_met in Hi as (_ & _ & Hm); [|done].
      by apply (others_none _ _ _ Ho Hm).
    + destruct (blocking_rival req d row Hd Ht Hb) as (i & Hi & Ha & Hk & Hp). eauto.
  - rewrite Hv. simpl. split; [by eapply taken_claimable|]. intros He i Hri.
    pose proof Hri as (Hin & Hvi & Hm)%rival_met; [|done].
    destruct Hrows as [[Hz _]|[(? & _)|(_ & _ & Ho & Hb & _)]]; [|congruence|].
    { rewrite Hz in Hm. by apply not_elem_of_nil in Hm. }
    assert (Ha : i_agent i = r_AgentID req) by (by apply (others_none _ _ _ Ho Hm)).
    split; [done|]. intros (r & Hr & Hp).
    destruct (unblocked_ordered req d row i) as (r' & Hr' & Hs'); try done; [by apply Hkeys|].
    rewrite Ha, Hr in Hr'. injection Hr' as <-. rewrite Hp in Hs'. by destruct Hs'.
  - rewrite Hv. simpl. split_and!; [by eapply taken_claimable|done|].
    assert (primary ∈ others_of req (met req d)) as Hin by (rewrite Ho; by left).
    apply list_elem_of_filter in Hin as [Ha Hm].
    destruct (met_rival req d primary Hd Hm) as (i & Hri & ->). eauto.
Qed.
End Verdicts.
