(* ===== verification/ClaimProps.v ===== *)
(** * ClaimProps: the theorems on internal/claim

    The properties of [Claim], [Complete] and [Lookup] and, on a concrete server and three
    concrete requests, the witnesses that their hypotheses can hold. *)

From S2P Require Import Prelude GoString Sha256 Manifest Conflict World Json Claim ClaimSpec ClaimInv.
From S2P Require Import ClaimSafety.

(** ** Concrete requests

    Agent [a] replaces the whole of ticket 7 under two keys, agent [b] under a third. *)
Module Demo.
#[export] Existing Instance demo_pg.

Definition request (agent k : string) : Request :=
  mkRequest agent k ("hash of " +:+ k) "ticket" "7" "close"
    (mkOperation ClassReplace None) "{}" (5 * Second) true "v1" (2 * Second).

Definition r1 : Request := request "a" "k1".
Definition r2 : Request := request "a" "k2".
Definition r3 : Request := request "b" "k3".

Definition window (rtype : string) : Z := 5 * Second.

Definition claimed (req : Request) (d : DB) : DB := w_db (Claim req (world_of d)).2.
Definition ended (req : Request) (s : Status) (body : string) (d : DB) : DB :=
  w_db (Complete (r_AgentID req) (r_Key req) s body "" "" (world_of d)).2.

(** [a] claims ticket 7. *)
Definition d1 : DB := claimed r1 empty_db.
(** [b] is rejected. *)
Definition d2 : DB := claimed r3 d1.
(** [a]'s write is done. *)
Definition d3 : DB := ended r1 StatusDone "{}" d2.
(** [a]'s second write follows it. *)
Definition d4 : DB := claimed r2 d3.

Lemma enforced_request agent k : k ≠ EmptyString → enforced window (request agent k).
Proof. done. Qed.

Lemma acceptable_request agent k d :
  db_keys d !! (agent, k) = None → acceptable (request agent k) d.
Proof.
  intros Hn. split_and!; [right; left|by eexists|by eexists|].
  intros r Hr. unfold req_key in Hr. simpl in Hr. congruence.
Qed.

Lemma reach_claimed allowed req d : allowed req → reach allowed d → reach allowed (claimed req d).
Proof. intros Ha Hr. exact (reach_claim allowed req (world_of d) Ha Hr). Qed.

Lemma reach_ended allowed req s body d :
  outcome_status s → reach allowed d → reach allowed (ended req s body d).
Proof. intros Hs Hr. exact (reach_complete allowed _ _ s body "" "" (world_of d) Hs Hr). Qed.

Lemma d2_eq : d2 = w_db (Claim r3 (world_of d1)).2.
Proof. done. Qed.
Lemma d3_eq : d3 = w_db (Complete "a" "k1" StatusDone "{}" "" "" (world_of d2)).2.
Proof. done. Qed.

Lemma reach_d1 (allowed : Request → Prop) : allowed r1 → reach allowed d1.
Proof. intros H1. unfold d1. apply reach_claimed; [done|]. apply reach_empty. Qed.

Lemma reach_d2 (allowed : Request → Prop) : allowed r1 → allowed r3 → reach allowed d2.
Proof. intros H1 H3. unfold d2. apply reach_claimed; [done|]. by apply reach_d1. Qed.

Lemma reach_d4 (allowed : Request → Prop) :
  allowed r1 → allowed r2 → allowed r3 → reach allowed d4.
Proof.
  intros H1 H2 H3. unfold d4. apply reach_claimed; [done|]. unfold d3.
  apply reach_ended; [by left|]. by apply reach_d2.
Qed.
End Demo.

Section Properties.
Context `{!Pg}.
Implicit Types (req : Request) (d : DB) (w : world).

(** C3: [Claim] is atomic under every script of faults: whatever round trip fails, the call
    ends outside a transaction and the tables have taken either no step or one whole
    [claim_step]; an error with the step taken is a lost acknowledgement of the commit, and
    a returned verdict other than a lock timeout is that step's. *)
Theorem claim_atomic req w :
  match Claim req w with
  | (inl e, w') =>
      call_frame w w' ∧ w_tx w' = None ∧
      (w_db w' = w_db w ∨ ∃ lockWait res, claim_step req lockWait (w_db w) res (w_db w'))
  | (inr res, w') =>
      call_frame w w' ∧ w_tx w' = None ∧
      (Verdict_ res = VerdictLockTimeout ∧ w_db w' = w_db w ∨
       ∃ lockWait, claim_step req lockWait (w_db w) res (w_db w'))
  end.
Proof.
  pose proof (Claim_refines req w) as Href. simpl in Href.
  destruct (Claim req w) as [[e|res] w'].
  - by destruct Href as (? & ? & _ & ?).
  - destruct Href as (? & ? & _ & [(? & ? & _)|?]); auto.
Qed.

(** Without faults [Claim] returns: the server takes the request's documents and the
    attempt counter has room, so there is a verdict, never a lock timeout, and it is the one
    of a [claim_step] on the tables. *)
Theorem claim_total req w :
  quiet w → acceptable req (w_db w) →
  ∃ res lockWait, (Claim req w).1 = inr res ∧
    claim_step req lockWait (w_db w) res (w_db (Claim req w).2) ∧ quiet (Claim req w).2.
Proof.
  intros Hq Ha. pose proof (Claim_refines req w) as Href. simpl in Href.
  destruct (Claim req w) as [[e|res] w'].
  - by destruct Href as (_ & _ & [] & _).
  - destruct Href as (_ & _ & Hq' & [(_ & _ & [])|[lw Hs]]); [done|]. exists res, lw. auto.
Qed.

(** C8: the verdict of a claim says what the tables held: mismatch and existing name the row
    of the key, rejected a live incompatible intent of another agent in the window, serialize
    an incompatible intent of the same agent whose key is pending, claimed the absence of
    both; and no other verdict fits those tables. *)
Theorem claim_verdict_exact req w res w' :
  reach keyed (w_db w) → Claim req w = (inr res, w') → Verdict_ res ≠ VerdictLockTimeout →
  verdict_means req (w_db w) (Verdict_ res) ∧
  ∀ v, verdict_means req (w_db w) v → v = Verdict_ res.
Proof.
  intros Hr Hc Hne. destruct (reach_keyed _ Hr) as [Hd Hk].
  pose proof (Claim_refines req w) as Href. simpl in Href. rewrite Hc in Href.
  destruct Href as (_ & _ & _ & [(? & _)|[lw Hs]]); [done|].
  pose proof (claim_step_verdict _ _ _ _ _ Hd Hk Hs) as Hv.
  split; [done|]. intros v Hv'. by eapply verdict_means_unique.
Qed.

(** C9: the life of a key under any fault: a call moves no row but its own, and its own only
    from absent or failed to pending or rejected with the next attempt number (a claim), or
    from pending to done, failed or indeterminate (an outcome).  Done, indeterminate and
    rejected rows never change again, and hash, resource, operation and creation time never
    change at all. *)
Theorem key_life allowed w :
  reach allowed (w_db w) →
  (∀ req key, row_step (db_keys (w_db w) !! key) (db_keys (w_db (Claim req w).2) !! key) ∧
     (key ≠ req_key req → db_keys (w_db (Claim req w).2) !! key = db_keys (w_db w) !! key)) ∧
  (∀ agent k status result ref detail key, outcome_status status →
     let w' := (Complete agent k status result ref detail w).2 in
     row_step (db_keys (w_db w) !! key) (db_keys (w_db w') !! key) ∧
     (key ≠ (agent, k) → db_keys (w_db w') !! key = db_keys (w_db w) !! key)).
Proof.
  intros Hr. apply reach_ok in Hr. split.
  - intros req key. destruct (Claim_db req w) as [->|(lw & res & Hs)]; [split; [apply row_same|done]|].
    split; [by eapply claim_step_rows|]. by eapply claim_step_others.
  - intros agent k status result ref detail key Hs w'.
    destruct (Complete_db agent k status result ref detail w) as [Heq|[b Hb]].
    + subst w'. rewrite Heq. split; [apply row_same|done].
    + by eapply complete_step_rows.
Qed.

(** In every reachable database a key holds exactly one live intent while it is pending,
    done or indeterminate and none once it is failed or rejected, and it has one intent per
    attempt; so a failed or rejected write never blocks anyone and an admitted one always
    shows. *)
Theorem live_intents allowed d key :
  reach allowed d →
  match db_keys d !! key with
  | None => total_count (db_intents d) key = 0%nat
  | Some r =>
      live_count (db_intents d) key = (if holds_intent (k_status r) then 1 else 0)%nat ∧
      Z.of_nat (total_count (db_intents d) key) = k_attempt r ∧ row_ok r
  end.
Proof.
  intros Hd%reach_ok. pose proof (do_live d Hd key) as Hl. pose proof (do_total d Hd key) as Ht.
  destruct (db_keys d !! key) as [r|] eqn:Hr; [|lia].
  split_and!; [done..|]. by apply (do_rows d Hd key).
Qed.

(** Conflicting writes exclude each other: in every database the program can reach while
    it enforces, of two live intents on one resource that do not commute, the later emitted
    inside the window of the earlier, both are the same agent's and the earlier write is
    already done or indeterminate; two such writes are never both in flight. *)
Theorem conflicts_excluded window d n m i j :
  reach (enforced window) d → (n < m)%nat →
  db_intents d !! n = Some i → db_intents d !! m = Some j → clash window i j →
  i_agent i = i_agent j ∧
  ∃ r, db_keys d !! (i_agent i, i_key i) = Some r ∧
    (k_status r = StatusDone ∨ k_status r = StatusIndeterminate).
Proof.
  intros Hr Hnm Hn Hm Hc. destruct (reach_excluded window d Hr) as [_ Hx].
  by apply (ex_pairs window d Hx n m).
Qed.

(** C13: a key that is not failed answers and is left alone: whatever the faults, a claim on it
    changes no table, and a verdict other than a lock timeout is existing, with the stored
    record, for the same request and mismatch for a different one. *)
Theorem claim_replays req w r :
  reach keyed (w_db w) → db_keys (w_db w) !! req_key req = Some r → k_status r ≠ StatusFailed →
  w_db (Claim req w).2 = w_db w ∧
  ∀ res, (Claim req w).1 = inr res →
    Verdict_ res = VerdictLockTimeout ∨
    Record_of res = Some (record_of (req_key req) r) ∧
    Verdict_ res = if decide (k_hash r = r_RequestHash req) then VerdictExisting else VerdictMismatch.
Proof.
  intros Hr Hrow Hst. apply reach_keyed in Hr as [Hd _].
  assert (Hanswer : ∀ lw res d', claim_step req lw (w_db w) res d' →
    d' = w_db w ∧ Record_of res = Some (record_of (req_key req) r) ∧
    Verdict_ res = if decide (k_hash r = r_RequestHash req) then VerdictExisting else VerdictMismatch).
  { intros lw res d' Hs. apply claim_step_shape in Hs; [|apply Hd].
    destruct Hs as [v r' Hr' Hv| row ? Ht|row ? ? ? Ht|row ? ? ? ? ? Ht].
    2-4: by destruct (taken_claimable _ _ _ Ht r Hrow) as [_ ?].
    rewrite Hrow in Hr'. injection Hr' as <-. split_and!; [done..|]. simpl.
    destruct Hv as [[-> Hh]|(-> & Hh & _)]; by case_decide. }
  pose proof (Claim_refines req w) as Href. simpl in Href.
  destruct (Claim req w) as [[e|res] w']; simpl.
  - split; [|done]. destruct Href as (_ & _ & _ & [?|(lw & res & Hs)]); [done|].
    by apply Hanswer in Hs as [? _].
  - destruct Href as (_ & _ & _ & [(Hv & ? & _)|[lw Hs]]).
    + split; [done|]. intros x [= <-]. by left.
    + apply Hanswer in Hs as (? & ? & ?). split; [done|]. intros x [= <-]. by right.
Qed.

(** C14: a rejection is durable and repeats word for word: the body and the detail of the 409
    are the ones stored on the key, and the same request, claimed again over those tables,
    gets existing with status rejected and that same body. *)
Theorem rejection_replays req w res w1 :
  reach keyed (w_db w) → keyed req → Claim req w = (inr res, w1) →
  Verdict_ res = VerdictRejected →
  ∃ rec row, Record_of res = Some rec ∧ Status_ rec = StatusRejected ∧
    db_keys (w_db w1) !! req_key req = Some row ∧ k_status row = StatusRejected ∧
    k_result row = Some (Result_ rec) ∧ k_detail row = Some (OutcomeDetail rec) ∧
    ∀ w2, w_db w2 = w_db w1 → quiet w2 → acceptable req (w_db w2) →
      ∃ res2 rec2, (Claim req w2).1 = inr res2 ∧ w_db (Claim req w2).2 = w_db w2 ∧
        Verdict_ res2 = VerdictExisting ∧ Record_of res2 = Some rec2 ∧
        Status_ rec2 = StatusRejected ∧ Result_ rec2 = Result_ rec.
Proof.
  intros Hr Hk Hc Hv. pose proof (reach_ok _ _ Hr) as Hd.
  pose proof (Claim_refines req w) as Href. simpl in Href. rewrite Hc in Href.
  destruct Href as (_ & _ & _ & [(? & _)|[lw Hs]]); [congruence|].
  pose proof (claim_step_ok _ _ _ _ _ Hd Hs) as Hd1.
  apply claim_step_shape in Hs; [|apply Hd].
  destruct Hs as [v r Hr' [[-> _]|[-> _]]| | |row res stored primary rest body Ht Hcl Hj He Ho Hb
    Hv' [ref Hrec]]; try (simpl in *; congruence).
  set (row' := rejected_row (w_db w) row body (reject_detail req primary)).
  assert (Hhash : k_hash row' = r_RequestHash req) by (by destruct Ht).
  assert (Hrow : ∀ d, db_keys (wrote req d row' (void_row (db_now d) (new_intent req d stored))
    (pairs req d ResolutionRejected (met req d))) !! req_key req = Some row')
    by (intros d; apply lookup_insert_eq).
  eexists _, row'. split_and!; [exact Hrec|done|apply Hrow|done..|].
  intros w2 Hw2 Hq Ha. pose proof (Claim_refines req w2) as Href2. simpl in Href2.
  destruct (Claim req w2) as [[e|res2] w3]; [by destruct Href2 as (_ & _ & [] & _)|].
  destruct Href2 as (_ & _ & _ & [(_ & _ & [])|[lw2 Hs2]]); [done|].
  apply claim_step_shape in Hs2; [|rewrite Hw2; apply Hd1]. simpl.
  inversion Hs2 as [v r Hr2 Hv2 Heq|row2 ? Ht2|row2 ? ? ? Ht2|row2 ? ? ? ? ? Ht2].
  2-4: destruct (taken_claimable _ _ _ Ht2 row') as [_ ?]; [by rewrite Hw2|done].
  rewrite Hw2, Hrow in Hr2. injection Hr2 as <-.
  eexists _, _. split_and!; [done..|simpl|done|done|done].
  by destruct Hv2 as [[_ ?]|[-> _]].
Qed.

(** C12: [Complete] is atomic under every script of faults and ends only a pending key: it
    reports true exactly when it took the step from pending to the given status, with the
    result or the reference stored and, for failed, the live intent voided; and without
    faults it returns. *)
Theorem complete_atomic agent k status result ref detail w :
  let step := complete_step agent k status result ref detail (w_db w) in
  match Complete agent k status result ref detail w with
  | (inl e, w') =>
      call_frame w w' ∧ w_tx w' = None ∧ ¬ (quiet w ∧ storable result ref) ∧
      (w_db w' = w_db w ∨ step true (w_db w'))
  | (inr b, w') => call_frame w w' ∧ w_tx w' = None ∧ step b (w_db w')
  end.
Proof.
  intros step. pose proof (Complete_refines agent k status result ref detail w) as Href.
  simpl in Href. destruct (Complete agent k status result ref detail w) as [[e|b] w'].
  - done.
  - by destruct Href as (? & ? & _ & ?).
Qed.

(** What [Complete] stored, [Lookup] reads back: after a completion that reported true, a
    lookup over those tables finds the key with the status, reference and detail given and
    the result as the server keeps it. *)
Theorem complete_then_lookup agent k status result ref detail w w1 w2 :
  Complete agent k status result ref detail w = (inr true, w1) →
  w_db w2 = w_db w1 → quiet w2 →
  ∃ rec, (Lookup agent k w2).1 = inr (Some rec) ∧ w_db (Lookup agent k w2).2 = w_db w2 ∧
    AgentID rec = agent ∧ Key rec = k ∧ Status_ rec = status ∧ ResultRef rec = ref ∧
    OutcomeDetail rec = detail ∧
    (result = EmptyString ∧ Result_ rec = EmptyString ∨ jsonb_in result = Some (Result_ rec)).
Proof.
  intros Hc Hw2 Hq. pose proof (Complete_refines agent k status result ref detail w) as Href.
  simpl in Href. rewrite Hc in Href. destruct Href as (_ & _ & _ & Hs).
  inversion Hs as [|r stored Hr Hp Hj Hx Hb Hd]. clear Hs Hb.
  set (row := completed_row (w_db w) r status stored (nullable ref) (nullable detail)) in *.
  assert (Hrow : db_keys (w_db w1) !! (agent, k) = Some row).
  { rewrite <- Hd. case_decide; [unfold void_latest; destruct (head _)|]; apply lookup_insert_eq. }
  assert (Hnull : ∀ s, default "" (nullable s) = s).
  { intros s. unfold nullable. by destruct (String.eqb_spec s "") as [->|]. }
  exists (record_of (agent, k) row).
  unfold Lookup, readRecord, try, wrapping, query, mbind, St_bind.
  rewrite (quiet_head _ Hq). unfold selectKey. rewrite Hw2, Hrow. simpl. rewrite <- Hw2.
  split_and!; try done; [apply Hnull..|].
  unfold nullable in Hj. destruct (String.eqb_spec result "") as [->|Hne].
  - left. injection Hj as <-. done.
  - right. destruct (jsonb_in result); [|done]. by injection Hj as <-.
Qed.
End Properties.

(** ** Witnesses *)

Import Demo.
#[local] Opaque d1 d2 d3 d4.

Lemma claim_total_witness :
  ∃ res lockWait, (Claim r1 (world_of empty_db)).1 = inr res ∧
    claim_step r1 lockWait empty_db res (w_db (Claim r1 (world_of empty_db)).2) ∧
    quiet (Claim r1 (world_of empty_db)).2.
Proof.
  apply (claim_total r1 (world_of empty_db)); [by apply Forall_nil|].
  by apply acceptable_request.
Defined.

Lemma claim_verdict_exact_witness :
  ∃ res, Verdict_ res = VerdictSerialize ∧ verdict_means r2 d2 (Verdict_ res).
Proof.
  destruct (Claim r2 (world_of d2)) as [[e|res] w'] eqn:Hc; [by vm_compute in Hc|].
  assert (Hv : Verdict_ res = VerdictSerialize) by (vm_compute in Hc; by inversion Hc).
  exists res. split; [done|].
  apply (claim_verdict_exact r2 (world_of d2) res w'); [|exact Hc|by rewrite Hv].
  by apply reach_d2.
Defined.

Lemma key_life_witness :
  row_step (db_keys (w_db (world_of d4)) !! ("a", "k1"))
    (db_keys (w_db (Claim r1 (world_of d4)).2) !! ("a", "k1")).
Proof.
  destruct (key_life keyed (world_of d4)) as [Hclaim _]; [by apply reach_d4|].
  exact (proj1 (Hclaim r1 ("a", "k1"))).
Defined.

Lemma live_intents_witness :
  match db_keys d4 !! ("b", "k3") with
  | None => False
  | Some r => k_status r = StatusRejected ∧ live_count (db_intents d4) ("b", "k3") = 0%nat ∧
      Z.of_nat (total_count (db_intents d4) ("b", "k3")) = 1
  end.
Proof.
  pose proof (live_intents keyed d4 ("b", "k3") (reach_d4 keyed ltac:(done) ltac:(done) ltac:(done)))
    as Hl. revert Hl. vm_compute. tauto.
Defined.

Lemma conflicts_excluded_witness :
  ∃ i j r, db_intents d4 !! 0%nat = Some i ∧ db_intents d4 !! 2%nat = Some j ∧
    i_agent i = i_agent j ∧ db_keys d4 !! (i_agent i, i_key i) = Some r ∧
    (k_status r = StatusDone ∨ k_status r = StatusIndeterminate).
Proof.
  destruct (db_intents d4 !! 0%nat) as [i|] eqn:Hi; [|by vm_compute in Hi].
  destruct (db_intents d4 !! 2%nat) as [j|] eqn:Hj; [|by vm_compute in Hj].
  destruct (conflicts_excluded window d4 0 2 i j) as (Ha & r & Hr & Hs); [|lia|done|done| |].
  - apply reach_d4; by apply enforced_request.
  - vm_compute in Hi, Hj. injection Hi as <-. injection Hj as <-. by repeat split.
  - exists i, j, r. exact (conj eq_refl (conj eq_refl (conj Ha (conj Hr Hs)))).
Defined.

Lemma claim_replays_witness :
  w_db (Claim r1 (world_of d4)).2 = d4 ∧
  ∀ res, (Claim r1 (world_of d4)).1 = inr res → Verdict_ res ≠ VerdictClaimed.
Proof.
  destruct (db_keys d4 !! ("a", "k1")) as [r|] eqn:Hr; [|by vm_compute in Hr].
  assert (Hs : k_status r = StatusDone) by (vm_compute in Hr; by inversion Hr).
  destruct (claim_replays r1 (world_of d4) r) as [Hdb Hv].
  - by apply reach_d4.
  - exact Hr.
  - by rewrite Hs.
  - split; [exact Hdb|]. intros res Hres.
    destruct (Hv res Hres) as [-> |[_ ->]]; [done|]. by case_decide.
Defined.

Lemma rejection_replays_witness :
  ∃ rec, Status_ rec = StatusRejected ∧ Result_ rec ≠ EmptyString ∧
    (k_result <$> db_keys d2 !! ("b", "k3")) = Some (Some (Result_ rec)).
Proof.
  destruct (Claim r3 (world_of d1)) as [[e|res] w1] eqn:Hc; [by vm_compute in Hc|].
  destruct (rejection_replays r3 (world_of d1) res w1) as (rec & row & Hrec & Hs & Hrow & _ & Hres & _).
  - by apply reach_d1.
  - done.
  - exact Hc.
  - vm_compute in Hc. by inversion Hc.
  - assert (Hd2 : w_db w1 = d2) by (by rewrite d2_eq, Hc).
    exists rec. split_and!; [done| |].
    + intros Hz. rewrite Hz in Hres. rewrite Hd2 in Hrow. vm_compute in Hrow. by inversion Hrow; subst.
    + rewrite <- Hd2. change ("b", "k3") with (req_key r3). by rewrite Hrow, <- Hres.
Defined.

Lemma complete_then_lookup_witness :
  ∃ rec, (Lookup "a" "k1" (world_of d3)).1 = inr (Some rec) ∧ Status_ rec = StatusDone.
Proof.
  destruct (Complete "a" "k1" StatusDone "{}" "" "" (world_of d2)) as [r w1] eqn:Hc.
  assert (Hd3 : d3 = w_db w1) by (by rewrite d3_eq, Hc).
  assert (Hr : r = inr true) by (vm_compute in Hc; by inversion Hc). subst r.
  destruct (complete_then_lookup "a" "k1" StatusDone "{}" "" "" (world_of d2) w1 (world_of d3) Hc Hd3)
    as (rec & Hl & _ & _ & _ & Hs & _); [by apply Forall_nil|].
  exists rec. split; [exact Hl|exact Hs].
Defined.

(** ** Completion is not fenced by the attempt *)

(** The tables when attempt 1 of [k1] was declared failed and attempt 2 is in flight. *)
Definition second_attempt : DB := claimed r1 (ended r1 StatusFailed "" d1).

(** [completeKey] is not fenced by the attempt: an executor of attempt 1 that reports late
      ends attempt 2 as failed, although that attempt's call is in flight, and the next claim of
      the same request is admitted as attempt 3. *)
Theorem completion_not_fenced :
  let late := ended r1 StatusFailed "" second_attempt in
  (k_status <$> db_keys second_attempt !! ("a", "k1")) = Some StatusPending ∧
  (k_attempt <$> db_keys second_attempt !! ("a", "k1")) = Some 2 ∧
  (k_status <$> db_keys late !! ("a", "k1")) = Some StatusFailed ∧
  match (Claim r1 (world_of late)).1 with
  | inr res => Verdict_ res = VerdictClaimed ∧ (AttemptCount <$> Record_of res) = Some 3
  | inl _ => False
  end.
Proof. vm_compute. done. Qed.
