(* ===== verification/Interleave.v ===== *)
(** * Interleave: transactions statement by statement

    The claim and the completion as programs of single SQL statements, and a server that runs
    any number of them concurrently under READ COMMITTED, the isolation [pool.Begin] asks for:
    a statement sees what is committed when it runs and the transaction's own writes; it waits
    for the advisory lock with the resource's hash (two resources may share one), and for a row of [idempotency_keys] that another
    transaction has written and not committed.  The statements are those of Claim.v, and
    [claim_program] and [complete_program] show that a program run alone is the function of
    Claim.v. *)

From S2P Require Import Prelude GoString Sha256 Manifest Conflict World Json Claim ClaimSpec ClaimInv ClaimSafety.

(** ** Statements and programs *)

(** The statements of claim.go and resolve.go, with the type of their answers. *)
Inductive sql : Type → Type :=
| LockResource (timeout_ms resource : string) : sql unit
| InsertKey (agent k hash rtype rid op : string) : sql (option Status)
| SelectKey (agent k : string) : sql (option Record_)
| ReclaimKey (agent k : string) : sql (option Z)
| InsertIntent (agent k rtype rid op : string) (declared : Operation) (payload : string) : sql (string * Z)
| SelectWindow (rtype rid : string) (window : Z) (exclude : string) : sql (list intent)
| SelectStatuses (agent : string) (ks : list string) : sql (list (string * Status))
| InsertConflict (intent_a intent_b agent_a agent_b rtype rid reason : string) (resolution : Resolution)
    (ver : string) : sql string
| RejectKey (agent k body detail : string) : sql (option string)
| VoidIntent (intentID : string) (emittedAt : Z) : sql unit
| CompleteKey (agent k : string) (status : Status) (result ref detail : option string) : sql Z
| VoidLatestIntent (agent k : string) : sql unit.

Definition sql_stmt `{!Pg} {X} (q : sql X) : stmt X :=
  match q with
  | LockResource timeout_ms resource => lockResourceStmt timeout_ms resource
  | InsertKey agent k hash rtype rid op => insertKey agent k hash rtype rid op
  | SelectKey agent k => selectKey agent k
  | ReclaimKey agent k => reclaimKey agent k
  | InsertIntent agent k rtype rid op declared payload => insertIntent agent k rtype rid op declared payload
  | SelectWindow rtype rid window exclude => selectWindow rtype rid window exclude
  | SelectStatuses agent ks => selectStatuses agent ks
  | InsertConflict intent_a intent_b agent_a agent_b rtype rid reason resolution ver =>
      insertConflict intent_a intent_b agent_a agent_b rtype rid reason resolution ver
  | RejectKey agent k body detail => rejectKey agent k body detail
  | VoidIntent intentID emittedAt => voidIntent intentID emittedAt
  | CompleteKey agent k status result ref detail => completeKey agent k status result ref detail
  | VoidLatestIntent agent k => voidLatestIntent agent k
  end.

(** A program runs statements, each under the context its error is wrapped in, and ends with
    a value or an error. *)
Inductive prog (A : Type) : Type :=
| Ret (x : A)
| Throw (e : goerr)
| Exec {X : Type} (context : string) (q : sql X) (k : X → prog A).
Arguments Ret {A} _.
Arguments Throw {A} _.
Arguments Exec {A X} _ _ _.

#[export] Instance prog_ret : MRet prog := @Ret.
#[export] Instance prog_bind : MBind prog := fix bind A B f (p : prog A) : prog B :=
  match p with
  | Ret x => f x
  | Throw e => Throw e
  | Exec context q k => Exec context q (λ x, bind A B f (k x))
  end.

Definition perform {X} (context : string) (q : sql X) : prog X := Exec context q Ret.

(** The program as a computation on the world: one transaction, alone. *)
Fixpoint interp `{!Pg} {A} (p : prog A) : M A :=
  match p with
  | Ret x => mret x
  | Throw e => throw e
  | Exec context q k => x ← wrapping context (exec (sql_stmt q)); interp (k x)
  end.

(** ** The programs *)

Module Tx.
Definition insertClaim (req : Request) : prog bool :=
  row ← perform "insert claim"
    (InsertKey (r_AgentID req) (r_Key req) (r_RequestHash req)
       (r_ResourceType req) (r_ResourceID req) (r_Operation req));
  match row with None => mret false | Some _ => mret true end.

Definition readRecord (agent k : string) : prog Record_ :=
  row ← perform "read key" (SelectKey agent k);
  match row with
  | None => Throw (wrap "read key" (mkErr NoRows "no rows in result set"))
  | Some record => mret record
  end.

Definition reclaim (req : Request) : prog (option Z) :=
  perform "reclaim key" (ReclaimKey (r_AgentID req) (r_Key req)).

Definition claimKey (req : Request) : prog (Result * bool) :=
  won ← insertClaim req;
  if (won : bool) then
    mret (mkResult VerdictClaimed
            (Some (mkRecord (r_AgentID req) (r_Key req) (r_RequestHash req) StatusPending
                     "" "" "" 1)) "" false 0 None 0, true)
  else
    existing ← readRecord (r_AgentID req) (r_Key req);
    if negb (String.eqb (RequestHash existing) (r_RequestHash req)) then
      mret (mkResult VerdictMismatch (Some existing) "" true 0 None 0, false)
    else if negb (bool_decide (Status_ existing = StatusFailed)) then
      mret (mkResult VerdictExisting (Some existing) "" true 0 None 0, false)
    else
      reclaimed ← reclaim req;
      match reclaimed with
      | None =>
          mret (mkResult VerdictExisting
                  (Some (mkRecord (AgentID existing) (Key existing) (RequestHash existing)
                           StatusPending (Result_ existing) (ResultRef existing)
                           (OutcomeDetail existing) (AttemptCount existing)))
                  "" true 0 None 0, false)
      | Some attempt =>
          mret (mkResult VerdictClaimed
                  (Some (mkRecord (AgentID existing) (Key existing) (RequestHash existing)
                           StatusPending "" (ResultRef existing) "" attempt))
                  "" true 0 None 0, true)
      end.

Definition recordIntent (req : Request) : prog (string * Z) :=
  perform "insert intent"
    (InsertIntent (r_AgentID req) (r_Key req) (r_ResourceType req) (r_ResourceID req)
       (r_Operation req) (r_Declared req) (r_Payload req)).

Definition conflictingIntents (req : Request) (exclude : string) : prog (list intent) :=
  rows ← perform "read conflict window"
    (SelectWindow (r_ResourceType req) (r_ResourceID req) (r_Window req) exclude);
  mret (filter (λ c, Compatible (r_Declared req) (cd_declared c) = false) rows).

(** The loop of [recordConflicts]; the accumulator is [primary]. *)
Fixpoint record_loop (req : Request) (intentID : string) (resolution : Resolution)
    (candidates : list intent) (primary : string) : prog string :=
  match candidates with
  | [] => mret primary
  | candidate :: rest =>
      conflictID ← perform "record conflict"
        (InsertConflict intentID (cd_id candidate) (r_AgentID req) (cd_agentID candidate)
           (r_ResourceType req) (r_ResourceID req)
           (Reason (r_Declared req) (cd_declared candidate)) resolution (r_ManifestVersion req));
      record_loop req intentID resolution rest (if String.eqb primary "" then conflictID else primary)
  end.

Definition recordConflicts (req : Request) (intentID : string) (candidates : list intent)
    (resolution : Resolution) : prog string :=
  let candidates :=
    if (maxRecordedConflicts <? length candidates)%nat
    then take maxRecordedConflicts candidates else candidates in
  record_loop req intentID resolution candidates "".

Definition firstPending (agent : string) (candidates : list intent) : prog string :=
  rows ← perform "read conflicting key statuses" (SelectStatuses agent (cd_key <$> candidates));
  mret (first_pending_of rows).

Definition reject (req : Request) (intentID : string) (emittedAt : Z)
    (primary : intent) (all : list intent) : prog Outcome_ :=
  conflictID ← recordConflicts req intentID all ResolutionRejected;
  let detail := reject_detail req primary in
  let body := marshal (reject_body req detail (cd_id primary) conflictID) in
  row ← perform "reject key" (RejectKey (r_AgentID req) (r_Key req) body detail);
  match row with
  | None => Throw (wrap "reject key" (mkErr NoRows "no rows in result set"))
  | Some stored =>
      _ ← perform "void rejected intent" (VoidIntent intentID emittedAt);
      mret (mkOutcome VerdictRejected 0 None stored detail)
  end.

Definition resolveConflicts (req : Request) (intentID : string) (emittedAt : Z) : prog Outcome_ :=
  candidates ← conflictingIntents req intentID;
  match candidates with
  | [] => mret (mkOutcome VerdictClaimed 0 None "" "")
  | _ :: _ =>
      if negb (r_Enforce req) then
        _ ← recordConflicts req intentID candidates ResolutionObserved;
        mret (mkOutcome VerdictClaimed (Z.of_nat (length candidates)) None "" "")
      else
        let same := filter (λ c, cd_agentID c = r_AgentID req) candidates in
        let others := filter (λ c, cd_agentID c ≠ r_AgentID req) candidates in
        match others with
        | primary :: _ => reject req intentID emittedAt primary candidates
        | [] =>
            blocking ← firstPending (r_AgentID req) same;
            if negb (String.eqb blocking "") then
              mret (mkOutcome VerdictSerialize 0 (Some (mkBlocking (r_AgentID req) blocking)) "" "")
            else
              _ ← recordConflicts req intentID same ResolutionSerialized;
              mret (mkOutcome VerdictClaimed 0 None "" "")
        end
  end.

(** The claim once the lock is held: the result, and whether to commit. *)
Definition locked (req : Request) (lockWait : Z) : prog (Result * bool) :=
  '(result, fresh) ← claimKey req;
  let result := mkResult (Verdict_ result) (Record_of result) (IntentID result)
                  (Collided result) lockWait (Blocking result) (Observed result) in
  if negb fresh then mret (result, false)
  else
    '(intentID, emittedAt) ← recordIntent req;
    outcome ← resolveConflicts req intentID emittedAt;
    mret (with_outcome lockWait intentID result outcome,
          negb (bool_decide (o_Verdict outcome = VerdictSerialize))).

(** [Claim] between begin and commit. *)
Definition claim (req : Request) (lockWait : Z) : prog (Result * bool) :=
  _ ← perform ""
    (LockResource (Itoa (r_LockTimeout req / Millisecond)) (r_ResourceType req +:+ ":" +:+ r_ResourceID req));
  locked req lockWait.

(** [Complete] between begin and commit. *)
Definition complete (agent k : string) (status : Status) (result resultRef detail : string) :
    prog (bool * bool) :=
  affected ← perform "complete key"
    (CompleteKey agent k status (nullable result) (nullable resultRef) (nullable detail));
  if negb (affected =? 1) then mret (false, false)
  else
    _ ← (if decide (status = StatusFailed)
         then perform "void failed intent" (VoidLatestIntent agent k)
         else mret tt);
    mret (true, true).
End Tx.

(** ** The programs are the functions of Claim.v *)

Section Programs.
Context `{!Pg}.
Implicit Types (req : Request) (w : world).

Lemma interp_bind {A B} (f : A → prog B) (p : prog A) w :
  interp (p ≫= f) w = (interp p ≫= λ x, interp (f x)) w.
Proof.
  revert w. induction p as [x|e|X context q k IH]; intros w; [done..|]. simpl. unfold mbind, St_bind.
  destruct (wrapping context (exec (sql_stmt q)) w) as [[e|x] w1]; [done|]. apply IH.
Qed.

Lemma bind_ext {A B} (m m' : M A) (f f' : A → M B) w :
  m w = m' w → (∀ x u, f x u = f' x u) → (m ≫= f) w = (m' ≫= f') w.
Proof. intros Hm Hf. unfold mbind, St_bind. rewrite Hm. destruct (m' w) as [[e|x] u]; [done|]. apply Hf. Qed.

Lemma interp_perform {X B} context (q : sql X) (f : X → prog B) w :
  interp (perform context q ≫= f) w = (wrapping context (exec (sql_stmt q)) ≫= λ x, interp (f x)) w.
Proof. done. Qed.

Lemma bind_assoc {A B C} (m : M A) (f : A → M B) (g : B → M C) w :
  ((m ≫= f) ≫= g) w = (m ≫= λ x, f x ≫= g) w.
Proof. unfold mbind, St_bind. by destruct (m w) as [[e|x] u]. Qed.

Lemma wrapping_bind {A B} context (m : M A) (f : A → M B) w :
  wrapping context (m ≫= f) w = (wrapping context m ≫= λ x, wrapping context (f x)) w.
Proof. unfold wrapping, mbind, St_bind. by destruct (m w) as [[e|x] u]. Qed.
Lemma insertClaim_program req w : interp (Tx.insertClaim req) w = insertClaim req w.
Proof. apply bind_ext; [done|]. by intros [x|] u. Qed.

Lemma readRecord_program agent k w : interp (Tx.readRecord agent k) w = readRecord (@exec) agent k w.
Proof.
  unfold readRecord. rewrite wrapping_bind. apply bind_ext; [done|]. by intros [r|] u.
Qed.

Lemma claimKey_program req w : interp (Tx.claimKey req) w = claimKey req w.
Proof.
  unfold Tx.claimKey. rewrite interp_bind. apply bind_ext; [apply insertClaim_program|].
  intros [] u; [done|]. rewrite interp_bind. apply bind_ext; [apply readRecord_program|].
  intros existing u'. destruct (negb _); [done|]. destruct (negb _); [done|].
  rewrite interp_bind. apply bind_ext; [|by intros [x|] v]. unfold reclaim, Tx.reclaim. simpl.
  unfold mbind, St_bind. by destruct (wrapping _ _ u') as [[e|x] v].
Qed.

Lemma perform_program {X} context (q : sql X) w : interp (perform context q) w = wrapping context (exec (sql_stmt q)) w.
Proof. simpl. unfold mbind, St_bind. by destruct (wrapping _ _ w) as [[e|x] v]. Qed.

Lemma record_loop_program req i res cs : ∀ primary w,
  interp (Tx.record_loop req i res cs primary) w = for_range cs primary (recordConflict req i res) w.
Proof.
  induction cs as [|c cs IH]; intros primary w; [done|]. simpl. unfold recordConflict at 2. rewrite bind_assoc.
  apply bind_ext; [done|]. intros x u. apply IH.
Qed.

Lemma recordConflicts_program req i cs res w :
  interp (Tx.recordConflicts req i cs res) w = recordConflicts req i cs res w.
Proof. apply record_loop_program. Qed.

Lemma reject_program req i t primary cs w : interp (Tx.reject req i t primary cs) w = reject req i t primary cs w.
Proof.
  unfold Tx.reject. rewrite interp_bind. apply bind_ext; [apply recordConflicts_program|]. intros conflictID u.
  set (body := marshal _). unfold reject. fold body. rewrite interp_perform.
  etransitivity; [|symmetry; apply (bind_ext _ (wrapping "reject key" (exec (rejectKey (r_AgentID req) (r_Key req) body (reject_detail req primary)))
    ≫= λ row, wrapping "reject key" (match row with None => throw (mkErr NoRows "no rows in result set") | Some stored => mret stored end)));
    [apply wrapping_bind|done]]. rewrite bind_assoc. apply bind_ext; [done|]. by intros [stored|] v.
Qed.

Lemma resolveConflicts_program req i t w : interp (Tx.resolveConflicts req i t) w = resolveConflicts req i t w.
Proof.
  unfold Tx.resolveConflicts. rewrite interp_bind. apply bind_ext; [by apply bind_ext|].
  intros [|c cs] u; [done|]. destruct (negb _).
  { rewrite interp_bind. apply bind_ext; [apply recordConflicts_program|done]. }
  destruct (filter (λ c, cd_agentID c ≠ r_AgentID req) _) as [|primary rest]; [|apply reject_program].
  rewrite interp_bind. apply bind_ext; [by apply bind_ext|]. intros blocking v. destruct (negb _); [done|].
  rewrite interp_bind. apply bind_ext; [apply recordConflicts_program|done].
Qed.

(** Once the lock is held the program is the rest of [claim_work], which [Claim] commits as
    it says ([Claim_split]). *)
Lemma claim_program req w :
  claim_work req w =
    (lockResource req ≫= λ '(lockWait, locked),
       match locked with
       | inl e =>
           if lock_not_available e
           then mret (mkResult VerdictLockTimeout None "" false lockWait None 0, false)
           else throw e
       | inr _ => interp (Tx.locked req lockWait)
       end) w.
Proof.
  apply bind_ext; [done|]. intros [lockWait [e|[]]] u; [done|]. unfold Tx.locked. symmetry.
  rewrite interp_bind. apply bind_ext; [apply claimKey_program|]. intros [result []] v; [|done]. cbv zeta. cbn [negb]. cbv iota.
  rewrite interp_bind. apply bind_ext; [apply perform_program|]. intros [intentID emittedAt] v'.
  rewrite interp_bind. apply bind_ext; [apply resolveConflicts_program|done].
Qed.

Lemma complete_program agent k status result ref detail w :
  complete_work agent k status result ref detail w = interp (Tx.complete agent k status result ref detail) w.
Proof.
  symmetry. apply bind_ext; [done|]. intros affected u. destruct (negb _); [done|].
  rewrite interp_bind. apply bind_ext; [|done]. destruct (decide _); [apply perform_program|done].
Qed.
End Programs.

(** ** Uncommitted writes *)

(** What an open transaction has written and locked.  A void of an intent is a row change that
    is applied to the committed rows when the transaction commits. *)
Record pending := mkPending {
  p_lock : option Z;
  p_keys : gmap (string * string) key_row;
  p_intents : list intent_row;
  p_conflicts : list conflict_row;
  p_voids : list (string * Z * Z);
}.

Definition nothing : pending := mkPending None ∅ [] [] [].

Definition void_one (v : string * Z * Z) (l : list intent_row) : list intent_row :=
  void_where (λ i, i_id i = v.1.1 ∧ i_emitted i = v.1.2) v.2 l.

Definition void_all (vs : list (string * Z * Z)) (l : list intent_row) : list intent_row :=
  fold_left (λ l v, void_one v l) vs l.

(** The tables with the writes in place. *)
Definition overlay (p : pending) (d : DB) : DB :=
  mkDB (db_now d) (db_next d) (p_keys p ∪ db_keys d) (void_all (p_voids p) (db_intents d) ++ p_intents p)
    (db_conflicts d ++ p_conflicts p) (db_activations d) (db_audit d).

(** What a statement of the transaction sees; [now()] is when the transaction began. *)
Definition view (t : Z) (p : pending) (d : DB) : DB := set_now t (overlay p d).

Definition write_key (key : string * string) (after : DB) (p : pending) : pending :=
  match db_keys after !! key with
  | Some r => mkPending (p_lock p) (<[key := r]> (p_keys p)) (p_intents p) (p_conflicts p) (p_voids p)
  | None => p
  end.

Definition write_void (v : string * Z * Z) (p : pending) : pending :=
  mkPending (p_lock p) (p_keys p) (void_one v (p_intents p)) (p_conflicts p) (p_voids p ++ [v]).

Definition last_row {A} (l : list A) : list A := match last l with Some x => [x] | None => [] end.

(** The writes after a statement that saw [before], left [after] and answered. *)
Definition effect `{!Pg} {X} (q : sql X) (before after : DB) (p : pending) : X → pending :=
  match q in sql X return X → pending with
  | LockResource _ resource => λ _, mkPending (Some (hashtextextended resource)) (p_keys p) (p_intents p) (p_conflicts p) (p_voids p)
  | InsertKey agent k _ _ _ _ => λ won, match won with Some _ => write_key (agent, k) after p | None => p end
  | ReclaimKey agent k => λ attempt, match attempt with Some _ => write_key (agent, k) after p | None => p end
  | RejectKey agent k _ _ => λ stored, match stored with Some _ => write_key (agent, k) after p | None => p end
  | CompleteKey agent k _ _ _ _ => λ affected, if affected =? 1 then write_key (agent, k) after p else p
  | InsertIntent _ _ _ _ _ _ _ => λ _,
      mkPending (p_lock p) (p_keys p) (p_intents p ++ last_row (db_intents after)) (p_conflicts p) (p_voids p)
  | InsertConflict _ _ _ _ _ _ _ _ _ => λ _,
      mkPending (p_lock p) (p_keys p) (p_intents p) (p_conflicts p ++ last_row (db_conflicts after)) (p_voids p)
  | VoidIntent intentID emittedAt => λ _, write_void (intentID, emittedAt, db_now before) p
  | VoidLatestIntent agent k => λ _,
      match head (by_emitted_desc (filter (live_for agent k) (db_intents before))) with
      | Some latest => write_void (i_id latest, i_emitted latest, db_now before) p
      | None => p
      end
  | SelectKey _ _ | SelectWindow _ _ _ _ | SelectStatuses _ _ => λ _, p
  end.

(** ** Locks *)

Definition locks_key (key : string * string) (p : pending) : bool := bool_decide (is_Some (p_keys p !! key)).

(** A statement waits while one of the other transactions has what it needs: the advisory
    lock, an uncommitted row with the key it inserts, or an uncommitted change of the row it
    updates. *)
Definition waits_for `{!Pg} {X} (q : sql X) (d : DB) (other : pending) : bool :=
  match q with
  | LockResource _ resource => bool_decide (p_lock other = Some (hashtextextended resource))
  | InsertKey agent k _ _ _ _ => bool_decide (db_keys d !! (agent, k) = None) && locks_key (agent, k) other
  | ReclaimKey agent k | RejectKey agent k _ _ | CompleteKey agent k _ _ _ _ =>
      bool_decide (is_Some (db_keys d !! (agent, k))) && locks_key (agent, k) other
  | _ => false
  end.

(** ** The server *)

(** What a transaction reports when it commits. *)
Inductive report :=
| Claimed (req : Request) (res : Result)
| Completed (agent k : string) (status : Status).

Record thread := mkThread {
  t_now : Z;
  t_prog : prog (report * bool);
  t_pending : pending;
}.

(** The committed tables, the open transactions, and what has been committed. *)
Record server := mkServer {
  s_db : DB;
  s_threads : list thread;
  s_log : list report;
}.

Definition claiming (req : Request) (lockWait : Z) : prog (report * bool) :=
  xc ← Tx.claim req lockWait; Ret (Claimed req xc.1, xc.2).

Definition completing (agent k : string) (status : Status) (result ref detail : string) : prog (report * bool) :=
  xc ← Tx.complete agent k status result ref detail; Ret (Completed agent k status, xc.2).

Definition others (n : nat) (l : list thread) : list pending := t_pending <$> delete n l.

Definition set_next (n : nat) (d : DB) : DB :=
  mkDB (db_now d) n (db_keys d) (db_intents d) (db_conflicts d) (db_activations d) (db_audit d).

Section Server.
Context `{!Pg}.

(** One step of an open transaction: a statement that need not wait and does not fail, or the
    end, with or without a commit.  Generated identifiers are used up for good. *)
Definition advances (n : nat) (th : thread) (s s' : server) : Prop :=
  match t_prog th with
  | Exec _ q k =>
      existsb (waits_for q (s_db s)) (others n (s_threads s)) = false ∧
      let before := view (t_now th) (t_pending th) (s_db s) in
      ∃ x after, sql_stmt q before = inr (x, after) ∧
        s' = mkServer (set_next (db_next after) (s_db s))
               (<[n := mkThread (t_now th) (k x) (effect q before after (t_pending th) x)]> (s_threads s)) (s_log s)
  | Ret (r, true) => s' = mkServer (overlay (t_pending th) (s_db s)) (delete n (s_threads s)) (s_log s ++ [r])
  | Ret (_, false) | Throw _ => s' = mkServer (s_db s) (delete n (s_threads s)) (s_log s)
  end.

(** Transactions begin, take steps, and may fail at any point; the clock moves. *)
Inductive server_step (allowed : Request → Prop) (s : server) : server → Prop :=
| st_clock t : server_step allowed s (mkServer (set_now t (s_db s)) (s_threads s) (s_log s))
| st_claim req lockWait : allowed req →
    server_step allowed s
      (mkServer (s_db s) (s_threads s ++ [mkThread (db_now (s_db s)) (claiming req lockWait) nothing]) (s_log s))
| st_complete agent k status result ref detail : outcome_status status →
    server_step allowed s
      (mkServer (s_db s)
         (s_threads s ++ [mkThread (db_now (s_db s)) (completing agent k status result ref detail) nothing]) (s_log s))
| st_advance n th s' : s_threads s !! n = Some th → advances n th s s' → server_step allowed s s'
| st_fail n : server_step allowed s (mkServer (s_db s) (delete n (s_threads s)) (s_log s)).

Inductive serves (allowed : Request → Prop) : server → Prop :=
| serves_empty : serves allowed (mkServer empty_db [] [])
| serves_step s s' : serves allowed s → server_step allowed s s' → serves allowed s'.

(** ** The writes are what the statements did *)

Lemma void_one_app v l1 l2 : void_one v (l1 ++ l2) = void_one v l1 ++ void_one v l2.
Proof. unfold void_one, void_where. by rewrite fmap_app. Qed.

Lemma void_all_snoc vs v l : void_all (vs ++ [v]) l = void_one v (void_all vs l).
Proof. unfold void_all. by rewrite fold_left_app. Qed.

Lemma last_row_snoc {A} (l : list A) x : last_row (l ++ [x]) = [x].
Proof. unfold last_row. by rewrite last_snoc. Qed.

Lemma view_write_key t key row d p after : after = set_keys <[key := row]> (view t p d) →
  after = view t (write_key key after p) (set_next (db_next after) d).
Proof.
  intros ->. unfold write_key, view, overlay, set_keys, set_now, set_next. simpl.
  rewrite lookup_insert_eq. simpl. by rewrite insert_union_l.
Qed.

Lemma view_write_void t v d p :
  set_intents (void_one v) (view t p d) = view t (write_void v p) (set_next (db_next (view t p d)) d).
Proof.
  unfold view, overlay, set_intents, set_now, set_next, write_void. simpl. by rewrite void_one_app, void_all_snoc.
Qed.

Lemma view_same t p d : view t p d = view t p (set_next (db_next (view t p d)) d).
Proof. by destruct d. Qed.

(** A statement leaves the view of the writes it added. *)
Lemma effect_view {X} (q : sql X) t p d x after :
  sql_stmt q (view t p d) = inr (x, after) →
  after = view t (effect q (view t p d) after p x) (set_next (db_next after) d).
Proof.
  destruct q; cbn [sql_stmt effect].
  - unfold lockResourceStmt. intros [= <- <-]. by destruct d.
  - unfold insertKey. destruct (db_keys (view t p d) !! _); intros [= <- <-]; [apply view_same|]. by eapply view_write_key.
  - unfold selectKey. intros [= <- <-]. apply view_same.
  - unfold reclaimKey. destruct (db_keys (view t p d) !! _) as [r|]; [|intros [= <- <-]; apply view_same].
    case_decide; [|intros [= <- <-]; apply view_same]. case_decide; [|done]. intros [= <- <-]. by eapply view_write_key.
  - unfold insertIntent. case_decide; [|done]. destruct (jsonb_in payload) as [stored|]; [|done]. intros [= <- <-].
    unfold view, overlay, bump_next, set_intents, set_now, set_next. simpl. by rewrite last_row_snoc, app_assoc.
  - unfold selectWindow. intros [= <- <-]. apply view_same.
  - unfold selectStatuses. intros [= <- <-]. apply view_same.
  - unfold insertConflict. intros [= <- <-].
    unfold view, overlay, bump_next, set_conflicts, set_now, set_next. simpl. by rewrite last_row_snoc, app_assoc.
  - unfold rejectKey. destruct (jsonb_in body) as [stored|]; [|done].
    destruct (db_keys (view t p d) !! _) as [r|]; [|intros [= <- <-]; apply view_same].
    case_decide; [|done]. intros [= <- <-]. by eapply view_write_key.
  - unfold voidIntent. intros [= <- <-]. apply (view_write_void t (intentID, emittedAt, db_now (view t p d))).
  - unfold completeKey. destruct (match result with None => _ | Some _ => _ end) as [stored|]; [|done].
    destruct (db_keys (view t p d) !! _) as [r|]; [|intros [= <- <-]; apply view_same].
    case_decide; [|intros [= <- <-]; apply view_same]. case_decide; [done|]. intros [= <- <-]. by eapply view_write_key.
  - unfold voidLatestIntent. destruct (head _) as [latest|]; intros [= <- <-]; [|apply view_same].
    apply (view_write_void t (i_id latest, i_emitted latest, db_now (view t p d))).
Qed.
End Server.
