(* ===== verification/InterleaveInv.v ===== *)
(** * InterleaveInv: what one transaction may rely on, and what it guarantees

    A rely-guarantee logic for the programs of Interleave.v.  [rely] is what the commits of
    other transactions leave alone for the holder of some locks, [committable] what a
    transaction guarantees with its own commit, and [rg] the weakest precondition of a program
    whose statements may see other commits in between.  [claim_rg] and [complete_rg] are the
    proofs of the two programs. *)

From S2P Require Import Prelude GoString Sha256 Manifest Conflict World Json Claim ClaimSpec ClaimInv ClaimSafety.
From S2P Require Import Interleave.

(** ** Rely and guarantee *)

(** The advisory lock of a resource. *)
Definition lock_of `{!Pg} (rtype rid : string) : Z := hashtextextended (rtype +:+ ":" +:+ rid).

Definition own_fresh (p : pending) (d : DB) : Prop :=
  ∀ i, i ∈ p_intents p → i_id i ∉ i_id <$> db_intents d.

(** The intents of a key. *)
Definition intents_of (key : string * string) (d : DB) : list intent_row :=
  filter (of_key key.1 key.2) (db_intents d).

Section Rely.
Context `{!Pg} (window : string → Z) (strict : Prop).
Implicit Types (p : pending) (d : DB) (req : Request) (i : intent_row).

(** Identifiers are unique, exactly the keys that are pending, done or indeterminate hold one
    live intent, and in [strict] mode conflicting writes are kept apart. *)
Record sound d : Prop := {
  so_ids : ids_below (db_next d) (i_id <$> db_intents d);
  so_live key : live_count (db_intents d) key =
    match db_keys d !! key with
    | Some r => if holds_intent (k_status r) then 1%nat else 0%nat
    | None => 0%nat
    end;
  so_excluded : strict → excluded window d;
}.

Lemma empty_sound : sound empty_db.
Proof.
  split; [split; [apply NoDup_nil_2|by intros ? ?%not_elem_of_nil]|done|].
  intros _. split; [by intros ? ?%not_elem_of_nil|done].
Qed.

Definition final (s : Status) : Prop := s = StatusDone ∨ s = StatusIndeterminate ∨ s = StatusRejected.

(** What happens to the committed tables while a transaction holds its locks: the rows it has
    written and the intents of their keys stay, final rows stay, and a locked resource gains no
    live intent. *)
Record rely p d d' : Prop := {
  rl_sound : sound d';
  rl_fresh : own_fresh p d';
  rl_next : (db_next d <= db_next d')%nat;
  rl_keys key : is_Some (p_keys p !! key) →
    db_keys d' !! key = db_keys d !! key ∧ intents_of key d' = intents_of key d;
  rl_final key r : db_keys d !! key = Some r → final (k_status r) → db_keys d' !! key = Some r;
  rl_lock i : p_lock p = Some (lock_of (i_rtype i) (i_rid i)) →
    i ∈ db_intents d' → i_voided i = None → i ∈ db_intents d;
}.

Lemma rely_refl p d : sound d → own_fresh p d → rely p d d.
Proof. by split. Qed.

Lemma rely_right p d d' : rely p d d' → rely p d' d'.
Proof. intros [Hs Hf _ _ _ _]. by apply rely_refl. Qed.

Lemma rely_trans p d1 d2 d3 : rely p d1 d2 → rely p d2 d3 → rely p d1 d3.
Proof.
  intros [_ _ Hn1 Hk1 Hf1 Hl1] [Hs Hfr Hn2 Hk2 Hf2 Hl2]. split; [done|done|lia|..].
  - intros key Hkey. destruct (Hk1 key Hkey) as [<- <-]. by apply Hk2.
  - eauto.
  - eauto.
Qed.

Lemma sound_next n d : sound d → (db_next d <= n)%nat → sound (set_next n d).
Proof.
  intros [Hi Hl Hx] Hn. split; [by eapply ids_below_mono|done|]. intros Hs. destruct (Hx Hs). by split.
Qed.

Lemma rely_next p n d : sound d → own_fresh p d → (db_next d <= n)%nat → rely p d (set_next n d).
Proof. intros Hs Hf Hn. split; [by apply sound_next|done|done|done|done|done]. Qed.

Lemma sound_now t d : sound d → sound (set_now t d).
Proof. intros [Hi Hl Hx]. split; [done|done|]. intros Hs. destruct (Hx Hs). by split. Qed.

(** Assertions that other commits cannot break. *)
Definition stable p (P : DB → Prop) : Prop := ∀ d d', rely p d d' → P d → P d'.

Lemma stable_step p P n d d' : stable p P → P d → rely p d d' → (db_next d' <= n)%nat → P (set_next n d').
Proof.
  intros Hst HP Hr Hn. apply (Hst d' _); [|by apply (Hst d)]. apply rely_next; [apply Hr|apply Hr|done].
Qed.

(** ** Programs *)

(** A transaction waits for a resource with nothing held, and for a row only while it has
    written no other. *)
Definition orderly {X} (q : sql X) p : Prop :=
  match q with
  | LockResource _ _ => p_lock p = None ∧ p_keys p = ∅
  | InsertKey agent k _ _ _ _ | ReclaimKey agent k | RejectKey agent k _ _ | CompleteKey agent k _ _ _ _ =>
      p_keys p = ∅ ∨ is_Some (p_keys p !! (agent, k))
  | _ => True
  end.

Fixpoint rg {A} (t : Z) (pr : prog A) p d (Q : A → pending → DB → Prop) {struct pr} : Prop :=
  match pr with
  | Ret x => ∀ d', rely p d d' → Q x p d'
  | Throw _ => True
  | Exec _ q k => ∀ d', rely p d d' → orderly q p ∧
      ∀ x after, sql_stmt q (view t p d') = inr (x, after) →
        rg t (k x) (effect q (view t p d') after p x) (set_next (db_next after) d') Q
  end.

Lemma rg_rely {A} t (pr : prog A) p d d' Q : rely p d d' → rg t pr p d Q → rg t pr p d' Q.
Proof.
  destruct pr; simpl; intros Hr; [|done|]; intros Hw d'' Hr'; apply Hw; by eapply rely_trans.
Qed.

(** It is enough to start after any further commits. *)
Lemma rg_later {A} t (pr : prog A) p d Q : (∀ d', rely p d d' → rg t pr p d' Q) → rg t pr p d Q.
Proof.
  destruct pr; simpl; intros Hw; [|done|]; intros d' Hr; apply (Hw d' Hr); by eapply rely_right.
Qed.

Lemma rg_mono {A} t (pr : prog A) : ∀ p d (Q Q' : A → pending → DB → Prop),
  (∀ x p d, Q x p d → Q' x p d) → rg t pr p d Q → rg t pr p d Q'.
Proof.
  induction pr as [x|e|X context q k IH]; intros p d Q Q' HQ; simpl; [by eauto|done|].
  intros Hw d' Hr. destruct (Hw d' Hr) as [Ho Hx]. split; [done|]. intros x after Hs. eapply IH; eauto.
Qed.

Lemma rg_bind {A B} t (f : A → prog B) (pr : prog A) : ∀ p d Q,
  rg t pr p d (λ x p' d', rg t (f x) p' d' Q) → rg t (pr ≫= f) p d Q.
Proof.
  induction pr as [x|e|X context q k IH]; intros p d Q; [apply rg_later|done|].
  intros Hw d' Hr. destruct (Hw d' Hr) as [Ho Hx]. split; [done|]. intros x after Hs. by apply IH, Hx.
Qed.

Lemma rg_ret {A} t (x : A) p d (Q : A → pending → DB → Prop) : stable p (Q x p) → Q x p d → rg t (mret x) p d Q.
Proof. intros Hst HQ d' Hr. by eapply Hst. Qed.

(** A statement, with what it may assume on the tables it meets. *)
Lemma rg_perform {X B} t context (q : sql X) (f : X → prog B) p d Q :
  (∀ d', rely p d d' → orderly q p ∧
     ∀ x after, sql_stmt q (view t p d') = inr (x, after) →
       rg t (f x) (effect q (view t p d') after p x) (set_next (db_next after) d') Q) →
  rg t (perform context q ≫= f) p d Q.
Proof. done. Qed.

(** ** The guarantee *)

Record committable p d : Prop := {
  cm_sound : sound (overlay p d);
  cm_keys key r : p_keys p !! key = Some r → row_step (db_keys d !! key) (Some r);
  cm_intents i : i ∈ p_intents p →
    is_Some (p_keys p !! (i_agent i, i_key i)) ∧ p_lock p = Some (lock_of (i_rtype i) (i_rid i));
  cm_voids v i : v ∈ p_voids p → i ∈ db_intents d → i_id i = v.1.1 → is_Some (p_keys p !! (i_agent i, i_key i));
}.

Lemma row_step_final r r' : final (k_status r) → row_step (Some r) (Some r') → r' = r.
Proof.
  unfold final. intros Hf Hs. inversion Hs as [|?|? ? Hst|? ? Hst]; subst; [done|..]; rewrite Hst in Hf; naive_solver.
Qed.

Lemma void_one_keeps v l x : x ∈ void_one v l → i_voided x = None → x ∈ l.
Proof.
  unfold void_one, void_where. intros (y & -> & Hy)%list_elem_of_fmap. case_decide; [done|]. done.
Qed.

Lemma void_all_keeps vs : ∀ l x, x ∈ void_all vs l → i_voided x = None → x ∈ l.
Proof.
  induction vs as [|v vs IH]; intros l x; [done|]. intros Hx Hv. apply (IH _ _ Hx) in Hv as Hl.
  by eapply void_one_keeps.
Qed.

Lemma void_one_ids v l : i_id <$> void_one v l = i_id <$> l.
Proof. apply void_where_ids. Qed.

Lemma void_one_fresh v l : v.1.1 ∉ i_id <$> l → void_one v l = l.
Proof.
  unfold void_one, void_where. intros Hn. rewrite <- (list_fmap_id l) at 2. apply list_fmap_ext.
  intros n x Hx. rewrite decide_False; [done|]. intros [He _]. apply Hn. rewrite <- He.
  by apply list_elem_of_fmap_2, list_elem_of_lookup_2 with n.
Qed.

Lemma void_all_ids vs : ∀ l, i_id <$> void_all vs l = i_id <$> l.
Proof.
  induction vs as [|v vs IH]; intros l; [done|].
  change (void_all (v :: vs) l) with (void_all vs (void_one v l)). by rewrite IH, void_one_ids.
Qed.

(** Voids of other keys' intents leave the intents of a key. *)
Lemma void_one_of_key key v l : (∀ x, x ∈ l → i_id x = v.1.1 → ¬ of_key key.1 key.2 x) →
  filter (of_key key.1 key.2) (void_one v l) = filter (of_key key.1 key.2) l.
Proof.
  unfold void_one, void_where. induction l as [|x l IH]; intros Hno; [done|].
  rewrite fmap_cons, !filter_cons, IH by (intros y Hy; apply Hno; by right).
  destruct (decide (i_id x = v.1.1 ∧ i_emitted x = v.1.2)) as [[Hid _]|]; [|done].
  pose proof (Hno x ltac:(by left) Hid) as Hx. rewrite !decide_False; [done|done|].
  intros [Ha Hk]. by apply Hx.
Qed.

Lemma void_all_of_key key vs : ∀ l, (∀ v x, v ∈ vs → x ∈ l → i_id x = v.1.1 → ¬ of_key key.1 key.2 x) →
  filter (of_key key.1 key.2) (void_all vs l) = filter (of_key key.1 key.2) l.
Proof.
  induction vs as [|v vs IH]; intros l Hno; [done|].
  change (void_all (v :: vs) l) with (void_all vs (void_one v l)). rewrite IH.
  - apply void_one_of_key. intros x Hx. apply (Hno v); [by left|done].
  - intros v' x Hv' Hx Hid. unfold void_one, void_where in Hx. apply list_elem_of_fmap in Hx as (y & -> & Hy).
    pose proof (Hno v' y ltac:(by right) Hy) as Hnot. case_decide; exact (Hnot Hid).
Qed.
(** What one transaction commits, every other may rely on. *)
Lemma committable_rely p1 p2 d :
  committable p1 d → own_fresh p2 d → p_keys p1 ##ₘ p_keys p2 →
  (∀ r, p_lock p1 = Some r → p_lock p2 ≠ Some r) →
  (∀ i j, i ∈ p_intents p1 → j ∈ p_intents p2 → i_id i ≠ i_id j) →
  rely p2 d (overlay p1 d).
Proof.
  intros [Hs Hkeys Hints Hvoids] Hfresh Hdisj Hlock Hids.
  assert (Hnone : ∀ key, is_Some (p_keys p2 !! key) → p_keys p1 !! key = None).
  { intros key [r Hr]. destruct (p_keys p1 !! key) as [r'|] eqn:E; [|done]. by destruct (proj1 (map_disjoint_spec _ _) Hdisj key r' r E Hr). }
  split; [done|..].
  - intros j Hj. simpl. rewrite fmap_app, void_all_ids, not_elem_of_app. split; [by apply Hfresh|].
    intros (i & He & Hi)%list_elem_of_fmap. by apply (Hids i j).
  - done.
  - intros key Hkey. split; simpl.
    + by rewrite lookup_union_r by auto.
    + unfold intents_of. simpl. rewrite filter_app, void_all_of_key.
      * assert (filter (of_key key.1 key.2) (p_intents p1) = []) as ->; [|by rewrite app_nil_r].
        apply elem_of_nil_inv. intros i [[Ha Hk] Hi]%list_elem_of_filter. destruct (Hints i Hi) as [[r Hr] _].
        rewrite Ha, Hk, <- surjective_pairing, (Hnone key Hkey) in Hr. done.
      * intros v x Hv Hx Hid [Ha Hk]. destruct (Hvoids v x Hv Hx Hid) as [r Hr].
        rewrite Ha, Hk, <- surjective_pairing, (Hnone key Hkey) in Hr. done.
  - intros key r Hr Hf. simpl. destruct (p_keys p1 !! key) as [r'|] eqn:E.
    + rewrite (lookup_union_Some_l _ _ _ r') by done. pose proof (Hkeys key r' E) as Hst. rewrite Hr in Hst.
      by rewrite (row_step_final r r').
    + by rewrite lookup_union_r.
  - intros i Hl Hi Hv. simpl in Hi. apply elem_of_app in Hi as [Hi|Hi]; [by eapply void_all_keeps|].
    destruct (Hints i Hi) as [_ Hl1]. by destruct (Hlock _ Hl1).
Qed.
End Rely.

(** A commit writes the one row its report says: the next attempt of the key, admitted or
    rejected, or the end of a pending row. *)
Definition reported_row (rep : report) (p : pending) (d : DB) : Prop :=
  match rep with
  | Claimed req res => ∃ row, p_keys p = {[req_key req := row]} ∧ next_row (db_keys d !! req_key req) row ∧
      match Verdict_ res with
      | VerdictClaimed => k_status row = StatusPending ∧
          ∃ record, Record_of res = Some record ∧ AttemptCount record = k_attempt row
      | _ => k_status row = StatusRejected
      end
  | Completed agent k status => ∃ row r, p_keys p = {[(agent, k) := row]} ∧ db_keys d !! (agent, k) = Some r ∧
      k_status r = StatusPending ∧ k_status row = status ∧ k_attempt row = k_attempt r ∧ k_claimed row = k_claimed r
  end.

(** What a program promises when it asks for its commit. *)
Definition promised `{!Pg} window strict (rc : report * bool) p d : Prop :=
  rc.2 = true → committable window strict p d ∧ reported_row rc.1 p d.

(** ** The claim *)

Section Claiming.
Context `{!Pg} (window : string → Z) (strict : Prop) (req : Request) (t : Z).
Implicit Types (p : pending) (d : DB) (i : intent_row).

Abbreviation L := (lock_of (r_ResourceType req) (r_ResourceID req)).
Abbreviation K := (req_key req).
Abbreviation sound := (sound window strict).
Abbreviation rely := (rely window strict).
Abbreviation stable := (stable window strict).
Abbreviation rg := (rg window strict).
Abbreviation committable := (committable window strict).

Definition holding : pending := mkPending (Some L) ∅ [] [] [].
Definition writing (row : key_row) (ints : list intent_row) (cs : list conflict_row) (vs : list (string * Z * Z)) : pending :=
  mkPending (Some L) {[K := row]} ints cs vs.

(** The row the claim has written takes over from what is committed. *)
Definition takes (row : key_row) d : Prop :=
  (db_keys d !! K = None ∧ k_attempt row = 1) ∨
  ∃ r, db_keys d !! K = Some r ∧ k_status r = StatusFailed ∧ k_attempt row = k_attempt r + 1 ∧ same_identity r row.

Lemma writing_key row ints cs vs : is_Some (p_keys (writing row ints cs vs) !! K).
Proof. exists row. apply lookup_singleton_eq. Qed.

Lemma takes_stable row row' ints cs vs : stable (writing row' ints cs vs) (takes row).
Proof.
  intros d d' Hr. destruct (rl_keys _ _ _ _ _ Hr K (writing_key row' ints cs vs)) as [He _]. unfold takes. by rewrite He.
Qed.

Lemma takes_step row row' d : takes row d → k_status row' = StatusPending ∨ k_status row' = StatusRejected →
  k_attempt row' = k_attempt row → same_identity row row' → row_step (db_keys d !! K) (Some row').
Proof.
  intros [[Hn Ha]|(r & Hr & Hf & Ha & Hid)] Hs Hatt Hsame; [rewrite Hn; apply row_new; [done|congruence]|].
  rewrite Hr. apply row_retried; [done|done|congruence|]. unfold same_identity in *. naive_solver congruence.
Qed.

Lemma takes_next row row' d : takes row d → k_attempt row' = k_attempt row → next_row (db_keys d !! K) row'.
Proof.
  intros [[Hn _]|(r & Hr & Hf & Ha & _)] Hatt; [by left|right]. exists r. split_and!; [done|done|congruence].
Qed.

Lemma takes_free row d : sound d → takes row d → live_count (db_intents d) K = 0%nat.
Proof.
  intros Hs Ht. rewrite (so_live _ _ _ Hs). destruct Ht as [[-> _]|(r & -> & -> & _)]; done.
Qed.

Lemma view_holding_keys d : db_keys (view t holding d) = db_keys d.
Proof. simpl. apply map_empty_union. Qed.

Lemma write_key_holding row v :
  write_key K (set_keys <[K := row]> v) holding = writing row [] [] [].
Proof. unfold write_key, set_keys. simpl. rewrite lookup_insert_eq. unfold writing. by rewrite insert_empty. Qed.

Lemma holding_orderly agent k hash rtype rid op : orderly (InsertKey agent k hash rtype rid op) holding.
Proof. by left. Qed.

(** A fresh claim has written the key's row; any other answer leaves the locks as they were. *)
Definition claimed_key (xf : Result * bool) p d : Prop :=
  if xf.2 then ∃ row record, p = writing row [] [] [] ∧ takes row d ∧ k_status row = StatusPending ∧
    Verdict_ xf.1 = VerdictClaimed ∧ Record_of xf.1 = Some record ∧ AttemptCount record = k_attempt row
  else Verdict_ xf.1 ≠ VerdictClaimed.

Lemma claimed_stable xf p : stable p (claimed_key xf p).
Proof.
  intros d d' Hr. unfold claimed_key. destruct xf.2; [|done].
  intros (row & record & -> & Ht & Hrest). exists row, record. split_and!; try apply Hrest; [done|].
  by eapply takes_stable.
Qed.

Lemma claimKey_rg d : rg t (Tx.claimKey req) holding d claimed_key.
Proof.
  unfold Tx.claimKey. apply rg_bind. apply rg_perform. intros d1 Hr1. split; [by left|].
  intros won after. cbn [sql_stmt effect]. unfold insertKey. rewrite view_holding_keys. fold K.
  destruct (db_keys d1 !! K) as [r|] eqn:Er; intros [= <- <-].
  2: { rewrite write_key_holding. intros d2 Hr2. apply rg_ret; [apply claimed_stable|].
       eexists _, _. split_and!; [done| |done..]. eapply takes_stable; [exact Hr2|]. by left. }
  intros d2 Hr2. apply rg_bind, (rg_perform window strict t _ _ _ holding). intros d3 Hr3. split; [done|].
  intros row after. cbn [sql_stmt effect]. unfold selectKey. rewrite view_holding_keys. fold K. intros [= <- <-].
  destruct (db_keys d3 !! K) as [r3|] eqn:Er3; [|done]. intros d4 Hr4. cbn [fmap option_fmap option_map].
  set (existing := mkRecord _ _ _ _ _ _ _ _).
  destruct (negb _); [by apply rg_ret; [apply claimed_stable|]|].
  destruct (negb _); [by apply rg_ret; [apply claimed_stable|]|].
  apply rg_bind, (rg_perform window strict t _ _ _ holding). intros d5 Hr5. split; [by left|].
  intros attempt after. cbn [sql_stmt effect]. unfold reclaimKey. rewrite view_holding_keys. fold K.
  destruct (db_keys d5 !! K) as [r5|] eqn:Er5; [|intros [= <- <-] d6 Hr6; by apply rg_ret; [apply claimed_stable|]].
  case_decide as Hf; [|intros [= <- <-] d6 Hr6; by apply rg_ret; [apply claimed_stable|]].
  case_decide; [|done]. intros [= <- <-]. rewrite write_key_holding. intros d6 Hr6.
  apply rg_ret; [apply claimed_stable|]. eexists _, _. split_and!; [done| |done..].
  eapply takes_stable; [exact Hr6|]. right. by exists r5.
Qed.

(** The intent the claim has recorded. *)
Record mine i d : Prop := {
  mi_agent : i_agent i = r_AgentID req;
  mi_key : i_key i = r_Key req;
  mi_rtype : i_rtype i = r_ResourceType req;
  mi_rid : i_rid i = r_ResourceID req;
  mi_declared : i_declared i = r_Declared req;
  mi_emitted : i_emitted i = t;
  mi_live : i_voided i = None;
  mi_id : ∃ m, (m < db_next d)%nat ∧ i_id i = uuidv7 m;
}.

Definition recorded_as row i d : Prop := takes row d ∧ mine i d.

Lemma recorded_stable row row' i ints cs vs : stable (writing row' ints cs vs) (recorded_as row i).
Proof.
  intros d d' Hr [Ht [Ha Hk Hty Hid Hde He Hl (m & Hm & Hi)]]. split; [by eapply takes_stable|]. split; try done.
  exists m. split; [|done]. pose proof (rl_next _ _ _ _ _ Hr). lia.
Qed.

Lemma recordIntent_rg row d : takes row d →
  rg t (Tx.recordIntent req) (writing row [] [] []) d (λ ie p d',
    ∃ i, p = writing row [i] [] [] ∧ recorded_as row i d' ∧ ie = (i_id i, t)).
Proof.
  intros Ht d1 Hr1. split; [done|]. intros ie after. cbn [sql_stmt effect]. unfold insertIntent.
  case_decide; [|done]. destruct (jsonb_in _) as [stored|]; [|done]. intros [= <- <-] d2 Hr2. cbn [db_intents bump_next set_intents].
  rewrite last_row_snoc. eexists. split_and!; [done| |done]. eapply recorded_stable; [exact Hr2|]. split.
  - exact (takes_stable row row _ _ _ d d1 Hr1 Ht).
  - split; try done. exists (db_next d1). split; [simpl; lia|done].
Qed.

(** The candidates still include every live incompatible intent of the window. *)
Definition rivals x d : Prop :=
  x ∈ db_intents d ∧ i_voided x = None ∧ i_rtype x = r_ResourceType req ∧ i_rid x = r_ResourceID req ∧
  t - interval_us (r_Window req) < i_emitted x ∧ Compatible (r_Declared req) (i_declared x) = false.

Lemma rivals_back row ints cs vs x d d' : rely (writing row ints cs vs) d d' → rivals x d' → rivals x d.
Proof.
  intros Hr (Hx & Hv & Hty & Hid & Hrest). split_and!; try done; [|apply Hrest..].
  apply (rl_lock _ _ _ _ _ Hr x); [|done..]. simpl. by rewrite Hty, Hid.
Qed.

Definition covers (cs : list intent) d : Prop :=
  ∀ x, rivals x d → mkCandidate (i_id x) (i_agent x) (i_key x) (i_declared x) ∈ cs.

Lemma covers_stable seen row ints cs vs : stable (writing row ints cs vs) (covers seen).
Proof. intros d d' Hr Hc x Hx. by eapply Hc, rivals_back. Qed.

(** Every live incompatible intent of the window is the agent's own, and its write is over. *)
Definition settled d : Prop :=
  ∀ x, rivals x d → i_agent x = r_AgentID req ∧
    ∃ r, db_keys d !! (i_agent x, i_key x) = Some r ∧ (k_status r = StatusDone ∨ k_status r = StatusIndeterminate).

Lemma settled_stable row ints cs vs : stable (writing row ints cs vs) settled.
Proof.
  intros d d' Hr Hs x Hx. destruct (Hs x) as (Ha & r & Hk & Hst); [by eapply rivals_back|]. split; [done|].
  exists r. split; [|done]. apply (rl_final _ _ _ _ _ Hr); [done|]. unfold final. tauto.
Qed.

Lemma conflictingIntents_rg row i d : recorded_as row i d →
  rg t (Tx.conflictingIntents req (i_id i)) (writing row [i] [] []) d (λ seen p d',
    p = writing row [i] [] [] ∧ recorded_as row i d' ∧ covers seen d').
Proof.
  intros Hrec. apply rg_perform. intros d1 Hr1. split; [done|]. intros rows after. cbn [sql_stmt effect].
  unfold selectWindow. intros [= <- <-]. apply rg_ret.
  { intros d2 d3 Hr (Hp & Hre & Hc). split_and!; [done|by eapply recorded_stable|by eapply covers_stable]. }
  split_and!; [done|by eapply stable_step; [apply recorded_stable|done|exact Hr1|]|]. intros x (Hx & Hv & Hty & Hid & Hwin & Hcomp).
  apply list_elem_of_filter. split; [done|]. apply list_elem_of_fmap. exists x. split; [done|].
  unfold by_emitted_desc. rewrite merge_sort_Permutation, reverse_Permutation. apply list_elem_of_filter.
  split; [|simpl; apply elem_of_app; by left]. unfold in_window. split_and!; try done.
  intros He. apply (rl_fresh _ _ _ _ _ Hr1 i); [by left|]. rewrite <- He. by apply list_elem_of_fmap_2.
Qed.

(** Recording conflicts breaks no assertion. *)
Lemma record_loop_rg row i vs (P : DB → Prop) intentID res : (∀ cs, stable (writing row [i] cs vs) P) →
  ∀ seen primary cs d, P d →
  rg t (Tx.record_loop req intentID res seen primary) (writing row [i] cs vs) d (λ _ p d',
    ∃ cs', p = writing row [i] cs' vs ∧ P d').
Proof.
  intros Hst. induction seen as [|c seen IH]; intros primary cs d HP.
  - intros d' Hr. exists cs. split; [done|]. by eapply Hst.
  - apply rg_perform. intros d1 Hr1. split; [done|]. intros conflictID after. cbn [sql_stmt effect].
    unfold insertConflict. intros [= <- <-]. apply IH. eapply stable_step; [apply Hst|exact HP|exact Hr1|simpl; lia].
Qed.

Lemma recordConflicts_rg row i vs (P : DB → Prop) intentID seen res cs d : (∀ cs, stable (writing row [i] cs vs) P) → P d →
  rg t (Tx.recordConflicts req intentID seen res) (writing row [i] cs vs) d (λ _ p d',
    ∃ cs', p = writing row [i] cs' vs ∧ P d').
Proof. intros Hst. by apply record_loop_rg. Qed.

(** A live rival's row is not the one the claim has written, and it holds its intent. *)
Lemma rival_row row x d : sound d → takes row d → x ∈ db_intents d → i_voided x = None →
  (i_agent x, i_key x) ≠ K ∧ ∃ r, db_keys d !! (i_agent x, i_key x) = Some r ∧ holds_intent (k_status r) = true.
Proof.
  intros Hs Ht Hx Hv.
  assert (Hzero : ∀ key, (i_agent x, i_key x) = key → live_count (db_intents d) key = 0%nat → False).
  { intros key <- Hz. by apply (live_count_zero _ _ x Hz). }
  split; [intros He; by eapply Hzero, takes_free|]. pose proof (so_live _ _ _ Hs (i_agent x, i_key x)) as Hl.
  destruct (db_keys d !! (i_agent x, i_key x)) as [r|]; [|by destruct (Hzero _ eq_refl Hl)].
  exists r. split; [done|]. destruct (holds_intent (k_status r)); [done|]. by destruct (Hzero _ eq_refl Hl).
Qed.

(** If no row of the candidates is pending, the rivals are settled. *)
Lemma unblocked_settled row i seen same d :
  strict → sound d → takes row d → covers seen d →
  (∀ c, c ∈ seen → cd_agentID c = r_AgentID req ∧ c ∈ same) →
  first_pending_of (statuses (r_AgentID req) (cd_key <$> same) (view t (writing row [i] [] []) d)) = EmptyString →
  settled d.
Proof.
  intros Hst Hs Ht Hc Hsame Hb x Hx. pose proof (Hc x Hx) as Hcand. destruct (Hsame _ Hcand) as [Ha Hin]. simpl in Ha.
  pose proof Hx as (Hxd & Hv & _). destruct (rival_row row x d Hs Ht Hxd Hv) as (Hne & r & Hr & Hh).
  split; [done|]. exists r. split; [done|].
  assert (k_status r ≠ StatusPending) as Hp; [|by destruct (k_status r); auto].
  eapply (proj1 (first_pending_none _) Hb (i_key x)).
  - apply statuses_elem. split; [by apply (list_elem_of_fmap_2 cd_key) in Hin|]. exists r. split; [|done].
    simpl. rewrite <- Ha, lookup_union_r; [done|]. by apply lookup_singleton_ne.
  - by apply (ex_keys _ _ (so_excluded _ _ _ Hs Hst)).
Qed.

Definition rejected_writes i (row' : key_row) (cs : list conflict_row) : pending := writing row' [void_row t i] cs [(i_id i, t, t)].

(** What the judgement of the intent leaves. *)
Definition judged row i (o : Outcome_) p d : Prop :=
  recorded_as row i d ∧
  match o_Verdict o with
  | VerdictClaimed => (∃ cs, p = writing row [i] cs []) ∧ (strict → settled d)
  | VerdictRejected => ∃ row' cs, p = rejected_writes i row' cs ∧ k_status row' = StatusRejected ∧
      k_attempt row' = k_attempt row ∧ same_identity row row'
  | v => v = VerdictSerialize
  end.

Lemma judged_stable row i o row' ints cs vs :
  stable (writing row' ints cs vs) (judged row i o (writing row' ints cs vs)).
Proof.
  intros d d' Hr [Hrec Hv]. split; [by eapply recorded_stable|]. destruct (o_Verdict o); try done.
  destruct Hv as [Hp Hs]. split; [done|]. intros Hst. by eapply settled_stable, Hs.
Qed.

Lemma reject_rg row i primary seen cs d : recorded_as row i d →
  rg t (Tx.reject req (i_id i) t primary seen) (writing row [i] cs []) d (judged row i).
Proof.
  intros Hrec. unfold Tx.reject. apply rg_bind. eapply rg_mono; [|apply (recordConflicts_rg row i [] (recorded_as row i));
    [intros; apply recorded_stable|done]].
  intros conflictID p d1 (cs' & -> & Hrec1). apply rg_perform. intros d2 Hr2. split; [right; apply writing_key|].
  intros stored after. cbn [sql_stmt effect]. unfold rejectKey. destruct (jsonb_in _) as [body|]; [|done].
  fold K. simpl db_keys at 1. rewrite (lookup_union_Some_l _ _ _ row) by apply lookup_singleton_eq.
  case_decide; [|done]. intros [= <- <-]. set (row' := mkKey _ _ _ _ _ _ _ _ _ _ _ _).
  assert (Hw : write_key K (set_keys <[K := row']> (view t (writing row [i] cs' []) d2)) (writing row [i] cs' []) = writing row' [i] cs' []).
  { unfold write_key. simpl. rewrite lookup_insert_eq. unfold writing. by rewrite insert_singleton_eq. }
  rewrite Hw. apply rg_perform. intros d3 Hr3. split; [done|]. intros [] after. cbn [sql_stmt effect]. unfold voidIntent. intros [= <-].
  assert (Hrec3 : recorded_as row i (set_next (db_next d3) d3)).
  { eapply (stable_step window strict _ (recorded_as row i)); [apply recorded_stable| |exact Hr3|done].
    eapply stable_step; [apply recorded_stable|exact Hrec1|exact Hr2|done]. }
  assert (write_void (i_id i, t, db_now (view t (writing row' [i] cs' []) d3)) (writing row' [i] cs' []) = rejected_writes i row' cs') as ->.
  { unfold write_void, rejected_writes, writing, void_one, void_where. simpl. do 2 f_equal.
    rewrite decide_True; [done|]. split; [done|]. by apply (mi_emitted _ _ (proj2 Hrec)). }
  apply rg_ret; [apply judged_stable|]. split; [exact Hrec3|]. by exists row', cs'.
Qed.

Lemma resolveConflicts_rg row i d : (strict → r_Enforce req = true) → recorded_as row i d →
  rg t (Tx.resolveConflicts req (i_id i) t) (writing row [i] [] []) d (judged row i).
Proof.
  intros Hen Hrec. unfold Tx.resolveConflicts. apply rg_bind. eapply rg_mono; [|by apply conflictingIntents_rg].
  intros seen p d1 (-> & Hrec1 & Hc). destruct seen as [|c seen].
  { apply rg_ret; [apply judged_stable|]. split; [done|]. split; [by exists []|].
    intros _ x Hx. by apply Hc, not_elem_of_nil in Hx. }
  destruct (r_Enforce req) eqn:He; simpl negb; cbv iota.
  2: { apply rg_bind. eapply rg_mono; [|apply (recordConflicts_rg row i [] (recorded_as row i));
         [intros; apply recorded_stable|done]]. intros primary p d2 (cs & -> & Hrec2).
       apply rg_ret; [apply judged_stable|]. split; [done|]. split; [by exists cs|]. by intros ?%Hen. }
  destruct (filter (λ c, cd_agentID c ≠ r_AgentID req) (c :: seen)) as [|primary rest] eqn:Ho; [|by apply reject_rg].
  apply rg_bind, rg_bind, rg_perform. intros d2 Hr2. split; [done|]. intros rows after. cbn [sql_stmt effect].
  unfold selectStatuses. intros [= <- <-].
  assert (Hrec2 : recorded_as row i (set_next (db_next d2) d2)) by (eapply stable_step; [apply recorded_stable|done|exact Hr2|done]).
  assert (Hc2 : covers (c :: seen) d2) by (by eapply covers_stable).
  set (rows := (λ '((_, k), r), (k, k_status r)) <$> _).
  intros d3' Hr3' d3 Hr3''. pose proof (rely_trans _ _ _ _ _ _ Hr3' Hr3'') as Hr3.
  destruct (String.eqb_spec (first_pending_of rows) "") as [Hb|Hb]; simpl negb; cbv iota.
  - assert (Hset : strict → settled d2).
    { intros Hst. eapply (unblocked_settled row i (c :: seen)); [done|apply Hr2|apply Hrec2|exact Hc2| |exact Hb].
      intros x Hx. assert (cd_agentID x = r_AgentID req) as Hax; [|split; [done|by apply list_elem_of_filter]].
      by eapply others_none. }
    set (P := λ d, recorded_as row i d ∧ (strict → settled d)).
    assert (HP : ∀ cs, stable (writing row [i] cs []) P).
    { intros cs e e' Hr [Hrec' Hs']. split; [by eapply recorded_stable|]. intros Hst. by eapply settled_stable, Hs'. }
    apply rg_bind. eapply rg_mono; [|apply (recordConflicts_rg row i [] P); [exact HP|eapply HP; [exact Hr3|split; [exact Hrec2|exact Hset]]]].
    intros primary p d4 (cs & -> & Hrec4 & Hs4). apply rg_ret; [apply judged_stable|]. split; [done|]. split; [by exists cs|done].
  - apply (rg_ret _ _ _ _ (writing row [i] [] [])); [apply judged_stable|]. split; [by eapply recorded_stable|done].
Qed.

(** *** The commit of a claim *)

(** The tables with the row and the intent of a claim. *)
Definition extended row i (cs : list conflict_row) d : DB :=
  mkDB (db_now d) (db_next d) (<[K := row]> (db_keys d)) (db_intents d ++ [i]) (db_conflicts d ++ cs)
    (db_activations d) (db_audit d).

Lemma overlay_writing row i cs vs d : void_all vs (db_intents d) = db_intents d →
  overlay (writing row [i] cs vs) d = extended row i cs d.
Proof. intros Hv. unfold overlay, extended. simpl. by rewrite Hv, insert_union_singleton_l. Qed.

(** An unvoided intent joins settled tables in order. *)
Lemma extended_excluded row0 row i cs d :
  strict → sound d → takes row0 d → i_key i = r_Key req → r_Key req ≠ EmptyString →
  (∀ x, x ∈ db_intents d → clash window x i → ordered d x i) →
  excluded window (extended row i cs d).
Proof.
  intros Hst Hs Ht Hk Hne Hnew. pose proof (so_excluded _ _ _ Hs Hst) as Hx.
  assert (Hkeep : ∀ x y, x ∈ db_intents d → clash window x y → ordered d x y → ordered (extended row i cs d) x y).
  { intros x y Hin (Hv & _) (Ha & r & Hr & Hst'). split; [done|]. exists r. split; [|done].
    simpl. rewrite lookup_insert_ne; [done|]. intros He. by destruct (rival_row row0 x d Hs Ht Hin Hv) as [[] _]. }
  split; simpl.
  - intros x [Hin| ->%list_elem_of_singleton]%elem_of_app; [by apply Hx|by rewrite Hk].
  - intros n m x y Hnm Hn Hm Hc.
    assert (Hlen : (m <= length (db_intents d))%nat).
    { apply lookup_lt_Some in Hm. rewrite length_app in Hm. simpl in Hm. lia. }
    rewrite lookup_app_l in Hn by lia. assert (Hin : x ∈ db_intents d) by (by eapply list_elem_of_lookup_2).
    apply Hkeep; [done|done|]. destruct (decide (m < length (db_intents d))%nat).
    + rewrite lookup_app_l in Hm by done. by eapply (ex_pairs _ d Hx n m).
    + rewrite lookup_app_r in Hm by lia. replace (m - length (db_intents d))%nat with 0%nat in Hm by lia.
      injection Hm as <-. by apply Hnew.
Qed.

Lemma extended_sound row0 row i cs d :
  sound d → takes row0 d → i_id i ∉ i_id <$> db_intents d → (∃ m, (m < db_next d)%nat ∧ i_id i = uuidv7 m) →
  (i_agent i, i_key i) = K → (i_voided i = None ↔ holds_intent (k_status row) = true) →
  (strict → r_Key req ≠ EmptyString) →
  (strict → ∀ x, x ∈ db_intents d → clash window x i → ordered d x i) →
  sound (extended row i cs d).
Proof.
  intros Hs Ht Hfresh (m & Hm & Hid) Hkey Hv Hne Hnew. pose proof (so_ids _ _ _ Hs) as [Hnd Hb].
  split.
  - simpl. rewrite fmap_app. split.
    + apply NoDup_app. split_and!; [done| |apply NoDup_singleton]. by intros x Hx ->%list_elem_of_singleton.
    + intros x [Hx| ->%list_elem_of_singleton]%elem_of_app; [by apply Hb|by exists m].
  - intros key. simpl. rewrite live_count_app, live_count_single, Hkey. destruct (decide (key = K)) as [->|Hd].
    + rewrite lookup_insert_eq, (takes_free row0 d Hs Ht). destruct (holds_intent (k_status row)).
      * by rewrite decide_True by naive_solver.
      * by rewrite decide_False by naive_solver.
    + rewrite lookup_insert_ne, decide_False, (so_live _ _ _ Hs) by naive_solver. lia.
  - intros Hst. eapply extended_excluded; [done|exact Hs|exact Ht| |by apply Hne|by apply Hnew].
    unfold req_key in Hkey. congruence.
Qed.

(** Requests as the handler builds them. *)
Definition well_asked : Prop := r_Key req ≠ EmptyString ∧ (strict → enforced window req).

Lemma mine_key i d : mine i d → (i_agent i, i_key i) = K.
Proof. intros [Ha Hk _ _ _ _ _ _]. unfold req_key. by rewrite Ha, Hk. Qed.

Lemma claimed_committable row i cs d : well_asked → sound d → own_fresh (writing row [i] cs []) d →
  recorded_as row i d → k_status row = StatusPending → (strict → settled d) → committable (writing row [i] cs []) d.
Proof.
  intros [Hne Hen] Hs Hf [Ht Hmine] Hst Hset. pose proof (mine_key i d Hmine) as HK.
  split.
  - rewrite overlay_writing by done. apply (extended_sound row); [done|done|apply Hf; by left|apply Hmine|done| |done|].
    + rewrite Hst. simpl. split; [done|]. intros _. apply Hmine.
    + intros Hstrict x Hx (Hvx & _ & Hty & Hid & Hwin & Hcomp). destruct (Hen Hstrict) as (_ & Hw & _).
      destruct Hmine as [Ha Hk Hty' Hid' Hde Hem _ _].
      destruct (Hset Hstrict x) as (Hag & Hrow); [|by split; [rewrite Ha|]].
      split_and!; [done|done|congruence|congruence| |congruence]. rewrite Hty', Hem, <- Hw in Hwin. exact Hwin.
  - intros key r. simpl. intros [<- <-]%lookup_singleton_Some. by eapply takes_step; [exact Ht|left|..].
  - intros j ->%list_elem_of_singleton. simpl. destruct Hmine as [Ha Hk Hty Hid _ _ _ _]. rewrite HK, Hty, Hid.
    split; [|done]. exists row. apply lookup_singleton_eq.
  - intros v x Hv. by apply not_elem_of_nil in Hv.
Qed.

Lemma rejected_committable row row' i cs d : well_asked → sound d → own_fresh (rejected_writes i row' cs) d →
  recorded_as row i d → k_status row' = StatusRejected → k_attempt row' = k_attempt row → same_identity row row' →
  committable (rejected_writes i row' cs) d.
Proof.
  intros [Hne Hen] Hs Hf [Ht Hmine] Hst Hatt Hsame. pose proof (mine_key i d Hmine) as HK.
  assert (Hfresh : i_id i ∉ i_id <$> db_intents d) by (apply (Hf (void_row t i)); by left).
  split.
  - unfold rejected_writes. rewrite overlay_writing.
    + apply (extended_sound row); [done|done|done|apply Hmine|done|by rewrite Hst|done|].
      by intros _ x _ (_ & ? & _).
    + by apply (void_one_fresh (i_id i, t, t)).
  - intros key r. simpl. intros [<- <-]%lookup_singleton_Some. eapply takes_step; [exact Ht|by right|done|done].
  - intros j ->%list_elem_of_singleton. simpl. destruct Hmine as [Ha Hk Hty Hid _ _ _ _]. rewrite HK, Hty, Hid.
    split; [|done]. exists row'. apply lookup_singleton_eq.
  - intros v x ->%list_elem_of_singleton Hx Hid. simpl in Hid. destruct Hfresh. rewrite <- Hid. by apply list_elem_of_fmap_2.
Qed.

Lemma judged_promised row i o p d result lockWait record :
  well_asked → sound d → own_fresh p d → judged row i o p d → k_status row = StatusPending →
  Record_of result = Some record → AttemptCount record = k_attempt row →
  promised window strict (Claimed req (with_outcome lockWait (i_id i) result o),
    negb (bool_decide (o_Verdict o = VerdictSerialize))) p d.
Proof.
  intros Hw Hs Hf [Hrec Hv] Hst Hr Ha Hc. simpl in Hc. apply negb_true_iff, bool_decide_eq_false in Hc.
  destruct (o_Verdict o) eqn:Ho; try by destruct Hc.
  - destruct Hv as [[cs ->] Hset]. split; [by apply (claimed_committable row i)|]. exists row.
    split_and!; [done|by apply (takes_next row); [apply Hrec|]|]. simpl. rewrite Ho. split; [done|]. exists record.
    by rewrite decide_False.
  - destruct Hv as (row' & cs & -> & Hst' & Hatt & Hsame). split; [by apply (rejected_committable row)|].
    exists row'. split_and!; [done|by apply (takes_next row); [apply Hrec|]|]. simpl. by rewrite Ho.
Qed.

Lemma claiming_rg lockWait d : well_asked → rg t (claiming req lockWait) nothing d (promised window strict).
Proof.
  intros Hw. unfold claiming. apply rg_bind. unfold Tx.claim. apply rg_perform. intros d1 Hr1. split; [done|].
  intros [] after. cbn [sql_stmt effect]. unfold lockResourceStmt. intros [= <-]. change (mkPending (Some _) _ _ _ _) with holding.
  apply rg_bind. eapply rg_mono; [|apply claimKey_rg]. intros [result fresh] p d2 Hk. unfold claimed_key in Hk. cbn [fst snd] in Hk.
  destruct fresh; cbv zeta; cbn [negb]; cbv iota; [|by intros d3 _ d4 _].
  destruct Hk as (row & record & -> & Ht & Hst & Hv & Hrec & Ha).
  apply rg_bind. eapply rg_mono; [|by apply recordIntent_rg]. intros [id e] p d3 (i & -> & Hrow & [= -> ->]).
  apply rg_bind. eapply rg_mono; [|apply (resolveConflicts_rg row i); [|done]].
  2: { intros Hstrict. by apply Hw. }
  intros o p d4 Hj d5 Hr5 d6 Hr6. pose proof (rely_trans _ _ _ _ _ _ Hr5 Hr6) as Hr.
  destruct (decide (o_Verdict o = VerdictSerialize)) as [Hser|Hser].
  { intros Hc. simpl in Hc. by rewrite bool_decide_eq_true_2 in Hc. }
  assert (Hp : ∃ row' ints cs vs, p = writing row' ints cs vs).
  { destruct Hj as [_ Hj]. destruct (o_Verdict o); try done.
    - destruct Hj as [[cs ->] _]. by eexists _, _, _, _.
    - destruct Hj as (row' & cs & -> & _). by eexists _, _, _, _. }
  destruct Hp as (row' & ints & cs & vs & ->).
  eapply judged_promised; [done|apply Hr|apply Hr|exact (judged_stable row i o row' ints cs vs _ _ Hr Hj)|done|done|done].
Qed.
End Claiming.

(** ** The completion *)

Section Completing.
Context `{!Pg} (window : string → Z) (strict : Prop) (t : Z) (agent k : string) (status : Status).
Implicit Types (p : pending) (d : DB) (i : intent_row).

Abbreviation key := (agent, k).
Abbreviation sound := (sound window strict).

Definition ending (row : key_row) (vs : list (string * Z * Z)) : pending := mkPending None {[key := row]} [] [] vs.

(** The row the completion has written ends a pending one. *)
Definition ends (row : key_row) d : Prop :=
  ∃ r, db_keys d !! key = Some r ∧ k_status r = StatusPending ∧ k_status row = status ∧
    k_attempt row = k_attempt r ∧ k_claimed row = k_claimed r ∧ same_identity r row.

(** The voids are of the key's live intent if the write failed, and none otherwise. *)
Definition voids_live (vs : list (string * Z * Z)) d : Prop :=
  if decide (status = StatusFailed) then
    ∃ i, vs = [(i_id i, i_emitted i, t)] ∧ i ∈ db_intents d ∧ live_for agent k i
  else vs = [].

Lemma ending_key row vs : is_Some (p_keys (ending row vs) !! key).
Proof. exists row. apply lookup_singleton_eq. Qed.

Lemma ends_stable row row' vs : stable window strict (ending row' vs) (ends row).
Proof.
  intros d d' Hr. destruct (rl_keys _ _ _ _ _ Hr key (ending_key row' vs)) as [He _]. unfold ends. by rewrite He.
Qed.

Lemma voids_stable row vs vs' : stable window strict (ending row vs) (voids_live vs').
Proof.
  intros d d' Hr. destruct (rl_keys _ _ _ _ _ Hr key (ending_key row vs)) as [_ Hi]. unfold voids_live.
  case_decide; [|done]. intros (i & -> & Hin & Hl). exists i. split_and!; [done| |done].
  assert (i ∈ intents_of key d') as Hin'; [|by apply list_elem_of_filter in Hin' as [_ ?]].
  rewrite Hi. apply list_elem_of_filter. split; [|done]. by destruct Hl as (? & ? & _).
Qed.

Lemma excluded_ended row d : excluded window d → ends row d → excluded window (set_keys <[key := row]> d).
Proof.
  intros Hx (r & Hr & Hp & _). split; [apply Hx|]. intros n m i j Hnm Hn Hm Hc.
  destruct (ex_pairs _ d Hx n m i j Hnm Hn Hm Hc) as (Ha & r' & Hr' & Hs'). split; [done|].
  exists r'. split; [|done]. simpl. rewrite lookup_insert_ne; [done|].
  intros He. rewrite <- He, Hr in Hr'. injection Hr' as <-. rewrite Hp in Hs'. by destruct Hs'.
Qed.

Lemma excluded_void v d : excluded window d → excluded window (set_intents (void_one v) d).
Proof.
  intros Hx. split; simpl; unfold void_one, void_where.
  - intros i (x & -> & Hin)%list_elem_of_fmap. case_decide; by apply (ex_keys _ d Hx x).
  - intros n m i j Hnm Hn Hm Hc. rewrite list_lookup_fmap in Hn, Hm.
    apply fmap_Some in Hn as (x & Hn & ->), Hm as (y & Hm & ->).
    repeat case_decide; try (by destruct Hc as (? & ? & _)). by eapply (ex_pairs _ d Hx n m).
Qed.

Lemma excluded_same d d' : db_keys d' = db_keys d → db_intents d' = db_intents d → excluded window d → excluded window d'.
Proof.
  intros Hk Hi [Hne Hp]. split; rewrite Hi; [done|]. unfold ordered. by rewrite Hk.
Qed.

Lemma ends_count row d : sound d → ends row d → live_count (db_intents d) key = 1%nat.
Proof. intros Hs (r & Hr & Hp & _). rewrite (so_live _ _ _ Hs). by rewrite Hr, Hp. Qed.

(** The tables after the commit. *)
Lemma ending_sound row vs d : outcome_status status → sound d → ends row d → voids_live vs d →
  sound (overlay (ending row vs) d).
Proof.
  intros Hout Hs He Hv. pose proof (ends_count row d Hs He) as Hone. pose proof He as (r & Hr & Hp & Hst & Hatt & _ & Hid).
  assert (Hkeys : p_keys (ending row vs) ∪ db_keys d = <[key := row]> (db_keys d)) by (simpl; by rewrite insert_union_singleton_l).
  split; cbn [overlay db_next db_keys db_intents]; rewrite ?Hkeys.
  - rewrite fmap_app, void_all_ids. simpl. rewrite app_nil_r. apply Hs.
  - intros key'. simpl. rewrite app_nil_r. pose proof (so_live _ _ _ Hs key') as Hl.
    unfold voids_live in Hv. case_decide as Hf.
    + destruct Hv as (i & -> & Hin & Ha & Hk & Hvi). change (void_all _ _) with (void_where (λ x, i_id x = i_id i ∧ i_emitted x = i_emitted i) t (db_intents d)).
      pose proof (live_count_void t i (db_intents d) key' (proj1 (so_ids _ _ _ Hs)) Hin Hvi) as Hc. rewrite Ha, Hk in Hc.
      destruct (decide (key' = key)) as [->|Hne].
      * rewrite lookup_insert_eq, Hst, Hf. simpl. lia.
      * rewrite lookup_insert_ne by done. rewrite <- Hl. lia.
    + rewrite Hv. simpl. destruct (decide (key' = key)) as [->|Hne].
      * rewrite lookup_insert_eq, Hst, Hone. by destruct Hout as [->|[->| ->]].
      * by rewrite lookup_insert_ne.
  - intros Hstrict. pose proof (excluded_ended row d (so_excluded _ _ _ Hs Hstrict) He) as Hx.
    unfold voids_live in Hv. case_decide as Hf.
    + destruct Hv as (i & -> & _). apply (excluded_void (i_id i, i_emitted i, t)) in Hx.
      eapply excluded_same; [..|exact Hx]; simpl; [exact Hkeys|by rewrite app_nil_r].
    + subst vs. eapply excluded_same; [..|exact Hx]; simpl; [exact Hkeys|by rewrite app_nil_r].
Qed.

Lemma ending_committable row vs d : outcome_status status → sound d → ends row d → voids_live vs d →
  committable window strict (ending row vs) d.
Proof.
  intros Hout Hs He Hv. split.
  - by apply ending_sound.
  - intros key' r'. simpl. intros [<- <-]%lookup_singleton_Some. destruct He as (r & -> & Hp & Hst & Hatt & _ & Hid).
    apply row_ended; [done|by rewrite Hst|done|done].
  - intros i Hi. by apply not_elem_of_nil in Hi.
  - intros v i Hin Hi Hid. unfold voids_live in Hv. case_decide; [|subst vs; by apply not_elem_of_nil in Hin].
    destruct Hv as (j & -> & Hj & Ha & Hk & _). apply list_elem_of_singleton in Hin as ->. simpl in Hid.
    assert (i = j) as ->; [|rewrite Ha, Hk; apply ending_key].
    apply list_elem_of_lookup in Hi as [n Hn], Hj as [m Hm].
    assert (n = m) as ->; [|congruence]. pose proof (proj1 (so_ids _ _ _ Hs)) as Hnd.
    eapply (NoDup_lookup _ n m); [exact Hnd|rewrite list_lookup_fmap, Hn; done|rewrite list_lookup_fmap, Hm; simpl; congruence].
Qed.

Lemma completing_rg result ref detail d : outcome_status status →
  rg window strict t (completing agent k status result ref detail) nothing d (promised window strict).
Proof.
  intros Hout. unfold completing. apply rg_bind. unfold Tx.complete. apply rg_perform. intros d1 Hr1. split; [by left|].
  intros affected after. cbn [sql_stmt effect]. unfold completeKey.
  destruct (match nullable result with None => _ | Some _ => _ end) as [stored|]; [|done].
  assert (Hview : db_keys (view t nothing d1) = db_keys d1) by apply map_empty_union. rewrite Hview.
  destruct (db_keys d1 !! key) as [r|] eqn:Er; [|intros [= <- <-]; by intros d2 _ d3 _].
  case_decide as Hp; [|intros [= <- <-]; by intros d2 _ d3 _]. case_decide; [done|]. intros [= <- <-].
  set (row := mkKey _ _ _ _ _ _ _ _ _ _ _ _).
  assert (Hw : write_key key (set_keys <[key := row]> (view t nothing d1)) nothing = ending row []).
  { unfold write_key. simpl. rewrite lookup_insert_eq. unfold ending. by rewrite insert_empty. }
  cbn [Z.eqb Pos.eqb negb]. rewrite Hw.
  assert (Hends : ends row d1) by (exists r; by split_and!).
  assert (Hend : ∀ vs e, voids_live vs e → ends row e →
    rg window strict t (mret (true, true)) (ending row vs) e (λ x p' d',
      rg window strict t (Ret (Completed agent k status, x.2)) p' d' (promised window strict))).
  { intros vs e Hv He e1 Hre1 e2 Hre2 _. pose proof (rely_trans _ _ _ _ _ _ Hre1 Hre2) as Hre. split.
    - apply ending_committable; [done|apply Hre|by eapply ends_stable|by eapply voids_stable].
    - pose proof (ends_stable _ _ _ _ _ Hre He) as (r2 & Hr2 & ? & ? & ? & ? & _). exists row, r2. by split_and!. }
  case_decide as Hf.
  - apply rg_perform. intros d2 Hr2. split; [done|]. intros [] after. cbn [sql_stmt effect]. unfold voidLatestIntent.
    pose proof (ends_stable _ _ _ _ _ Hr2 Hends) as Hends2.
    assert (Hints : db_intents (view t (ending row []) d2) = db_intents d2) by apply app_nil_r. rewrite Hints.
    destruct (head _) as [latest|] eqn:Hh.
    + apply latest_live in Hh as [Hin Hl]. intros [= <-]. apply Hend; [|exact Hends2].
      unfold voids_live. rewrite decide_True by done. by exists latest.
    + apply latest_none in Hh. rewrite (ends_count row d2) in Hh; [done|apply Hr2|done].
  - apply Hend; [|exact Hends]. unfold voids_live. by rewrite decide_False.
Qed.
End Completing.
