(* ===== verification/InterleaveProps.v ===== *)
(** * InterleaveProps: the claim protocol, transactions running concurrently

    The invariant of the server of Interleave.v, by the rely-guarantee proofs of
    InterleaveInv.v, and the theorems: conflicting writes exclude each other, an attempt is
    admitted once, and the locks cannot deadlock. *)

From S2P Require Import Prelude GoString Sha256 Manifest Conflict World Json Claim ClaimSpec ClaimInv ClaimSafety.
From S2P Require Import ClaimProps Interleave InterleaveInv.

(** ** Lists of transactions *)

Lemma lookup_delete_other {A} (l : list A) n i x : delete n l !! i = Some x →
  ∃ j, j ≠ n ∧ l !! j = Some x ∧ j = if decide (i < n)%nat then i else S i.
Proof.
  intros Hi. case_decide as Hlt.
  - rewrite list_lookup_delete_lt in Hi by done. exists i. split_and!; [lia|done..].
  - rewrite list_lookup_delete_ge in Hi by lia. exists (S i). split_and!; [lia|done..].
Qed.

Lemma elem_of_delete_other {A} (l : list A) n m x : l !! m = Some x → m ≠ n → x ∈ delete n l.
Proof.
  intros Hm Hne. destruct (decide (m < n)%nat).
  - apply list_elem_of_lookup. exists m. by rewrite list_lookup_delete_lt.
  - apply list_elem_of_lookup. exists (m - 1)%nat. rewrite list_lookup_delete_ge by lia.
    by replace (S (m - 1)) with m by lia.
Qed.

Section Invariant.
Context `{!Pg} (window : string → Z) (strict : Prop).
Implicit Types (s : server) (th : thread) (p : pending) (d : DB).

Definition pending_ids (l : list thread) : list string := l ≫= λ th, i_id <$> p_intents (t_pending th).

(** Two transactions hold different locks. *)
Definition apart p p' : Prop :=
  (∀ r, p_lock p = Some r → p_lock p' ≠ Some r) ∧ p_keys p ##ₘ p_keys p'.

Lemma apart_sym p p' : apart p p' → apart p' p.
Proof. intros [Hl Hk]. split; [|by symmetry]. intros r Hr Hr'. by apply (Hl r). Qed.

(** The attempts that have been admitted, by key. *)
Definition admitted (r : report) : option ((string * string) * Z) :=
  match r with
  | Claimed req res =>
      match Verdict_ res, Record_of res with
      | VerdictClaimed, Some record => Some (req_key req, AttemptCount record)
      | _, _ => None
      end
  | Completed _ _ _ => None
  end.

Record server_ok s : Prop := {
  ok_sound : sound window strict (s_db s);
  ok_ids : ids_below (db_next (s_db s)) ((i_id <$> db_intents (s_db s)) ++ pending_ids (s_threads s));
  ok_apart n m th th' : n ≠ m → s_threads s !! n = Some th → s_threads s !! m = Some th' →
    apart (t_pending th) (t_pending th');
  ok_rg th : th ∈ s_threads s →
    rg window strict (t_now th) (t_prog th) (t_pending th) (s_db s) (promised window strict);
  ok_once : NoDup (omap admitted (s_log s));
  ok_admitted key a : (key, a) ∈ omap admitted (s_log s) →
    ∃ r, db_keys (s_db s) !! key = Some r ∧ a <= k_attempt r;
}.

(** ** What one statement changes *)

Lemma effect_ids {X} (q : sql X) t p d x after : sql_stmt q (view t p d) = inr (x, after) →
  let p' := effect q (view t p d) after p x in
  (db_next d <= db_next after)%nat ∧
  ((i_id <$> p_intents p') = (i_id <$> p_intents p) ∨
   (i_id <$> p_intents p') = (i_id <$> p_intents p) ++ [uuidv7 (db_next d)] ∧ (db_next d < db_next after)%nat).
Proof.
  assert (Hvoid : ∀ v, (i_id <$> p_intents (write_void v p)) = (i_id <$> p_intents p)) by (intros v; apply void_one_ids).
  assert (Hkey : ∀ key v, p_intents (write_key key v p) = p_intents p).
  { intros key v. unfold write_key. by destruct (_ !! _). }
  destruct q; cbn [sql_stmt effect].
  - intros [= <- <-]. by split; [|left].
  - unfold insertKey. destruct (db_keys _ !! _); intros [= <- <-]; rewrite ?Hkey; by split; [|left].
  - intros [= <- <-]. by split; [|left].
  - unfold reclaimKey. destruct (db_keys _ !! _); repeat case_decide; try done; intros [= <- <-]; rewrite ?Hkey; by split; [|left].
  - unfold insertIntent. case_decide; [|done]. destruct (jsonb_in _); [|done]. intros [= <- <-]. simpl. rewrite last_row_snoc, fmap_app.
    split; [lia|]. right. split; [done|lia].
  - intros [= <- <-]. by split; [|left].
  - intros [= <- <-]. by split; [|left].
  - intros [= <- <-]. simpl. split; [lia|by left].
  - unfold rejectKey. destruct (jsonb_in _); [|done]. destruct (db_keys _ !! _); repeat case_decide; try done; intros [= <- <-]; rewrite ?Hkey; by split; [|left].
  - intros [= <- <-]. simpl. split; [done|left]. apply Hvoid.
  - unfold completeKey. destruct (match result with None => _ | Some _ => _ end); [|done].
    destruct (db_keys _ !! _); repeat case_decide; try done; intros [= <- <-]; cbn [Z.eqb Pos.eqb]; rewrite ?Hkey; by split; [|left].
  - unfold voidLatestIntent. destruct (head _); intros [= <- <-]; simpl; (split; [done|left]); [apply Hvoid|done].
Qed.

(** A lock a statement takes was free. *)
Lemma effect_locks {X} (q : sql X) t p d x after other : sql_stmt q (view t p d) = inr (x, after) →
  waits_for q d other = false → apart p other → apart (effect q (view t p d) after p x) other.
Proof.
  intros Hs Hw Hap. pose proof Hap as [Hl Hk].
  assert (Hkey : ∀ key v, p_keys other !! key = None ∨ is_Some (p_keys p !! key) → apart (write_key key v p) other).
  { intros key v Hor. unfold write_key. destruct (db_keys v !! key) as [r|]; [|done]. split; [done|]. simpl.
    apply map_disjoint_insert_l. split; [|done]. destruct Hor as [|[r' Hr']]; [done|]. by eapply map_disjoint_Some_l. }
  assert (Hview : ∀ key r, db_keys (view t p d) !! key = Some r → bool_decide (is_Some (db_keys d !! key)) && locks_key key other = false →
    p_keys other !! key = None ∨ is_Some (p_keys p !! key)).
  { intros key r Hr Hno. simpl in Hr. apply lookup_union_Some_raw in Hr as [Hr|[_ Hr]]; [by right; exists r|left].
    rewrite bool_decide_eq_true_2, andb_true_l in Hno by (by exists r). unfold locks_key in Hno.
    apply bool_decide_eq_false in Hno. by apply eq_None_not_Some. }
  revert Hs Hw. destruct q; cbn [sql_stmt effect waits_for].
  - intros _ Hw%bool_decide_eq_false. split; [|done]. by intros r [= <-].
  - unfold insertKey. destruct (db_keys (view t p d) !! _) eqn:E; intros [= <- <-]; [done|]. intros Hw. apply Hkey. left.
    simpl in E. apply lookup_union_None in E as [_ E]. rewrite bool_decide_eq_true_2, andb_true_l in Hw by done.
    unfold locks_key in Hw. apply bool_decide_eq_false in Hw. by apply eq_None_not_Some.
  - done.
  - unfold reclaimKey. destruct (db_keys (view t p d) !! _) eqn:E; [|by intros [= <- <-]].
    repeat case_decide; try done; intros [= <- <-]; [|done]. intros Hw. apply Hkey. by eapply Hview.
  - done.
  - done.
  - done.
  - done.
  - unfold rejectKey. destruct (jsonb_in _); [|done]. destruct (db_keys (view t p d) !! _) eqn:E; [|by intros [= <- <-]].
    case_decide; [|done]. intros [= <- <-] Hw. apply Hkey. by eapply Hview.
  - done.
  - unfold completeKey. destruct (match result with None => _ | Some _ => _ end); [|done].
    destruct (db_keys (view t p d) !! _) eqn:E; [|by intros [= <- <-]].
    repeat case_decide; try done; intros [= <- <-]; [|done]. intros Hw. apply Hkey. by eapply Hview.
  - destruct (head _); done.
Qed.

(** ** The identifiers of the open transactions *)

Lemma pending_ids_take l n th : l !! n = Some th →
  pending_ids l ≡ₚ (i_id <$> p_intents (t_pending th)) ++ pending_ids (delete n l).
Proof.
  intros Hn. unfold pending_ids. rewrite (delete_Permutation l n th Hn) at 1. done.
Qed.

Lemma delete_none {A} (l : list A) n : l !! n = None → delete n l = l.
Proof. revert n. induction l as [|y l IH]; intros [|n] Hn; simpl in *; [done..|]. f_equal. by apply IH. Qed.

Lemma delete_put {A} (l : list A) n x : delete n (<[n := x]> l) = delete n l.
Proof. revert n. induction l as [|y l IH]; intros [|n]; simpl; [done..|]. f_equal. apply IH. Qed.

Lemma pending_ids_put l n th th' : l !! n = Some th →
  pending_ids (<[n := th']> l) ≡ₚ (i_id <$> p_intents (t_pending th')) ++ pending_ids (delete n l).
Proof.
  intros Hn%lookup_lt_Some. rewrite (pending_ids_take _ n th'); [by rewrite delete_put|].
  by apply list_lookup_insert_eq.
Qed.

Lemma ids_below_perm n l l' : l ≡ₚ l' → ids_below n l → ids_below n l'.
Proof. intros Hp [Hd Hb]. split; [by rewrite <- Hp|]. intros x Hx. apply Hb. by rewrite Hp. Qed.

Lemma ids_below_drop n l1 l2 l3 : ids_below n (l1 ++ l2 ++ l3) → ids_below n (l1 ++ l3).
Proof.
  intros [Hd Hb]. rewrite (Permutation_app_swap_app l1 l2 l3) in Hd. apply NoDup_app in Hd as (_ & _ & Hd).
  split; [done|]. intros x Hx. apply Hb. set_solver.
Qed.

Lemma ok_ids_at s n th : server_ok s → s_threads s !! n = Some th →
  ids_below (db_next (s_db s)) ((i_id <$> db_intents (s_db s)) ++ (i_id <$> p_intents (t_pending th)) ++
    pending_ids (delete n (s_threads s))).
Proof. intros Hok Hn. eapply ids_below_perm; [|apply (ok_ids s Hok)]. by rewrite <- pending_ids_take. Qed.

Lemma ok_fresh s th : server_ok s → th ∈ s_threads s → own_fresh (t_pending th) (s_db s).
Proof.
  intros Hok [n Hn]%list_elem_of_lookup i Hi Hin. destruct (ok_ids_at s n th Hok Hn) as [Hd _].
  apply NoDup_app in Hd as (_ & Hd & _). apply (Hd _ Hin). apply elem_of_app. left. by apply list_elem_of_fmap_2.
Qed.

Lemma ok_foreign s n th th' i j : server_ok s → s_threads s !! n = Some th → th' ∈ delete n (s_threads s) →
  i ∈ p_intents (t_pending th) → j ∈ p_intents (t_pending th') → i_id i ≠ i_id j.
Proof.
  intros Hok Hn Hth' Hi Hj He. destruct (ok_ids_at s n th Hok Hn) as [Hd _].
  apply NoDup_app in Hd as (_ & _ & Hd). apply NoDup_app in Hd as (_ & Hd & _).
  apply (Hd (i_id i)); [by apply list_elem_of_fmap_2|]. rewrite He. apply list_elem_of_bind. exists th'.
  split; [by apply list_elem_of_fmap_2|done].
Qed.

Lemma ok_apart_at s n th th' : server_ok s → s_threads s !! n = Some th → th' ∈ delete n (s_threads s) →
  apart (t_pending th) (t_pending th').
Proof.
  intros Hok Hn [i (j & Hj & Hth' & _)%lookup_delete_other]%list_elem_of_lookup. by apply (ok_apart s Hok n j).
Qed.

(** ** The steps keep the invariant *)

Lemma begin_ok s prog : server_ok s →
  rg window strict (db_now (s_db s)) prog nothing (s_db s) (promised window strict) →
  server_ok (mkServer (s_db s) (s_threads s ++ [mkThread (db_now (s_db s)) prog nothing]) (s_log s)).
Proof.
  intros Hok Hrg. assert (Hap : ∀ p, apart nothing p) by (intros p; split; [done|apply map_disjoint_empty_l]).
  destruct Hok as [Hs Hi Ha Hr Ho Hl]. split; cbn [s_db s_threads s_log]; [done| | | |done|done].
  - unfold pending_ids. rewrite bind_app. simpl. by rewrite app_nil_r.
  - intros n m th th' Hnm [[_ Hn]|[-> <-]]%lookup_snoc_Some [[_ Hm]|[-> <-]]%lookup_snoc_Some;
      [by apply (Ha n m)|apply apart_sym, Hap|apply Hap|apply Hap].
  - intros th [Hth| ->%list_elem_of_singleton]%elem_of_app; [by apply Hr|done].
Qed.

Lemma drop_ok s n : server_ok s → server_ok (mkServer (s_db s) (delete n (s_threads s)) (s_log s)).
Proof.
  intros Hok. destruct (s_threads s !! n) as [th|] eqn:Hn.
  2: { rewrite (delete_none _ _ Hn). by destruct s. }
  pose proof (ok_ids_at s n th Hok Hn) as Hi. destruct Hok as [Hs _ Ha Hr Ho Hl].
  split; cbn [s_db s_threads s_log]; [done| | | |done|done].
  - by eapply ids_below_drop.
  - intros i j th1 th2 Hij (i' & Hi' & H1 & Ei)%lookup_delete_other (j' & Hj' & H2 & Ej)%lookup_delete_other.
    apply (Ha i' j'); [|done..]. repeat case_decide; lia.
  - intros th1 [i (j & _ & Hj & _)%lookup_delete_other]%list_elem_of_lookup. apply Hr. by eapply list_elem_of_lookup_2.
Qed.

Lemma clock_ok s t : server_ok s → server_ok (mkServer (set_now t (s_db s)) (s_threads s) (s_log s)).
Proof.
  intros Hok. pose proof Hok as [Hs Hi Ha Hr Ho Hl]. split; cbn [s_db s_threads s_log]; [by apply sound_now|done|done| |done|done].
  intros th Hth. eapply rg_rely; [|by apply Hr]. pose proof (ok_fresh s th Hok Hth) as Hf.
  split; [by apply sound_now|done|done|done|done|done].
Qed.

Lemma statement_ok s n th {X} context (q : sql X) k x after :
  server_ok s → s_threads s !! n = Some th → t_prog th = Exec context q k →
  existsb (waits_for q (s_db s)) (others n (s_threads s)) = false →
  sql_stmt q (view (t_now th) (t_pending th) (s_db s)) = inr (x, after) →
  server_ok (mkServer (set_next (db_next after) (s_db s))
    (<[n := mkThread (t_now th) (k x) (effect q (view (t_now th) (t_pending th) (s_db s)) after (t_pending th) x)]>
       (s_threads s)) (s_log s)).
Proof.
  intros Hok Hn Hp Hw Hstmt. pose proof (ok_ids_at s n th Hok Hn) as Hi. pose proof Hok as [Hs _ Ha Hr Ho Hl].
  destruct (effect_ids q _ _ _ x after Hstmt) as [Hnext Hids].
  assert (Hlt : (n < length (s_threads s))%nat) by (by eapply lookup_lt_Some).
  assert (Hth : th ∈ s_threads s) by (by eapply list_elem_of_lookup_2).
  set (p' := effect _ _ _ _ _) in *. set (th' := mkThread _ _ _).
  assert (Hfree : ∀ m thm, m ≠ n → s_threads s !! m = Some thm → apart p' (t_pending thm)).
  { intros m thm Hm Hthm. eapply effect_locks; [exact Hstmt| |by apply (Ha n m)].
    apply not_true_iff_false. intros Hwm. apply not_true_iff_false in Hw. apply Hw, existsb_exists.
    exists (t_pending thm). split; [|done]. apply list_elem_of_In, list_elem_of_fmap_2. by eapply elem_of_delete_other. }
  split; cbn [s_db s_threads s_log].
  - by apply sound_next.
  - eapply ids_below_perm; [by rewrite (pending_ids_put _ n th th') by done|].
    cbn [db_next db_intents set_next]. destruct Hids as [He|[He Hlt']]; unfold th'; cbn [t_pending]; rewrite He.
    + by eapply ids_below_mono.
    + eapply ids_below_perm; [|eapply ids_below_mono; [|apply (ids_below_snoc _ _ Hi)]; lia].
      rewrite <- !(assoc_L (++)). do 2 f_equiv. apply Permutation_app_comm.
  - intros i j th1 th2 Hij H1 H2. destruct (decide (i = n)) as [->|Hin], (decide (j = n)) as [->|Hjn]; [done|..].
    + rewrite list_lookup_insert_eq in H1 by done. injection H1 as <-. rewrite list_lookup_insert_ne in H2 by done.
      by apply (Hfree j).
    + rewrite list_lookup_insert_eq in H2 by done. injection H2 as <-. rewrite list_lookup_insert_ne in H1 by done.
      apply apart_sym. by apply (Hfree i).
    + rewrite list_lookup_insert_ne in H1, H2 by done. by apply (Ha i j).
  - intros th1 [i H1]%list_elem_of_lookup. destruct (decide (i = n)) as [->|Hin].
    + rewrite list_lookup_insert_eq in H1 by done. injection H1 as <-. unfold th'. cbn [t_now t_prog t_pending].
      pose proof (Hr th Hth) as Hrg. rewrite Hp in Hrg.
      destruct (Hrg (s_db s)) as [_ Hk]; [apply rely_refl; [done|by apply ok_fresh]|]. by apply Hk.
    + rewrite list_lookup_insert_ne in H1 by done. assert (H1' : th1 ∈ s_threads s) by (by eapply list_elem_of_lookup_2).
      eapply rg_rely; [|by apply Hr]. apply rely_next; [done|by apply ok_fresh|done].
  - done.
  - done.
Qed.

Lemma row_step_attempt r o : row_step (Some r) o → ∃ r', o = Some r' ∧ k_attempt r <= k_attempt r'.
Proof. inversion 1; subst; eexists; (split; [done|lia]). Qed.

(** A transaction that asks for its commit may have it. *)
Lemma ok_promise s n th r : server_ok s → s_threads s !! n = Some th → t_prog th = Ret (r, true) →
  committable window strict (t_pending th) (s_db s) ∧ reported_row r (t_pending th) (s_db s).
Proof.
  intros Hok Hn Hp. assert (Hth : th ∈ s_threads s) by (by eapply list_elem_of_lookup_2).
  pose proof (ok_rg _ Hok th Hth) as Hpr. rewrite Hp in Hpr.
  exact (Hpr (s_db s) (rely_refl _ _ _ _ (ok_sound s Hok) (ok_fresh s th Hok Hth)) eq_refl).
Qed.

Lemma commit_ok s n th r :
  server_ok s → s_threads s !! n = Some th → t_prog th = Ret (r, true) →
  server_ok (mkServer (overlay (t_pending th) (s_db s)) (delete n (s_threads s)) (s_log s ++ [r])).
Proof.
  intros Hok Hn Hp. destruct (ok_promise s n th r Hok Hn Hp) as [Hcm Hnext].
  pose proof (ok_ids_at s n th Hok Hn) as Hi. pose proof (drop_ok s n Hok) as [_ _ Ha Hr _ _]. pose proof Hok as [_ _ _ _ Ho Hl].
  assert (Hgrow : ∀ key r0, db_keys (s_db s) !! key = Some r0 → ∃ r1,
    db_keys (overlay (t_pending th) (s_db s)) !! key = Some r1 ∧ k_attempt r0 <= k_attempt r1).
  { intros key r0 Hr0. simpl. destruct (p_keys (t_pending th) !! key) as [r1|] eqn:E.
    - rewrite (lookup_union_Some_l _ _ _ r1) by done. exists r1. split; [done|].
      pose proof (cm_keys _ _ _ _ Hcm key r1 E) as Hst. rewrite Hr0 in Hst.
      by apply row_step_attempt in Hst as (? & [= <-] & ?).
    - rewrite lookup_union_r by done. by exists r0. }
  split; cbn [s_db s_threads s_log].
  - apply Hcm.
  - cbn [overlay db_next db_intents]. by rewrite fmap_app, void_all_ids, <- (assoc_L (++)).
  - exact Ha.
  - intros th1 H1. eapply rg_rely; [|by apply Hr]. destruct (ok_apart_at s n th th1 Hok Hn H1) as [Hlock Hkeys].
    apply committable_rely; [done| |done|done|].
    + apply (ok_fresh s); [done|]. apply list_elem_of_lookup in H1 as (i & (j & _ & Hj & _)%lookup_delete_other). by eapply list_elem_of_lookup_2.
    + intros i j. by apply (ok_foreign s n th th1).
  - rewrite omap_app. apply NoDup_app. split_and!; [done| |].
    + intros [key a] Hin Hnew. apply (Hl key a) in Hin as (r0 & Hr0 & Hle). unfold admitted in Hnew. simpl in Hnew.
      destruct r as [req res|]; [|by apply not_elem_of_nil in Hnew].
      destruct (Verdict_ res) eqn:Hv; try (by apply not_elem_of_nil in Hnew).
      destruct Hnext as (row & _ & Hor & Hcase). rewrite Hv in Hcase. destruct Hcase as (_ & record & Hrec & Hatt). rewrite Hrec in Hnew.
      apply list_elem_of_singleton in Hnew as [= -> ->]. destruct Hor as [Hno|(r1 & Hr1 & _ & Hatt1)]; [congruence|].
      rewrite Hr0 in Hr1. injection Hr1 as <-. lia.
    + simpl. destruct (admitted r); [apply NoDup_singleton|apply NoDup_nil_2].
  - intros key a. rewrite omap_app. intros [Hin|Hnew]%elem_of_app.
    + apply Hl in Hin as (r0 & Hr0 & Hle). destruct (Hgrow key r0 Hr0) as (r1 & Hr1 & Hle1). exists r1. split; [done|lia].
    + unfold admitted in Hnew. simpl in Hnew. destruct r as [req res|]; [|by apply not_elem_of_nil in Hnew].
      destruct (Verdict_ res) eqn:Hv; try (by apply not_elem_of_nil in Hnew).
      destruct Hnext as (row & Hkeys & _ & Hcase). rewrite Hv in Hcase. destruct Hcase as (_ & record & Hrec & Hatt). rewrite Hrec in Hnew.
      apply list_elem_of_singleton in Hnew as [= -> ->]. exists row. simpl. rewrite Hkeys.
      rewrite (lookup_union_Some_l _ _ _ row) by apply lookup_singleton_eq. split; [done|lia].
Qed.

Lemma server_invariant s : serves (well_asked window strict) s → server_ok s.
Proof.
  induction 1 as [|s s' _ Hok Hst].
  { split; cbn [s_db s_threads s_log]; [apply empty_sound|split; [apply NoDup_nil_2|by intros ? ?%not_elem_of_nil]|done
      |by intros ? ?%not_elem_of_nil|apply NoDup_nil_2|by intros ? ? ?%not_elem_of_nil]. }
  destruct Hst as [t|req lockWait Hreq|agent k status result ref detail Hout|n th s' Hn Hadv|n].
  - by apply clock_ok.
  - apply begin_ok; [done|]. by apply claiming_rg.
  - apply begin_ok; [done|]. by apply completing_rg.
  - unfold advances in Hadv. destruct (t_prog th) as [[r []]|e|X context q k] eqn:Hp; subst; [by apply commit_ok|by apply drop_ok..|].
    destruct Hadv as (Hw & x & after & Hstmt & ->). by eapply statement_ok.
  - by apply drop_ok.
Qed.
End Invariant.

Lemma serves_mono `{!Pg} (P Q : Request → Prop) s : (∀ req, P req → Q req) → serves P s → serves Q s.
Proof.
  intros HPQ. induction 1 as [|s s' _ IH Hst]; [constructor|]. apply (serves_step _ s); [done|].
  destruct Hst; [constructor|constructor; auto|by constructor|by eapply st_advance|constructor].
Qed.

(** ** A server left to itself *)

Section Draining.
Context `{!Pg}.

Definition blocked (n : nat) (s : server) (th : thread) : bool :=
  match t_prog th with
  | Exec _ q _ => existsb (waits_for q (s_db s)) (others n (s_threads s))
  | _ => false
  end.

Definition errs (s : server) (th : thread) : Prop :=
  match t_prog th with
  | Exec _ q _ => ∃ e, sql_stmt q (view (t_now th) (t_pending th) (s_db s)) = inl e
  | _ => False
  end.

(** A transaction that is not blocked takes its next step, and is rolled back if the
    statement fails. *)
Definition turn (s s' : server) : Prop :=
  ∃ n th, s_threads s !! n = Some th ∧ blocked n s th = false ∧
    (advances n th s s' ∨ errs s th ∧ s' = mkServer (s_db s) (delete n (s_threads s)) (s_log s)).

Lemma turn_step allowed s s' : turn s s' → server_step allowed s s'.
Proof. intros (n & th & Hn & _ & [Ha|[_ ->]]); [by eapply st_advance|constructor]. Qed.

Lemma turn_possible s n th : s_threads s !! n = Some th → blocked n s th = false → ∃ s', turn s s'.
Proof.
  intros Hn Hb. destruct (t_prog th) as [[r []]|e|X context q k] eqn:Hp.
  4: destruct (sql_stmt q (view (t_now th) (t_pending th) (s_db s))) as [e|[x after]] eqn:Hs.
  4: { eexists. exists n, th. split_and!; [done|done|right]. unfold errs. rewrite Hp. by eauto. }
  all: eexists; exists n, th; (split_and!; [done|done|left]); unfold advances; rewrite Hp; try done.
  unfold blocked in Hb. rewrite Hp in Hb. split; [done|]. by eexists _, _.
Qed.

(** What a thread waits for while it holds a row or the lock of a resource. *)
Lemma rows_run window strict s n th key row : server_ok window strict s → s_threads s !! n = Some th →
  p_keys (t_pending th) !! key = Some row → blocked n s th = false.
Proof.
  intros Hok Hn Hkey. unfold blocked. destruct (t_prog th) as [?|?|X context q k] eqn:Hp; [done..|].
  assert (Hth : th ∈ s_threads s) by (by eapply list_elem_of_lookup_2).
  pose proof (ok_rg _ _ s Hok th Hth) as Hrg. rewrite Hp in Hrg.
  destruct (Hrg (s_db s)) as [Ho _]; [apply rely_refl; [apply Hok|by eapply ok_fresh]|].
  assert (Hne : p_keys (t_pending th) ≠ ∅) by (intros He; by rewrite He in Hkey).
  apply not_true_iff_false. intros (p & Hin%list_elem_of_In & Hw)%existsb_exists.
  apply list_elem_of_fmap in Hin as (th' & -> & Hin).
  destruct (ok_apart_at _ _ s n th th' Hok Hn Hin) as [_ Hd].
  assert (Hfree : ∀ k', is_Some (p_keys (t_pending th) !! k') → locks_key k' (t_pending th') = false).
  { intros k' [r Hr]. apply bool_decide_eq_false_2. intros [r' Hr']. by eapply map_disjoint_spec. }
  destruct q; cbn [orderly waits_for] in *; try done.
  1: by destruct Ho as [_ ?].
  all: destruct Ho as [?|Ho]; [done|]; by rewrite (Hfree _ Ho), andb_false_r in Hw.
Qed.

Lemma lockless_runs window strict s n th r : server_ok window strict s → s_threads s !! n = Some th →
  (∀ th', th' ∈ s_threads s → p_keys (t_pending th') = ∅) →
  p_lock (t_pending th) = Some r ∨ (∀ th', th' ∈ s_threads s → p_lock (t_pending th') = None) →
  blocked n s th = false.
Proof.
  intros Hok Hn Hempty Hlock. unfold blocked. destruct (t_prog th) as [?|?|X context q k] eqn:Hp; [done..|].
  assert (Hth : th ∈ s_threads s) by (by eapply list_elem_of_lookup_2).
  pose proof (ok_rg _ _ s Hok th Hth) as Hrg. rewrite Hp in Hrg.
  destruct (Hrg (s_db s)) as [Ho _]; [apply rely_refl; [apply Hok|by eapply ok_fresh]|].
  apply not_true_iff_false. intros (p & Hin%list_elem_of_In & Hw)%existsb_exists.
  apply list_elem_of_fmap in Hin as (th' & -> & [i (j & _ & Hj & _)%lookup_delete_other]%list_elem_of_lookup).
  apply list_elem_of_lookup_2 in Hj. assert (Hno : ∀ key, locks_key key (t_pending th') = false).
  { intros key. apply bool_decide_eq_false_2. rewrite (Hempty th' Hj). by intros [? ?]. }
  destruct q; cbn [orderly waits_for] in *; try done.
  1: { apply bool_decide_eq_true in Hw. destruct Hlock as [Hl|Hl]; [|rewrite (Hl th' Hj) in Hw; done].
       destruct Ho. congruence. }
  all: by rewrite Hno, andb_false_r in Hw.
Qed.

Lemma some_runs window strict s : server_ok window strict s → s_threads s ≠ [] →
  ∃ n th, s_threads s !! n = Some th ∧ blocked n s th = false.
Proof.
  intros Hok Hne.
  destruct (decide (Exists (λ th, p_keys (t_pending th) ≠ ∅) (s_threads s))) as [He|Hno%not_Exists_Forall]; [| |apply _].
  { apply Exists_exists in He as (th & [n Hn]%list_elem_of_lookup & (key & row & Hrow)%map_choose).
    exists n, th. split; [done|]. by eapply rows_run. }
  rewrite Forall_forall in Hno.
  assert (Hempty : ∀ th, th ∈ s_threads s → p_keys (t_pending th) = ∅) by (intros th Hth; by apply dec_stable, Hno).
  destruct (decide (Exists (λ th, p_lock (t_pending th) ≠ None) (s_threads s))) as [He|Hnol%not_Exists_Forall]; [| |apply _].
  - apply Exists_exists in He as (th & [n Hn]%list_elem_of_lookup & Hl). exists n, th. split; [done|].
    destruct (p_lock (t_pending th)) as [r|] eqn:Er; [|done]. eapply lockless_runs; [done..|by left].
  - rewrite Forall_forall in Hnol. destruct (s_threads s) as [|th l] eqn:El; [done|]. exists 0%nat, th. split; [done|].
    eapply (lockless_runs _ _ s 0 th 0); [done|by rewrite El|by rewrite El|right]. rewrite El. intros th' Hth'.
    by apply dec_stable, Hnol.
Qed.

(** Each turn uses up a statement. *)
Definition after_one (th' th : thread) : Prop :=
  match t_prog th with Exec _ q k => ∃ x, t_prog th' = k x | _ => False end.

Lemma after_one_wf : well_founded after_one.
Proof.
  intros [t pr p]. revert t p. induction pr as [x|e|X context q k IH]; intros t p; constructor; intros [t' pr' p'] Hlt;
    [done|done|]. destruct Hlt as [x Hx]. simpl in Hx. subst pr'. apply IH.
Qed.

Definition shorter (l' l : list thread) : Prop :=
  ∃ n th, l !! n = Some th ∧ (l' = delete n l ∨ ∃ th', after_one th' th ∧ l' = <[n := th']> l).

Lemma shorter_wf : well_founded shorter.
Proof.
  intros l. induction l as [|th l IHl]; [constructor; by intros l' (n & th & Hn & _)|].
  revert l IHl. induction (after_one_wf th) as [th _ IHth]. intros l IHl. pose proof IHl as Hl.
  induction IHl as [l Hsub IHl]. constructor. intros l' (n & th1 & Hn & Hl'). destruct n as [|n]; simpl in Hn.
  - injection Hn as <-. destruct Hl' as [->|(th' & Hlt & ->)]; simpl; [done|]. by apply IHth.
  - assert (∃ l1, l' = th :: l1 ∧ shorter l1 l) as (l1 & -> & Hs).
    { destruct Hl' as [->|(th' & Hlt & ->)]; simpl; (eexists; split; [done|]); exists n, th1; eauto. }
    by apply IHl; [|apply Hsub].
Qed.

Lemma turn_shorter s s' : turn s s' → shorter (s_threads s') (s_threads s).
Proof.
  intros (n & th & Hn & Hb & Hst). exists n, th. split; [done|]. destruct Hst as [Ha|[_ ->]]; [|by left].
  unfold advances in Ha. destruct (t_prog th) as [[r []]|e|X context q k] eqn:Hp; [subst; by left..|].
  destruct Ha as (_ & x & after & _ & ->). right. eexists. split; [|done]. unfold after_one. rewrite Hp. by exists x.
Qed.

Lemma turns_serve allowed s s' : serves allowed s → rtc turn s s' → serves allowed s'.
Proof. induction 2 as [|s s1 s2 Hst _ IH]; [done|]. apply IH. eapply serves_step; [done|by apply turn_step]. Qed.
End Draining.

(** ** One transaction alone *)

Section Alone.
Context `{!Pg}.
Implicit Types (w : world) (p : pending) (d : DB).

Lemma view_nothing d : view (db_now d) nothing d = d.
Proof.
  destruct d. unfold view, overlay, set_now, void_all. simpl. by rewrite (left_id_L ∅ (∪)), !app_nil_r.
Qed.

Lemma set_next_same d : set_next (db_next d) d = d.
Proof. by destruct d. Qed.

Lemma statement_alone {X} context (q : sql X) k t p d log x after :
  sql_stmt q (view t p d) = inr (x, after) →
  turn (mkServer d [mkThread t (Exec context q k) p] log)
    (mkServer (set_next (db_next after) d) [mkThread t (k x) (effect q (view t p d) after p x)] log).
Proof. intros Hs. exists 0%nat. eexists. split_and!; [done|done|left]. split; [done|]. by exists x, after. Qed.

(** The statements one after the other are a run of the server. *)
Lemma run_alone {A} (f : A → prog (report * bool)) t log (pr : prog A) : ∀ p d w x w',
  w_tx w = Some (view t p d) → interp pr w = (inr x, w') →
  ∃ p' n, w_tx w' = Some (view t p' (set_next n d)) ∧ w_db w' = w_db w ∧
    rtc turn (mkServer d [mkThread t (pr ≫= f) p] log) (mkServer (set_next n d) [mkThread t (f x) p'] log).
Proof.
  induction pr as [x0|e|X context q k IH]; intros p d w x w' Htx.
  - intros [= -> ->]. exists p, (db_next d). by rewrite set_next_same.
  - done.
  - simpl. unfold mbind at 1, St_bind, wrapping, exec.
    destruct (default Fine (head (w_faults w))); [|done..]. rewrite Htx.
    destruct (sql_stmt q (view t p d)) as [e|[y after]] eqn:Hs; [done|]. intros Hi.
    pose proof (effect_view q t p d y after Hs) as Hv.
    destruct (IH y (effect q (view t p d) after p y) (set_next (db_next after) d)
      (set_tx (Some after) (set_faults (tail (w_faults w)) w)) x w' ltac:(rewrite <- Hv; done) Hi)
      as (p' & n & Htx' & Hdb & Hrun).
    exists p', n. split_and!; [done|done|]. eapply rtc_l; [by apply statement_alone|exact Hrun].
Qed.

Lemma end_alone (r : report) (b : bool) t p d log :
  turn (mkServer d [mkThread t (Ret (r, b)) p] log)
    (if b then mkServer (overlay p d) [] (log ++ [r]) else mkServer d [] log).
Proof. exists 0%nat. eexists. split_and!; [done|done|left]. unfold advances. simpl. by destruct b. Qed.

(** A transaction of the sequential model is one of the server: the same tables, but for
    identifiers a rollback has used up. *)
Lemma commit_alone {A} c1 c2 (m : M (A * bool)) (pr : prog (report * bool)) (f : A → report) log w x w' :
  (∀ b w1 w2, w_tx w1 = Some (w_db w) → w_db w1 = w_db w → w_clock w1 = w_clock w → m w1 = (inr (x, b), w2) →
    ∃ p n, w_tx w2 = Some (view (db_now (w_db w)) p (set_next n (w_db w))) ∧ w_db w2 = w_db w ∧
      rtc turn (mkServer (w_db w) [mkThread (db_now (w_db w)) pr nothing] log)
        (mkServer (set_next n (w_db w)) [mkThread (db_now (w_db w)) (Ret (f x, b)) p] log)) →
  with_tx c1 (m ≫= finish c2) w = (inr x, w') →
  ∃ n log', rtc turn (mkServer (w_db w) [mkThread (db_now (w_db w)) pr nothing] log) (mkServer (set_next n (w_db w')) [] log') ∧
    (log' = log ∧ w_db w' = w_db w ∨ log' = log ++ [f x] ∧ n = db_next (w_db w')).
Proof.
  intros Hm. unfold with_tx, finally, mbind, St_bind, wrapping, begin_tx.
  destruct (default Fine (head (w_faults w))); [|done..].
  set (w1 := set_tx _ _). destruct (m w1) as [[e|[y b]] w2] eqn:Hrun; [done|]. unfold finish. simpl.
  destruct b.
  - unfold mbind, St_bind, wrapping, commit.
    destruct (w_tx w2) as [v|] eqn:Htx; [|done]. destruct (default Fine (head (w_faults w2))); [|done..].
    simpl. intros [= -> <-]. destruct (Hm true w1 w2 eq_refl eq_refl eq_refl Hrun) as (p & n & Htx' & Hdb & Hr).
    rewrite Htx in Htx'. injection Htx' as ->. exists n, (log ++ [f x]). split; [|by right].
    eapply rtc_r; [exact Hr|]. simpl. exact (end_alone (f x) true _ p _ log).
  - intros [= -> <-]. destruct (Hm false w1 w2 eq_refl eq_refl eq_refl Hrun) as (p & n & Htx' & Hdb & Hr).
    exists n, log. simpl. rewrite Hdb. split; [|by left]. eapply rtc_r; [exact Hr|]. exact (end_alone (f x) false _ p _ log).
Qed.

(** [pr] alone from the tables of [w], with those of [w'] at the end. *)
Definition ran_alone (pr : prog (report * bool)) (r : report) (log : list report) w w' : Prop :=
  ∃ n log', rtc turn (mkServer (w_db w) [mkThread (db_now (w_db w)) pr nothing] log) (mkServer (set_next n (w_db w')) [] log') ∧
    (log' = log ∧ w_db w' = w_db w ∨ log' = log ++ [r] ∧ n = db_next (w_db w')).

Lemma claim_ran req log w res w' : Claim req w = (inr res, w') → Verdict_ res ≠ VerdictLockTimeout →
  ran_alone (claiming req (w_clock w 1%nat - w_clock w 0%nat)) (Claimed req res) log w w'.
Proof.
  rewrite Claim_split. intros Hc Hv. eapply (commit_alone _ _ _ _ (Claimed req)); [|exact Hc].
  intros b w1 w2 Htx Hdb Hclock. rewrite claim_program. unfold mbind at 1, St_bind.
  assert (Hl : ∀ lw r w0, lockResource req w1 = (inr (lw, r), w0) → lw = w_clock w 1%nat - w_clock w 0%nat ∧ w_db w0 = w_db w ∧
    (r = inr tt → w_tx w0 = Some (w_db w))).
  { intros lw r w0. unfold lockResource, mbind, St_bind, now, try, exec, mret, St_ret. simpl. rewrite Htx, Hclock.
    destruct (default Fine _); intros [= <- <- <-]; by split_and!. }
  destruct (lockResource req w1) as [[e|[lw r]] w0] eqn:E; [done|]. destruct (Hl _ _ _ eq_refl) as (-> & Hdb0 & Htx0).
  destruct r as [e|[]].
  { destruct (lock_not_available e); [|done]. intros [= <- <-]. by destruct Hv. }
  intros Hi. destruct (run_alone (λ xc, Ret (Claimed req xc.1, xc.2)) (db_now (w_db w)) log _
    (holding req) (w_db w) w0 (res, b) w2 ltac:(rewrite Htx0 by done; f_equal; symmetry; apply view_nothing) Hi)
    as (p & n & Htx2 & Hdb2 & Hr).
  exists p, n. split_and!; [done|congruence|]. eapply rtc_l; [|exact Hr].
  pose proof (statement_alone "" (LockResource (Itoa (r_LockTimeout req / Millisecond)) (r_ResourceType req +:+ ":" +:+ r_ResourceID req))
    (λ _, Tx.locked req (w_clock w 1%nat - w_clock w 0%nat) ≫= λ xc, Ret (Claimed req xc.1, xc.2))
    (db_now (w_db w)) nothing (w_db w) log tt _ eq_refl) as Hs.
  cbn [lockResourceStmt effect] in Hs. rewrite view_nothing, set_next_same in Hs. exact Hs.
Qed.

Lemma complete_ran agent k status result ref detail log w b w' :
  Complete agent k status result ref detail w = (inr b, w') →
  ran_alone (completing agent k status result ref detail) (Completed agent k status) log w w'.
Proof.
  rewrite Complete_split. intros Hc. eapply (commit_alone _ _ _ _ (λ _, Completed agent k status)); [|exact Hc].
  intros c w1 w2 Htx Hdb Hclock. rewrite complete_program. intros Hi.
  destruct (run_alone (λ xc, Ret (Completed agent k status, xc.2)) (db_now (w_db w)) log _ nothing (w_db w) w1 (b, c) w2
    ltac:(rewrite Htx; f_equal; symmetry; apply view_nothing) Hi) as (p & n & Htx2 & Hdb2 & Hr).
  exists p, n. split_and!; [done|congruence|exact Hr].
Qed.

End Alone.

(** ** The theorems *)

Section Theorems.
Context `{!Pg}.
Implicit Types (s : server) (w : world).


(** C10: an attempt is admitted once: however the transactions interleave, no two committed
    claims of a key were told claimed with the same attempt number, every admitted attempt is
    one the key's row has counted, and a key has a live intent in the tables, exactly one,
    when its row is pending, done or indeterminate and none otherwise. *)
Theorem attempts_admitted_once s :
  serves keyed s →
  NoDup (omap admitted (s_log s)) ∧
  (∀ key a, (key, a) ∈ omap admitted (s_log s) → ∃ r, db_keys (s_db s) !! key = Some r ∧ a <= k_attempt r) ∧
  ∀ key, live_count (db_intents (s_db s)) key =
    match db_keys (s_db s) !! key with
    | Some r => if holds_intent (k_status r) then 1%nat else 0%nat
    | None => 0%nat
    end.
Proof.
  intros Hs. assert (Hok : server_ok (λ _, 0) False s).
  { apply server_invariant. eapply serves_mono; [|exact Hs]. intros req Hreq. by split. }
  split_and!; [apply Hok|apply (ok_admitted _ _ _ Hok)|apply Hok].
Qed.

(** C11: the locks cannot deadlock and every transaction ends: from any state of the server, if
    no new transaction begins, every sequence of turns is finite, and while a transaction is
    open some open transaction need not wait, so the turns only stop when none is open. *)
Theorem transactions_end s :
  serves keyed s →
  sn turn s ∧ ∀ s', rtc turn s s' → nf turn s' → s_threads s' = [].
Proof.
  intros Hs. split.
  - apply (wf_projected (R1 := flip turn) shorter s_threads); [|apply shorter_wf]. intros x y. apply turn_shorter.
  - intros s' Hr Hnf. apply (turns_serve keyed) in Hr; [|done].
    assert (Hok : server_ok (λ _, 0) False s').
    { apply server_invariant. eapply serves_mono; [|exact Hr]. intros req Hreq. by split. }
    destruct (decide (s_threads s' = [])) as [|Hne]; [done|].
    destruct (some_runs _ _ s' Hok Hne) as (n & th & Hn & Hb). destruct Hnf. by eapply turn_possible.
Qed.

(** [Claim] and [Complete] are what the server does when the transaction runs alone: a call
    that returns (other than with a lock timeout) leaves the tables a run of its statements on
    the server leaves, reported if and only if committed; a rollback keeps the tables and only
    uses up identifiers. *)
Theorem calls_run_alone w log :
  (∀ req res w', Claim req w = (inr res, w') → Verdict_ res ≠ VerdictLockTimeout →
     ∃ lockWait, ran_alone (claiming req lockWait) (Claimed req res) log w w') ∧
  ∀ agent k status result ref detail b w', Complete agent k status result ref detail w = (inr b, w') →
    ran_alone (completing agent k status result ref detail) (Completed agent k status) log w w'.
Proof. split; intros; [eexists; by apply claim_ran|by eapply complete_ran]. Qed.
End Theorems.

(** ** A server with three writes of ticket 7 *)

Module Served.
Import ClaimProps.Demo.




(** Two claims of the ticket at once: the first has the lock. *)
Definition both : server :=
  mkServer empty_db [mkThread 0 (Tx.locked r1 0 ≫= λ xc, Ret (Claimed r1 xc.1, xc.2)) (holding r1);
                     mkThread 0 (claiming r3 0) nothing] [].

Lemma both_serves : serves keyed both.
Proof.
  assert (H0 : serves keyed (mkServer empty_db [mkThread 0 (claiming r1 0) nothing; mkThread 0 (claiming r3 0) nothing] [])).
  { eapply serves_step; [|apply (st_claim keyed (mkServer empty_db [mkThread 0 (claiming r1 0) nothing] []) r3 0); done].
    eapply serves_step; [|apply (st_claim keyed (mkServer empty_db [] []) r1 0); done]. constructor. }
  eapply serves_step; [exact H0|]. apply (st_advance keyed _ 0 (mkThread 0 (claiming r1 0) nothing)); [done|].
  split; [done|]. eexists tt, _. split; [done|]. reflexivity.
Qed.
End Served.

Section Witnesses.
Import ClaimProps.Demo Served.


Lemma attempts_admitted_once_witness :
  ∃ s, serves keyed s ∧ omap admitted (s_log s) = [(("a", "k1"), 1)] ∧
    NoDup (omap admitted (s_log s)) ∧ live_count (db_intents (s_db s)) ("a", "k1") = 1%nat.
Proof.
  destruct (Claim r1 (world_of empty_db)) as [[e|res] w'] eqn:Hc; [by vm_compute in Hc|].
  assert (Hv : Verdict_ res = VerdictClaimed ∧ (AttemptCount <$> Record_of res) = Some 1 ∧
    (k_status <$> db_keys (w_db w') !! ("a", "k1")) = Some StatusPending).
  { replace res with (match (Claim r1 (world_of empty_db)).1 with inr res => res | inl _ => res end) by (by rewrite Hc).
    replace w' with (Claim r1 (world_of empty_db)).2 by (by rewrite Hc). by vm_compute. }
  destruct Hv as (Hv & Hatt & Hrow).
  destruct (claim_ran r1 [] (world_of empty_db) res w' Hc ltac:(by rewrite Hv)) as (n & log & Hrun & [[_ Hsame]|[-> ->]]).
  { rewrite Hsame in Hrow. by vm_compute in Hrow. }
  assert (Hs : serves keyed (mkServer (set_next (db_next (w_db w')) (w_db w')) [] [Claimed r1 res])).
  { eapply turns_serve; [|exact Hrun]. eapply serves_step; [constructor|]. by apply (st_claim keyed (mkServer empty_db [] [])). }
  destruct (attempts_admitted_once _ Hs) as (Hnd & _ & Hlive). specialize (Hlive ("a", "k1")).
  eexists. split; [exact Hs|]. split; [|split; [exact Hnd|]].
  - simpl. rewrite Hv. destruct (Record_of res) as [record|]; [|done]. by injection Hatt as ->.
  - rewrite Hlive. simpl. destruct (db_keys (w_db w') !! _) as [r|]; [|done]. by injection Hrow as ->.
Defined.

(** The second claim waits for the first. *)
Lemma transactions_end_witness :
  blocked 1 both (mkThread 0 (claiming r3 0) nothing) = true ∧
  sn turn both ∧ ∀ s', rtc turn both s' → nf turn s' → s_threads s' = [].
Proof. split; [by vm_compute|]. exact (transactions_end both both_serves). Defined.

Lemma calls_run_alone_witness :
  ∃ res w' lockWait, Claim r3 (world_of d1) = (inr res, w') ∧ Verdict_ res = VerdictRejected ∧
    ran_alone (claiming r3 lockWait) (Claimed r3 res) [] (world_of d1) w'.
Proof.
  destruct (Claim r3 (world_of d1)) as [[e|res] w'] eqn:Hc; [by vm_compute in Hc|].
  assert (Hv : Verdict_ res = VerdictRejected).
  { replace res with (match (Claim r3 (world_of d1)).1 with inr res => res | inl _ => res end) by (by rewrite Hc). by vm_compute. }
  destruct (proj1 (calls_run_alone (world_of d1) []) r3 res w' Hc ltac:(by rewrite Hv)) as [lw Hran].
  exists res, w', lw. exact (conj eq_refl (conj Hv Hran)).
Defined.
End Witnesses.
