(* ===== verification/Config.v ===== *)
(** * Config: internal/config

    The configuration read from the environment and its validation: every problem is collected,
    and a process starts only without any.  The timing rules are what the reconciler's safety
    rests on: a key is stale only after three times the budget of a downstream call. *)

From S2P Require Import Prelude GoString GoFloat.

Definition AuthModeTrustedHeader : string := "trusted_header".

Record Config := mkConfig {
  DatabaseURL : string;
  ListenAddr : string;
  MetricsAddr : string;
  AuthMode : string;
  ClaimPendingWait : Z;
  ManifestDir : string;
  ManifestReloadInterval : Z;
  ConflictLockTimeout : Z;
  ReadMaxSpan : Z;
  ReconcileStaleAfter : Z;
  ReconcileInterval : Z;
  DownstreamBaseURL : string;
  DownstreamConnectTimeout : Z;
  DownstreamTimeout : Z;
  PayloadBytes : Z;
  ResultInlineBytes : Z;
  OutcomeWriteAttempts : Z;
  PartitionAhead : Z;
  RetentionKeys : Z;
  RetentionIntents : Z;
  RetentionConflicts : Z;
  RetentionAudit : Z;
  RetentionRowsPerSec : Z;
  KafkaBrokers : string;
  KafkaTopic : string;
  RelayInterval : Z;
  RelayBatch : Z;
  ArchiveEndpoint : string;
  ArchiveBucket : string;
  ArchiveAccessKey : string;
  ArchiveSecretKey : string;
}.

(** [SerializeWait]; a sum of durations wraps. *)
Definition SerializeWait (c : Config) : Z := wrap64 (DownstreamConnectTimeout c + DownstreamTimeout c).

(** ** strconv.ParseInt(_, 10, 64) *)

(** The value of a string of digits. *)
Fixpoint digits_value (acc : Z) (s : string) : option Z :=
  match s with
  | EmptyString => Some acc
  | String c r => match digit_of c with Some d => digits_value (acc * 10 + d) r | None => None end
  end.

Definition unsigned_value (s : string) : option Z :=
  match s with EmptyString => None | _ => digits_value 0 s end.

Definition ParseInt (s : string) : goerr + Z :=
  let '(neg, r) := match s with
                   | String c r => if byte_val c =? 45 then (true, r)
                                   else if byte_val c =? 43 then (false, r) else (false, s)
                   | EmptyString => (false, s)
                   end in
  match unsigned_value r with
  | None => inl (errorf ("strconv.ParseInt: parsing " +:+ s +:+ ": invalid syntax"))
  | Some v =>
      let z := if neg : bool then - v else v in
      if decide (int64_min <= z <= int64_max) then inr z
      else inl (errorf ("strconv.ParseInt: parsing " +:+ s +:+ ": value out of range"))
  end.

(** ** time.ParseDuration *)

Definition two63 : Z := 9223372036854775808.

(** [leadingInt]. *)
Fixpoint leadingInt (x : Z) (s : string) : option (Z * string) :=
  match s with
  | EmptyString => Some (x, s)
  | String c r =>
      match digit_of c with
      | None => Some (x, s)
      | Some d =>
          if two63 / 10 <? x then None
          else if two63 <? x * 10 + d then None else leadingInt (x * 10 + d) r
      end
  end.

(** [leadingFraction]: digits past the first overflow are dropped. *)
Fixpoint leadingFraction (x : Z) (scale : spec_float) (overflow : bool) (s : string) :
    Z * spec_float * string :=
  match s with
  | EmptyString => (x, scale, s)
  | String c r =>
      match digit_of c with
      | None => (x, scale, s)
      | Some d =>
          if overflow then leadingFraction x scale true r
          else if int64_max / 10 <? x then leadingFraction x scale true r
          else if two63 <? x * 10 + d then leadingFraction x scale true r
          else leadingFraction (x * 10 + d) (float64_mul scale (float64_of_int 10)) false r
      end
  end.

(** The bytes up to the next digit or dot. *)
Fixpoint take_unit (s : string) : string * string :=
  match s with
  | EmptyString => (EmptyString, s)
  | String c r =>
      if (byte_val c =? 46) || match digit_of c with Some _ => true | None => false end
      then (EmptyString, s)
      else let '(u, r') := take_unit r in (String c u, r')
  end.

(** [unitMap]; the two micro signs are U+00B5 and U+03BC. *)
Definition unit_of (u : string) : option Z :=
  if String.eqb u "ns" then Some 1
  else if String.eqb u "us" || String.eqb u (bytes_of_codes [194; 181; 115])
          || String.eqb u (bytes_of_codes [206; 188; 115]) then Some Microsecond
  else if String.eqb u "ms" then Some Millisecond
  else if String.eqb u "s" then Some Second
  else if String.eqb u "m" then Some Minute
  else if String.eqb u "h" then Some Hour
  else None.

(** The loop of [ParseDuration]; each turn consumes a byte, so the length is enough fuel. *)
Fixpoint duration_loop (fuel : nat) (d : Z) (s : string) : option Z :=
  match fuel, s with
  | _, EmptyString => Some d
  | O, _ => None
  | S f, String c _ =>
      if negb ((byte_val c =? 46) || match digit_of c with Some _ => true | None => false end)
      then None
      else
        match leadingInt 0 s with
        | None => None
        | Some (v, s1) =>
            let pre := negb (String.length s =? String.length s1)%nat in
            let '(fr, scale, s2, post) :=
              match s1 with
              | String c1 r1 =>
                  if byte_val c1 =? 46 then
                    let '(x, sc, r2) := leadingFraction 0 (float64_of_int 1) false r1 in
                    (x, sc, r2, negb (String.length r1 =? String.length r2)%nat)
                  else (0, float64_of_int 1, s1, false)
              | EmptyString => (0, float64_of_int 1, s1, false)
              end in
            if negb pre && negb post then None
            else
              let '(u, s3) := take_unit s2 in
              match unit_of u with
              | None => None
              | Some unit =>
                  if two63 / unit <? v then None
                  else
                    let v := v * unit in
                    let v := if 0 <? fr
                             then v + int_of_float64 (float64_mul (float64_of_int fr)
                                        (float64_div (float64_of_int unit) scale))
                             else v in
                    if two63 <? v then None
                    else if two63 <? d + v then None
                    else duration_loop f (d + v) s3
              end
        end
  end.

Definition invalid_duration (s : string) : goerr := errorf ("time: invalid duration " +:+ s).

Definition ParseDuration (orig : string) : goerr + Z :=
  let '(neg, s) := match orig with
                   | String c r => if byte_val c =? 45 then (true, r)
                                   else if byte_val c =? 43 then (false, r) else (false, orig)
                   | EmptyString => (false, orig)
                   end in
  if String.eqb s "0" then inr 0
  else if String.eqb s "" then inl (invalid_duration orig)
  else
    match duration_loop (String.length s) 0 s with
    | None => inl (invalid_duration orig)
    | Some d =>
        if neg : bool then inr (wrap64 (- d))
        else if int64_max <? d then inl (invalid_duration orig) else inr d
    end.

Example parse_duration_examples :
  ParseDuration <$> ["5m"; "1h30m"; "1.5s"; "-2ms"; "0"; ""; "5"; "1x"; ".5h"; "2562048h"] =
  [inr (5 * Minute); inr (Hour + 30 * Minute); inr 1500000000; inr (-2000000); inr 0;
   inl (invalid_duration ""); inl (invalid_duration "5"); inl (invalid_duration "1x");
   inr (30 * Minute); inl (invalid_duration "2562048h")].
Proof. by vm_compute. Qed.

(** ** Validate *)

(** The problems, one constructor per message. *)
Inductive config_problem :=
| DatabaseURLRequired
| DownstreamBaseURLRequired
| AuthModeUnset
| StaleBelowBudget
| StaleBelowInterval
| PendingWaitAboveTimeout
| AttemptsBelowOne
| PayloadNotPositive
| ManifestDirRequired
| LockTimeoutNotPositive
| ReadSpanNotPositive
| PartitionAheadLow
| RowsPerSecNotPositive
| NotADuration (key : string) (e : goerr)
| NotAnInteger (key : string) (e : goerr).

Definition fail_if (b : bool) (p : config_problem) : list config_problem := if b then [p] else [].

(** [Validate]: the problems, in the order they are reported. *)
Definition Validate (c : Config) : list config_problem :=
  let callBudget := wrap64 (DownstreamConnectTimeout c + DownstreamTimeout c) in
  fail_if (String.eqb (DatabaseURL c) "") DatabaseURLRequired ++
  fail_if (String.eqb (DownstreamBaseURL c) "") DownstreamBaseURLRequired ++
  fail_if (negb (String.eqb (AuthMode c) AuthModeTrustedHeader)) AuthModeUnset ++
  fail_if (ReconcileStaleAfter c <? wrap64 (3 * callBudget)) StaleBelowBudget ++
  fail_if (ReconcileStaleAfter c <=? wrap64 (2 * ReconcileInterval c)) StaleBelowInterval ++
  fail_if (DownstreamTimeout c <=? ClaimPendingWait c) PendingWaitAboveTimeout ++
  fail_if (OutcomeWriteAttempts c <? 1) AttemptsBelowOne ++
  fail_if (PayloadBytes c <? 1) PayloadNotPositive ++
  fail_if (String.eqb (ManifestDir c) "") ManifestDirRequired ++
  fail_if (ConflictLockTimeout c <=? 0) LockTimeoutNotPositive ++
  fail_if (ReadMaxSpan c <=? 0) ReadSpanNotPositive ++
  fail_if (PartitionAhead c <? 4 * 7 * 24 * Hour) PartitionAheadLow ++
  fail_if (RetentionRowsPerSec c <? 1) RowsPerSecNotPositive.

(** ** Load *)

Section Load.
(** [os.Getenv]. *)
Context (Getenv : string → string).

Definition withDefault (key fallback : string) : string :=
  let value := TrimSpace (Getenv key) in
  if String.eqb value "" then fallback else value.

Definition integer (key : string) (fallback : Z) : Z * list config_problem :=
  let raw := TrimSpace (Getenv key) in
  if String.eqb raw "" then (fallback, [])
  else match ParseInt raw with
       | inl e => (fallback, [NotAnInteger key e])
       | inr v => (v, [])
       end.

Definition duration (key : string) (fallbackMS : Z) : Z * list config_problem :=
  let '(v, ps) := integer key fallbackMS in (wrap64 (v * Millisecond), ps).

Definition goDuration (key : string) (fallback : Z) : Z * list config_problem :=
  let raw := TrimSpace (Getenv key) in
  if String.eqb raw "" then (fallback, [])
  else match ParseDuration raw with
       | inl e => (fallback, [NotADuration key e])
       | inr v => (v, [])
       end.

Definition day : Z := 24 * Hour.

Definition Load : list config_problem + Config :=
  let claimPendingWait := duration "IDEMIO_CLAIM_PENDING_WAIT_MS" 0 in
  let reconcileStaleAfter := goDuration "IDEMIO_RECONCILE_STALE_AFTER" (5 * Minute) in
  let reconcileInterval := goDuration "IDEMIO_RECONCILE_INTERVAL" (30 * Second) in
  let downstreamConnectTimeout := duration "IDEMIO_DOWNSTREAM_CONNECT_TIMEOUT_MS" 1000 in
  let downstreamTimeout := duration "IDEMIO_DOWNSTREAM_TIMEOUT_MS" 10000 in
  let payloadBytes := integer "IDEMIO_LIMITS_PAYLOAD_BYTES" 262144 in
  let resultInlineBytes := integer "IDEMIO_LIMITS_RESULT_INLINE_BYTES" 65536 in
  let outcomeWriteAttempts := integer "IDEMIO_OUTCOME_WRITE_ATTEMPTS" 3 in
  let manifestReloadInterval := goDuration "IDEMIO_MANIFEST_RELOAD_INTERVAL" (30 * Second) in
  let conflictLockTimeout := duration "IDEMIO_CONFLICT_LOCK_TIMEOUT_MS" 250 in
  let readMaxSpan := goDuration "IDEMIO_READ_MAX_SPAN" (31 * day) in
  let partitionAhead := goDuration "IDEMIO_PARTITION_AHEAD" (8 * 7 * day) in
  let retentionKeys := goDuration "IDEMIO_RETENTION_KEYS" (90 * day) in
  let retentionIntents := goDuration "IDEMIO_RETENTION_INTENTS" (90 * day) in
  let retentionConflicts := goDuration "IDEMIO_RETENTION_CONFLICTS" (365 * day) in
  let retentionAudit := goDuration "IDEMIO_RETENTION_AUDIT" (365 * day) in
  let retentionRowsPerSec := integer "IDEMIO_RETENTION_ROWS_PER_SEC" 500 in
  let relayInterval := goDuration "IDEMIO_RELAY_INTERVAL" Second in
  let relayBatch := integer "IDEMIO_RELAY_BATCH" 500 in
  let problems :=
    claimPendingWait.2 ++ reconcileStaleAfter.2 ++ reconcileInterval.2 ++
    downstreamConnectTimeout.2 ++ downstreamTimeout.2 ++ payloadBytes.2 ++
    resultInlineBytes.2 ++ outcomeWriteAttempts.2 ++ manifestReloadInterval.2 ++
    conflictLockTimeout.2 ++ readMaxSpan.2 ++ partitionAhead.2 ++ retentionKeys.2 ++
    retentionIntents.2 ++ retentionConflicts.2 ++ retentionAudit.2 ++ retentionRowsPerSec.2 ++
    relayInterval.2 ++ relayBatch.2 in
  let cfg := {|
    DatabaseURL := Getenv "IDEMIO_DATABASE_URL";
    ListenAddr := withDefault "IDEMIO_LISTEN_ADDR" "127.0.0.1:8080";
    MetricsAddr := withDefault "IDEMIO_METRICS_ADDR" "127.0.0.1:9090";
    AuthMode := withDefault "IDEMIO_AUTH_MODE" "";
    DownstreamBaseURL := Getenv "IDEMIO_DOWNSTREAM_BASE_URL";
    ClaimPendingWait := claimPendingWait.1;
    ReconcileStaleAfter := reconcileStaleAfter.1;
    ReconcileInterval := reconcileInterval.1;
    DownstreamConnectTimeout := downstreamConnectTimeout.1;
    DownstreamTimeout := downstreamTimeout.1;
    PayloadBytes := payloadBytes.1;
    ResultInlineBytes := resultInlineBytes.1;
    OutcomeWriteAttempts := outcomeWriteAttempts.1;
    ManifestDir := Getenv "IDEMIO_MANIFEST_DIR";
    ManifestReloadInterval := manifestReloadInterval.1;
    ConflictLockTimeout := conflictLockTimeout.1;
    ReadMaxSpan := readMaxSpan.1;
    PartitionAhead := partitionAhead.1;
    RetentionKeys := retentionKeys.1;
    RetentionIntents := retentionIntents.1;
    RetentionConflicts := retentionConflicts.1;
    RetentionAudit := retentionAudit.1;
    RetentionRowsPerSec := retentionRowsPerSec.1;
    KafkaBrokers := Getenv "IDEMIO_KAFKA_BROKERS";
    KafkaTopic := withDefault "IDEMIO_KAFKA_TOPIC" "idemio.write-intents";
    RelayInterval := relayInterval.1;
    RelayBatch := relayBatch.1;
    ArchiveEndpoint := Getenv "IDEMIO_ARCHIVE_ENDPOINT";
    ArchiveBucket := Getenv "IDEMIO_ARCHIVE_BUCKET";
    ArchiveAccessKey := Getenv "IDEMIO_ARCHIVE_ACCESS_KEY";
    ArchiveSecretKey := Getenv "IDEMIO_ARCHIVE_SECRET_KEY";
  |} in
  if (0 <? length problems)%nat then inl problems
  else match Validate cfg with
       | [] => inr cfg
       | ps => inl ps
       end.
End Load.

(** ** Lemmas *)

Lemma fail_if_nil b p : fail_if b p = [] ↔ b = false.
Proof. by destruct b. Qed.

(** What a configuration must satisfy, with the arithmetic of durations. *)
Definition valid_config (c : Config) : Prop :=
  DatabaseURL c ≠ EmptyString ∧ DownstreamBaseURL c ≠ EmptyString ∧
  AuthMode c = AuthModeTrustedHeader ∧
  wrap64 (3 * wrap64 (DownstreamConnectTimeout c + DownstreamTimeout c)) <= ReconcileStaleAfter c ∧
  wrap64 (2 * ReconcileInterval c) < ReconcileStaleAfter c ∧
  ClaimPendingWait c < DownstreamTimeout c ∧ 1 <= OutcomeWriteAttempts c ∧ 1 <= PayloadBytes c ∧
  ManifestDir c ≠ EmptyString ∧ 0 < ConflictLockTimeout c ∧ 0 < ReadMaxSpan c ∧
  4 * 7 * 24 * Hour <= PartitionAhead c ∧ 1 <= RetentionRowsPerSec c.

Lemma Validate_valid c : Validate c = [] ↔ valid_config c.
Proof.
  unfold Validate, valid_config. cbv zeta.
  rewrite !app_nil, !fail_if_nil, negb_false_iff.
  rewrite !Z.ltb_ge, !Z.leb_gt, !String.eqb_neq, String.eqb_eq. tauto.
Qed.

Lemma Load_valid Getenv c : Load Getenv = inr c → valid_config c.
Proof.
  unfold Load. cbv zeta.
  match goal with |- context [if ?b then _ else _] => destruct b; [done|] end.
  match goal with |- context [Validate ?x] => destruct (Validate x) eqn:Hv; [|done] end.
  intros [= <-]. by apply Validate_valid.
Qed.

(** ** Theorems *)

(** Validation decides exactly the rules it states, with every problem reported, and a
    configuration [Load] returns satisfies them all. *)
Theorem config_valid c : (Validate c = [] ↔ valid_config c) ∧ ∀ Getenv, Load Getenv = inr c → valid_config c.
Proof. split; [apply Validate_valid|]. intros Getenv. apply Load_valid. Qed.

(** The margin the reconciler rests on: in a configuration [Load] returns, whose call budget
    is below 2^63/3 nanoseconds, a key becomes stale no sooner than three whole budgets of a
    downstream call after it was claimed, and later than two sweep intervals. *)
Theorem stale_margin Getenv c :
  Load Getenv = inr c →
  0 <= DownstreamConnectTimeout c → 0 <= DownstreamTimeout c → 0 <= ReconcileInterval c →
  3 * (DownstreamConnectTimeout c + DownstreamTimeout c) <= int64_max →
  2 * ReconcileInterval c <= int64_max →
  3 * SerializeWait c <= ReconcileStaleAfter c ∧
  SerializeWait c = DownstreamConnectTimeout c + DownstreamTimeout c ∧
  2 * ReconcileInterval c < ReconcileStaleAfter c.
Proof.
  intros (_ & _ & _ & Hs & Hi & _)%Load_valid H1 H2 H3 H4 H5. unfold SerializeWait.
  rewrite (wrap64_id (_ + _)) in * by (unfold int64_min, int64_max in *; lia).
  rewrite (wrap64_id (3 * _)) in Hs by (unfold int64_min, int64_max in *; lia).
  rewrite (wrap64_id (2 * _)) in Hi by (unfold int64_min, int64_max in *; lia). lia.
Qed.

(** An environment with the required variables. *)
Definition demo_env (key : string) : string :=
  if String.eqb key "IDEMIO_DATABASE_URL" then "postgres://db"
  else if String.eqb key "IDEMIO_DOWNSTREAM_BASE_URL" then "http://d"
  else if String.eqb key "IDEMIO_AUTH_MODE" then " trusted_header "
  else if String.eqb key "IDEMIO_MANIFEST_DIR" then "/manifests"
  else "".

Lemma stale_margin_witness :
  ∃ c, Load demo_env = inr c ∧ 3 * SerializeWait c <= ReconcileStaleAfter c.
Proof.
  destruct (Load demo_env) as [ps|c] eqn:Hl; [by vm_compute in Hl|].
  exists c. split; [done|].
  apply (stale_margin demo_env c Hl); vm_compute in Hl; injection Hl as <-; by vm_compute.
Defined.

(** The same environment with a call timeout of 3074457345618 ms. *)
Definition huge_timeout_env (key : string) : string :=
  if String.eqb key "IDEMIO_DOWNSTREAM_TIMEOUT_MS" then "3074457345618" else demo_env key.

(** Past that bound the rule is void: the triple of the budget wraps below zero, and [Load]
    accepts a threshold of five minutes for calls that may last a century. *)
Theorem stale_margin_overflow :
  match Load huge_timeout_env with
  | inr c => ReconcileStaleAfter c < DownstreamTimeout c
  | inl _ => False
  end.
Proof. by vm_compute. Qed.
