(* ===== verification/Downstream.v ===== *)
(** * Downstream: internal/downstream

    The call that performs a write, and the classification of what came back: done only for a
    status the manifest declares definitive, failed when nothing left, when the status is declared
    not executed or when the target of a redirect could not be dialled, indeterminate
    otherwise. *)

From S2P Require Import Prelude GoString Sha256 Manifest World Json.

Inductive Disposition := Indeterminate | Done | Failed.

#[export] Instance Disposition_eq_dec : EqDecision Disposition.
Proof. solve_decision. Defined.

Definition Disposition_String (d : Disposition) : string :=
  match d with Done => "done" | Failed => "failed" | Indeterminate => "indeterminate" end.

Record Outcome := mkOut { Disposition_ : Disposition; out_Result : string; out_Detail : string }.

Record dRequest := mkDRequest {
  dr_AgentID : string;
  dr_Key : string;
  dr_ResourceType : string;
  dr_ResourceID : string;
  dr_Operation : string;
  dr_Payload : string;
  Classification : ErrorClassification;
}.

(** [c_buildError] is what [http.NewRequestWithContext] says of the URL, if it refuses it. *)
Record Client := mkClient { c_baseURL : string; c_buildError : option string }.

(** [errors.As] finds the failed dial of the call and that of a redirect's target alike. *)
Definition classifyTransportError (t : transport) : Outcome :=
  match t with
  | DialError text | RedirectDialError _ text => mkOut Failed "" ("downstream_unreachable: " +:+ text)
  | SendError text | ReadError text => mkOut Indeterminate "" ("downstream_timeout_after_send: " +:+ text)
  | Response _ _ => mkOut Indeterminate "" "downstream_timeout_after_send: "
  end.

(** The fallback document is [{"raw":""}]. *)
Definition asJSON (payload : string) : string :=
  if Valid payload then payload
  else match Marshal (JObj [("raw", JStr payload)]) with
       | inr encoded => encoded
       | inl _ => "{" +:+ quoted "raw" +:+ ":" +:+ quoted "" +:+ "}"
       end.

Definition classifyResponse (classification : ErrorClassification) (status : Z)
    (payload : string) : Outcome :=
  if IsDefinitive classification status then mkOut Done (asJSON payload) ""
  else if IsNotExecuted classification status
  then mkOut Failed (asJSON payload) ("downstream_declined_status_" +:+ Itoa status)
  else mkOut Indeterminate (asJSON payload) ("downstream_status_" +:+ Itoa status).

Definition execute_body (req : dRequest) : json :=
  JObj [("resource_type", JStr (dr_ResourceType req)); ("resource_id", JStr (dr_ResourceID req));
        ("operation", JStr (dr_Operation req)); ("payload", JRaw (dr_Payload req))].

(** The call, with its correlation header; agent and key are not on the wire, they name whose
    call it is. *)
Definition call_of (req : dRequest) : call :=
  mkCall (correlation_ID (dr_AgentID req) (dr_Key req)) (dr_AgentID req) (dr_Key req)
    (dr_ResourceType req) (dr_ResourceID req) (dr_Operation req) (dr_Payload req).

Definition Execute (c : Client) (req : dRequest) : M Outcome :=
  match Marshal (execute_body req) with
  | inl e => mret (mkOut Failed "" ("encode request: " +:+ e_text e))
  | inr _ =>
      match c_buildError c with
      | Some text => mret (mkOut Failed "" ("build request: " +:+ text))
      | None =>
          t ← send (call_of req);
          match t with
          | Response status payload => mret (classifyResponse (Classification req) status payload)
          | ReadError text => mret (mkOut Indeterminate "" ("read response after send: " +:+ text))
          | DialError _ | RedirectDialError _ _ | SendError _ => mret (classifyTransportError t)
          end
      end
  end.

(** ** Lemmas *)

#[local] Arguments String.append !_ _ /.

Lemma asJSON_scan s : Valid ("{" +:+ (quoted "raw" +:+ ":" +:+ quoted s) +:+ "}") = true.
Proof.
  unfold Valid. rewrite scan_app. change (scan BeginValue [] "{") with
    (Some (BeginStringOrEmpty, [ParseObjectKey])). cbv iota beta.
  rewrite append_assoc, scan_quoted by done. rewrite append_assoc, scan_app.
  change (scan EndValue [ParseObjectKey] ":") with (Some (BeginValue, [ParseObjectValue])).
  cbv iota beta. by rewrite scan_quoted by done.
Qed.

Lemma asJSON_valid payload : Valid (asJSON payload) = true.
Proof. unfold asJSON. destruct (Valid payload) eqn:Hv; [done|]. apply asJSON_scan. Qed.

Lemma asJSON_nonempty payload : asJSON payload ≠ EmptyString.
Proof. intros He. pose proof (asJSON_valid payload) as Hv. by rewrite He in Hv. Qed.

(** What [Execute] knows: nothing left, or one call did and its reply was classified; a call that
    was answered by a redirect to an unreachable target is classified as one that never left. *)
Inductive executed (req : dRequest) (reply : option transport) : list call → Outcome → Prop :=
| exec_not_sent detail : executed req reply [] (mkOut Failed "" detail)
| exec_done status payload :
    reply = Some (Response status payload) → IsDefinitive (Classification req) status = true →
    executed req reply [call_of req] (mkOut Done (asJSON payload) "")
| exec_declined status payload :
    reply = Some (Response status payload) → IsDefinitive (Classification req) status = false →
    IsNotExecuted (Classification req) status = true →
    executed req reply [call_of req]
      (mkOut Failed (asJSON payload) ("downstream_declined_status_" +:+ Itoa status))
| exec_unclassified status payload :
    reply = Some (Response status payload) → IsDefinitive (Classification req) status = false →
    IsNotExecuted (Classification req) status = false →
    executed req reply [call_of req]
      (mkOut Indeterminate (asJSON payload) ("downstream_status_" +:+ Itoa status))
| exec_redirected status text :
    reply = Some (RedirectDialError status text) →
    executed req reply [call_of req] (mkOut Failed "" ("downstream_unreachable: " +:+ text))
| exec_lost detail : executed req reply [call_of req] (mkOut Indeterminate "" detail).

(** Only the calls and the replies move. *)
Definition send_frame (w w' : world) (calls : list call) : Prop :=
  w' = set_replies (w_replies w') (set_sent (w_sent w ++ calls) w).

Lemma Execute_spec c req w :
  ∃ o calls, (Execute c req w).1 = inr o ∧ send_frame w (Execute c req w).2 calls ∧
    executed req (head (w_replies w)) calls o.
Proof.
  assert (Hstay : ∀ r, set_replies r w = set_replies r (set_sent (w_sent w ++ []) w)).
  { intros r. rewrite app_nil_r. by destruct w. }
  assert (Hnot : ∀ detail, ∃ o calls, inr (mkOut Failed "" detail) = (inr o : goerr + Outcome) ∧
    send_frame w w calls ∧ executed req (head (w_replies w)) calls o).
  { intros detail. exists (mkOut Failed "" detail), []. split_and!; [done| |apply exec_not_sent].
    unfold send_frame. rewrite <- Hstay. by destruct w. }
  unfold Execute. destruct (Marshal (execute_body req)) as [e|body]; [apply Hnot|].
  destruct (c_buildError c) as [text|]; [apply Hnot|].
  unfold mbind, St_bind, send.
  destruct (head (w_replies w)) as [[text|status text|text|text|status payload]|]; simpl.
  - eexists _, []. split_and!; [done|apply Hstay|apply exec_not_sent].
  - eexists _, [call_of req]. split_and!; [done|by destruct w|by eapply exec_redirected].
  - eexists _, [call_of req]. split_and!; [done|by destruct w|apply exec_lost].
  - eexists _, [call_of req]. split_and!; [done|by destruct w|apply exec_lost].
  - eexists _, [call_of req]. split_and!; [done|by destruct w|]. unfold classifyResponse.
    destruct (IsDefinitive _ _) eqn:Hd; [by eapply exec_done|].
    destruct (IsNotExecuted _ _) eqn:Hn; [by eapply exec_declined|by eapply exec_unclassified].
  - eexists _, [call_of req]. split_and!; [done|by destruct w|apply exec_lost].
Qed.

Lemma Execute_redirected c req w status text :
  head (w_replies w) = Some (RedirectDialError status text) →
  match (Execute c req w).1 with inr o => Disposition_ o = Failed | inl _ => False end.
Proof.
  intros Ht. unfold Execute. destruct (Marshal _) as [e|body]; [done|]. destruct (c_buildError c); [done|].
  unfold mbind, St_bind, send. by rewrite Ht.
Qed.

(** ** Theorems *)

(** C35: a downstream call is classified soundly, but for redirects: [Execute] always ends with an
    outcome and sends at most one call, the request's own; it says done only on a definitive
    status, and every end that is neither done nor failed is indeterminate (a timeout, a lost
    reply, an undeclared status).  It says failed only when nothing left this process, when the
    status is declared not executed, or when the call left, was answered by a redirect and the
    redirect's target could not be dialled; in that last case it always says failed, although
    nothing is known of the call. *)
Theorem execute_classified c req w :
  ∃ o, (Execute c req w).1 = inr o ∧
    (w_sent (Execute c req w).2 = w_sent w ∨ w_sent (Execute c req w).2 = w_sent w ++ [call_of req]) ∧
    (Disposition_ o = Done → w_sent (Execute c req w).2 = w_sent w ++ [call_of req] ∧
       ∃ status payload, head (w_replies w) = Some (Response status payload) ∧
         IsDefinitive (Classification req) status = true) ∧
    (Disposition_ o = Failed → w_sent (Execute c req w).2 = w_sent w ∨
       w_sent (Execute c req w).2 = w_sent w ++ [call_of req] ∧
       ((∃ status payload, head (w_replies w) = Some (Response status payload) ∧
           IsDefinitive (Classification req) status = false ∧
           IsNotExecuted (Classification req) status = true) ∨
        ∃ status text, head (w_replies w) = Some (RedirectDialError status text))) ∧
    (∀ status text, head (w_replies w) = Some (RedirectDialError status text) →
       w_sent (Execute c req w).2 = w_sent w ++ [call_of req] → Disposition_ o = Failed).
Proof.
  destruct (Execute_spec c req w) as (o & calls & Hr & Hf & He). exists o. split; [done|].
  assert (Hs : w_sent (Execute c req w).2 = w_sent w ++ calls) by (by rewrite Hf). rewrite Hs.
  assert (Hred : ∀ status text, head (w_replies w) = Some (RedirectDialError status text) →
    calls = [call_of req] → Disposition_ o = Failed).
  { intros status text Ht Hc. pose proof (Execute_redirected c req w status text Ht) as Hd.
    by rewrite Hr in Hd. }
  split_and!; [destruct He; rewrite ?app_nil_r; auto| | |].
  - destruct He; simpl; try done. eauto.
  - destruct He; simpl; try done; rewrite ?app_nil_r; eauto 9.
  - intros status text Ht Hc. apply (Hred status text Ht). by apply app_inv_head in Hc.
Qed.

(** A call that left and was answered 303, and is reported unreachable. *)
Example redirected_call :
  let req := mkDRequest "a" "k" "ticket" "7" "close" "{}" (mkErrors [mkRange 200 299] []) in
  let x := Execute (mkClient "http://d" None) req
    (set_replies [RedirectDialError 303 "connection refused"] (world_of empty_db)) in
  x.1 = inr (mkOut Failed "" "downstream_unreachable: connection refused") ∧ w_sent x.2 = [call_of req].
Proof. by vm_compute. Qed.

(** Whatever bytes the downstream answers with, the result kept is a JSON document: a valid
    body is kept as it is, any other is wrapped in an object whose string escapes it. *)
Theorem result_is_json payload :
  Valid (asJSON payload) = true ∧ (Valid payload = true → asJSON payload = payload).
Proof. split; [apply asJSON_valid|]. unfold asJSON. by intros ->. Qed.
