(* ===== verification/Contract.v ===== *)
(** * Contract: what the write path assumes of a downstream

    Where the call of an attempt is, what the client can be left with in each case, and when a
    manifest's classification of statuses is true of the downstream it is written for.  From a
    true classification follows what the dispositions of [Execute] mean; nothing else about
    them is assumed by System.v and Concurrent.v.  FakeDownstream.v shows that the shipped fake
    keeps this contract, and which shipped manifests are true of it. *)

From S2P Require Import Prelude GoString Manifest World Json Downstream.

(** Where the call of an attempt is: not sent, on its way, executed, or certain never to be. *)
Inductive phase := Unsent | Sent | Ran | Never.

#[export] Instance phase_eq_dec : EqDecision phase.
Proof. solve_decision. Defined.

(** [ans p status]: the client can be left with this status for a call in phase [p], as the last
    reply of the exchange or as a redirect that it could not follow. *)
Abbreviation answering := (phase → Z → Prop).

(** What the client is left with tells this much of the call: one that could not be dialled
    never arrives, and an answer that is lost or late says nothing. *)
Definition observed (ans : answering) (p : phase) (t : transport) : Prop :=
  p ≠ Unsent ∧
  match t with
  | DialError _ => p = Never
  | RedirectDialError status _ => redirecting status ∧ ans p status
  | SendError _ | ReadError _ => True
  | Response status _ => ans p status
  end.

(** A classification is true of the downstream: a definitive status means that the call ran, one
    declared not executed that it never will, and so does a redirect that cannot be followed,
    which the client takes for a failed dial. *)
Definition true_of (ans : answering) (c : ErrorClassification) : Prop :=
  ∀ p status, ans p status →
    (IsDefinitive c status = true → p = Ran) ∧
    (IsDefinitive c status = false → IsNotExecuted c status = true → p = Never) ∧
    (redirecting status → p = Never).

(** [Execute] returned this outcome for a call that ended in phase [p]: nothing left, or what
    the client was left with is possible in that phase. *)
Definition returned (ans : answering) (c : Client) (req : dRequest) (p : phase) (o : Outcome) : Prop :=
  ∃ w, (Execute c req w).1 = inr o ∧
    if decide (w_sent (Execute c req w).2 = w_sent w) then p = Never
    else ∃ t, head (w_replies w) = Some t ∧ observed ans p t.

(** What a disposition then means: done only if the call ran, failed only if it never will, and
    nothing for a call still on its way. *)
Definition reported (p : phase) (o : Disposition) : Prop :=
  match p with
  | Ran => o ≠ Failed
  | Sent => o = Indeterminate
  | Never => o ≠ Done
  | Unsent => False
  end.

Lemma reported_indeterminate p : p ≠ Unsent → reported p Indeterminate.
Proof. by destruct p. Qed.

(** A reply seen in a phase is classified as that phase permits. *)
Lemma executed_reported ans req t calls o p :
  true_of ans (Classification req) → executed req (Some t) calls o → calls ≠ [] →
  observed ans p t → reported p (Disposition_ o).
Proof.
  intros Htrue Hex Hcalls [Hp Hobs].
  destruct Hex as [detail|status payload [= ->] Hd|status payload [= ->] Hd Hn
    |status payload [= ->] _ _|status text [= ->]|detail]; simpl in *;
    [done| | |by apply reported_indeterminate| |by apply reported_indeterminate].
  - destruct (Htrue p status Hobs) as [-> _]; done.
  - destruct (Htrue p status Hobs) as (_ & -> & _); done.
  - destruct Hobs as [Hred Hobs]. destruct (Htrue p status Hobs) as (_ & _ & ->); done.
Qed.

Lemma returned_reported ans c req p o :
  true_of ans (Classification req) → returned ans c req p o → reported p (Disposition_ o).
Proof.
  intros Htrue (w & Ho & Hcase).
  destruct (Execute_spec c req w) as (o' & calls & Ho' & Hf & Hex).
  assert (o' = o) as -> by congruence.
  assert (Hs : w_sent (Execute c req w).2 = w_sent w ++ calls) by (by rewrite Hf).
  rewrite Hs in Hcase. destruct (decide _) as [He|Hne].
  - subst p. apply (f_equal length) in He. rewrite length_app in He. destruct Hex; simpl in *; try done; lia.
  - destruct Hcase as (t & Ht & Hobs). rewrite Ht in Hex. eapply executed_reported; [done|done| |done].
    intros ->. by rewrite app_nil_r in Hne.
Qed.

(** The answers of cmd/fakedownstream: 200 and 422 for what it executed, 429 and 500 for what it did
    not, and never a redirect. *)
Definition fake_answers : answering := λ p status,
  match p with
  | Ran => status = 200 ∨ status = 422
  | Never => status = 429 ∨ status = 500
  | _ => False
  end.

(** The classification of manifests/subscription.json is true of it; that of
    manifests/invoice.json, for which a 429 is definitive, is not. *)
Lemma subscription_true_of_fake : true_of fake_answers (d_Errors subscription_doc).
Proof.
  intros [] status Hans; try done; destruct Hans as [->| ->];
    (split_and!; [by intros ?|by intros ??|unfold redirecting; rewrite !elem_of_cons, elem_of_nil; lia]).
Qed.

Lemma invoice_not_true_of_fake : ¬ true_of fake_answers (d_Errors invoice_doc).
Proof. intros Ht. destruct (Ht Never 429 (or_introl eq_refl)) as (Hd & _). by discriminate Hd. Qed.
