(* ===== verification/ResultStore.v ===== *)
(** * ResultStore: internal/resultstore

    Results over the inline cap go to an object store under a name derived from agent and key.
    [Objects] is the interface the package declares, with the laws its clients rely on; the
    theorems are proved against it, and [bucket] implements it over the world. *)

From S2P Require Import Prelude GoString Sha256 World.

(** ** The interface *)

(** Calls to the object store touch nothing else. *)
Definition obj_frame (w w' : world) : Prop :=
  w' = set_objects (w_objects w') (set_objfaults (w_objfaults w') w).

Class Objects := {
  Put : string → string → string → M unit;
  Get : string → M string;
  Delete_objects : list string → M unit;
  (** The contents, and whether requests get through. *)
  holds : world → string → option string;
  reachable : world → Prop;
  Put_frame name body contentType w : obj_frame w (Put name body contentType w).2;
  Get_frame name w : obj_frame w (Get name w).2;
  Put_holds name body contentType w :
    (Put name body contentType w).1 = inr tt → holds (Put name body contentType w).2 name = Some body;
  Put_others name other body contentType w : other ≠ name →
    holds (Put name body contentType w).2 other = holds w other;
  Get_holds name w body : (Get name w).1 = inr body → holds w name = Some body;
  Get_reachable name w body : reachable w → holds w name = Some body → (Get name w).1 = inr body;
  Delete_frame names w : obj_frame w (Delete_objects names w).2;
  Delete_others names name w : name ∉ names → holds (Delete_objects names w).2 name = holds w name;
  (** What the store holds is the store's own. *)
  holds_own w w' name : w_objects w' = w_objects w → holds w' name = holds w name;
}.

(** ** The store *)

Record ResultStore := mkResultStore { configured : bool; inlineCap : Z }.

Definition results_prefix : string := "results/".

Definition Ref (agentID k : string) : string :=
  results_prefix +:+ correlation_ID agentID k +:+ ".json".

Definition IsRef (value : string) : bool := HasPrefix value results_prefix.

Record Placement := mkPlacement {
  Inline : string;
  p_Ref : string;
  Offloaded : bool;
  FellBack : bool;
}.

Section Store.
Context `{!Objects} (s : ResultStore).

Definition Place (agentID k result : string) : M Placement :=
  if String.eqb result "" || negb (configured s) ||
     (Z.of_nat (String.length result) <=? inlineCap s)
  then mret (mkPlacement result "" false false)
  else
    let ref := Ref agentID k in
    r ← try (Put ref result "application/json");
    match r with
    | inl _ => mret (mkPlacement result "" false true)
    | inr _ => mret (mkPlacement "" ref true false)
    end.

Definition Resolve (inline ref : string) : M string :=
  if String.eqb ref "" then mret inline
  else if negb (configured s)
  then throw (errorf ("result " +:+ ref +:+ " is offloaded but no object storage is configured"))
  else Get ref.

Definition Delete (refs : list string) : M unit :=
  if (length refs =? 0)%nat || negb (configured s) then mret tt else Delete_objects refs.
End Store.

(** ** Lemmas *)

#[local] Arguments String.append !_ _ /.

Lemma Ref_nonempty agent k : Ref agent k ≠ EmptyString.
Proof. done. Qed.

Lemma Ref_is_ref agent k : IsRef (Ref agent k) = true.
Proof. unfold IsRef. apply HasPrefix_spec. unfold Ref. eauto. Qed.

Section Placing.
Context `{!Objects} (s : ResultStore).

Lemma obj_frame_refl w : obj_frame w w.
Proof. by destruct w. Qed.

(** [Place] never fails and never loses the result. *)
Lemma Place_spec agent k result w :
  ∃ p, (Place s agent k result w).1 = inr p ∧ obj_frame w (Place s agent k result w).2 ∧
    (Inline p = result ∧ p_Ref p = EmptyString ∨
     Inline p = EmptyString ∧ p_Ref p = Ref agent k ∧ configured s = true ∧
       inlineCap s < Z.of_nat (String.length result) ∧
       holds (Place s agent k result w).2 (Ref agent k) = Some result).
Proof.
  unfold Place. destruct (String.eqb_spec result "") as [->|Hne]; simpl.
  { eexists. split_and!; [done|apply obj_frame_refl|by left]. }
  destruct (configured s) eqn:Hconf; simpl; [|eexists; split_and!; [done|apply obj_frame_refl|by left]].
  destruct (Z.leb_spec (Z.of_nat (String.length result)) (inlineCap s)) as [Hle|Hgt].
  { eexists. split_and!; [done|apply obj_frame_refl|by left]. }
  unfold mbind, St_bind, try.
  pose proof (Put_frame (Ref agent k) result "application/json" w) as Hf.
  pose proof (Put_holds (Ref agent k) result "application/json" w) as Hh.
  destruct (Put (Ref agent k) result "application/json" w) as [[e|[]] w']; simpl in *.
  - eexists. split_and!; [done|done|by left].
  - eexists. split_and!; [done|done|]. right. split_and!; auto.
Qed.
End Placing.

(** ** The bucket of the world *)

Definition object_call {A} (f : gmap string string → goerr + (A * gmap string string)) : M A := λ w,
  let w1 := set_objfaults (tail (w_objfaults w)) w in
  match default Fine (head (w_objfaults w)) with
  | Refused e => (inl e, w1)
  | flt => match f (w_objects w) with
           | inl e => (inl e, w1)
           | inr (x, m) =>
               (match flt with LostAck e => inl e | _ => inr x end, set_objects m w1)
           end
  end.

Definition no_such_key : goerr := errorf "The specified key does not exist.".

Section Bucket.
Definition bucket_Put (name body contentType : string) : M unit :=
  object_call (λ m, inr (tt, <[name := body]> m)).
Definition bucket_Get (name : string) : M string :=
  object_call (λ m, match m !! name with Some b => inr (b, m) | None => inl no_such_key end).
Definition bucket_Delete (names : list string) : M unit :=
  object_call (λ m, inr (tt, foldr delete m names)).

Lemma object_call_frame {A} (f : gmap string string → goerr + (A * gmap string string)) w :
  obj_frame w (object_call f w).2.
Proof.
  unfold object_call. destruct (default Fine (head (w_objfaults w))); [|by destruct w|];
    destruct (f (w_objects w)) as [?|[x m]]; by destruct w.
Qed.

#[export] Program Instance bucket : Objects := {|
  Put := bucket_Put;
  Get := bucket_Get;
  Delete_objects := bucket_Delete;
  holds := λ w name, w_objects w !! name;
  reachable := λ w, w_objfaults w = [];
|}.
Next Obligation. intros. apply object_call_frame. Qed.
Next Obligation. intros. apply object_call_frame. Qed.
Next Obligation.
  intros name body ct w. unfold bucket_Put, object_call.
  destruct (default Fine (head (w_objfaults w))); simpl; try done. intros _. apply lookup_insert_eq.
Qed.
Next Obligation.
  intros name other body ct w Hne. unfold bucket_Put, object_call.
  destruct (default Fine (head (w_objfaults w))); simpl; try done; by rewrite lookup_insert_ne.
Qed.
Next Obligation.
  intros name w body. unfold bucket_Get, object_call.
  destruct (default Fine (head (w_objfaults w))); simpl; try done;
    destruct (w_objects w !! name) eqn:Hl; simpl; try done. by intros [= ->].
Qed.
Next Obligation.
  intros name w body Hr Hh. unfold bucket_Get, object_call. simpl in *. rewrite Hr. simpl.
  by rewrite Hh.
Qed.
Next Obligation. intros. apply object_call_frame. Qed.
Next Obligation.
  intros names name w Hn. unfold bucket_Delete, object_call.
  destruct (default Fine (head (w_objfaults w))); simpl; try done;
    (induction names as [|x names IH]; simpl; [done|]; apply not_elem_of_cons in Hn as [Hne Hn];
     rewrite lookup_delete_ne by done; by apply IH).
Qed.
Next Obligation. intros w w' name He. simpl. by rewrite He. Qed.
End Bucket.

(** ** Theorems *)

(** C37: a placement keeps the result in exactly one place: inline or under the reference, never
    in both, so the table's CHECK on the two columns cannot fire; and a later [Resolve] of what
    was stored gives the result back, as long as the object is kept and requests get through. *)
Theorem place_then_resolve `{!Objects} (s : ResultStore) agent k result w :
  ∃ p, (Place s agent k result w).1 = inr p ∧
    (Inline p = EmptyString ∨ p_Ref p = EmptyString) ∧
    ∀ w', reachable w' →
      holds w' (Ref agent k) = holds (Place s agent k result w).2 (Ref agent k) →
      (Resolve s (Inline p) (p_Ref p) w').1 = inr result.
Proof.
  destruct (Place_spec s agent k result w) as (p & Hp & _ & Hc). exists p. split; [done|].
  destruct Hc as [[Hi Hr]|(Hi & Hr & Hconf & _ & Hh)]; rewrite Hi, Hr.
  - split; [by right|]. intros w' _ _. done.
  - split; [by left|]. intros w' Hre Hk. unfold Resolve.
    destruct (String.eqb_spec (Ref agent k) "") as [He|]; [by destruct (Ref_nonempty agent k)|].
    rewrite Hconf. simpl. apply Get_reachable; [done|]. by rewrite Hk.
Qed.

Lemma place_then_resolve_witness :
  let s := mkResultStore true 3 in
  let w1 := (Place s "a" "k" "[1,2,3]" (world_of empty_db)).2 in
  (Resolve s "" (Ref "a" "k") w1).1 = inr "[1,2,3]" ∧ w_objects w1 !! Ref "a" "k" = Some "[1,2,3]".
Proof.
  intros s w1.
  destruct (place_then_resolve s "a" "k" "[1,2,3]" (world_of empty_db)) as (p & Hp & _ & Hr).
  assert (Hpl : p = mkPlacement "" (Ref "a" "k") true false).
  { assert (inr p = (inr (mkPlacement "" (Ref "a" "k") true false) : goerr + Placement)) as [= ->]; [|done].
    rewrite <- Hp. reflexivity. }
  subst p. split; [exact (Hr w1 eq_refl eq_refl)|]. unfold w1. apply lookup_insert_eq.
Defined.
