(* ===== verification/ObjectStore.v ===== *)
(** * ObjectStore: internal/objectstore

    The client of the object storage over the MinIO library.  The library is the class [Minio]:
    its calls and what they mean for the objects of a bucket.  [client_objects] shows that the
    client is an [Objects], so that what ResultStore.v and Archive.v prove of that interface
    holds of it. *)

From S2P Require Import Prelude GoString Sha256 World ResultStore.

(** ** The library *)

(** [code] is [minio.ToErrorResponse(err).Code]. *)
Class Minio := {
  BucketExists : string → M bool;
  MakeBucket : string → M unit;
  PutObject : string → string → string → string → M unit;
  GetObject : string → string → M unit;
  ReadAll : string → string → M string;
  RemoveObject : string → string → M unit;
  code : goerr → string;
  bucket_there : world → string → Prop;
  stored : world → string → string → option string;
  available : world → Prop;
  BucketExists_frame b w : obj_frame w (BucketExists b w).2;
  BucketExists_there b w : (BucketExists b w).1 = inr true → bucket_there (BucketExists b w).2 b;
  MakeBucket_frame b w : obj_frame w (MakeBucket b w).2;
  MakeBucket_there b w : (MakeBucket b w).1 = inr tt → bucket_there (MakeBucket b w).2 b;
  PutObject_frame b n body ct w : obj_frame w (PutObject b n body ct w).2;
  PutObject_stored b n body ct w :
    (PutObject b n body ct w).1 = inr tt → stored (PutObject b n body ct w).2 b n = Some body;
  PutObject_others b n m body ct w : m ≠ n → stored (PutObject b n body ct w).2 b m = stored w b m;
  GetObject_frame b n w : obj_frame w (GetObject b n w).2;
  GetObject_reads b n m w : stored (GetObject b n w).2 b m = stored w b m;
  GetObject_available b n w : available w → (GetObject b n w).1 = inr tt ∧ available (GetObject b n w).2;
  ReadAll_frame b n w : obj_frame w (ReadAll b n w).2;
  ReadAll_stored b n body w : (ReadAll b n w).1 = inr body → stored w b n = Some body;
  ReadAll_available b n body w : available w → stored w b n = Some body → (ReadAll b n w).1 = inr body;
  RemoveObject_frame b n w : obj_frame w (RemoveObject b n w).2;
  RemoveObject_gone b n w : (RemoveObject b n w).1 = inr tt → stored (RemoveObject b n w).2 b n = None;
  RemoveObject_missing b n w e :
    (RemoveObject b n w).1 = inl e → code e = "NoSuchKey" → stored (RemoveObject b n w).2 b n = None;
  RemoveObject_others b n m w : m ≠ n → stored (RemoveObject b n w).2 b m = stored w b m;
  stored_own w w' b n : w_objects w' = w_objects w → stored w' b n = stored w b n;
}.

(** ** The client *)

Record Options := mkOptions {
  Endpoint : string;
  Bucket : string;
  AccessKey : string;
  SecretKey : string;
  UseSSL : bool;
}.

Definition Configured (o : Options) : bool :=
  negb (String.eqb (Endpoint o) "") && negb (String.eqb (Bucket o) "").

Record ObjectClient := mkObjectClient { oc_bucket : string }.

Section Client.
Context `{!Minio}.

(** [New]; [dialled] is the error of [minio.New], which looks at the endpoint only. *)
Definition New (dialled : option goerr) (opts : Options) : M (option ObjectClient) :=
  if negb (Configured opts) then mret None
  else
    match dialled with
    | Some e => throw (wrap "connect object storage" e)
    | None =>
        exists_ ← wrapping ("check bucket " +:+ Bucket opts) (BucketExists (Bucket opts));
        _ ← (if negb exists_ then wrapping ("create bucket " +:+ Bucket opts) (MakeBucket (Bucket opts))
             else mret tt);
        mret (Some (mkObjectClient (Bucket opts)))
    end.

Context (c : ObjectClient).

Definition client_Put (name body contentType : string) : M unit :=
  wrapping ("upload " +:+ name) (PutObject (oc_bucket c) name body contentType).

Definition client_Get (name : string) : M string :=
  _ ← wrapping ("fetch " +:+ name) (GetObject (oc_bucket c) name);
  wrapping ("read " +:+ name) (ReadAll (oc_bucket c) name).

Fixpoint client_Delete (names : list string) : M unit :=
  match names with
  | [] => mret tt
  | name :: rest =>
      removed ← try (RemoveObject (oc_bucket c) name);
      match removed with
      | inl e => if negb (String.eqb (code e) "NoSuchKey") then throw (wrap ("delete " +:+ name) e)
                 else client_Delete rest
      | inr _ => client_Delete rest
      end
  end.

(** ** Lemmas *)

#[export] Instance obj_frame_preorder : PreOrder obj_frame.
Proof.
  split; [intros w; apply obj_frame_refl|]. unfold obj_frame. intros w1 w2 w3 H1 H2.
  rewrite H2, H1. by destruct w1.
Qed.

#[local] Hint Resolve PutObject_frame GetObject_frame ReadAll_frame RemoveObject_frame BucketExists_frame
  MakeBucket_frame : core.

Lemma frame_of {A} (m : M A) : (∀ w, obj_frame w (m w).2) → frames obj_frame m.
Proof. done. Qed.

Lemma client_Put_frame name body ct : frames obj_frame (client_Put name body ct).
Proof. apply frames_wrapping; by apply frame_of. Qed.

Lemma client_Get_frame name : frames obj_frame (client_Get name).
Proof.
  apply frames_bind; [typeclasses eauto| |intros []]; apply frames_wrapping; by apply frame_of.
Qed.

Lemma client_Delete_frame names : frames obj_frame (client_Delete names).
Proof.
  induction names as [|n names IH]; simpl; [apply frames_ret; typeclasses eauto|].
  apply frames_bind; [typeclasses eauto|apply frames_try; by apply frame_of|].
  intros [e|[]]; [|exact IH]. destruct (negb _); [apply frames_throw; typeclasses eauto|exact IH].
Qed.

(** The names up to the first that cannot be removed are gone and nothing else is. *)
Lemma client_Delete_spec names : ∀ w,
  let '(r, w') := client_Delete names w in
  (∀ m, m ∉ names → stored w' (oc_bucket c) m = stored w (oc_bucket c) m) ∧
  match r with
  | inr _ => ∀ n, n ∈ names → stored w' (oc_bucket c) n = None
  | inl _ => ∃ gone failed rest, names = gone ++ failed :: rest ∧
      (∀ n, n ∈ gone → n ≠ failed → stored w' (oc_bucket c) n = None) ∧
      (∀ m, m ∉ gone → m ≠ failed → stored w' (oc_bucket c) m = stored w (oc_bucket c) m)
  end.
Proof.
  induction names as [|n names IH]; intros w; cbn [client_Delete].
  { split; [done|]. by intros n ?%not_elem_of_nil. }
  destruct (RemoveObject (oc_bucket c) n w) as [r1 w1] eqn:E. rewrite (bind_inr _ _ _ _ _ (try_eq _ _ _ _ E)).
  pose proof (RemoveObject_others (oc_bucket c) n) as Ho. specialize (λ m, Ho m w). rewrite E in Ho. simpl in Ho.
  assert (Hgo : stored w1 (oc_bucket c) n = None →
    let '(r, w') := client_Delete names w1 in
    (∀ m, m ∉ n :: names → stored w' (oc_bucket c) m = stored w (oc_bucket c) m) ∧
    match r with
    | inr _ => ∀ x, x ∈ n :: names → stored w' (oc_bucket c) x = None
    | inl _ => ∃ gone failed rest, n :: names = gone ++ failed :: rest ∧
        (∀ x, x ∈ gone → x ≠ failed → stored w' (oc_bucket c) x = None) ∧
        (∀ m, m ∉ gone → m ≠ failed → stored w' (oc_bucket c) m = stored w (oc_bucket c) m)
    end).
  { intros Hgone. specialize (IH w1). destruct (client_Delete names w1) as [r w']. destruct IH as [Hk Hr]. split.
    { intros m [Hne Hin]%not_elem_of_cons. rewrite Hk, Ho; done. }
    destruct r as [e|[]].
    - destruct Hr as (gone & failed & rest & -> & Hg & Hm). exists (n :: gone), failed, rest. split_and!; [done| |].
      + intros x [->|Hx]%elem_of_cons Hne; [|by apply Hg].
        destruct (decide (n ∈ gone)); [by apply Hg|]. by rewrite Hm.
      + intros m [Hne Hin]%not_elem_of_cons Hf. rewrite Hm, Ho; done.
    - intros x [->|Hx]%elem_of_cons; [|by apply Hr].
      destruct (decide (n ∈ names)); [by apply Hr|]. by rewrite Hk. }
  destruct r1 as [e|[]].
  - destruct (String.eqb_spec (code e) "NoSuchKey") as [Hc|Hc]; simpl.
    + apply Hgo. pose proof (RemoveObject_missing (oc_bucket c) n w e) as Hm. rewrite E in Hm. by apply Hm.
    + split.
      * intros m [Hne _]%not_elem_of_cons. by apply Ho.
      * exists [], n, names. split_and!; [done|by intros x ?%not_elem_of_nil|]. intros m _ Hne. by apply Ho.
  - apply Hgo. pose proof (RemoveObject_gone (oc_bucket c) n w) as Hm. rewrite E in Hm. by apply Hm.
Qed.

(** The client is the interface that the result store and the archive are written against. *)
#[export] Program Instance client_objects : Objects := {|
  Put := client_Put;
  Get := client_Get;
  Delete_objects := client_Delete;
  holds := λ w, stored w (oc_bucket c);
  reachable := available;
|}.
Next Obligation. intros. apply client_Put_frame. Qed.
Next Obligation. intros. apply client_Get_frame. Qed.
Next Obligation.
  intros name body ct w. unfold client_Put, wrapping. pose proof (PutObject_stored (oc_bucket c) name body ct w) as Hx.
  destruct (PutObject _ _ _ _ w) as [[e|[]] w']; [done|exact Hx].
Qed.
Next Obligation.
  intros name other body ct w Hne. unfold client_Put, wrapping.
  pose proof (PutObject_others (oc_bucket c) name other body ct w Hne) as Hx.
  by destruct (PutObject _ _ _ _ w) as [[e|[]] w'].
Qed.
Next Obligation.
  intros name w body. unfold client_Get, wrapping, mbind, St_bind.
  pose proof (GetObject_reads (oc_bucket c) name name w) as Hg.
  destruct (GetObject _ _ w) as [[e|[]] w1]; [done|]. simpl in Hg.
  pose proof (ReadAll_stored (oc_bucket c) name body w1) as Hr.
  destruct (ReadAll _ _ w1) as [[e|b] w2]; [done|]. intros [= ->]. rewrite <- Hg. by apply Hr.
Qed.
Next Obligation.
  intros name w body Ha Hs. unfold client_Get, wrapping, mbind, St_bind.
  pose proof (GetObject_reads (oc_bucket c) name name w) as Hg.
  destruct (GetObject_available (oc_bucket c) name w Ha) as [Hok Ha1].
  destruct (GetObject _ _ w) as [r w1]. simpl in *. subst r.
  rewrite <- Hg in Hs. pose proof (ReadAll_available (oc_bucket c) name body w1 Ha1 Hs) as Hr.
  destruct (ReadAll _ _ w1) as [r w2]. simpl in *. by subst r.
Qed.
Next Obligation. intros. apply client_Delete_frame. Qed.
Next Obligation.
  intros names name w Hn. pose proof (client_Delete_spec names w) as Hx.
  destruct (client_Delete names w) as [r w']. by apply Hx.
Qed.
Next Obligation. intros w w' name. apply stored_own. Qed.
End Client.

(** ** Theorem *)

(** The object store client: [New] gives no client exactly when nothing is configured, and a client only
    for a bucket that is there; a [Delete] that reports success leaves none of the names,
    those already gone included, and one that fails has removed the names before the one it
    failed on and has touched no other object but that one. *)
Theorem object_client_exact `{!Minio} (dialled : option goerr) (opts : Options) (c : ObjectClient)
    (names : list string) (w : world) :
  (match New dialled opts w with
   | (inr None, w') => Configured opts = false ∧ w' = w
   | (inr (Some client), w') => Configured opts = true ∧ oc_bucket client = Bucket opts ∧ bucket_there w' (Bucket opts)
   | (inl _, _) => Configured opts = true
   end) ∧
  (let '(r, w') := client_Delete c names w in
   (∀ m, m ∉ names → stored w' (oc_bucket c) m = stored w (oc_bucket c) m) ∧
   match r with
   | inr _ => ∀ n, n ∈ names → stored w' (oc_bucket c) n = None
   | inl _ => ∃ gone failed rest, names = gone ++ failed :: rest ∧
       (∀ n, n ∈ gone → n ≠ failed → stored w' (oc_bucket c) n = None) ∧
       (∀ m, m ∉ gone → m ≠ failed → stored w' (oc_bucket c) m = stored w (oc_bucket c) m)
   end).
Proof.
  split; [|apply client_Delete_spec]. unfold New. destruct (Configured opts); [|done]. cbn [negb].
  destruct dialled as [e|]; [done|]. unfold wrapping, mbind, St_bind.
  pose proof (BucketExists_there (Bucket opts) w) as Hb.
  destruct (BucketExists (Bucket opts) w) as [[e|[]] w1]; simpl in *; [done|by split_and!; auto|].
  pose proof (MakeBucket_there (Bucket opts) w1) as Hm.
  destruct (MakeBucket (Bucket opts) w1) as [[e|[]] w2]; simpl in *; [done|by split_and!; auto].
Qed.

(** ** A library over the objects of the world *)

Definition object_name (b n : string) : string := b +:+ "/" +:+ n.

Lemma object_name_inj b n m : object_name b n = object_name b m → n = m.
Proof. unfold object_name. intros H%append_inj_r. by apply append_inj_r in H. Qed.

Definition missing : goerr := errorf "NoSuchKey".

(** A removal says when there was nothing to remove; other errors come from the network. *)
Definition demo_remove (b n : string) : M unit :=
  there ← gets (λ w, w_objects w !! object_name b n);
  _ ← wrapping "network" (object_call (λ m, inr (tt, delete (object_name b n) m)));
  match there with Some _ => mret tt | None => throw missing end.

Lemma demo_remove_frame b n w : obj_frame w (demo_remove b n w).2.
Proof.
  unfold demo_remove, gets, wrapping, mbind, St_bind. pose proof (object_call_frame (λ m, inr (tt, delete (object_name b n) m)) w) as Hf.
  destruct (object_call _ w) as [[e|[]] w1]; [exact Hf|]. by destruct (w_objects w !! object_name b n).
Qed.

Lemma demo_remove_runs b n w :
  let '(r, w') := demo_remove b n w in
  (w_objects w' = w_objects w ∧ ∃ e text, r = inl e ∧ e_text e = "network: " +:+ text) ∨
  w_objects w' = delete (object_name b n) (w_objects w) ∧
    match r with inl e => (∃ text, e_text e = "network: " +:+ text) ∨ e = missing | inr _ => True end.
Proof.
  unfold demo_remove, gets, wrapping, mbind, St_bind, object_call.
  destruct (default Fine (head (w_objfaults w))) as [|e|e]; simpl.
  - destruct (w_objects w !! object_name b n); simpl; auto.
  - left. split; [done|]. by eexists _, _.
  - right. split; [done|]. left. by eexists.
Qed.

Section Library.
#[export] Program Instance demo_minio : Minio := {|
  BucketExists b := object_call (λ m, inr (true, m));
  MakeBucket b := object_call (λ m, inr (tt, m));
  PutObject b n body ct := object_call (λ m, inr (tt, <[object_name b n := body]> m));
  GetObject b n := object_call (λ m, inr (tt, m));
  ReadAll b n := object_call (λ m, match m !! object_name b n with Some x => inr (x, m) | None => inl missing end);
  RemoveObject b n := demo_remove b n;
  code e := e_text e;
  bucket_there _ _ := True;
  stored w b n := w_objects w !! object_name b n;
  available w := w_objfaults w = [];
|}.
Next Obligation. intros. apply object_call_frame. Qed.
Next Obligation. done. Qed.
Next Obligation. intros. apply object_call_frame. Qed.
Next Obligation. done. Qed.
Next Obligation. intros. apply object_call_frame. Qed.
Next Obligation.
  intros b n body ct w. unfold object_call. destruct (default Fine _); simpl; try done. intros _. apply lookup_insert_eq.
Qed.
Next Obligation.
  intros b n m body ct w Hne. unfold object_call.
  destruct (default Fine _); simpl; try done; rewrite lookup_insert_ne; try done; by intros ?%object_name_inj.
Qed.
Next Obligation. intros. apply object_call_frame. Qed.
Next Obligation. intros b n m w. unfold object_call. by destruct (default Fine _). Qed.
Next Obligation. intros b n w Ha. simpl in Ha. unfold object_call. rewrite Ha. done. Qed.
Next Obligation. intros. apply object_call_frame. Qed.
Next Obligation.
  intros b n body w. unfold object_call. destruct (default Fine _); simpl; try done;
    destruct (w_objects w !! object_name b n); simpl; try done. by intros [= ->].
Qed.
Next Obligation.
  intros b n body w Ha Hs. simpl in Ha, Hs. unfold object_call. rewrite Ha. simpl. by rewrite Hs.
Qed.
Next Obligation. intros. apply demo_remove_frame. Qed.
Next Obligation.
  intros b n w Hr. simpl. pose proof (demo_remove_runs b n w) as H. destruct (demo_remove b n w) as [r w']. simpl in *.
  destruct H as [[_ (e & text & -> & _)]|[-> _]]; [done|]. apply lookup_delete_eq.
Qed.
Next Obligation.
  intros b n w e Hr Hc. simpl in *. pose proof (demo_remove_runs b n w) as H. destruct (demo_remove b n w) as [r w']. simpl in *.
  subst r. destruct H as [[_ (e' & text & [= <-] & Ht)]|[-> _]]; [|apply lookup_delete_eq].
  by rewrite Ht in Hc.
Qed.
Next Obligation.
  intros b n m w Hne. simpl. pose proof (demo_remove_runs b n w) as H. destruct (demo_remove b n w) as [r w']. simpl in *.
  destruct H as [[-> _]|[-> _]]; [done|]. rewrite lookup_delete_ne; [done|]. by intros ->%object_name_inj.
Qed.
Next Obligation. intros w w' b n He. simpl. by rewrite He. Qed.
End Library.

(** The second of three names is gone already; the store of results over the client. *)
Lemma object_client_exact_witness :
  let c := mkObjectClient "b" in
  let w := set_objects (<[object_name "b" "x" := "1"]> {[object_name "b" "z" := "3"]}) (world_of empty_db) in
  (client_Delete c ["x"; "y"; "z"] w).1 = inr tt ∧
  stored (client_Delete c ["x"; "y"; "z"] w).2 "b" "y" = None ∧
  (@Place (client_objects c) (mkResultStore true 3) "a" "k" "[1,2,3]" w).1 = inr (mkPlacement "" (Ref "a" "k") true false).
Proof.
  intros c w. assert (Hr : (client_Delete c ["x"; "y"; "z"] w).1 = inr tt) by (vm_compute; reflexivity).
  split; [exact Hr|]. split; [|vm_compute; reflexivity].
  destruct (object_client_exact None (mkOptions "e" "b" "" "" false) c ["x"; "y"; "z"] w) as [_ Hd].
  destruct (client_Delete c ["x"; "y"; "z"] w) as [r w']. simpl in Hr. subst r. destruct Hd as [_ Hd].
  apply Hd. right. left.
Defined.
