(* ===== verification/Retention.v ===== *)
(** * Retention: internal/maintenance/retention.go

    Keys past retention are deleted in batches, and the objects their rows name after them;
    partitions past retention are detached, archived and only then dropped.  The catalog of
    partitions and the script of the archiver stand beside the world.  During a retirement no
    other replica changes the catalog; the program takes no lock for it. *)

From S2P Require Import Prelude GoString Sha256 Manifest Conflict World ResultStore.

(** ** Data *)

Record Partitioned := mkPartitioned { Name : string; Layout : string; Days : Z; Months : Z }.

Definition Tables : list Partitioned :=
  [mkPartitioned "write_intents" "20060102" 7 0;
   mkPartitioned "conflicts" "20060102" 7 0;
   mkPartitioned "payload_access_audit" "200601" 0 1].

Record Retention := mkRetention {
  Keys : Z;
  Intents : Z;
  Conflicts : Z;
  Audit : Z;
  RowsPerSecond : Z;
}.

Definition window (r : Retention) (table : string) : Z :=
  if String.eqb table "write_intents" then Intents r
  else if String.eqb table "conflicts" then Conflicts r
  else Audit r.

Definition batchSize : nat := 1000.

Definition ctx_canceled : goerr := errorf "context canceled".

(** ** Keys *)

Definition key_expired (hot : Z) (d : DB) (r : key_row) : Prop :=
  k_created r < db_now d - interval_us hot.
#[export] Instance key_expired_dec hot d r : Decision (key_expired hot d r).
Proof. unfold key_expired. apply _. Defined.

Section Expiry.
(** The order in which the server scans the rows, which the statement leaves open. *)
Context (scan : DB → list ((string * string) * key_row)).
Context `{!Objects} (results : option ResultStore).

Definition expireKeys (hot : Z) (limit : nat) : stmt (list (option string)) := λ d,
  let expired := take limit (filter (λ x, key_expired hot d x.2) (scan d)) in
  inr ((λ x, k_ref x.2) <$> expired, set_keys (λ m, foldr delete m (expired.*1)) d).

Definition named (ref : option string) : option string :=
  match ref with
  | Some name => if String.eqb name "" then None else Some name
  | None => None
  end.

(** The references and the count; on an error the caller uses neither. *)
Definition expireBatch (hot : Z) : M (list string * Z) :=
  rows ← wrapping "expire keys" (query (expireKeys hot batchSize));
  let refs := omap named rows in
  _ ← (match results with
       | Some store =>
           if (0 <? length refs)%nat then wrapping "delete expired results" (Delete store refs)
           else mret tt
       | None => mret tt
       end);
  mret (refs, Z.of_nat (length rows)).

(** The loop of [ExpireKeys]: what it returns, unless the fuel runs out. *)
Fixpoint expire_loop (fuel : nat) (hot deadline deleted : Z) : M (option (Z * option goerr)) :=
  match fuel with
  | O => mret None
  | S f =>
      t ← now;
      if negb (t <? deadline) then mret (Some (deleted, None))
      else
        r ← try (expireBatch hot);
        match r with
        | inl e => mret (Some (deleted, Some e))
        | inr (_, batch) =>
            let deleted := deleted + batch in
            if batch <? Z.of_nat batchSize then mret (Some (deleted, None))
            else
              cancelled ← ctx_done;
              if (cancelled : bool) then mret (Some (deleted, Some ctx_canceled))
              else
                _ ← interleave;
                expire_loop f hot deadline deleted
        end
  end.

Definition ExpireKeys (fuel : nat) (r : Retention) (budget : Z) : M (option (Z * option goerr)) :=
  started ← now;
  expire_loop fuel (Keys r) (started + budget) 0.
End Expiry.

(** ** Partitions *)

(** A partition and its bounds in microseconds, none for a default partition. *)
Record partition := mkPartition { pt_table : string; pt_name : string; pt_bounds : option (Z * Z) }.

Definition pt_upper (p : partition) : option Z := snd <$> pt_bounds p.

#[export] Instance partition_eq_dec : EqDecision partition.
Proof. solve_decision. Defined.

(** What is attached, what is detached and kept, which exports completed, and how the next ones
    end. *)
Record catalog := mkCatalog {
  attached : list partition;
  detached : list partition;
  archives : list (string * string);
  exports : list (option goerr);
}.

Record mworld := mkMWorld { m_world : world; m_cat : catalog }.

Abbreviation MM := (St mworld).

Definition lift {A} (m : M A) : MM A := λ s,
  let '(r, w) := m (m_world s) in (r, mkMWorld w (m_cat s)).

(** A statement on the catalog, in a transaction of its own. *)
Definition ddl {A} (f : catalog → goerr + (A * catalog)) : MM A := λ s,
  let w := m_world s in
  let w1 := set_faults (tail (w_faults w)) w in
  match default Fine (head (w_faults w)) with
  | Refused e => (inl e, mkMWorld w1 (m_cat s))
  | flt => match f (m_cat s) with
           | inl e => (inl e, mkMWorld w1 (m_cat s))
           | inr (x, c) =>
               (match flt with LostAck e => inl e | _ => inr x end, mkMWorld w1 c)
           end
  end.

Definition undefined_table (name : string) : goerr :=
  mkErr (PgError "42P01") ("relation " +:+ name +:+ " does not exist").

Definition is_part (table name : string) (p : partition) : Prop :=
  pt_table p = table ∧ pt_name p = name.
#[export] Instance is_part_dec table name p : Decision (is_part table name p).
Proof. unfold is_part. apply _. Defined.

Definition expiredPartitions (table : string) (c : catalog) :
    goerr + (list (string * option Z) * catalog) :=
  inr ((λ p, (pt_name p, pt_upper p)) <$> filter (λ p, pt_table p = table) (attached c), c).

Definition detach (table name : string) (c : catalog) : goerr + (unit * catalog) :=
  match filter (is_part table name) (attached c) with
  | [] => inl (undefined_table name)
  | found =>
      inr (tt, mkCatalog (filter (λ p, ¬ is_part table name p) (attached c)) (detached c ++ found)
                 (archives c) (exports c))
  end.

Definition drop_table (name : string) (c : catalog) : goerr + (unit * catalog) :=
  if existsb (λ p, String.eqb (pt_name p) name) (attached c ++ detached c)
  then inr (tt, mkCatalog (filter (λ p, pt_name p ≠ name) (attached c))
                  (filter (λ p, pt_name p ≠ name) (detached c)) (archives c) (exports c))
  else inl (undefined_table name).

(** The archiver: the next export completes or fails. *)
Definition Archive (table name : string) : MM unit := λ s,
  let c := m_cat s in
  match default None (head (exports c)) with
  | None => (inr tt, mkMWorld (m_world s)
      (mkCatalog (attached c) (detached c) (archives c ++ [(table, name)]) (tail (exports c))))
  | Some e => (inl e, mkMWorld (m_world s)
      (mkCatalog (attached c) (detached c) (archives c) (tail (exports c))))
  end.

Record Retired := mkRetired { Table : string; Partition : string; Archived : bool }.

Section Retirement.
(** Whether an archiver is configured. *)
Context (archiver : bool) (r : Retention).

(** The scan of the listed bounds; a bound that is NULL does not scan into a time. *)
Fixpoint scan_bounds (table : string) (cutoff : Z) (rows : list (string * option Z)) :
    goerr + list string :=
  match rows with
  | [] => inr []
  | (name, None) :: _ => inl (errorf ("scan " +:+ table +:+ " partition: cannot scan NULL"))
  | (name, Some upper) :: rest =>
      match scan_bounds table cutoff rest with
      | inl e => inl e
      | inr names => inr (if upper * 1000 <=? cutoff then name :: names else names)
      end
  end.

Definition expired (table : string) (cutoff : Z) : MM (list string) :=
  rows ← wrapping ("list " +:+ table +:+ " partitions") (ddl (expiredPartitions table));
  match scan_bounds table cutoff rows with
  | inl e => throw e
  | inr names => mret names
  end.

(** The inner loop of [RetireExpired]: the list so far and the error that ends it. *)
Fixpoint retire_partitions (table : string) (names : list string) (retired : list Retired) :
    MM (list Retired * option goerr) :=
  match names with
  | [] => mret (retired, None)
  | name :: rest =>
      if negb archiver then retire_partitions table rest retired
      else
        d ← try (wrapping ("detach " +:+ name) (ddl (detach table name)));
        match d with
        | inl e => mret (retired, Some e)
        | inr _ =>
            a ← try (Archive table name);
            match a with
            | inl _ => retire_partitions table rest (retired ++ [mkRetired table name false])
            | inr _ =>
                x ← try (wrapping ("drop " +:+ name) (ddl (drop_table name)));
                match x with
                | inl e => mret (retired, Some e)
                | inr _ => retire_partitions table rest (retired ++ [mkRetired table name true])
                end
            end
        end
  end.

Fixpoint retire_tables (tables : list Partitioned) (retired : list Retired) :
    MM (list Retired * option goerr) :=
  match tables with
  | [] => mret (retired, None)
  | t :: rest =>
      started ← lift now;
      names ← try (expired (Name t) (started - window r (Name t)));
      match names with
      | inl e => mret (retired, Some e)
      | inr names =>
          '(retired, err) ← retire_partitions (Name t) names retired;
          match err with
          | Some e => mret (retired, Some e)
          | None => retire_tables rest retired
          end
      end
  end.

Definition RetireExpired : MM (list Retired * option goerr) := retire_tables Tables [].
End Retirement.

(** ** Expiry *)

Section Swept.
Context (scan : DB → list ((string * string) * key_row)).
Context (scan_rows : ∀ d, scan d ≡ₚ map_to_list (db_keys d)).
Context `{!Objects} (results : option ResultStore) (hot : Z).
Implicit Types (w : world) (key : string * string).

(** A row was there and no longer is. *)
Definition gone w w' key (r : key_row) : Prop :=
  db_keys (w_db w) !! key = Some r ∧ db_keys (w_db w') !! key = None.

(** Between two worlds [n] keys were deleted, all of them expired, and nothing else of the
    tables changed; objects went only when the row that names them did. *)
Record swept w w' (n : nat) : Prop := {
  sw_keys : db_keys (w_db w') ⊆ db_keys (w_db w);
  sw_size : (size (db_keys (w_db w')) + n = size (db_keys (w_db w)))%nat;
  sw_gone key r : gone w w' key r → key_expired hot (w_db w) r;
  sw_rest : w_db w' = set_keys (λ _, db_keys (w_db w')) (w_db w);
  sw_objects name :
    holds w' name = holds w name ∨ ∃ key r, gone w w' key r ∧ k_ref r = Some name;
  sw_env : w_env w' = w_env w;
  sw_clock : later w w';
}.

Lemma swept_same w w' :
  w_db w' = w_db w → w_objects w' = w_objects w → w_env w' = w_env w → later w w' → swept w w' 0.
Proof.
  intros Hd Ho He Hc. split; rewrite ?Hd; try done.
  - intros key r [H1 H2]. congruence.
  - by destruct (w_db w).
  - intros name. left. by apply holds_own.
Qed.

Lemma swept_trans w1 w2 w3 n m : swept w1 w2 n → swept w2 w3 m → swept w1 w3 (n + m).
Proof.
  intros [K1 S1 G1 R1 O1 E1 C1] [K2 S2 G2 R2 O2 E2 C2].
  assert (Hsplit : ∀ key r, gone w1 w3 key r → gone w1 w2 key r ∨ gone w2 w3 key r).
  { intros key r [H1 H3]. destruct (db_keys (w_db w2) !! key) as [r2|] eqn:H2; [|by left].
    right. pose proof (lookup_weaken _ _ _ _ H2 K1). split; congruence. }
  assert (Hjoin : ∀ key r, gone w1 w2 key r ∨ gone w2 w3 key r → gone w1 w3 key r).
  { intros key r [[H1 H2]|[H2 H3]]; split; auto.
    - by eapply lookup_weaken_None.
    - by eapply lookup_weaken. }
  split.
  - by etrans.
  - lia.
  - intros key r [Hg|Hg]%Hsplit; [by eapply G1|]. apply G2 in Hg.
    unfold key_expired in *. by rewrite R1 in Hg.
  - rewrite R2 at 1. rewrite R1 at 1. done.
  - intros name. destruct (O2 name) as [->|(key & r & Hg & Hr)]; [|by eauto 10].
    destruct (O1 name) as [->|(key & r & Hg & Hr)]; [by left|by eauto 10].
  - congruence.
  - by eapply later_trans.
Qed.

(** Deleting the rows of a list without repetition. *)
Lemma delete_rows (m : gmap (string * string) key_row) (l : list ((string * string) * key_row)) :
  NoDup l.*1 → (∀ x, x ∈ l → m !! x.1 = Some x.2) →
  foldr delete m l.*1 ⊆ m ∧ (size (foldr delete m l.*1) + length l = size m)%nat ∧
  (∀ key, foldr delete m l.*1 !! key = None ↔ m !! key = None ∨ key ∈ l.*1).
Proof.
  induction l as [|[key r] l IH]; csimpl; intros Hnd Hin.
  { split_and!; [done|lia|]. intros key. rewrite elem_of_nil. tauto. }
  apply NoDup_cons in Hnd as [Hni Hnd].
  destruct IH as (Hsub & Hsize & Hnone); [done|intros x Hx; apply Hin; by right|].
  assert (Hkey : foldr delete m l.*1 !! key = Some r).
  { destruct (foldr delete m l.*1 !! key) as [r'|] eqn:He.
    - pose proof (lookup_weaken _ _ _ _ He Hsub). specialize (Hin (key, r) ltac:(by left)). simpl in *.
      congruence.
    - apply Hnone in He as [He|He]; [|done]. specialize (Hin (key, r) ltac:(by left)). simpl in *. congruence. }
  split_and!.
  - etrans; [apply delete_subseteq|done].
  - rewrite (map_size_delete_Some key (foldr delete m l.*1)) by (by exists r).
    assert (size (foldr delete m l.*1) ≠ 0%nat).
    { intros Hz%map_size_empty_inv. rewrite Hz, lookup_empty in Hkey. done. }
    lia.
  - intros k. rewrite elem_of_cons. destruct (decide (key = k)) as [->|Hne].
    + rewrite lookup_delete_eq. tauto.
    + rewrite lookup_delete_ne by done. rewrite Hnone. naive_solver.
Qed.

(** One statement: a list of expired rows goes, all of them unless the batch is full. *)
Lemma query_swept w res w' :
  query (expireKeys scan hot batchSize) w = (res, w') →
  ∃ l : list ((string * string) * key_row),
    swept w w' (length l) ∧ (length l <= batchSize)%nat ∧
    (∀ x, x ∈ l → gone w w' x.1 x.2) ∧
    match res with
    | inr rows => rows = (λ x, k_ref x.2) <$> l ∧
        ((length l < batchSize)%nat → ∀ key r, db_keys (w_db w') !! key = Some r → ¬ key_expired hot (w_db w') r)
    | inl _ => True
    end.
Proof.
  intros Hq. set (d := w_db w). set (f := filter (λ x, key_expired hot d x.2) (scan d)).
  set (l := take batchSize f).
  assert (Hnd : NoDup l.*1).
  { apply (sublist_NoDup _ (scan d).*1).
    - rewrite scan_rows. apply NoDup_fst_map_to_list.
    - apply fmap_sublist. etrans; [apply sublist_take|apply sublist_filter]. }
  assert (Hin : ∀ x, x ∈ l → db_keys d !! x.1 = Some x.2 ∧ key_expired hot d x.2).
  { intros [key r] Hx. apply elem_of_take in Hx as (i & Hi & _). apply list_elem_of_lookup_2 in Hi.
    apply list_elem_of_filter in Hi as [He Hi]. rewrite scan_rows in Hi. by apply elem_of_map_to_list in Hi. }
  destruct (delete_rows (db_keys d) l Hnd) as (Hsub & Hsize & Hnone); [intros x Hx; by apply Hin|].
  assert (Hstep : ∀ w1, w_db w1 = set_keys (λ m, foldr delete m l.*1) d → w_objects w1 = w_objects w →
    w_env w1 = w_env w → w_clock w1 = w_clock w →
    swept w w1 (length l) ∧ (length l <= batchSize)%nat ∧ (∀ x, x ∈ l → gone w w1 x.1 x.2) ∧
    ((length l < batchSize)%nat → ∀ key r, db_keys (w_db w1) !! key = Some r → ¬ key_expired hot (w_db w1) r)).
  { intros w1 Hd Ho He Hc. unfold gone. rewrite Hd. simpl. split_and!.
    - split; unfold gone; rewrite ?Hd; simpl; try done.
      + intros key r [H1 [H2|H2]%Hnone]; fold d in H1; [congruence|].
        apply list_elem_of_fmap in H2 as ([k' r'] & -> & Hx). apply Hin in Hx as [Hr Hx]. simpl in *.
        assert (r = r') as -> by congruence. done.
      + intros name. left. by apply holds_own.
      + by apply later_same.
    - unfold l. rewrite length_take. lia.
    - intros x Hx. split; [by apply Hin|]. apply Hnone. right. by apply list_elem_of_fmap_2.
    - intros Hlt key r Hr Hex. change (key_expired hot d r) in Hex.
      assert (Hx : (key, r) ∈ l).
      { unfold l in *. rewrite length_take in Hlt. rewrite take_ge by lia. apply list_elem_of_filter.
        split; [done|]. rewrite scan_rows. apply elem_of_map_to_list. by eapply lookup_weaken. }
      assert (foldr delete (db_keys d) l.*1 !! key = None) by (apply Hnone; right; by apply (list_elem_of_fmap_2 fst) in Hx).
      congruence. }
  specialize (Hstep (set_db (set_keys (λ m, foldr delete m l.*1) d) (set_faults (tail (w_faults w)) w))
    eq_refl eq_refl eq_refl eq_refl) as (? & ? & ? & ?).
  unfold query in Hq. change (expireKeys scan hot batchSize (w_db w)) with
    (inr ((λ x, k_ref x.2) <$> l, set_keys (λ m, foldr delete m l.*1) d) : goerr + (list (option string) * DB)) in Hq.
  destruct (default Fine (head (w_faults w))) as [|e|e]; injection Hq as <- <-.
  - exists l. by split_and!.
  - exists []. split_and!; [apply swept_same; [done..|by apply later_same]|simpl; lia|by intros x ?%not_elem_of_nil|done].
  - exists l. by split_and!.
Qed.

(** Objects that the deleted rows name may go. *)
Lemma swept_objects w w1 w2 n (names : list string) :
  swept w w1 n → obj_frame w1 w2 → (∀ name, name ∉ names → holds w2 name = holds w1 name) →
  (∀ name, name ∈ names → ∃ key r, gone w w1 key r ∧ k_ref r = Some name) → swept w w2 n.
Proof.
  unfold obj_frame. intros [K S G R O E C] Hf Hh Hn.
  assert (Hd : w_db w2 = w_db w1) by (by rewrite Hf).
  assert (Hg : ∀ key r, gone w w2 key r ↔ gone w w1 key r) by (intros; unfold gone; by rewrite Hd).
  split; rewrite ?Hd; try done.
  - intros key r Hgo. apply (G key), Hg, Hgo.
  - intros name. setoid_rewrite Hg. destruct (decide (name ∈ names)); [by right; apply Hn|].
    rewrite Hh by done. apply O.
  - by rewrite Hf.
  - destruct C as [j Hj]. exists j. intros i. rewrite <- Hj. by rewrite Hf.
Qed.

Definition none_expired w : Prop :=
  ∀ key r, db_keys (w_db w) !! key = Some r → ¬ key_expired hot (w_db w) r.

Lemma expireBatch_swept w :
  ∃ n, swept w (expireBatch scan results hot w).2 n ∧
    match (expireBatch scan results hot w).1 with
    | inr (_, count) => count = Z.of_nat n ∧ (n <= batchSize)%nat ∧
        ((n < batchSize)%nat → none_expired (expireBatch scan results hot w).2)
    | inl _ => True
    end.
Proof.
  unfold expireBatch. destruct (query (expireKeys scan hot batchSize) w) as [res w1] eqn:Hq.
  destruct (query_swept w res w1 Hq) as (l & Hs & Hle & Hgone & Hres). exists (length l).
  destruct res as [e|rows].
  { erewrite bind_inl by (unfold wrapping; by rewrite Hq). done. }
  erewrite bind_inr by (unfold wrapping; by rewrite Hq). simpl. destruct Hres as [-> Hnone].
  rewrite length_fmap. set (refs := omap named ((λ x, k_ref x.2) <$> l)).
  assert (Hrefs : ∀ name, name ∈ refs → ∃ key r, gone w w1 key r ∧ k_ref r = Some name).
  { intros name (ref & Hr & Hn)%list_elem_of_omap. apply list_elem_of_fmap in Hr as (x & -> & Hx).
    exists x.1, x.2. split; [by apply Hgone|]. unfold named in Hn.
    destruct (k_ref x.2) as [y|]; [|done]. by destruct (String.eqb_spec y ""); simplify_eq. }
  set (m := match results with Some _ => _ | None => _ end).
  assert (Hm : obj_frame w1 (m w1).2 ∧ ∀ name, name ∉ refs → holds (m w1).2 name = holds w1 name).
  { unfold m, wrapping, Delete. destruct results as [store|]; [|split; [apply obj_frame_refl|done]].
    destruct (0 <? length refs)%nat; [|split; [apply obj_frame_refl|done]].
    destruct (_ || _); [split; [apply obj_frame_refl|done]|].
    pose proof (Delete_frame refs w1). pose proof (λ name, Delete_others refs name w1).
    by destruct (Delete_objects refs w1) as [[e|[]] w2]. }
  destruct Hm as [Hf Hh]. pose proof (swept_objects w w1 _ _ refs Hs Hf Hh Hrefs) as Hs2.
  assert (Hd : w_db (m w1).2 = w_db w1) by (unfold obj_frame in Hf; by rewrite Hf).
  unfold mbind, St_bind. destruct (m w1) as [[e|[]] w2]; simpl in *; [done|].
  split_and!; try done. intros Hlt key r. rewrite Hd. by apply Hnone.
Qed.

Lemma expire_loop_swept deadline : ∀ fuel deleted w,
  w_env w = [] → (size (db_keys (w_db w)) < fuel)%nat →
  ∃ w' n m err, expire_loop scan results fuel hot deadline deleted w =
      (inr (Some (deleted + Z.of_nat m, err)), w') ∧
    swept w w' n ∧ (m <= n)%nat ∧
    (err = None → m = n ∧ (none_expired w' ∨ ∃ j, deadline <= w_clock w j)).
Proof.
  induction fuel as [|f IH]; intros deleted w Henv Hsize; [lia|]. cbn [expire_loop].
  set (w1 := (now w).2). erewrite bind_inr by done. fold w1.
  assert (H1 : swept w w1 0) by (apply swept_same; [done..|by exists 1%nat]).
  destruct (Z.ltb_spec (w_clock w 0%nat) deadline) as [Hlt|Hge]; cbn [negb].
  2: { exists w1, 0%nat, 0%nat, None. rewrite Z.add_0_r. split_and!; [done|done|lia|eauto]. }
  destruct (expireBatch_swept w1) as (n & H2 & Hres).
  destruct (expireBatch scan results hot w1) as [[e|[refs batch]] w2] eqn:Hb; simpl in Hres, H2.
  { erewrite bind_inr by (by apply try_eq). exists w2, n, 0%nat, (Some e). rewrite Z.add_0_r.
    pose proof (swept_trans _ _ _ _ _ H1 H2). split_and!; [done|done|lia|done]. }
  erewrite bind_inr by (by apply try_eq). destruct Hres as (-> & Hle & Hnone).
  pose proof (swept_trans _ _ _ _ _ H1 H2) as H12. simpl in H12.
  destruct (Z.ltb_spec (Z.of_nat n) (Z.of_nat batchSize)) as [Hn|Hn].
  { exists w2, n, n, None. split_and!; [done|done|lia|]. intros _. split; [done|]. left. apply Hnone. lia. }
  assert (H3 : swept w2 (ctx_done w2).2 0) by (apply swept_same; [done..|by apply later_same]).
  erewrite bind_inr by done. set (w3 := (ctx_done w2).2) in *. fold w3.
  pose proof (swept_trans _ _ _ _ _ H12 H3) as H13.
  destruct (default false (head (w_cancel w2))) eqn:Hc.
  { exists w3, (n + 0)%nat, n, (Some ctx_canceled). split_and!; [done|done|lia|done]. }
  assert (He3 : w_env w3 = []) by (by rewrite (sw_env _ _ _ H13)).
  assert (Hi : interleave w3 = (inr tt, w3)) by (unfold interleave; by rewrite He3).
  rewrite (bind_inr interleave _ w3 tt w3 Hi).
  destruct (IH (deleted + Z.of_nat n) w3 He3) as (w' & n' & m & err & Hrun & H4 & Hm & Herr).
  { pose proof (sw_size _ _ _ H13). assert (n = batchSize) by lia. unfold batchSize in *. lia. }
  exists w', (n + 0 + n')%nat, (n + m)%nat, err. rewrite Hrun. split_and!.
  - do 3 f_equal. by rewrite Nat2Z.inj_add, Z.add_assoc.
  - by eapply swept_trans.
  - lia.
  - intros Hnil. destruct (Herr Hnil) as [-> Hcase]. split; [lia|]. destruct Hcase as [?|[j Hj]]; [by left|].
    right. destruct (sw_clock _ _ _ H13) as [i Hj2]. exists (i + j)%nat. by rewrite <- Hj2.
Qed.
End Swept.

(** ** Retirement *)

(** Retiring partitions does not read the clock. *)
Definition same_clock (s s' : mworld) : Prop := w_clock (m_world s') = w_clock (m_world s).

#[export] Instance same_clock_preorder : PreOrder same_clock.
Proof. split; [done|]. intros s1 s2 s3 H1 H2. unfold same_clock in *. congruence. Qed.

Lemma ddl_clock {A} (f : catalog → goerr + (A * catalog)) : frames same_clock (ddl f).
Proof. intros s. unfold ddl. destruct (default Fine _), (f (m_cat s)) as [|[]]; done. Qed.

Lemma Archive_clock table name : frames same_clock (Archive table name).
Proof. intros s. unfold Archive. by destruct (default None _). Qed.

Lemma retire_partitions_clock archiver table names : ∀ retired,
  frames same_clock (retire_partitions archiver table names retired).
Proof.
  induction names as [|name names IH]; intros retired; cbn [retire_partitions].
  { apply frames_ret, _. }
  destruct archiver; [|apply IH]. apply frames_bind; [apply _|..]; [apply frames_try, frames_wrapping, ddl_clock|].
  intros [e|[]]; [apply frames_ret, _|]. apply frames_bind; [apply _|..]; [apply frames_try, Archive_clock|].
  intros [e|[]]; [apply IH|]. apply frames_bind; [apply _|..]; [apply frames_try, frames_wrapping, ddl_clock|].
  intros [e|[]]; [apply frames_ret, _|apply IH].
Qed.

(** Past its retention at one of the next [k] readings of the clock. *)
Definition past_retention (k : nat) (r : Retention) (s : mworld) (p : partition) : Prop :=
  ∃ upper j, pt_upper p = Some upper ∧ (j < k)%nat ∧
    upper * 1000 <= w_clock (m_world s) j - window r (pt_table p).

Section Retiring.
Context (archiver : bool) (r : Retention).
(** Which partitions may go. *)
Context (past : partition → Prop).
Implicit Types (s : mworld) (c : catalog) (p : partition).

Definition known c : list partition := attached c ++ detached c.

(** From [s] to [s'] tables were only detached or dropped: one that was dropped had been
    archived since [s], and one that is no longer attached was one that may go. *)
Record retired_to s s' : Prop := {
  rt_names : NoDup (pt_name <$> known (m_cat s'));
  rt_known p : p ∈ known (m_cat s') → p ∈ known (m_cat s);
  rt_attached p : p ∈ attached (m_cat s') → p ∈ attached (m_cat s);
  rt_detached p : p ∈ detached (m_cat s) → p ∈ detached (m_cat s');
  rt_dropped : ∃ new, archives (m_cat s') = archives (m_cat s) ++ new ∧
    ∀ p, p ∈ known (m_cat s) → p ∉ known (m_cat s') → (pt_table p, pt_name p) ∈ new;
  rt_past p : p ∈ attached (m_cat s) → p ∉ attached (m_cat s') → past p;
  rt_later : later (m_world s) (m_world s');
}.

Lemma retired_refl s s' :
  NoDup (pt_name <$> known (m_cat s)) → m_cat s' = m_cat s → later (m_world s) (m_world s') →
  retired_to s s'.
Proof.
  intros Hnd Hc Hl. split; rewrite ?Hc; try done. exists []. by rewrite app_nil_r.
Qed.

Lemma retired_trans s1 s2 s3 : retired_to s1 s2 → retired_to s2 s3 → retired_to s1 s3.
Proof.
  intros [N1 K1 A1 T1 (n1 & E1 & D1) P1 L1] [N2 K2 A2 T2 (n2 & E2 & D2) P2 L2]. split; auto.
  - exists (n1 ++ n2). rewrite E2, E1, app_assoc. split; [done|]. intros p Hp Hn. apply elem_of_app.
    destruct (decide (p ∈ known (m_cat s2))); auto.
  - intros p Hp Hn. destruct (decide (p ∈ attached (m_cat s2))); auto.
  - by eapply later_trans.
Qed.

(** A statement on the catalog runs in full or not at all. *)
Lemma ddl_cases {A} (f : catalog → goerr + (A * catalog)) s res s' :
  ddl f s = (res, s') →
  w_clock (m_world s') = w_clock (m_world s) ∧
  ((m_cat s' = m_cat s ∧ ∃ e, res = inl e) ∨
   ∃ x c, f (m_cat s) = inr (x, c) ∧ m_cat s' = c ∧ (res = inr x ∨ ∃ e, res = inl e)).
Proof.
  unfold ddl. destruct (default Fine (head (w_faults (m_world s)))) as [|e|e].
  2: { intros [= <- <-]. simpl. split; [done|]. left. eauto. }
  all: destruct (f (m_cat s)) as [e'|[x c]]; intros [= <- <-]; simpl; split; try done; [left|right]; eauto 10.
Qed.

(** Names are unique, so detaching or dropping by name means that one table. *)
Lemma named_once c p q :
  NoDup (pt_name <$> known c) → p ∈ known c → q ∈ known c → pt_name p = pt_name q → p = q.
Proof. apply image_once. Qed.

(** What [detach] does to a catalog. *)
Lemma detach_spec table name c c' :
  detach table name c = inr (tt, c') →
  archives c' = archives c ∧ known c' ≡ₚ known c ∧
  (∃ p, p ∈ attached c ∧ is_part table name p ∧ p ∈ detached c') ∧
  (∀ p, p ∈ attached c' ↔ p ∈ attached c ∧ ¬ is_part table name p) ∧
  (∀ p, p ∈ detached c' ↔ p ∈ detached c ∨ p ∈ attached c ∧ is_part table name p).
Proof.
  unfold detach. destruct (filter (is_part table name) (attached c)) as [|q l] eqn:Hf; [done|].
  intros [= <-]. unfold known. simpl. rewrite <- Hf. split_and!; [done| | |..].
  - rewrite (Permutation_app_comm (detached c)), app_assoc. f_equiv.
    rewrite Permutation_app_comm. apply filter_app_complement.
  - assert (Hq : q ∈ filter (is_part table name) (attached c)) by (rewrite Hf; by left).
    pose proof Hq as [? ?]%list_elem_of_filter. exists q. split_and!; try done. apply elem_of_app. by right.
  - intros p. rewrite list_elem_of_filter. tauto.
  - intros p. rewrite elem_of_app, list_elem_of_filter. tauto.
Qed.

Lemma drop_spec name c c' :
  drop_table name c = inr (tt, c') →
  archives c' = archives c ∧
  (NoDup (pt_name <$> known c) → NoDup (pt_name <$> known c')) ∧
  (∀ p, p ∈ attached c' ↔ p ∈ attached c ∧ pt_name p ≠ name) ∧
  (∀ p, p ∈ detached c' ↔ p ∈ detached c ∧ pt_name p ≠ name).
Proof.
  unfold drop_table. destruct (existsb _ _); [|done]. intros [= <-]. unfold known. simpl. split_and!; [done| |..].
  - rewrite <- filter_app. intros Hnd. eapply sublist_NoDup; [exact Hnd|]. apply fmap_sublist, sublist_filter.
  - intros p. rewrite list_elem_of_filter. tauto.
  - intros p. rewrite list_elem_of_filter. tauto.
Qed.

Lemma known_elem c p : p ∈ known c ↔ p ∈ attached c ∨ p ∈ detached c.
Proof. apply elem_of_app. Qed.

(** The tables with this name may be retired. *)
Definition may_retire s table name : Prop :=
  ∀ p, p ∈ attached (m_cat s) → is_part table name p → past p.

Lemma detached_ok s s' table name :
  NoDup (pt_name <$> known (m_cat s)) → may_retire s table name →
  detach table name (m_cat s) = inr (tt, m_cat s') → later (m_world s) (m_world s') →
  retired_to s s'.
Proof.
  intros Hnd Hmay (Har & Hkn & _ & Hat & Hde)%detach_spec Hl. split; try done.
  - by rewrite Hkn.
  - intros p. by rewrite Hkn.
  - intros p [? _]%Hat. done.
  - intros p Hp. apply Hde. by left.
  - exists []. rewrite app_nil_r. split; [done|]. intros p Hp Hn. by rewrite Hkn in Hn.
  - intros p Hp Hn. apply Hmay; [done|]. destruct (decide (is_part table name p)); [done|].
    by destruct Hn; apply Hat.
Qed.

(** Detached, archived and dropped: the one table of that name is gone. *)
Lemma dropped_ok s c1 c2 s' table name :
  NoDup (pt_name <$> known (m_cat s)) → may_retire s table name →
  detach table name (m_cat s) = inr (tt, c1) →
  attached c2 = attached c1 → detached c2 = detached c1 → archives c2 = archives c1 ++ [(table, name)] →
  drop_table name c2 = inr (tt, m_cat s') → later (m_world s) (m_world s') →
  retired_to s s' ∧ ∀ p, p ∈ known (m_cat s') → pt_name p ≠ name.
Proof.
  intros Hnd Hmay (Har & Hkn & (q & Hq & [Hqt Hqn] & _) & Hat & Hde)%detach_spec Ha Hd Hr
    (Har' & Hnd' & Hat' & Hde')%drop_spec Hl.
  assert (Hone : ∀ p, p ∈ known (m_cat s) → pt_name p = name → p = q).
  { intros p Hp Hn. apply (named_once (m_cat s)); [done|done|apply known_elem; by left|congruence]. }
  assert (Hdet : ∀ p, p ∈ detached (m_cat s) → pt_name p ≠ name).
  { intros p Hp Hn. assert (p = q) as -> by (apply Hone; [apply known_elem; by right|done]).
    unfold known in Hnd. rewrite fmap_app in Hnd. apply NoDup_app in Hnd as (_ & Hdis & _).
    by apply (Hdis (pt_name q)); apply list_elem_of_fmap_2. }
  assert (Hiff : ∀ p, p ∈ known (m_cat s') ↔ p ∈ known (m_cat s) ∧ pt_name p ≠ name).
  { intros p. rewrite !known_elem, Hat', Hde', Ha, Hd, Hat, Hde. unfold is_part. tauto. }
  split; [|by intros p [_ ?]%Hiff]. split; try done.
  - apply Hnd'. unfold known. rewrite Ha, Hd. change (attached c1 ++ detached c1) with (known c1). by rewrite Hkn.
  - intros p [? _]%Hiff. done.
  - intros p [Hp _]%Hat'. rewrite Ha in Hp. by apply Hat in Hp as [? _].
  - intros p Hp. apply Hde'. split; [|by apply Hdet]. rewrite Hd. apply Hde. by left.
  - exists [(table, name)]. rewrite Har', Hr, Har. split; [done|]. intros p Hp Hn.
    assert (pt_name p = name) as Hpn by (destruct (decide (pt_name p = name)); [done|by destruct Hn; apply Hiff]).
    rewrite (Hone p Hp Hpn), Hqt, Hqn. by left.
  - intros p Hp Hn. assert (pt_name p = name) as Hpn.
    { destruct (decide (pt_name p = name)); [done|]. destruct Hn. apply Hat'. split; [|done]. rewrite Ha.
      apply Hat. split; [done|]. by intros [_ ?]. }
    assert (p = q) as -> by (apply Hone; [apply known_elem; by left|done]). by apply Hmay.
Qed.

(** What the list says of a partition. *)
Definition retired_right s (x : Retired) : Prop :=
  if Archived x then
    (Table x, Partition x) ∈ archives (m_cat s) ∧ ∀ p, p ∈ known (m_cat s) → pt_name p ≠ Partition x
  else ∃ p, p ∈ detached (m_cat s) ∧ is_part (Table x) (Partition x) p.

Lemma retired_right_later s s' x : retired_to s s' → retired_right s x → retired_right s' x.
Proof.
  intros [_ K _ T (new & E & _) _ _]. unfold retired_right. destruct (Archived x).
  - intros [Ha Hk]. split; [rewrite E; apply elem_of_app; by left|]. auto.
  - intros (p & Hp & ?). eauto.
Qed.

Lemma may_retire_later s s' table name :
  retired_to s s' → may_retire s table name → may_retire s' table name.
Proof. intros Hr Hmay p Hp Hi. apply (rt_attached _ _ Hr) in Hp. by apply Hmay. Qed.

Lemma Archive_cases table name s res s' :
  Archive table name s = (res, s') →
  m_world s' = m_world s ∧ attached (m_cat s') = attached (m_cat s) ∧
  detached (m_cat s') = detached (m_cat s) ∧
  archives (m_cat s') = archives (m_cat s) ++ (match res with inr _ => [(table, name)] | inl _ => [] end).
Proof.
  unfold Archive. destruct (default None (head (exports (m_cat s)))); intros [= <- <-]; simpl;
    by rewrite ?app_nil_r.
Qed.

Lemma archived_ok table name s res s' :
  NoDup (pt_name <$> known (m_cat s)) → Archive table name s = (res, s') → retired_to s s'.
Proof.
  intros Hnd (Hw & Ha & Hd & Hr)%Archive_cases.
  assert (Hk : known (m_cat s') = known (m_cat s)) by (unfold known; by rewrite Ha, Hd).
  split; rewrite ?Hk, ?Ha, ?Hd, ?Hr, ?Hw; try done; [eexists; split; [done|by intros]|].
  by apply later_same.
Qed.

(** One partition of the loop, on every way out. *)
Lemma retire_one table name rest retired s :
  archiver = true → NoDup (pt_name <$> known (m_cat s)) → may_retire s table name →
  Forall (retired_right s) retired →
  ∃ s' retired', retired_to s s' ∧ Forall (retired_right s') retired' ∧
    (retire_partitions archiver table (name :: rest) retired s =
       retire_partitions archiver table rest retired' s' ∨
     ∃ e, retire_partitions archiver table (name :: rest) retired s = (inr (retired', Some e), s')).
Proof.
  intros -> Hnd Hmay Hall. cbn [retire_partitions negb].
  assert (Hkeep : ∀ s', retired_to s s' → Forall (retired_right s') retired).
  { intros s' Hr. eapply Forall_impl; [exact Hall|]. intros x. by apply retired_right_later. }
  destruct (ddl (detach table name) s) as [res s1] eqn:Hd.
  destruct (ddl_cases _ _ _ _ Hd) as [Hc1 Hcase].
  assert (H1 : retired_to s s1).
  { destruct Hcase as [[He _]|([] & c & Hf & He & _)]; [by apply retired_refl; [..|apply later_same]|].
    apply (detached_ok s s1 table name); [done|done|by rewrite He|by apply later_same]. }
  destruct res as [e|[]].
  { erewrite bind_inr by (apply try_eq; unfold wrapping; by rewrite Hd).
    exists s1, retired. split_and!; [done|by apply Hkeep|]. right. by eexists. }
  erewrite bind_inr by (apply try_eq; unfold wrapping; by rewrite Hd).
  destruct Hcase as [[_ [? ?]]|([] & c1 & Hf & He1 & _)]; [done|].
  destruct (Archive table name s1) as [res s2] eqn:Ha.
  destruct (Archive_cases _ _ _ _ _ Ha) as (Hw2 & Ha2 & Hd2 & Hr2).
  erewrite bind_inr by (by apply try_eq).
  assert (H2 : retired_to s s2).
  { apply (retired_trans _ s1); [done|]. eapply archived_ok; [apply H1|done]. }
  assert (Hc2 : w_clock (m_world s2) = w_clock (m_world s)) by (rewrite Hw2; done).
  destruct res as [e|[]].
  { exists s2, (retired ++ [mkRetired table name false]). split_and!; [done| |by left].
    apply Forall_app. split; [by apply Hkeep|]. apply Forall_singleton. unfold retired_right. simpl.
    apply detach_spec in Hf as (_ & _ & (p & _ & Hp & Hin) & _). exists p. rewrite Hd2, He1. done. }
  destruct (ddl (drop_table name) s2) as [res s3] eqn:Hx.
  destruct (ddl_cases _ _ _ _ Hx) as [Hc3 Hcase]. rewrite Hc2 in Hc3.
  assert (H3 : retired_to s s3 ∧ (res = inr tt →
    retired_right s3 (mkRetired table name true))).
  { destruct Hcase as [[He [? ->]]|([] & c & Hdrop & He & Hres)].
    - split; [|done]. apply (retired_trans _ s2); [done|]. apply retired_refl; [apply H2|done|].
      apply later_same. congruence.
    - rewrite <- He in Hdrop. rewrite <- He1 in Hf.
      destruct (dropped_ok s (m_cat s1) (m_cat s2) s3 table name) as [Hr3 Hgone]; try done; [by apply later_same|].
      split; [done|]. intros _. split; [|done]. simpl. apply drop_spec in Hdrop as [-> _].
      rewrite Hr2. apply elem_of_app. right. by left. }
  destruct H3 as [H3 Hright].
  destruct res as [e|[]]; (erewrite bind_inr by (apply try_eq; unfold wrapping; by rewrite Hx)); exists s3; eexists; (split_and!; [done| |]).
  - by apply Hkeep.
  - right. by eexists.
  - apply Forall_app. split; [by apply Hkeep|]. apply Forall_singleton. by apply Hright.
  - by left.
Qed.

Lemma retire_partitions_ok table : ∀ names retired s,
  NoDup (pt_name <$> known (m_cat s)) → (∀ name, name ∈ names → may_retire s table name) →
  Forall (retired_right s) retired →
  ∃ retired' err s', retire_partitions archiver table names retired s = (inr (retired', err), s') ∧
    retired_to s s' ∧ Forall (retired_right s') retired' ∧
    (archiver = false → retired' = retired ∧ m_cat s' = m_cat s).
Proof.
  induction names as [|name rest IH]; intros retired s Hnd Hmay Hall.
  { exists retired, None, s. split_and!; [done|by apply retired_refl; [..|apply later_same]|done|done]. }
  destruct (bool_decide (archiver = false)) eqn:Harch.
  { apply bool_decide_eq_true in Harch.
    destruct (IH retired s Hnd) as (retired' & err & s' & Hrun & Hres); [|done|].
    - intros x Hx. apply Hmay. by right.
    - exists retired', err, s'. cbn [retire_partitions]. by rewrite Harch in *. }
  apply bool_decide_eq_false, not_false_iff_true in Harch.
  destruct (retire_one table name rest retired s Harch Hnd) as (s1 & retired1 & H1 & Hall1 & Hrun);
    [apply Hmay; by left|done|].
  destruct Hrun as [Hrun|[e Hrun]].
  2: { exists retired1, (Some e), s1. split_and!; [done..|]. congruence. }
  destruct (IH retired1 s1) as (retired' & err & s' & Hrun' & H2 & Hall' & _); [apply H1| |done|].
  { intros x Hx. apply (may_retire_later s); [done|]. apply Hmay. by right. }
  exists retired', err, s'. rewrite Hrun. split_and!; [done|by eapply retired_trans|done|congruence].
Qed.

(** The names [expired] lists are past the cutoff. *)
Lemma scan_bounds_names table cutoff : ∀ rows names name,
  scan_bounds table cutoff rows = inr names → name ∈ names →
  ∃ upper, (name, Some upper) ∈ rows ∧ upper * 1000 <= cutoff.
Proof.
  induction rows as [|[n [u|]] rows IH]; intros names name; simpl; [by intros [= <-] ?%not_elem_of_nil| |done].
  destruct (scan_bounds table cutoff rows) as [e|names']; [done|]. intros [= <-].
  assert (Hrest : name ∈ names' → ∃ upper, (name, Some upper) ∈ (n, Some u) :: rows ∧ upper * 1000 <= cutoff).
  { intros Hin. destruct (IH names' name eq_refl Hin) as (upper & ? & ?). exists upper. split; [by right|done]. }
  destruct (Z.leb_spec (u * 1000) cutoff) as [Hle|Hgt]; [|done].
  intros [->|Hin]%elem_of_cons; [|by apply Hrest]. exists u. split; [by left|done].
Qed.

(** What is past its retention at one of the next [k] readings of the clock may go. *)
Definition may_go k s : Prop := ∀ p, past_retention k r s p → past p.

Lemma may_go_later k s s' :
  (∀ n, w_clock (m_world s') n = w_clock (m_world s) (S n)) → may_go (S k) s → may_go k s'.
Proof.
  intros Hi Hgo p (u & j & Hu & Hk & Hj). apply Hgo. exists u, (S j). split_and!; [done|lia|]. by rewrite <- Hi.
Qed.

Lemma expired_ok k table s res s' :
  NoDup (pt_name <$> known (m_cat s)) → may_go (S k) s →
  expired table (w_clock (m_world s) 0%nat - window r table) (lift now s).2 = (res, s') →
  m_cat s' = m_cat s ∧ (∀ n, w_clock (m_world s') n = w_clock (m_world s) (S n)) ∧
  ∀ names name, res = inr names → name ∈ names → may_retire s' table name.
Proof.
  intros Hnd Hgo. unfold expired.
  destruct (ddl (expiredPartitions table) (lift now s).2) as [rows s1] eqn:Hq.
  destruct (ddl_cases _ _ _ _ Hq) as [Hc Hcase]. simpl in Hc.
  assert (Hcat : m_cat s1 = m_cat s).
  { destruct Hcase as [[-> _]|(x & c & [= <- <-] & -> & _)]; done. }
  assert (Hl : ∀ n, w_clock (m_world s1) n = w_clock (m_world s) (S n)) by (intros n; by rewrite Hc).
  destruct rows as [e|rows].
  { erewrite bind_inl by (unfold wrapping; by rewrite Hq). by intros [= <- <-]. }
  erewrite bind_inr by (unfold wrapping; by rewrite Hq).
  destruct (scan_bounds table _ rows) as [e|names] eqn:Hs; intros [= <- <-]; [done|].
  split_and!; [done..|]. intros ? name [= <-] Hin p Hp [Hpt Hpn]. rewrite Hcat in Hp.
  destruct (scan_bounds_names _ _ _ _ _ Hs Hin) as (upper & Hrow & Hle).
  destruct Hcase as [[_ [? ?]]|(x & c & [= <- <-] & _ & [[= ->]|[? ?]])]; [done| |done].
  apply list_elem_of_fmap in Hrow as (q & [= Hqn Hqu] & [_ Hq']%list_elem_of_filter).
  assert (p = q) as -> by (apply (named_once (m_cat s)); [done|by apply known_elem; left..|congruence]).
  apply Hgo. exists upper, 0%nat. rewrite Hpt. split_and!; [done|lia|done].
Qed.

Lemma retire_tables_ok : ∀ tables retired s,
  NoDup (pt_name <$> known (m_cat s)) → may_go (length tables) s → Forall (retired_right s) retired →
  ∃ retired' err s', retire_tables archiver r tables retired s = (inr (retired', err), s') ∧
    retired_to s s' ∧ Forall (retired_right s') retired' ∧
    (archiver = false → retired' = retired ∧ m_cat s' = m_cat s).
Proof.
  induction tables as [|t tables IH]; intros retired s Hnd Hgo Hall.
  { exists retired, None, s. split_and!; [done|by apply retired_refl; [..|apply later_same]|done|done]. }
  cbn [retire_tables]. erewrite bind_inr by done.
  set (m := expired _ _). destruct (m (lift now s).2) as [res s1] eqn:Hm.
  destruct (expired_ok _ (Name t) s res s1 Hnd Hgo Hm) as (Hcat & Hclk & Hnames).
  assert (Hl : later (m_world s) (m_world s1)) by (by exists 1%nat).
  erewrite bind_inr by (by apply try_eq). clear Hm m.
  pose proof (retired_refl s s1 Hnd Hcat Hl) as H1.
  assert (Hall1 : Forall (retired_right s1) retired).
  { eapply Forall_impl; [exact Hall|]. intros x. by apply retired_right_later. }
  destruct res as [e|names]; [by exists retired, (Some e), s1|].
  destruct (retire_partitions_ok (Name t) names retired s1) as (retired2 & err & s2 & Hrun & H2 & Hall2 & Hoff);
    [apply H1|by eauto|done|].
  pose proof (retire_partitions_clock archiver (Name t) names retired s1) as Hclk2. rewrite Hrun in Hclk2. simpl in Hclk2.
  rewrite (bind_inr _ _ _ _ _ Hrun). pose proof (retired_trans _ _ _ H1 H2) as H12.
  destruct err as [e|].
  { exists retired2, (Some e), s2. split_and!; [done..|]. intros Ha. destruct (Hoff Ha). split; congruence. }
  destruct (IH retired2 s2) as (retired3 & err & s3 & Hrun3 & H3 & Hall3 & Hoff3);
    [apply H2|apply (may_go_later _ s); [by rewrite Hclk2|done]|done|].
  exists retired3, err, s3. split_and!; [done|by eapply retired_trans|done|].
  intros Ha. destruct (Hoff Ha), (Hoff3 Ha). split; congruence.
Qed.
End Retiring.

(** ** Theorems *)

Lemma ExpireKeys_swept (scan : DB → list ((string * string) * key_row)) `{!Objects}
    (results : option ResultStore) (r : Retention) (budget : Z) (fuel : nat) (w : world) :
  (∀ d, scan d ≡ₚ map_to_list (db_keys d)) →
  w_env w = [] → (size (db_keys (w_db w)) < fuel)%nat →
  ∃ deleted err n, (ExpireKeys scan results fuel r budget w).1 = inr (Some (deleted, err)) ∧
    let w' := (ExpireKeys scan results fuel r budget w).2 in
    swept (Keys r) w w' n ∧ 0 <= deleted <= Z.of_nat n ∧
    (err = None → deleted = Z.of_nat n ∧
       (none_expired (Keys r) w' ∨ ∃ j, w_clock w 0%nat + budget <= w_clock w j)).
Proof.
  intros Hscan Henv Hsize. set (w1 := (now w).2).
  destruct (expire_loop_swept scan Hscan results (Keys r) (w_clock w 0%nat + budget) fuel 0 w1 Henv Hsize)
    as (w' & n & m & err & Hrun & Hs & Hm & Herr).
  exists (0 + Z.of_nat m), err, n. change (ExpireKeys scan results fuel r budget w) with
    (expire_loop scan results fuel (Keys r) (w_clock w 0%nat + budget) 0 w1). rewrite Hrun. simpl.
  assert (H1 : swept (Keys r) w w1 0) by (apply swept_same; [done..|by exists 1%nat]).
  split_and!; [done|exact (swept_trans _ _ _ _ _ _ H1 Hs)|lia|lia|].
  intros Hnone. destruct (Herr Hnone) as [-> Hc]. split; [done|]. destruct Hc as [?|[j Hj]]; [by left|].
  right. by exists (S j).
Qed.

(** Key expiry ends, whatever fails: with more fuel than there are keys it returns.  Only keys
    created before the retention window are deleted, the other tables and the other rows are
    untouched, and an object is deleted only when the row that names it is gone.  It never
    reports more deletions than there were, and when it reports no error the count is exact and
    either no expired key is left or the time budget is spent. *)
Theorem expiry_only_expired (scan : DB → list ((string * string) * key_row)) `{!Objects}
    (results : option ResultStore) (r : Retention) (budget : Z) (fuel : nat) (w : world) :
  (∀ d, scan d ≡ₚ map_to_list (db_keys d)) →
  w_env w = [] → (size (db_keys (w_db w)) < fuel)%nat →
  ∃ deleted err n, (ExpireKeys scan results fuel r budget w).1 = inr (Some (deleted, err)) ∧
    let w' := (ExpireKeys scan results fuel r budget w).2 in
    swept (Keys r) w w' n ∧ 0 <= deleted <= Z.of_nat n ∧
    (err = None → deleted = Z.of_nat n ∧
       (none_expired (Keys r) w' ∨ ∃ j, w_clock w 0%nat + budget <= w_clock w j)).
Proof. apply ExpireKeys_swept. Qed.

(** A key of yesterday and one of a moment ago, with a retention of an hour. *)
Definition old_row : key_row :=
  mkKey "h" StatusDone "ticket" "7" "close" None (Some "results/x.json") None 1 0 0 (Some 0).
Definition new_row : key_row :=
  mkKey "h" StatusDone "ticket" "7" "close" (Some "{}") None None 1 86399000000 86399000000 (Some 86399000000).
Definition two_keys : world :=
  set_objects {["results/x.json" := "[]"]}
    (world_of (mkDB 86400000000 0 {[("a", "k1") := old_row; ("a", "k2") := new_row]} [] [] [] [])).
Definition hour_retention : Retention := mkRetention Hour Hour Hour Hour 100.

Lemma expiry_only_expired_witness :
  ∃ deleted err n,
    (ExpireKeys (map_to_list ∘ db_keys) (Some (mkResultStore true 10)) 3 hour_retention Minute two_keys).1 =
      inr (Some (deleted, err)) ∧ deleted = 1 ∧ err = None ∧ 0 <= deleted <= Z.of_nat n.
Proof.
  destruct (expiry_only_expired (map_to_list ∘ db_keys) (Some (mkResultStore true 10)) hour_retention Minute
    3 two_keys (λ d, reflexivity _) eq_refl ltac:(vm_compute; lia)) as (deleted & err & n & Hrun & _ & Hle & _).
  assert (Hex : (ExpireKeys (map_to_list ∘ db_keys) (Some (mkResultStore true 10)) 3 hour_retention Minute
    two_keys).1 = inr (Some (1, None))) by (vm_compute; reflexivity).
  rewrite Hex in Hrun. injection Hrun as <- <-.
  exists 1, None, n. split; [exact Hex|]. split; [reflexivity|]. split; [reflexivity|exact Hle].
Defined.

Lemma RetireExpired_ok (archiver : bool) (r : Retention) (s : mworld) :
  NoDup (pt_name <$> known (m_cat s)) →
  ∃ retired err, (RetireExpired archiver r s).1 = inr (retired, err) ∧
    let s' := (RetireExpired archiver r s).2 in
    retired_to (past_retention (length Tables) r s) s s' ∧ Forall (retired_right s') retired ∧
    (archiver = false → retired = [] ∧ m_cat s' = m_cat s).
Proof.
  intros Hnd.
  destruct (retire_tables_ok archiver r (past_retention (length Tables) r s) Tables [] s Hnd) as (retired & err & s' & Hrun & Hr & Hall & Hoff);
    [by intros p|by apply Forall_nil|].
  exists retired, err. unfold RetireExpired. rewrite Hrun. done.
Qed.

(** C24: partitions: a partition is detached only past its retention, dropped only after its export
    completed in this run, and without an archiver nothing is touched; whatever statement or
    export fails the run returns, and its report is right: a partition listed as archived is
    archived and gone, one listed otherwise is detached and kept. *)
Theorem retirement_archives_first (archiver : bool) (r : Retention) (s : mworld) :
  NoDup (pt_name <$> known (m_cat s)) →
  ∃ retired err, (RetireExpired archiver r s).1 = inr (retired, err) ∧
    let s' := (RetireExpired archiver r s).2 in
    retired_to (past_retention (length Tables) r s) s s' ∧ Forall (retired_right s') retired ∧
    (archiver = false → retired = [] ∧ m_cat s' = m_cat s).
Proof. apply RetireExpired_ok. Qed.

(** An old and a current partition, and an archiver that takes the old one. *)
Definition two_partitions : mworld :=
  mkMWorld (set_clock (λ _, 10 * Hour) (world_of empty_db))
    (mkCatalog [mkPartition "conflicts" "conflicts_19700101" (Some (0, 3600000000));
                mkPartition "conflicts" "conflicts_19700108" (Some (3600000000, 608400000000))] [] [] []).

Lemma retirement_archives_first_witness :
  ∃ retired err, (RetireExpired true hour_retention two_partitions).1 = inr (retired, err) ∧
    retired = [mkRetired "conflicts" "conflicts_19700101" true] ∧
    Forall (retired_right (RetireExpired true hour_retention two_partitions).2) retired.
Proof.
  destruct (retirement_archives_first true hour_retention two_partitions) as (retired & err & Hrun & _ & Hall & _).
  { apply (bool_decide_unpack _). vm_compute. exact I. }
  assert (Hex : (RetireExpired true hour_retention two_partitions).1 =
    inr ([mkRetired "conflicts" "conflicts_19700101" true], None)) by (vm_compute; reflexivity).
  rewrite Hex in Hrun. injection Hrun as <- <-.
  eexists _, _. split; [exact Hex|]. split; [reflexivity|exact Hall].
Defined.
