(* ===== verification/Partitions.v ===== *)
(** * Partitions: internal/maintenance/partitions.go

    The partitions that future rows need are created ahead of time, in one transaction under a
    lock, from the end of the last one to the horizon. *)

From S2P Require Import Prelude GoString GoTime Sha256 Manifest Conflict World ResultStore Retention.

(** [Partitioned.next]. *)
Definition next (p : Partitioned) (from : Z) : Z := AddDate 0 (Months p) (Days p) from.

(** The two layouts of [Tables]. *)
Definition Format_layout (layout : string) (t : Z) : string :=
  if String.eqb layout "20060102" then FormatDay t else FormatMonth t.

Definition partitionName (p : Partitioned) (lower : Z) : string :=
  Name p +:+ "_" +:+ Format_layout (Layout p) lower.

(** The microseconds of a bound written with [time.RFC3339], which has whole seconds. *)
Definition bound_us (t : Z) : Z := unix_sec t * 1000000.

(** [date_trunc('week', now() AT TIME ZONE 'UTC') AT TIME ZONE 'UTC'], in microseconds: the
    last Monday; the epoch was a Thursday. *)
Definition week_start (us : Z) : Z :=
  let day := us / (day_seconds * 1000000) in (day - (day + 3) mod 7) * day_seconds * 1000000.

(** [coalesce(max(upper), week)]. *)
Definition upperBound (current : Z) (table : string) (c : catalog) : Z :=
  match omap pt_upper (filter (λ p, pt_table p = table) (attached c)) with
  | [] => week_start current
  | u :: rest => foldr Z.max u rest
  end.

Definition overlaps_bounds (a b : Z * Z) : bool := (a.1 <? b.2) && (b.1 <? a.2).

(** [CREATE TABLE IF NOT EXISTS name PARTITION OF table FOR VALUES FROM lo TO hi]. *)
Definition create_partition (table name : string) (lo hi : Z) (c : catalog) : goerr + (unit * catalog) :=
  if existsb (λ p, String.eqb (pt_name p) name) (attached c ++ detached c) then inr (tt, c)
  else if negb (lo <? hi) then inl (mkErr (PgError "42P17") "empty range bound specified")
  else if existsb (λ p, String.eqb (pt_table p) table &&
                        match pt_bounds p with Some b => overlaps_bounds (lo, hi) b | None => false end) (attached c)
  then inl (mkErr (PgError "42P17") "partition would overlap")
  else inr (tt, mkCatalog (attached c ++ [mkPartition table name (Some (lo, hi))]) (detached c)
                  (archives c) (exports c)).

(** A statement of the open transaction, whose state of the catalog is [c]. *)
Definition in_tx {A} (f : catalog → goerr + (A * catalog)) (c : catalog) : MM (A * catalog) := λ s,
  let w := m_world s in
  let s1 := mkMWorld (set_faults (tail (w_faults w)) w) (m_cat s) in
  match default Fine (head (w_faults w)) with
  | Fine => match f c with inl e => (inl e, s1) | inr r => (inr r, s1) end
  | Refused e | LostAck e => (inl e, s1)
  end.

Definition commit_catalog (c : catalog) : MM unit := λ s,
  let w := m_world s in
  let w1 := set_faults (tail (w_faults w)) w in
  match default Fine (head (w_faults w)) with
  | Fine => (inr tt, mkMWorld w1 c)
  | Refused e => (inl e, mkMWorld w1 (m_cat s))
  | LostAck e => (inl e, mkMWorld w1 c)
  end.

(** The loop of [extend].  Every step is at least a week, so the fuel below is enough. *)
Fixpoint extend_loop (fuel : nat) (table : Partitioned) (horizon boundary : Z) (c : catalog) : MM catalog :=
  match fuel with
  | O => mret c
  | S f =>
      if negb (boundary <? horizon) then mret c
      else
        let upper := next table boundary in
        '(_, c) ← wrapping ("create " +:+ Name table +:+ " partition from " +:+ FormatRFC3339 boundary)
          (in_tx (create_partition (Name table) (partitionName table boundary) (bound_us boundary)
                    (bound_us upper)) c);
        _ ← lift (emit (Inc "partitions_created" [Name table]));
        extend_loop f table horizon upper c
  end.

Definition week : Z := 7 * day_seconds * Second.

Definition extend (table : Partitioned) (horizon : Z) (c : catalog) : MM catalog :=
  current ← lift (gets (λ w, db_now (w_db w)));
  '(us, c) ← wrapping ("read " +:+ Name table +:+ " partition bounds")
    (in_tx (λ c, inr (upperBound current (Name table) c, c)) c);
  let boundary := us * 1000 in
  extend_loop (S (Z.to_nat ((horizon - boundary) / week + 1))) table horizon boundary c.

Fixpoint extend_tables (tables : list Partitioned) (horizon : Z) (c : catalog) : MM catalog :=
  match tables with
  | [] => mret c
  | t :: rest => c ← extend t horizon c; extend_tables rest horizon c
  end.

(** [pool.Begin]. *)
Definition begin_maintenance : MM unit := λ s,
  (_ ← wrapping "begin partition maintenance" (in_tx (λ c, inr (tt, c)) (m_cat s)); mret tt) s.

(** [pg_advisory_xact_lock]: the replicas that hold the lock before this one commit while it
    waits, and the statements that follow see the catalog they leave. *)
Definition acquire_lock (others : catalog → catalog) : MM catalog := λ s,
  let w := m_world s in
  let w1 := set_faults (tail (w_faults w)) w in
  let found := others (m_cat s) in
  match default Fine (head (w_faults w)) with
  | Fine => (inr found, mkMWorld w1 found)
  | Refused e => (inl e, mkMWorld w1 (m_cat s))
  | LostAck e => (inl e, mkMWorld w1 found)
  end.

Definition EnsurePartitions (others : catalog → catalog) (ahead : Z) : MM unit :=
  _ ← begin_maintenance;
  c ← wrapping "acquire maintenance lock" (acquire_lock others);
  started ← lift now;
  c ← extend_tables Tables (started + ahead) c;
  wrapping "commit partition maintenance" (commit_catalog c).

(** ** The calendar of a table *)

(** What the name of a partition tells: its day, or its month. *)
Definition lower_key (t : Partitioned) (lo : Z) : Z :=
  if String.eqb (Layout t) "20060102" then unix_sec lo / day_seconds else month_index lo.

Ltac each_table H :=
  repeat (apply elem_of_cons in H as [->|H]); [..|by apply elem_of_nil in H].

Lemma next_later t lo : t ∈ Tables → lo + week <= next t lo.
Proof.
  intros Ht. each_table Ht; unfold next; simpl; rewrite ?AddDate_days; unfold week, day_seconds, Second; try lia.
  pose proof (AddDate_month_later lo). unfold day_seconds, Second in *. lia.
Qed.

Lemma next_key t lo : t ∈ Tables → lower_key t lo < lower_key t (next t lo).
Proof.
  intros Ht. each_table Ht; unfold next, lower_key; simpl; [| |apply AddDate_month_index];
    rewrite AddDate_days; unfold unix_sec, day_seconds, Second; Z.to_euclidean_division_equations; lia.
Qed.

Lemma name_key t lo lo' :
  t ∈ Tables → printable lo → printable lo' → partitionName t lo = partitionName t lo' →
  lower_key t lo = lower_key t lo'.
Proof.
  intros Ht Hlo Hlo'. unfold partitionName. intros He%append_inj_r%append_inj_r. revert He.
  each_table Ht; unfold lower_key, Format_layout; simpl; auto using FormatDay_inj, FormatMonth_inj.
Qed.

Lemma names_apart t t' lo lo' :
  t ∈ Tables → t' ∈ Tables → partitionName t lo = partitionName t' lo' → Name t = Name t'.
Proof. intros Ht Ht'. each_table Ht; each_table Ht'; done. Qed.

(** The lower bounds that a run from [b] to the horizon goes through. *)
Fixpoint boundaries (fuel : nat) (t : Partitioned) (horizon b : Z) : list Z :=
  match fuel with
  | O => []
  | S f => if b <? horizon then b :: boundaries f t horizon (next t b) else []
  end.

Lemma boundaries_in fuel t h b lo :
  t ∈ Tables → lo ∈ boundaries fuel t h b → b <= lo < h ∧ (lo = b ∨ lower_key t b < lower_key t lo).
Proof.
  intros Ht. revert b. induction fuel as [|f IH]; intros b; simpl; [by intros ?%elem_of_nil|].
  destruct (Z.ltb_spec b h); [|by intros ?%elem_of_nil].
  intros [->|Hin]%elem_of_cons; [split; [lia|by left]|].
  apply IH in Hin as [Hb Hk]. pose proof (next_later t b Ht). pose proof (next_key t b Ht).
  unfold week, day_seconds, Second in *. split; [lia|]. right. destruct Hk as [->|?]; lia.
Qed.

(** They leave no whole second out before the horizon, when the fuel is enough. *)
Lemma boundaries_cover fuel t h b sec :
  t ∈ Tables → h - b <= Z.of_nat fuel * week → unix_sec b <= sec → (sec + 1) * Second <= h →
  ∃ lo, lo ∈ boundaries fuel t h b ∧ unix_sec lo <= sec < unix_sec (next t lo).
Proof.
  intros Ht. revert b. induction fuel as [|f IH]; intros b Hf Hlo Hhi.
  { unfold unix_sec, Second in *. exfalso. Z.to_euclidean_division_equations; lia. }
  simpl. destruct (Z.ltb_spec b h).
  2: { unfold unix_sec, Second in *. exfalso. Z.to_euclidean_division_equations; lia. }
  destruct (Z.lt_ge_cases sec (unix_sec (next t b))) as [Hlt|Hge]; [exists b; split; [by left|lia]|].
  destruct (IH (next t b)) as (lo & Hin & Hr); [|done|done|exists lo; split; [by right|done]].
  pose proof (next_later t b Ht). lia.
Qed.

(** ** A run *)

(** The partition that a run makes from [lo]. *)
Definition part (t : Partitioned) (lo : Z) : partition :=
  mkPartition (Name t) (partitionName t lo) (Some (bound_us lo, bound_us (next t lo))).

Definition taken (c : catalog) (name : string) : Prop := name ∈ pt_name <$> attached c ++ detached c.

Definition attach (new : list partition) (c : catalog) : catalog :=
  mkCatalog (attached c ++ new) (detached c) (archives c) (exports c).

Lemma attach_nil c : attach [] c = c.
Proof. destruct c. unfold attach. simpl. by rewrite app_nil_r. Qed.

Lemma attach_app l1 l2 c : attach l2 (attach l1 c) = attach (l1 ++ l2) c.
Proof. unfold attach. simpl. by rewrite app_assoc. Qed.

Lemma taken_attach new c name : taken (attach new c) name ↔ taken c name ∨ name ∈ pt_name <$> new.
Proof. unfold taken. simpl. rewrite !fmap_app, !elem_of_app. tauto. Qed.

Lemma create_partition_spec table name lo hi c u c' :
  create_partition table name lo hi c = inr (u, c') →
  (taken c name ∧ c' = c) ∨ (¬ taken c name ∧ c' = attach [mkPartition table name (Some (lo, hi))] c).
Proof.
  unfold create_partition. destruct (existsb _ (attached c ++ detached c)) eqn:He.
  - intros [= _ <-]. left. split; [|done]. apply existsb_exists in He as (p & Hp & <-%String.eqb_eq).
    apply list_elem_of_fmap_2, list_elem_of_In. done.
  - intros Hc. right. split; [|by repeat case_match; naive_solver].
    intros (p & -> & Hp)%list_elem_of_fmap. apply not_true_iff_false in He. apply He.
    apply existsb_exists. exists p. by rewrite <- list_elem_of_In, String.eqb_eq.
Qed.

(** The partitions from the bounds [bs] are attached, unless their names were taken; nothing
    else changes. *)
Definition extended (t : Partitioned) (bs : list Z) (c c' : catalog) : Prop :=
  ∃ new, c' = attach new c ∧ Forall (λ p, ∃ lo, lo ∈ bs ∧ p = part t lo) new ∧
    ∀ lo, lo ∈ bs → part t lo ∈ new ∨ taken c (partitionName t lo).

Lemma extended_step t f h b c c1 c' :
  t ∈ Tables → (∀ x, b <= x < h → printable x) → b < h →
  (taken c (partitionName t b) ∧ c1 = c) ∨ (¬ taken c (partitionName t b) ∧ c1 = attach [part t b] c) →
  extended t (boundaries f t h (next t b)) c1 c' →
  extended t (b :: boundaries f t h (next t b)) c c'.
Proof.
  intros Ht Hp Hb Hc (new & -> & Hnew & Hall).
  assert (Hnew' : Forall (λ p, ∃ lo, lo ∈ b :: boundaries f t h (next t b) ∧ p = part t lo) new).
  { eapply Forall_impl; [exact Hnew|]. intros p (lo & Hin & ->). exists lo. split; [by right|done]. }
  destruct Hc as [[Htaken ->]|[_ ->]].
  - exists new. split_and!; [done..|]. intros lo [->|Hin]%elem_of_cons; auto.
  - exists (part t b :: new). rewrite attach_app. split_and!; [done| |].
    + apply Forall_cons. split; [exists b; split; [by left|done]|done].
    + intros lo [->|Hin]%elem_of_cons; [left; by left|].
      destruct (Hall lo Hin) as [|Htaken]; [left; by right|].
      apply taken_attach in Htaken as [|Heq%list_elem_of_singleton]; [by right|]. exfalso.
      pose proof (next_later t b Ht). pose proof (next_key t b Ht).
      apply boundaries_in in Hin as [Hr Hk]; [|done]. simpl in Heq.
      unfold week, day_seconds, Second in *.
      apply name_key in Heq; [destruct Hk as [->|]; lia|done|apply Hp; lia|apply Hp; lia].
Qed.

(** The world but for the script of the database's faults and the counters. *)
Definition quiet (w w' : world) : Prop :=
  w' = set_faults (w_faults w') (set_metrics (w_metrics w') w).

#[export] Instance quiet_preorder : PreOrder quiet.
Proof. split; [by intros []|]. intros w1 w2 w3 -> ->. by destruct w1. Qed.

(** Statements in the open transaction leave the committed catalog and the rows as they are. *)
Definition pending (s s' : mworld) : Prop := m_cat s' = m_cat s ∧ quiet (m_world s) (m_world s').

#[export] Instance pending_preorder : PreOrder pending.
Proof. split; [done|]. intros s1 s2 s3 [H1 H2] [H3 H4]. split; [congruence|by etrans]. Qed.

Lemma quiet_eq w w' : quiet w w' → w_db w' = w_db w ∧ w_clock w' = w_clock w ∧ w_env w' = w_env w.
Proof. by intros ->. Qed.

Lemma quiet_faults l w : quiet w (set_faults l w).
Proof. by destruct w. Qed.

Lemma in_tx_runs {A} ctx (f : catalog → goerr + (A * catalog)) c s r s' :
  wrapping ctx (in_tx f c) s = (r, s') →
  pending s s' ∧ ∀ x, r = inr x → f c = inr x.
Proof.
  unfold wrapping, in_tx. destruct (default Fine _), (f c) as [|p]; intros [= <- <-];
    (split; [split; [done|apply quiet_faults]|]); intros x [= <-]; done.
Qed.

Lemma extend_loop_ok f t h b c s r s' :
  t ∈ Tables → (∀ x, b <= x < h → printable x) → extend_loop f t h b c s = (r, s') →
  pending s s' ∧ ∀ c', r = inr c' → extended t (boundaries f t h b) c c'.
Proof.
  intros Ht. revert b c s. induction f as [|f IH]; intros b c s Hp; simpl.
  { intros [= <- <-]. split; [done|]. intros c' [= <-]. exists []. rewrite attach_nil.
    split_and!; [done|by apply Forall_nil|by intros lo ?%elem_of_nil]. }
  destruct (Z.ltb_spec b h); simpl.
  2: { intros [= <- <-]. split; [done|]. intros c' [= <-]. exists []. rewrite attach_nil.
       split_and!; [done|by apply Forall_nil|by intros lo ?%elem_of_nil]. }
  run_first [[e|[u c1]] s1] as E.
  - intros [= <- <-]. apply in_tx_runs in E as [H1 _]. by split.
  - apply in_tx_runs in E as [H1 Hc].
    specialize (Hc _ eq_refl). apply create_partition_spec in Hc.
    erewrite bind_inr by done. intros Hrun. apply IH in Hrun as [H2 Hext].
    + split; [etrans; [exact H1|]; etrans; [|exact H2]; split; [done|by destruct (m_world s1)]|].
      intros c' Hr. apply Hext in Hr. by apply (extended_step t f h b c c1 c').
    + intros x Hx. apply Hp. pose proof (next_later t b Ht). unfold week, day_seconds, Second in *. lia.
Qed.

(** Where a run starts. *)
Definition run_start (d : DB) (c : catalog) (t : Partitioned) : Z := upperBound (db_now d) (Name t) c * 1000.

(** Every whole second from the start to the horizon lies in the range of a partition that the
    run attached, or whose name was taken before. *)
Definition covers (start h : Z) (t : Partitioned) (c c' : catalog) : Prop :=
  ∀ sec, unix_sec start <= sec → (sec + 1) * Second <= h →
  ∃ lo, start <= lo ∧ unix_sec lo <= sec < unix_sec (next t lo) ∧
    (part t lo ∈ attached c' ∨ taken c (partitionName t lo)).

Definition fits (start h : Z) : Prop := ∀ x, start <= x < h → printable x.

Lemma extend_ok t h c s r s' :
  let start := run_start (w_db (m_world s)) c t in
  t ∈ Tables → fits start h → extend t h c s = (r, s') →
  pending s s' ∧ ∀ c', r = inr c' →
    ∃ new, c' = attach new c ∧ Forall (λ p, ∃ lo, p = part t lo) new ∧ covers start h t c c'.
Proof.
  intros start Ht Hp. unfold extend. erewrite bind_inr by done.
  run_first [[e|[us c1]] s1] as E.
  { intros [= <- <-]. apply in_tx_runs in E as [H1 _]. by split. }
  apply in_tx_runs in E as [H1 Hc].
  specialize (Hc _ eq_refl). injection Hc as <- <-.
  fold start. intros Hrun. apply extend_loop_ok in Hrun as [H2 Hext]; [|done|exact Hp].
  split; [by etrans|]. intros c' (new & -> & Hnew & Hall)%Hext. exists new. split_and!; [done| |].
  - eapply Forall_impl; [exact Hnew|]. intros p (lo & _ & ->). by exists lo.
  - intros sec Hlo Hhi.
    destruct (boundaries_cover (S (Z.to_nat ((h - start) / week + 1))) t h start sec) as (lo & Hin & Hr); [done| |done|done|].
    { unfold week, day_seconds, Second. Z.to_euclidean_division_equations; lia. }
    exists lo. split; [apply boundaries_in in Hin as [[? _] _]; done|]. split; [done|].
    destruct (Hall lo Hin); [left|by right]. apply elem_of_app. by right.
Qed.

(** The partitions of another table do not move the start, and take no name. *)
Lemma other_table d t t' new c :
  Name t ≠ Name t' → Forall (λ p, ∃ lo, p = part t lo) new →
  run_start d (attach new c) t' = run_start d c t'.
Proof.
  intros Hne Hnew. unfold run_start, upperBound. simpl. do 2 f_equal. rewrite filter_app.
  rewrite (filter_drops _ new); [by rewrite app_nil_r|].
  intros p Hp He. rewrite Forall_forall in Hnew. destruct (Hnew p Hp) as [lo ->]. by apply Hne.
Qed.

Lemma covers_after start h t t' new c c' :
  t ∈ Tables → t' ∈ Tables → Name t ≠ Name t' → Forall (λ p, ∃ lo, p = part t lo) new →
  covers start h t' (attach new c) c' → covers start h t' c c'.
Proof.
  intros Ht Ht' Hne Hnew Hc sec Hlo Hhi. destruct (Hc sec Hlo Hhi) as (lo & Hs & Hr & [Hp|Hp]); eauto.
  apply taken_attach in Hp as [Hp|(p & Hn & Hp)%list_elem_of_fmap]; [by eauto|].
  rewrite Forall_forall in Hnew. destruct (Hnew p Hp) as [lo' ->].
  destruct Hne. exact (names_apart t t' lo' lo Ht Ht' (eq_sym Hn)).
Qed.

Lemma extend_tables_ok ts h c s r s' :
  (∀ t, t ∈ ts → t ∈ Tables ∧ fits (run_start (w_db (m_world s)) c t) h) → NoDup (Name <$> ts) →
  extend_tables ts h c s = (r, s') →
  pending s s' ∧ ∀ c', r = inr c' →
    ∃ new, c' = attach new c ∧ Forall (λ p, ∃ t lo, t ∈ ts ∧ p = part t lo) new ∧
      ∀ t, t ∈ ts → covers (run_start (w_db (m_world s)) c t) h t c c'.
Proof.
  revert c s. induction ts as [|t ts IH]; intros c s Hts Hnd; csimpl.
  { intros [= <- <-]. split; [done|]. intros c' [= <-]. exists []. rewrite attach_nil.
    split_and!; [done|by apply Forall_nil|by intros t ?%elem_of_nil]. }
  csimpl in Hnd. apply NoDup_cons in Hnd as [Hni Hnd].
  destruct (Hts t ltac:(by left)) as [Ht Hp].
  run_first [[e|c1] s1] as E.
  { intros [= <- <-]. by apply extend_ok in E as [? _]. }
  apply extend_ok in E as [H1 Hext]; [|done|done].
  destruct (Hext c1 eq_refl) as (new1 & -> & Hnew1 & Hcov1). pose proof H1 as [_ [Hdb _]%quiet_eq].
  assert (Hne : ∀ t', t' ∈ ts → Name t ≠ Name t') by (intros t' Hin He; apply Hni; rewrite He; by apply list_elem_of_fmap_2).
  intros Hrun. apply IH in Hrun as [H2 Hrest]; [|intros t' Hin; rewrite Hdb|done].
  2: { rewrite (other_table _ t) by auto. apply Hts. by right. }
  split; [by etrans|]. intros c' (new2 & -> & Hnew2 & Hcov2)%Hrest. rewrite Hdb in Hcov2.
  exists (new1 ++ new2). rewrite attach_app in *. split_and!; [done| |].
  - apply Forall_app. split; (eapply Forall_impl; [eassumption|]); [intros p [lo ->]; exists t, lo; split; [by left|done]|].
    intros p (t' & lo & Hin & ->). exists t', lo. split; [by right|done].
  - intros t' [->|Hin]%elem_of_cons.
    + intros sec Hlo Hhi. destruct (Hcov1 sec Hlo Hhi) as (lo & Hs & Hr & [Hin|?]); [|by eauto].
      exists lo. split; [done|]. split; [done|]. left. simpl in *. rewrite app_assoc. apply elem_of_app. by left.
    + pose proof (Hcov2 t' Hin) as Hc. rewrite (other_table _ t) in Hc by auto.
      eapply (covers_after _ _ t); [done|by apply Hts; right|by auto|done|done].
Qed.

(** Until the commit the catalog is what it was, whatever fails. *)
Definition uncommitted (s s' : mworld) : Prop := m_cat s' = m_cat s.

#[export] Instance uncommitted_preorder : PreOrder uncommitted.
Proof. split; [done|]. unfold uncommitted. congruence. Qed.

Lemma in_tx_committed {A} (f : catalog → goerr + (A * catalog)) c : frames uncommitted (in_tx f c).
Proof. intros s. unfold in_tx. destruct (default Fine _), (f c); done. Qed.

Lemma lift_committed {A} (m : M A) : frames uncommitted (lift m).
Proof. intros s. unfold lift. by destruct (m (m_world s)). Qed.

#[local] Hint Resolve in_tx_committed lift_committed : frames.

Lemma extend_tables_committed ts h : ∀ c, frames uncommitted (extend_tables ts h c).
Proof.
  assert (Hloop : ∀ f t b c, frames uncommitted (extend_loop f t h b c)).
  { induction f as [|f IH]; intros t b c; simpl; [frames_auto|]. destruct (negb (b <? h)); frames_auto. }
  induction ts as [|t ts IH]; intros c; csimpl; unfold extend; frames_auto.
Qed.

(** What holds of the catalog and is kept by each [CREATE TABLE] holds after the run. *)
Section Kept.
Context (P : catalog → Prop).
Context (create_keeps : ∀ table name lo hi c u c',
  create_partition table name lo hi c = inr (u, c') → P c → P c').

Lemma extend_loop_keeps f t h : ∀ b c s c' s',
  extend_loop f t h b c s = (inr c', s') → P c → P c'.
Proof.
  induction f as [|f IH]; intros b c s c' s'; simpl; [by intros [= <- _]|].
  destruct (b <? h); simpl; [|by intros [= <- _]]. run_first [[e|[u c1]] s1] as E; [done|].
  apply in_tx_runs in E as [_ Hc]. erewrite bind_inr by done. intros Hrun Hp. by eapply IH, create_keeps, Hp; auto.
Qed.

Lemma extend_keeps t h c s c' s' : extend t h c s = (inr c', s') → P c → P c'.
Proof.
  unfold extend. erewrite bind_inr by done. run_first [[e|[us c1]] s1] as E; [done|].
  apply in_tx_runs in E as [_ Hc]. specialize (Hc _ eq_refl). injection Hc as _ <-. apply extend_loop_keeps.
Qed.

Lemma extend_tables_keeps ts h : ∀ c s c' s', extend_tables ts h c s = (inr c', s') → P c → P c'.
Proof.
  induction ts as [|t ts IH]; intros c s c' s'; csimpl; [by intros [= <- _]|].
  run_first [[e|c1] s1] as E; [done|]. intros Hrun Hp. eapply IH; [exact Hrun|]. by eapply extend_keeps.
Qed.
End Kept.

Lemma begin_runs s r s1 : begin_maintenance s = (r, s1) → pending s s1.
Proof.
  unfold begin_maintenance.
  run_first [[e|u] s2] as E; intros [= <- <-]; by apply in_tx_runs in E as [H1 _].
Qed.

Lemma acquire_lock_runs ctx others s r s1 :
  wrapping ctx (acquire_lock others) s = (r, s1) →
  quiet (m_world s) (m_world s1) ∧ (m_cat s1 = m_cat s ∨ m_cat s1 = others (m_cat s)) ∧
  ∀ c, r = inr c → c = others (m_cat s) ∧ m_cat s1 = c.
Proof.
  unfold wrapping, acquire_lock. destruct (default Fine _); intros [= <- <-];
    (split; [apply quiet_faults|]); (split; [auto|]); intros c [= <-]; done.
Qed.

Lemma tables_apart : NoDup (Name <$> Tables).
Proof. apply (bool_decide_unpack _). vm_compute. exact I. Qed.

(** A run that does not commit leaves the catalog as it or the other replicas had it; one that
    does leaves what the tables need. *)
Lemma EnsurePartitions_runs others ahead s r s' :
  EnsurePartitions others ahead s = (r, s') →
  let found := others (m_cat s) in
  (∃ e, r = inl e ∧ (m_cat s' = m_cat s ∨ m_cat s' = found)) ∨
  ∃ c s3 s4, extend_tables Tables (w_clock (m_world s) 0%nat + ahead) found s3 = (inr c, s4) ∧
    w_db (m_world s3) = w_db (m_world s) ∧ m_cat s' = c.
Proof.
  unfold EnsurePartitions. run_first [[e|u] s1] as E; apply begin_runs in E as [Hc1 (Hd1 & Hclk1 & _)%quiet_eq].
  { intros [= <- <-]. left. eauto. }
  run_first [[e|c] s2] as E; apply acquire_lock_runs in E as ((Hd2 & Hclk2 & _)%quiet_eq & Hc2 & Hc); rewrite Hc1 in *.
  { intros [= <- <-]. left. eauto. }
  destruct (Hc c eq_refl) as [-> Hcat2]. clear Hc Hc2. set (found := others (m_cat s)) in *.
  erewrite bind_inr by done. rewrite Hclk2, Hclk1. set (h := _ + ahead). set (s3 := mkMWorld _ _).
  pose proof (extend_tables_committed Tables h found s3) as Hcat. unfold uncommitted in Hcat.
  destruct (extend_tables Tables h found s3) as [[e|c] s4] eqn:E; simpl in Hcat; rewrite Hcat2 in Hcat.
  - rewrite (bind_inl _ _ _ _ _ E). intros [= <- <-]. left. eauto.
  - rewrite (bind_inr _ _ _ _ _ E).
    assert (Hdb : w_db (m_world s3) = w_db (m_world s)) by (simpl; congruence).
    unfold wrapping, commit_catalog. destruct (default Fine _); intros [= <- <-]; simpl.
    + right. by exists c, s3, s4.
    + left. eauto.
    + right. by exists c, s3, s4.
Qed.

Lemma EnsurePartitions_covers (others : catalog → catalog) (ahead : Z) (s s' : mworld) (r : goerr + unit) :
  let h := w_clock (m_world s) 0%nat + ahead in
  let found := others (m_cat s) in
  let start := run_start (w_db (m_world s)) found in
  (∀ t, t ∈ Tables → -62167219200 * Second <= start t) → h <= 253402300800 * Second →
  EnsurePartitions others ahead s = (r, s') →
  (∃ e, r = inl e ∧ (m_cat s' = m_cat s ∨ m_cat s' = found)) ∨
  (∃ new, m_cat s' = attach new found ∧
    Forall (λ p, ∃ t lo, t ∈ Tables ∧ p = part t lo) new ∧
    ∀ t, t ∈ Tables → covers (start t) h t found (m_cat s')).
Proof.
  intros h found start Hstart Hh [?|(c & s3 & s4 & E & Hdb & ->)]%EnsurePartitions_runs; [by left|right].
  apply extend_tables_ok in E as [_ Hext]; [|intros t Ht; split; [done|]|exact tables_apart].
  2: { intros x Hx. specialize (Hstart t Ht). unfold start, found in Hstart. rewrite Hdb in Hx. unfold printable. lia. }
  rewrite Hdb in Hext. exact (Hext c eq_refl).
Qed.

(** C25: [EnsurePartitions] is all or nothing, and what it makes is enough: whatever other
    replicas committed before this one got the lock, a run that does not commit adds nothing
    and reports an error; a run that commits keeps every partition it found, adds only partitions of the three tables, one calendar step wide, and
    for each table every second from the end of its last partition to the horizon falls into
    one of them, unless a table of that partition's name was there already. *)
Theorem partitions_cover (others : catalog → catalog) (ahead : Z) (s s' : mworld) (r : goerr + unit) :
  let h := w_clock (m_world s) 0%nat + ahead in
  let found := others (m_cat s) in
  let start := run_start (w_db (m_world s)) found in
  (∀ t, t ∈ Tables → -62167219200 * Second <= start t) → h <= 253402300800 * Second →
  EnsurePartitions others ahead s = (r, s') →
  (∃ e, r = inl e ∧ (m_cat s' = m_cat s ∨ m_cat s' = found)) ∨
  (∃ new, m_cat s' = attach new found ∧
    Forall (λ p, ∃ t lo, t ∈ Tables ∧ p = part t lo) new ∧
    ∀ t, t ∈ Tables → covers (start t) h t found (m_cat s')).
Proof. apply EnsurePartitions_covers. Qed.

(** Tuesday, 14 November 2023, and a week ahead: the tables partitioned by week get the current
    one and the next, the audit table a month from the start of the week. *)
Definition fresh_install : mworld :=
  mkMWorld (set_clock (λ _, 1700000000 * Second) (world_of (set_now 1700000000000000 empty_db)))
    (mkCatalog [] [] [] []).

Lemma partitions_cover_witness :
  ∃ new, m_cat (EnsurePartitions id week fresh_install).2 = attach new (m_cat fresh_install) ∧
    (pt_name <$> new) = ["write_intents_20231113"; "write_intents_20231120"; "conflicts_20231113";
                         "conflicts_20231120"; "payload_access_audit_202311"] ∧
    ∀ t, t ∈ Tables →
      covers (run_start (w_db (m_world fresh_install)) (m_cat fresh_install) t) (1700000000 * Second + week) t
        (m_cat fresh_install) (m_cat (EnsurePartitions id week fresh_install).2).
Proof.
  destruct (partitions_cover id week fresh_install (EnsurePartitions id week fresh_install).2
    (EnsurePartitions id week fresh_install).1) as [(e & He & _)|(new & Hc & _ & Hcov)].
  - intros t Ht. each_table Ht; apply Z.leb_le; vm_compute; reflexivity.
  - apply Z.leb_le. vm_compute. reflexivity.
  - apply surjective_pairing.
  - exfalso. assert (Hok : (EnsurePartitions id week fresh_install).1 = inr tt) by (vm_compute; reflexivity).
    rewrite Hok in He. discriminate He.
  - exists new. split; [exact Hc|]. split; [|exact Hcov].
    assert (Hn : pt_name <$> attached (m_cat (EnsurePartitions id week fresh_install).2) =
      ["write_intents_20231113"; "write_intents_20231120"; "conflicts_20231113";
       "conflicts_20231120"; "payload_access_audit_202311"]) by (vm_compute; reflexivity).
    rewrite Hc in Hn. exact Hn.
Defined.
