(* ===== verification/Archive.v ===== *)
(** * Archive: internal/archive

    A partition past retention is exported as one Parquet object and can be restored into a table
    of its own.  Tables are named lists of rows.  The Parquet library is the class [Parquet]; the
    object store is [Objects].  The records of the archive have no NULL: the export coalesces
    [scope_selector], [manifest_version], [intent_ids] and [stated_reason] and writes zero for
    a NULL instant, so what a restore writes differs from what was archived where one of them
    was NULL. *)

From Stdlib Require Import Ascii.
From S2P Require Import Prelude GoString Sha256 Manifest Conflict World Json Claim ResultStore Retention.

(** ** Records *)

Record intentRecord := mkIntentRecord {
  a_IntentID : string;
  a_AgentID : string;
  a_IdempotencyKey : string;
  a_ResourceType : string;
  a_ResourceID : string;
  a_Operation : string;
  a_OperationClass : string;
  a_ScopeSelector : option (list string);
  a_Payload : string;
  a_EmittedAt : Z;
  a_PublishedAt : Z;
  a_VoidedAt : Z;
}.

Record conflictRecord := mkConflictRecord {
  a_ConflictID : string;
  a_IntentIDA : string;
  a_IntentIDB : string;
  a_AgentIDA : string;
  a_AgentIDB : string;
  a_cResourceType : string;
  a_cResourceID : string;
  a_Reason : string;
  a_Resolution : string;
  a_ManifestVersion : string;
  a_DetectedAt : Z;
}.

Record auditRecord := mkAuditRecord {
  a_AuditID : string;
  a_Principal : string;
  a_CallerRole : string;
  a_Endpoint : string;
  a_QueryParams : string;
  a_RecordCount : Z;
  a_IntentIDs : option (list string);
  a_StatedReason : string;
  a_AccessedAt : Z;
}.

(** Times are microseconds, with zero for NULL. *)
Definition micros (t : option Z) : Z := default 0 t.
Definition fromMicros (value : Z) : option Z := if value =? 0 then None else Some value.

(** ** The Parquet library *)

(** A slice read back from a file: an empty one is [e], which is nil or empty. *)
Definition refill (e l : option (list string)) : option (list string) :=
  match default [] l with [] => e | _ => l end.

(** What the columns of a record can hold (64-bit and 32-bit integers), and the record as it is
    read back. *)
Class Columns (T : Type) := { storable : T → Prop; reread : option (list string) → T → T }.

Definition int64 (z : Z) : Prop := int64_min <= z <= int64_max.

#[export] Instance intent_columns : Columns intentRecord := {|
  storable x := int64 (a_EmittedAt x) ∧ int64 (a_PublishedAt x) ∧ int64 (a_VoidedAt x);
  reread e x := mkIntentRecord (a_IntentID x) (a_AgentID x) (a_IdempotencyKey x) (a_ResourceType x)
    (a_ResourceID x) (a_Operation x) (a_OperationClass x) (refill e (a_ScopeSelector x)) (a_Payload x)
    (a_EmittedAt x) (a_PublishedAt x) (a_VoidedAt x);
|}.
#[export] Instance conflict_columns : Columns conflictRecord := {|
  storable x := int64 (a_DetectedAt x);
  reread _ x := x;
|}.
#[export] Instance audit_columns : Columns auditRecord := {|
  storable x := -2147483648 <= a_RecordCount x <= 2147483647 ∧ int64 (a_AccessedAt x);
  reread e x := mkAuditRecord (a_AuditID x) (a_Principal x) (a_CallerRole x) (a_Endpoint x)
    (a_QueryParams x) (a_RecordCount x) (refill e (a_IntentIDs x)) (a_StatedReason x) (a_AccessedAt x);
|}.

(** A generic writer and reader; a file reads back as it was written, but that a column of no
    values does not tell a nil slice from an empty one. *)
Class Parquet (T : Type) `{!Columns T} := {
  pq_Write : list T → option goerr;
  pq_Close : list T → goerr + string;
  pq_Read : string → goerr + list T;
  pq_empty : option (list string);
  pq_empty_empty : default [] pq_empty = [];
  pq_Read_Close rows body :
    Forall storable rows → pq_Close rows = inr body → pq_Read body = inr (reread pq_empty <$> rows);
}.
#[global] Arguments pq_empty T {_ _}.

(** ** Tables *)

Inductive table :=
| Intents (l : list intent_row)
| Conflicts (l : list conflict_row)
| Audits (l : list audit_row)
| Unrelated.

(** [LIKE]: the columns without the rows. *)
Definition like (t : table) : table :=
  match t with
  | Intents _ => Intents []
  | Conflicts _ => Conflicts []
  | Audits _ => Audits []
  | Unrelated => Unrelated
  end.

Record tworld := mkTWorld { t_world : world; t_tables : gmap string table }.

Abbreviation MT := (St tworld).

(** A statement in a transaction of its own. *)
Definition t_exec {A} (f : gmap string table → goerr + (A * gmap string table)) : MT A := λ s,
  let w := t_world s in
  let w1 := set_faults (tail (w_faults w)) w in
  match default Fine (head (w_faults w)) with
  | Refused e => (inl e, mkTWorld w1 (t_tables s))
  | flt => match f (t_tables s) with
           | inl e => (inl e, mkTWorld w1 (t_tables s))
           | inr (x, m) => (match flt with LostAck e => inl e | _ => inr x end, mkTWorld w1 m)
           end
  end.

Definition on_objects {A} (m : M A) : MT A := λ s,
  let '(r, w) := m (t_world s) in (r, mkTWorld w (t_tables s)).

Definition undefined_column (name : string) : goerr :=
  mkErr (PgError "42703") ("column of relation " +:+ name +:+ " does not exist").

(** The rows of a table with the columns that [get] reads. *)
Definition rows_of {R} (get : table → option (list R)) (name : string) (m : gmap string table) :
    goerr + list R :=
  match m !! name with
  | None => inl (undefined_table name)
  | Some t => match get t with None => inl (undefined_column name) | Some l => inr l end
  end.

Definition get_intents (t : table) : option (list intent_row) := match t with Intents l => Some l | _ => None end.
Definition get_conflicts (t : table) : option (list conflict_row) := match t with Conflicts l => Some l | _ => None end.
Definition get_audits (t : table) : option (list audit_row) := match t with Audits l => Some l | _ => None end.

Definition select_rows {R} (get : table → option (list R)) (name : string) (m : gmap string table) :
    goerr + (list R * gmap string table) :=
  match rows_of get name m with inl e => inl e | inr l => inr (l, m) end.

Definition insert_row {R} (get : table → option (list R)) (put : list R → table) (into : string)
    (cast : goerr + R) (m : gmap string table) : goerr + (unit * gmap string table) :=
  match rows_of get into m with
  | inl e => inl e
  | inr l => match cast with inl e => inl e | inr row => inr (tt, <[into := put (l ++ [row])]> m) end
  end.

Definition create_like (into tbl : string) (m : gmap string table) : goerr + (unit * gmap string table) :=
  match m !! tbl, m !! into with
  | None, _ => inl (undefined_table tbl)
  | Some _, Some _ => inl (mkErr (PgError "42P07") ("relation " +:+ into +:+ " already exists"))
  | Some t, None => inr (tt, <[into := like t]> m)
  end.

(** ** The export *)

(** The columns of the select, [coalesce] and all, as they are scanned. *)
Definition intent_record (i : intent_row) : intentRecord :=
  mkIntentRecord (i_id i) (i_agent i) (i_key i) (i_rtype i) (i_rid i) (i_op i) (Class (i_declared i))
    (Some (default [] (Scope_ (i_declared i)))) (i_payload i) (i_emitted i) (micros (i_published i))
    (micros (i_voided i)).

Definition conflict_record (c : conflict_row) : conflictRecord :=
  mkConflictRecord (c_id c) (c_intent_a c) (c_intent_b c) (c_agent_a c) (c_agent_b c) (c_rtype c)
    (c_rid c) (c_reason c) (resolution_text (c_resolution c)) (default "" (c_version c)) (c_detected c).

Definition audit_record (u : audit_row) : auditRecord :=
  mkAuditRecord (u_id u) (u_principal u) (u_role u) (u_endpoint u) (u_params u) (u_count u)
    (Some (default [] (u_intents u))) (default "" (u_reason u)) (u_at u).

Definition scanIntents (partition : string) : MT (list intentRecord) :=
  rows ← wrapping ("read " +:+ partition) (t_exec (select_rows get_intents partition));
  mret (intent_record <$> rows).
Definition scanConflicts (partition : string) : MT (list conflictRecord) :=
  rows ← wrapping ("read " +:+ partition) (t_exec (select_rows get_conflicts partition));
  mret (conflict_record <$> rows).
Definition scanAudit (partition : string) : MT (list auditRecord) :=
  rows ← wrapping ("read " +:+ partition) (t_exec (select_rows get_audits partition));
  mret (audit_record <$> rows).

Definition exportRows `{Parquet T} (scan : string → MT (list T)) (partition : string) : MT string :=
  rows ← scan partition;
  _ ← (if (0 <? length rows)%nat then
         match pq_Write rows with
         | Some e => throw (wrap ("write parquet for " +:+ partition) e)
         | None => mret tt
         end
       else mret tt);
  match pq_Close rows with
  | inl e => throw (wrap ("close parquet for " +:+ partition) e)
  | inr body => mret body
  end.

Definition objectName (tbl partition : string) : string := tbl +:+ "/" +:+ partition +:+ ".parquet".

(** ** The inserts of a restore *)

Definition resolution_of (text : string) : option Resolution :=
  if String.eqb text "serialized" then Some ResolutionSerialized
  else if String.eqb text "rejected" then Some ResolutionRejected
  else if String.eqb text "observed" then Some ResolutionObserved
  else None.

(** The parameters of the insert, as the row they make when they cast. *)
Definition intentValues (x : intentRecord) : intent_row :=
  mkIntent (a_IntentID x) (a_AgentID x) (a_IdempotencyKey x) (a_ResourceType x) (a_ResourceID x)
    (a_Operation x) (mkOperation (a_OperationClass x) (a_ScopeSelector x)) (a_Payload x)
    (a_EmittedAt x) (fromMicros (a_PublishedAt x)) (fromMicros (a_VoidedAt x)).

Definition conflictValues (x : conflictRecord) (resolution : Resolution) : conflict_row :=
  mkConflict (a_ConflictID x) (a_IntentIDA x) (a_IntentIDB x) (a_AgentIDA x) (a_AgentIDB x)
    (a_cResourceType x) (a_cResourceID x) (a_Reason x) resolution (Some (a_ManifestVersion x)) (a_DetectedAt x).

Definition auditValues (x : auditRecord) : audit_row :=
  mkAudit (a_AuditID x) (a_Principal x) (a_CallerRole x) (a_Endpoint x) (a_QueryParams x)
    (a_RecordCount x) (a_IntentIDs x) (Some (a_StatedReason x)) (a_AccessedAt x).

Definition bad_json : goerr := pg_error "22P02" "invalid input syntax for type json".
Definition bad_enum (name : string) : goerr := pg_error "22P02" ("invalid input value for enum " +:+ name).

Section Archive.
Context `{!Pg, !Objects} `{!Parquet intentRecord, !Parquet conflictRecord, !Parquet auditRecord}.

Definition cast_intent (x : intentRecord) : goerr + intent_row :=
  if decide (a_OperationClass x ∈ classes) then
    match jsonb_in (a_Payload x) with
    | None => inl bad_json
    | Some payload =>
        let i := intentValues x in
        inr (mkIntent (i_id i) (i_agent i) (i_key i) (i_rtype i) (i_rid i) (i_op i) (i_declared i)
               payload (i_emitted i) (i_published i) (i_voided i))
    end
  else inl (bad_enum "operation_class").

Definition cast_conflict (x : conflictRecord) : goerr + conflict_row :=
  match resolution_of (a_Resolution x) with
  | None => inl (bad_enum "conflict_resolution")
  | Some r => inr (conflictValues x r)
  end.

Definition cast_audit (x : auditRecord) : goerr + audit_row :=
  match jsonb_in (a_QueryParams x) with
  | None => inl bad_json
  | Some params =>
      let u := auditValues x in
      inr (mkAudit (u_id u) (u_principal u) (u_role u) (u_endpoint u) params (u_count u) (u_intents u)
             (u_reason u) (u_at u))
  end.

Definition export (tbl partition : string) : MT string :=
  if String.eqb tbl "write_intents" then exportRows scanIntents partition
  else if String.eqb tbl "conflicts" then exportRows scanConflicts partition
  else if String.eqb tbl "payload_access_audit" then exportRows scanAudit partition
  else throw (errorf ("no archive schema for " +:+ tbl)).

Definition Archive (tbl partition : string) : MT unit :=
  body ← export tbl partition;
  on_objects (Put (objectName tbl partition) body "application/vnd.apache.parquet").

Fixpoint insert_all {T} (into : string) (statement : T → gmap string table → goerr + (unit * gmap string table))
    (rows : list T) : MT unit :=
  match rows with
  | [] => mret tt
  | row :: rest =>
      _ ← wrapping ("restore row into " +:+ into) (t_exec (statement row));
      insert_all into statement rest
  end.

Definition restoreRows `{Parquet T} (body into : string)
    (statement : T → gmap string table → goerr + (unit * gmap string table)) : MT Z :=
  match pq_Read body with
  | inl e => throw (wrap "read parquet" e)
  | inr rows => _ ← insert_all into statement rows; mret (Z.of_nat (length rows))
  end.

Definition insert_intent (into : string) (x : intentRecord) := insert_row get_intents Intents into (cast_intent x).
Definition insert_conflict (into : string) (x : conflictRecord) := insert_row get_conflicts Conflicts into (cast_conflict x).
Definition insert_audit (into : string) (x : auditRecord) := insert_row get_audits Audits into (cast_audit x).

Definition Restore (tbl partition into : string) : MT Z :=
  body ← wrapping ("fetch archive for " +:+ partition) (on_objects (Get (objectName tbl partition)));
  _ ← wrapping ("create " +:+ into) (t_exec (create_like into tbl));
  if String.eqb tbl "write_intents" then restoreRows body into (insert_intent into)
  else if String.eqb tbl "conflicts" then restoreRows body into (insert_conflict into)
  else if String.eqb tbl "payload_access_audit" then restoreRows body into (insert_audit into)
  else throw (errorf ("no archive schema for " +:+ tbl)).
End Archive.

(** ** What comes back *)

(** The parent tables. *)
Definition schema (tbl : string) : option table :=
  if String.eqb tbl "write_intents" then Some (Intents [])
  else if String.eqb tbl "conflicts" then Some (Conflicts [])
  else if String.eqb tbl "payload_access_audit" then Some (Audits [])
  else None.

(** An instant at the epoch is archived as NULL. *)
Definition epoch_null (t : option Z) : option Z := match t with Some 0 => None | _ => t end.

Section Restored.
Context `{!Parquet intentRecord, !Parquet conflictRecord, !Parquet auditRecord}.

(** A NULL text comes back as the empty one, a NULL or empty array as the reader's empty slice. *)
Definition restored_intent (i : intent_row) : intent_row :=
  mkIntent (i_id i) (i_agent i) (i_key i) (i_rtype i) (i_rid i) (i_op i)
    (mkOperation (Class (i_declared i)) (refill (pq_empty intentRecord) (Scope_ (i_declared i))))
    (i_payload i) (i_emitted i) (epoch_null (i_published i)) (epoch_null (i_voided i)).

Definition restored_conflict (c : conflict_row) : conflict_row :=
  mkConflict (c_id c) (c_intent_a c) (c_intent_b c) (c_agent_a c) (c_agent_b c) (c_rtype c) (c_rid c)
    (c_reason c) (c_resolution c) (Some (default "" (c_version c))) (c_detected c).

Definition restored_audit (u : audit_row) : audit_row :=
  mkAudit (u_id u) (u_principal u) (u_role u) (u_endpoint u) (u_params u) (u_count u)
    (refill (pq_empty auditRecord) (u_intents u)) (Some (default "" (u_reason u))) (u_at u).

Definition as_restored (t : table) : table :=
  match t with
  | Intents l => Intents (restored_intent <$> l)
  | Conflicts l => Conflicts (restored_conflict <$> l)
  | Audits l => Audits (restored_audit <$> l)
  | Unrelated => Unrelated
  end.

(** The rows that the archive keeps as they are. *)
Definition lossless (t : table) : Prop :=
  match t with
  | Intents l => Forall (λ i, i_published i ≠ Some 0 ∧ i_voided i ≠ Some 0 ∧
      (Scope (i_declared i) = [] → Scope_ (i_declared i) = pq_empty intentRecord)) l
  | Conflicts l => Forall (λ c, is_Some (c_version c)) l
  | Audits l => Forall (λ u, is_Some (u_reason u) ∧
      (default [] (u_intents u) = [] → u_intents u = pq_empty auditRecord)) l
  | Unrelated => True
  end.
End Restored.

(** Two tables that an export does not tell apart. *)
Definition same_records (t t' : table) : Prop :=
  match t, t' with
  | Intents l, Intents l' => intent_record <$> l = intent_record <$> l'
  | Conflicts l, Conflicts l' => conflict_record <$> l = conflict_record <$> l'
  | Audits l, Audits l' => audit_record <$> l = audit_record <$> l'
  | Unrelated, Unrelated => True
  | _, _ => False
  end.

Definition row_count (t : table) : Z :=
  match t with
  | Intents l => Z.of_nat (length l)
  | Conflicts l => Z.of_nat (length l)
  | Audits l => Z.of_nat (length l)
  | Unrelated => 0
  end.

(** What the column types of the database guarantee: enumeration values, times and counts in
    range, and JSON in the form that the type prints, which it reads back unchanged. *)
Definition typed `{!Pg} (t : table) : Prop :=
  match t with
  | Intents l => Forall (λ i, Class (i_declared i) ∈ classes ∧ jsonb_in (i_payload i) = Some (i_payload i) ∧
                              storable (intent_record i)) l
  | Conflicts l => Forall (λ c, storable (conflict_record c)) l
  | Audits l => Forall (λ u, jsonb_in (u_params u) = Some (u_params u) ∧ storable (audit_record u)) l
  | Unrelated => True
  end.

Lemma epoch_null_id t : epoch_null t = t ↔ t ≠ Some 0.
Proof. by destruct t as [[]|]. Qed.

Lemma fromMicros_micros t : fromMicros (micros t) = epoch_null t.
Proof. by destruct t as [[]|]. Qed.

Lemma micros_epoch t : micros (epoch_null t) = micros t.
Proof. by destruct t as [[]|]. Qed.

Lemma refill_coalesce e l : refill e (Some (default [] l)) = refill e l.
Proof. by destruct l as [[]|]. Qed.

Lemma refill_default e l : default [] e = [] → default [] (refill e l) = default [] l.
Proof. by destruct l as [[]|]. Qed.

Lemma refill_id e l : refill e l = l ↔ (default [] l = [] → l = e).
Proof. destruct l as [[|x l]|]; unfold refill; simpl; naive_solver. Qed.

Lemma coalesce_id (t : option string) : Some (default "" t) = t ↔ is_Some t.
Proof. destruct t; simpl; [by split; [eexists|]|]. split; [done|by intros [? ?]]. Qed.

Lemma fmap_id_Forall {A} (f : A → A) (l : list A) : f <$> l = l ↔ Forall (λ x, f x = x) l.
Proof.
  induction l as [|x l IH]; csimpl; [done|]. rewrite Forall_cons, <- IH.
  split; [by intros [= -> ->]|by intros [-> ->]].
Qed.

Lemma fmap_same {A B} (f : A → A) (g : A → B) (l : list A) : (∀ x, g (f x) = g x) → g <$> (f <$> l) = g <$> l.
Proof. intros Hf. rewrite <- list_fmap_compose. apply list_fmap_ext. intros n x _. apply Hf. Qed.

Section RestoredLemmas.
Context `{!Parquet intentRecord, !Parquet conflictRecord, !Parquet auditRecord}.

Lemma as_restored_id t : as_restored t = t ↔ lossless t.
Proof.
  destruct t as [l|l|l|]; simpl; [| | |done].
  - transitivity (restored_intent <$> l = l); [split; [by intros [=]|by intros ->]|].
    rewrite fmap_id_Forall. apply Forall_iff. intros [? ? ? ? ? ? [class scope] ? ? published voided].
    unfold restored_intent. simpl. rewrite <- (epoch_null_id published), <- (epoch_null_id voided), <- refill_id.
    split; [by intros [= -> -> ->]|by intros (-> & -> & ->)].
  - transitivity (restored_conflict <$> l = l); [split; [by intros [=]|by intros ->]|].
    rewrite fmap_id_Forall. apply Forall_iff. intros [? ? ? ? ? ? ? ? ? version ?].
    unfold restored_conflict. simpl. rewrite <- coalesce_id. split; [by intros [=]|by intros ->].
  - transitivity (restored_audit <$> l = l); [split; [by intros [=]|by intros ->]|].
    rewrite fmap_id_Forall. apply Forall_iff. intros [? ? ? ? ? ? ids reason ?].
    unfold restored_audit. simpl. rewrite <- coalesce_id, <- refill_id. split; [by intros [= -> ->]|by intros (-> & ->)].
Qed.

Lemma as_restored_records t : same_records (as_restored t) t.
Proof.
  destruct t as [l|l|l|]; simpl; [apply fmap_same; intros x..|done].
  - unfold intent_record. simpl. by rewrite !micros_epoch, refill_default by apply pq_empty_empty.
  - done.
  - unfold audit_record. simpl. by rewrite refill_default by apply pq_empty_empty.
Qed.
End RestoredLemmas.

Lemma resolution_round_trip r : resolution_of (resolution_text r) = Some r.
Proof. by destruct r. Qed.

(** ** One kind of table *)

Section Kind.
Context {R : Type} `{Parquet T} (get : table → option (list R)) (put : list R → table) (record : R → T)
  (cast : T → goerr + R).
Context (get_put : ∀ l, get (put l) = Some l).

Definition scan (partition : string) : MT (list T) :=
  rows ← wrapping ("read " +:+ partition) (t_exec (select_rows get partition)); mret (record <$> rows).

Lemma t_exec_ok {A} ctx (f : gmap string table → goerr + (A * gmap string table)) s x s' :
  wrapping ctx (t_exec f) s = (inr x, s') → f (t_tables s) = inr (x, t_tables s').
Proof.
  unfold wrapping, t_exec.
  destruct (default Fine _), (f (t_tables s)) as [|[]]; intros [= <- <-]; done.
Qed.

Lemma t_exec_calm {A} ctx (f : gmap string table → goerr + (A * gmap string table)) w m x m' :
  w_faults w = [] → f m = inr (x, m') →
  wrapping ctx (t_exec f) (mkTWorld w m) = (inr x, mkTWorld w m').
Proof. intros Hw Hf. unfold wrapping, t_exec. simpl. rewrite Hw. simpl. rewrite Hf. destruct w; simpl in *. by subst. Qed.

Lemma scan_ok partition s x s' :
  scan partition s = (inr x, s') →
  ∃ l, rows_of get partition (t_tables s) = inr l ∧ x = record <$> l ∧ t_tables s' = t_tables s.
Proof.
  unfold scan. run_first [[e|rows] s1] as E; [done|]. intros [= <- <-]. apply t_exec_ok in E. unfold select_rows in E.
  destruct (rows_of get partition (t_tables s)) as [|l]; [done|]. injection E as -> ->. by exists rows.
Qed.

Lemma exportRows_ok partition s body s' :
  exportRows scan partition s = (inr body, s') →
  ∃ l, rows_of get partition (t_tables s) = inr l ∧ pq_Close (record <$> l) = inr body ∧ t_tables s' = t_tables s.
Proof.
  unfold exportRows. run_first [[e|rows] s1] as E; [done|]. apply scan_ok in E as (l & Hl & -> & Ht). intros Hrun. exists l. split; [done|].
  revert Hrun. destruct (0 <? _)%nat, (pq_Write (record <$> l)); unfold mbind, St_bind; simpl; try done;
    destruct (pq_Close (record <$> l)); simpl; intros [= <- <-]; done.
Qed.

Lemma insert_all_ok into w : w_faults w = [] → ∀ l m l0 l',
  m !! into = Some (put l0) → Forall2 (λ x r, cast x = inr r) l l' →
  insert_all into (λ x, insert_row get put into (cast x)) l (mkTWorld w m) =
    (inr tt, mkTWorld w (<[into := put (l0 ++ l')]> m)).
Proof.
  intros Hw l. induction l as [|x l IH]; intros m l0 l' Hm Hl.
  { apply Forall2_nil_inv_l in Hl as ->. rewrite app_nil_r, insert_id by done. done. }
  apply Forall2_cons_inv_l in Hl as (r & l1 & Hr & Hl & ->). cbn [insert_all].
  erewrite bind_inr; [|apply (t_exec_calm _ _ _ _ tt (<[into := put (l0 ++ [r])]> m)); [done|]].
  - rewrite (IH _ (l0 ++ [r]) l1) by (done || by rewrite lookup_insert_eq).
    by rewrite insert_insert_eq, <- app_assoc.
  - unfold insert_row, rows_of. by rewrite Hm, get_put, Hr.
Qed.

Lemma restoreRows_ok into w m l l' body :
  w_faults w = [] → m !! into = Some (put []) → Forall storable (record <$> l) →
  pq_Close (record <$> l) = inr body →
  Forall2 (λ x r, cast x = inr r) (reread (pq_empty T) <$> (record <$> l)) l' →
  restoreRows body into (λ x, insert_row get put into (cast x)) (mkTWorld w m) =
    (inr (Z.of_nat (length l)), mkTWorld w (<[into := put l']> m)).
Proof.
  intros Hw Hm Hs Hc Hl. unfold restoreRows. rewrite (pq_Read_Close _ _ Hs Hc).
  erewrite bind_inr by (by apply insert_all_ok). by rewrite !length_fmap.
Qed.
End Kind.

(** ** Both ways *)

Section RoundTrip.
Context `{!Pg, !Objects} `{!Parquet intentRecord, !Parquet conflictRecord, !Parquet auditRecord}.

(** The object holds the rows of the table. *)
Definition exported (tbl : string) (t : table) (body : string) : Prop :=
  like t = default Unrelated (schema tbl) ∧
  match t with
  | Intents l => pq_Close (intent_record <$> l) = inr body
  | Conflicts l => pq_Close (conflict_record <$> l) = inr body
  | Audits l => pq_Close (audit_record <$> l) = inr body
  | Unrelated => False
  end.

Lemma exported_schema tbl t body : exported tbl t body → schema tbl = Some (like t).
Proof. unfold exported. destruct (schema tbl); simpl; [by intros [-> _]|]. by intros [Hk Hx]; destruct t. Qed.

Lemma rows_of_inv {R} (get : table → option (list R)) name m l :
  rows_of get name m = inr l → ∃ t, m !! name = Some t ∧ get t = Some l.
Proof. unfold rows_of. destruct (m !! name) as [t|]; [|done]. destruct (get t) eqn:E; [|done]. intros [= ->]. eauto. Qed.

Lemma export_ok tbl partition s body s' :
  export tbl partition s = (inr body, s') →
  t_tables s' = t_tables s ∧ ∃ t, t_tables s !! partition = Some t ∧ exported tbl t body.
Proof.
  unfold export, exported, schema. repeat case_match; try done.
  - intros (l & (t & Hp & Hg)%rows_of_inv & Hc & Ht)%(exportRows_ok get_intents intent_record).
    split; [done|]. exists t. destruct t; naive_solver.
  - intros (l & (t & Hp & Hg)%rows_of_inv & Hc & Ht)%(exportRows_ok get_conflicts conflict_record).
    split; [done|]. exists t. destruct t; naive_solver.
  - intros (l & (t & Hp & Hg)%rows_of_inv & Hc & Ht)%(exportRows_ok get_audits audit_record).
    split; [done|]. exists t. destruct t; naive_solver.
Qed.

Lemma Archive_ok tbl partition s s1 :
  Archive tbl partition s = (inr tt, s1) →
  t_tables s1 = t_tables s ∧
  ∃ t body, t_tables s !! partition = Some t ∧ exported tbl t body ∧
    holds (t_world s1) (objectName tbl partition) = Some body.
Proof.
  unfold Archive. run_first [[e|body] s2] as E; [done|].
  apply export_ok in E as (Ht & t & Hp & Hx). unfold on_objects.
  pose proof (Put_holds (objectName tbl partition) body "application/vnd.apache.parquet" (t_world s2)) as Hh.
  destruct (Put _ _ _ (t_world s2)) as [r w]. intros [= -> <-]. simpl in *. eauto 10.
Qed.

Lemma cast_all {A B C} (f : A → B) (g : A → C) (cast : B → goerr + C) l :
  Forall (λ x, cast (f x) = inr (g x)) l → Forall2 (λ x r, cast x = inr r) (f <$> l) (g <$> l).
Proof. induction 1; csimpl; auto. Qed.

Lemma Forall_storable {A} `{!Columns T} (f : A → T) l :
  Forall (λ x, storable (f x)) l → Forall storable (f <$> l).
Proof. by rewrite Forall_fmap. Qed.

Lemma restore_rows_ok tbl t body into w m :
  typed t → exported tbl t body → w_faults w = [] → m !! into = schema tbl →
  (if String.eqb tbl "write_intents" then restoreRows body into (insert_intent into)
   else if String.eqb tbl "conflicts" then restoreRows body into (insert_conflict into)
   else if String.eqb tbl "payload_access_audit" then restoreRows body into (insert_audit into)
   else throw (errorf ("no archive schema for " +:+ tbl))) (mkTWorld w m) =
  (inr (row_count t), mkTWorld w (<[into := as_restored t]> m)).
Proof.
  unfold exported, schema. intros Hty [Hk Hc] Hw Hm.
  destruct (String.eqb tbl "write_intents"); [|destruct (String.eqb tbl "conflicts");
    [|destruct (String.eqb tbl "payload_access_audit")]]; destruct t as [l|l|l|]; try done; simpl in Hty.
  - apply (restoreRows_ok get_intents Intents intent_record cast_intent); try done.
    + apply Forall_storable. eapply Forall_impl; [exact Hty|]. naive_solver.
    + rewrite <- list_fmap_compose. apply cast_all. eapply Forall_impl; [exact Hty|]. intros i (Hcl & Hj & _).
      unfold cast_intent. simpl. by rewrite decide_True, Hj, !fromMicros_micros, refill_coalesce by done.
  - apply (restoreRows_ok get_conflicts Conflicts conflict_record cast_conflict); try done.
    + by apply Forall_storable.
    + rewrite <- list_fmap_compose. apply cast_all. apply Forall_true. intros c. unfold cast_conflict. simpl.
      by rewrite resolution_round_trip.
  - apply (restoreRows_ok get_audits Audits audit_record cast_audit); try done.
    + apply Forall_storable. eapply Forall_impl; [exact Hty|]. naive_solver.
    + rewrite <- list_fmap_compose. apply cast_all. eapply Forall_impl; [exact Hty|]. intros u [Hj _].
      unfold cast_audit. simpl. by rewrite Hj, refill_coalesce.
Qed.
End RoundTrip.

(** C26: an archive can be read back.  When [Archive] reports success the partition's rows are in
    the object store and no table changed; at any later time at which the object is still there
    and the services answer, [Restore] into a new name returns the number of rows and makes that
    table, and changes no other.  The restored rows are the archived rows, in order, with every
    column as it was except where the archive has no NULL: a NULL manifest version or stated
    reason comes back empty, a NULL or empty scope or list of intents as whichever of the two
    the reader makes of no values, and an instant of publication or voiding at the epoch as
    NULL.  So the table is the same exactly when it has no such value, and exporting it again
    gives the same records in any case. *)
Theorem archive_round_trip `{!Pg, !Objects} `{!Parquet intentRecord, !Parquet conflictRecord, !Parquet auditRecord}
    (tbl partition into : string) (s s1 s2 : tworld) :
  Archive tbl partition s = (inr tt, s1) →
  (∀ t, t_tables s !! partition = Some t → typed t) →
  holds (t_world s2) (objectName tbl partition) = holds (t_world s1) (objectName tbl partition) →
  reachable (t_world s2) → w_faults (t_world s2) = [] →
  like <$> t_tables s2 !! tbl = schema tbl → t_tables s2 !! into = None →
  t_tables s1 = t_tables s ∧
  ∃ t w, t_tables s !! partition = Some t ∧
    Restore tbl partition into s2 = (inr (row_count t), mkTWorld w (<[into := as_restored t]> (t_tables s2))) ∧
    (as_restored t = t ↔ lossless t) ∧ same_records (as_restored t) t.
Proof.
  intros (Ht & t & body & Hp & Hx & Hh)%Archive_ok Hty Hsame Hreach Hf Hparent Hinto.
  split; [done|]. exists t. rewrite Hh in Hsame.
  pose proof (Get_reachable _ _ _ Hreach Hsame) as Hget. pose proof (Get_frame (objectName tbl partition) (t_world s2)) as Hfr.
  destruct (Get (objectName tbl partition) (t_world s2)) as [r w] eqn:E. simpl in *. subst r.
  exists w. split_and!; [done| |apply as_restored_id|apply as_restored_records].
  assert (Hw : w_faults w = []) by (rewrite Hfr; done).
  unfold Restore. erewrite bind_inr; [|unfold wrapping, on_objects; rewrite E; done].
  pose proof (exported_schema _ _ _ Hx) as Hs.
  assert (Hcreate : create_like into tbl (t_tables s2) = inr (tt, <[into := like t]> (t_tables s2))).
  { unfold create_like. rewrite Hinto. rewrite Hs in Hparent.
    destruct (t_tables s2 !! tbl) as [t'|]; [|done]. by injection Hparent as ->. }
  rewrite (bind_inr _ _ _ _ _ (t_exec_calm _ _ _ _ _ _ Hw Hcreate)).
  rewrite (restore_rows_ok tbl t body) by (auto; by rewrite lookup_insert_eq).
  by rewrite insert_insert_eq.
Qed.

(** ** An archive *)

(** A file format: the digits of a number for the rows; it reads no values as an empty slice. *)
Fixpoint bits (p : positive) : string :=
  match p with
  | xH => EmptyString
  | xO p => String "0" (bits p)
  | xI p => String "1" (bits p)
  end.

Fixpoint of_bits (s : string) : positive :=
  match s with
  | EmptyString => xH
  | String c s => if Ascii.eqb c "0" then xO (of_bits s) else xI (of_bits s)
  end.

Lemma of_bits_bits p : of_bits (bits p) = p.
Proof. induction p as [p IH|p IH|]; simpl; by rewrite ?IH. Qed.

Program Definition counted_file `{Countable T, !Columns T} : Parquet T := {|
  pq_Write := λ _, None;
  pq_Close := λ rows, inr (bits (encode rows));
  pq_Read := λ body, match decode (of_bits body) with
                     | Some rows => inr (reread (Some []) <$> rows)
                     | None => inl (errorf "not a file")
                     end;
  pq_empty := Some [];
  pq_empty_empty := eq_refl;
|}.
Next Obligation. intros T ? ? ? rows body _ [= <-]. simpl. by rewrite of_bits_bits, decode_encode. Qed.

#[local] Instance intentRecord_eq_dec : EqDecision intentRecord.
Proof. solve_decision. Defined.
#[local] Instance conflictRecord_eq_dec : EqDecision conflictRecord.
Proof. solve_decision. Defined.
#[local] Instance auditRecord_eq_dec : EqDecision auditRecord.
Proof. solve_decision. Defined.

#[local] Program Instance intentRecord_countable : Countable intentRecord :=
  inj_countable' (λ x, (a_IntentID x, a_AgentID x, a_IdempotencyKey x, a_ResourceType x, a_ResourceID x,
      a_Operation x, a_OperationClass x, a_ScopeSelector x, a_Payload x, (a_EmittedAt x, a_PublishedAt x, a_VoidedAt x)))
    (λ '(a, b, c, d, e, f, g, h, i, (j, k, l)), mkIntentRecord a b c d e f g h i j k l) _.
Next Obligation. by intros []. Qed.
#[local] Program Instance conflictRecord_countable : Countable conflictRecord :=
  inj_countable' (λ x, (a_ConflictID x, a_IntentIDA x, a_IntentIDB x, a_AgentIDA x, a_AgentIDB x,
      a_cResourceType x, a_cResourceID x, a_Reason x, a_Resolution x, (a_ManifestVersion x, a_DetectedAt x)))
    (λ '(a, b, c, d, e, f, g, h, i, (j, k)), mkConflictRecord a b c d e f g h i j k) _.
Next Obligation. by intros []. Qed.
#[local] Program Instance auditRecord_countable : Countable auditRecord :=
  inj_countable' (λ x, (a_AuditID x, a_Principal x, a_CallerRole x, a_Endpoint x, a_QueryParams x,
      a_RecordCount x, a_IntentIDs x, a_StatedReason x, a_AccessedAt x))
    (λ '(a, b, c, d, e, f, g, h, i), mkAuditRecord a b c d e f g h i) _.
Next Obligation. by intros []. Qed.

(** A partition with one published intent and one unpublished, whose scope is NULL. *)
Definition old_intent (id : string) (scope : option (list string)) (published : option Z) : intent_row :=
  mkIntent id "a" "k" "ticket" "7" "close" (mkOperation ClassReplace scope) "{}" 1600000000000000 published None.
Definition old_partition (unscoped : option (list string)) : table :=
  Intents [old_intent "i1" (Some ["status"]) (Some 1600000000000009); old_intent "i2" unscoped None].
Definition before_archive : tworld :=
  mkTWorld (world_of empty_db) {[ "write_intents" := Intents []; "write_intents_20200907" := old_partition None ]}.

#[local] Instance intent_file : Parquet intentRecord := counted_file.
#[local] Instance conflict_file : Parquet conflictRecord := counted_file.
#[local] Instance audit_file : Parquet auditRecord := counted_file.
#[local] Existing Instance demo_pg.

Definition after_archive : tworld := (Archive "write_intents" "write_intents_20200907" before_archive).2.

Lemma archive_round_trip_witness :
  ∃ w, Restore "write_intents" "write_intents_20200907" "restored" after_archive =
    (inr 2, mkTWorld w (<["restored" := old_partition (Some [])]> (t_tables after_archive))).
Proof.
  destruct (archive_round_trip "write_intents" "write_intents_20200907" "restored" before_archive
    after_archive after_archive) as (Ht & t & w & Hp & Hr & _).
  - unfold after_archive. rewrite (surjective_pairing (Archive _ _ _)). f_equal.
  - intros t Ht. injection Ht as <-. apply Forall_cons. split; [|apply Forall_cons; split; [|apply Forall_nil; exact I]];
      (split; [right; left|]); (split; [reflexivity|]); unfold storable, intent_columns, int64; simpl;
      vm_compute; intuition discriminate.
  - reflexivity.
  - vm_compute. reflexivity.
  - vm_compute. reflexivity.
  - vm_compute. reflexivity.
  - vm_compute. reflexivity.
  - injection Hp as <-. exists w. exact Hr.
Defined.
