(* ===== verification/Maintenance.v ===== *)
(** * Maintenance: the housekeeping pass of cmd/reconciler

    [runMaintenance] makes the partitions that are needed, expires keys, and retires partitions,
    and goes on when one of them fails; [restore] is the command that reads an archive back.
    The archiver is an interface value: without an object store cmd/reconciler passes a nil
    [*archive.Archive], which is not the nil interface that the checks look for. *)

From S2P Require Import Prelude GoString GoTime Sha256 Manifest Conflict World Json Claim Config ResultStore.
From S2P Require Import Retention Partitions Archive.

Definition maintenanceInterval : Z := Hour.

(** The retention that [maintain] takes from the configuration. *)
Definition retention_of (cfg : Config) : Retention :=
  mkRetention (RetentionKeys cfg) (RetentionIntents cfg) (RetentionConflicts cfg) (RetentionAudit cfg)
    (RetentionRowsPerSec cfg).

(** The counters of a retirement. *)
Fixpoint count_retired (retired : list Retired) : M unit :=
  match retired with
  | [] => mret tt
  | p :: rest =>
      _ ← (if Archived p then
             _ ← emit (Inc "archived_partitions" [Table p]);
             emit (Inc "retention_deleted" [Table p])
           else mret tt);
      count_retired rest
  end.

(** A value of the interface [maintenance.Archiver]. *)
Inductive archiver_value := NilInterface | NilArchive | AnArchive.

#[export] Instance archiver_value_eq_dec : EqDecision archiver_value.
Proof. solve_decision. Defined.

(** [archive.New], as [main] passes it on. *)
Definition archiver_of (objects : bool) : archiver_value := if objects then AnArchive else NilArchive.

(** [RetireExpired] with a nil [*archive.Archive]: the interface is not nil, so the first
    partition past retention is detached, and its export reads the pool of the nil archive.
    [true]: that read panicked. *)
Definition panic_partitions (table : string) (names : list string) : MM (bool * option goerr) :=
  match names with
  | [] => mret (false, None)
  | name :: _ =>
      d ← try (wrapping ("detach " +:+ name) (ddl (detach table name)));
      match d with inl e => mret (false, Some e) | inr _ => mret (true, None) end
  end.

Fixpoint panic_tables (r : Retention) (tables : list Partitioned) : MM (bool * option goerr) :=
  match tables with
  | [] => mret (false, None)
  | t :: rest =>
      started ← lift now;
      names ← try (expired (Name t) (started - window r (Name t)));
      match names with
      | inl e => mret (false, Some e)
      | inr names =>
          '(panicked, err) ← panic_partitions (Name t) names;
          match panicked, err with
          | true, _ => mret (true, None)
          | _, Some e => mret (false, Some e)
          | _, None => panic_tables r rest
          end
      end
  end.

(** How a pass ends: it returns, it panics, which ends the process, or the fuel of the key expiry
    ran out. *)
Inductive pass := PassDone | PassPanicked | OutOfFuel.

Section Pass.
Context `{!Objects} (scan : DB → list ((string * string) * key_row)).
(** The configuration, the archiver, and the results store. *)
Context (cfg : Config) (archiver : archiver_value) (results : option ResultStore).
(** What other replicas do before this one gets the maintenance lock. *)
Context (others : catalog → catalog).

Definition retire_pass : MM pass :=
  match archiver with
  | NilInterface => mret PassDone
  | NilArchive =>
      '(panicked, _) ← panic_tables (retention_of cfg) Tables;
      mret (if (panicked : bool) then PassPanicked else PassDone)
  | AnArchive =>
      '(retired, _) ← RetireExpired true (retention_of cfg);
      _ ← lift (count_retired retired);
      mret PassDone
  end.

Definition runMaintenance (fuel : nat) : MM pass :=
  _ ← try (EnsurePartitions others (PartitionAhead cfg));
  expiry ← lift (ExpireKeys scan results fuel (retention_of cfg) (maintenanceInterval / 2));
  match expiry with
  | None => mret OutOfFuel
  | Some (deleted, _) =>
      _ ← (if 0 <? deleted then lift (emit (Add "retention_deleted" ["idempotency_keys"] deleted)) else mret tt);
      retire_pass
  end.
End Pass.

(** The command [-restore-partition]. *)
Definition restore `{!Pg, !Objects} `{!Parquet intentRecord, !Parquet conflictRecord, !Parquet auditRecord}
    (configured : bool) (partition tbl into : string) : MT Z :=
  if negb configured
  then throw (errorf "no object storage is configured, so there is no archive to restore from")
  else
    let into := if String.eqb into "" then partition +:+ "_restored" else into in
    wrapping ("restore " +:+ partition) (Restore tbl partition into).

(** ** Lemmas *)

(** Rows and other connections are as they were; time has passed. *)
Definition settled (s s' : mworld) : Prop :=
  w_db (m_world s') = w_db (m_world s) ∧ w_env (m_world s') = w_env (m_world s) ∧
  later (m_world s) (m_world s').

#[export] Instance settled_preorder : PreOrder settled.
Proof.
  split; [intros s; split_and!; [done..|by apply later_same]|].
  intros s1 s2 s3 (H1 & H2 & H3) (H4 & H5 & H6). split_and!; [congruence..|by eapply later_trans].
Qed.

Lemma quiet_settled s s' : quiet (m_world s) (m_world s') → settled s s'.
Proof. intros (Hd & Hc & He)%quiet_eq. split_and!; [done..|by apply later_same]. Qed.

Lemma in_tx_settled {A} (f : catalog → goerr + (A * catalog)) c : frames settled (in_tx f c).
Proof. intros s. apply quiet_settled. unfold in_tx. destruct (default Fine _), (f c); apply quiet_faults. Qed.

Lemma commit_settled c : frames settled (commit_catalog c).
Proof. intros s. apply quiet_settled. unfold commit_catalog. destruct (default Fine _); apply quiet_faults. Qed.

Lemma begin_settled : frames settled begin_maintenance.
Proof.
  intros s. apply quiet_settled. destruct (begin_maintenance s) as [r s1] eqn:E. by apply begin_runs in E as [_ Hq].
Qed.

Lemma lock_settled others : frames settled (acquire_lock others).
Proof. intros s. apply quiet_settled. unfold acquire_lock. destruct (default Fine _); apply quiet_faults. Qed.

Lemma emit_settled m : frames settled (lift (emit m)).
Proof. intros s. split_and!; [done..|by apply later_same]. Qed.

Lemma gets_settled {A} (f : world → A) : frames settled (lift (gets f)).
Proof. intros s. split_and!; [done..|by apply later_same]. Qed.

Lemma now_settled : frames settled (lift now).
Proof. intros s. split_and!; [done..|by exists 1%nat]. Qed.

#[local] Hint Resolve in_tx_settled commit_settled begin_settled lock_settled emit_settled gets_settled now_settled : frames.

Lemma EnsurePartitions_settled others ahead : frames settled (EnsurePartitions others ahead).
Proof.
  assert (Hloop : ∀ f t h b c, frames settled (extend_loop f t h b c)).
  { induction f as [|f IH]; intros t h b c; simpl; [frames_auto|]. destruct (negb (b <? h)); frames_auto. }
  assert (Htables : ∀ ts h c, frames settled (extend_tables ts h c)).
  { induction ts as [|t ts IH]; intros h c; csimpl; unfold extend; frames_auto. }
  unfold EnsurePartitions. frames_auto.
Qed.

Lemma count_retired_runs l : ∀ w, ∃ w', count_retired l w = (inr tt, w') ∧ quiet w w'.
Proof.
  induction l as [|p l IH]; intros w; cbn [count_retired]; [by exists w; split; [|reflexivity]|].
  destruct (Archived p); (erewrite bind_inr by done);
    match goal with |- context [count_retired l ?w1] => destruct (IH w1) as (w' & -> & Hq) end;
    exists w'; (split; [done|]); [|done]. etrans; [|exact Hq]. by destruct w.
Qed.

(** Names stay unique. *)
Lemma create_keeps_names table name lo hi c u c' :
  create_partition table name lo hi c = inr (u, c') →
  NoDup (pt_name <$> known c) → NoDup (pt_name <$> known c').
Proof.
  intros [[_ ->]|[Hn ->]]%create_partition_spec Hnd; [done|]. unfold taken, known in *. simpl.
  rewrite <- app_assoc. cbn [app]. rewrite <- Permutation_middle. csimpl. by apply NoDup_cons.
Qed.

Lemma EnsurePartitions_names others ahead s :
  NoDup (pt_name <$> known (m_cat s)) → NoDup (pt_name <$> known (others (m_cat s))) →
  NoDup (pt_name <$> known (m_cat (EnsurePartitions others ahead s).2)).
Proof.
  intros Hnd0 Hnd. destruct (EnsurePartitions others ahead s) as [r s'] eqn:E. cbn [snd].
  apply EnsurePartitions_runs in E as [(e & _ & [->| ->])|(c & s3 & s4 & E & _ & ->)]; [done..|].
  revert E Hnd. apply (extend_tables_keeps (λ c, NoDup (pt_name <$> known c))). apply create_keeps_names.
Qed.

(** *** A nil archive *)

Section NilArchive.
Context (r : Retention) (past : partition → Prop).

(** A partition was detached, and not exported. *)
Definition detached_only (s s' : mworld) : Prop :=
  archives (m_cat s') = archives (m_cat s) ∧
  ∃ p, p ∈ attached (m_cat s) ∧ p ∈ detached (m_cat s').

Lemma panic_partitions_ok table names s :
  NoDup (pt_name <$> known (m_cat s)) → (∀ name, name ∈ names → may_retire past s table name) →
  ∃ panicked err s', panic_partitions table names s = (inr (panicked, err), s') ∧ retired_to past s s' ∧
    same_clock s s' ∧ (panicked = true → detached_only s s') ∧ (panicked = false → err = None → m_cat s' = m_cat s).
Proof.
  intros Hnd Hmay. destruct names as [|name rest]; cbn [panic_partitions].
  { exists false, None, s. split_and!; [done|by apply retired_refl; [..|apply later_same]|done..]. }
  destruct (ddl (detach table name) s) as [res s1] eqn:Hd.
  destruct (ddl_cases _ _ _ _ Hd) as [Hc Hcase].
  assert (Hto : retired_to past s s1 ∧ (res = inr tt → detached_only s s1)).
  { destruct Hcase as [[He [e ->]]|([] & c & Hf & He & Hres)].
    - split; [by apply retired_refl; [..|apply later_same]|done].
    - split; [apply (detached_ok past s s1 table name); [done|apply Hmay; by left|by rewrite He|by apply later_same]|].
      intros _. apply (detach_spec past) in Hf as (Har & _ & (p & Hp & _ & Hin) & _). subst c.
      split; [done|]. by exists p. }
  destruct Hto as [Hto Honly].
  destruct res as [e|[]]; (erewrite bind_inr by (apply try_eq; unfold wrapping; by rewrite Hd)).
  - exists false, (Some (wrap ("detach " +:+ name) e)), s1. by split_and!.
  - exists true, None, s1. split_and!; [done..|auto|done].
Qed.

Lemma panic_tables_ok : ∀ tables s,
  NoDup (pt_name <$> known (m_cat s)) → may_go r past (length tables) s →
  ∃ panicked err s', panic_tables r tables s = (inr (panicked, err), s') ∧ retired_to past s s' ∧
    (panicked = true → detached_only s s').
Proof.
  induction tables as [|t tables IH]; intros s Hnd Hgo.
  { exists false, None, s. split_and!; [done|by apply retired_refl; [..|apply later_same]|done]. }
  cbn [panic_tables]. erewrite bind_inr by done.
  set (m := expired _ _). destruct (m (lift now s).2) as [res s1] eqn:Hm.
  destruct (expired_ok r past _ (Name t) s res s1 Hnd Hgo Hm) as (Hcat & Hclk & Hnames).
  assert (Hl : later (m_world s) (m_world s1)) by (by exists 1%nat).
  erewrite bind_inr by (by apply try_eq). clear Hm m.
  pose proof (retired_refl past s s1 Hnd Hcat Hl) as H1.
  destruct res as [e|names]; [by exists false, (Some e), s1|].
  destruct (panic_partitions_ok (Name t) names s1) as (panicked & err & s2 & Hrun & H2 & Hclk2 & Hp & Hsame);
    [apply H1|by eauto|].
  rewrite (bind_inr _ _ _ _ _ Hrun). pose proof (retired_trans past _ _ _ H1 H2) as H12.
  destruct panicked.
  { exists true, None, s2. split_and!; [done..|]. intros _. destruct (Hp eq_refl) as [Ha Hx].
    unfold detached_only. rewrite <- Hcat. done. }
  destruct err as [e|]; [by exists false, (Some e), s2|].
  destruct (IH s2) as (b & err & s3 & Hrun3 & H3 & Hb);
    [apply H2|apply (may_go_later r past _ s); [by rewrite Hclk2|done]|].
  exists b, err, s3. split_and!; [done|by eapply retired_trans|]. intros Ht.
  unfold detached_only. rewrite <- Hcat, <- (Hsame eq_refl eq_refl). by apply Hb.
Qed.
End NilArchive.

Section Keeping.
Context `{!Objects} (scan : DB → list ((string * string) * key_row)).
Context (scan_rows : ∀ d, scan d ≡ₚ map_to_list (db_keys d)).
Context (cfg : Config) (archiver : archiver_value) (results : option ResultStore) (others : catalog → catalog).

(** The retirement of a pass: it detaches only what is past retention, and panics only with a nil
    archive. *)
Lemma retire_pass_ok s :
  NoDup (pt_name <$> known (m_cat s)) →
  ∃ ending s', retire_pass cfg archiver s = (inr ending, s') ∧ later (m_world s) (m_world s') ∧
    (∀ p, p ∈ attached (m_cat s) → p ∉ attached (m_cat s') →
       past_retention (length Tables) (retention_of cfg) s p) ∧
    match ending with
    | PassDone => True
    | PassPanicked => archiver = NilArchive ∧ detached_only s s'
    | OutOfFuel => False
    end.
Proof.
  intros Hnd. unfold retire_pass. destruct archiver.
  - exists PassDone, s. split_and!; [done|by apply later_same|done|done].
  - destruct (panic_tables_ok (retention_of cfg) (past_retention (length Tables) (retention_of cfg) s) Tables s Hnd)
      as (b & err & s' & Hrun & Hto & Hb); [by intros p|].
    rewrite (bind_inr _ _ _ _ _ Hrun). exists (if b then PassPanicked else PassDone), s'.
    split_and!; [done|apply Hto..|]. destruct b; auto.
  - destruct (RetireExpired_ok true (retention_of cfg) s Hnd) as (retired & err & Hr & Hto & _).
    erewrite bind_inr; [|rewrite (surjective_pairing (RetireExpired _ _ s)), Hr; done].
    destruct (count_retired_runs retired (m_world (RetireExpired true (retention_of cfg) s).2)) as (w' & Hw & Hq).
    erewrite bind_inr by (unfold lift; by rewrite Hw). eexists PassDone, _. split; [done|].
    apply quiet_eq in Hq as (_ & Hclk & _). split_and!; [|apply Hto|done].
    eapply later_trans; [apply Hto|by apply later_same].
Qed.

(** Of the partitions there are after its first step a pass detaches only those past retention. *)
Lemma runMaintenance_ok fuel s :
  w_env (m_world s) = [] → (size (db_keys (w_db (m_world s))) < fuel)%nat → NoDup (pt_name <$> known (m_cat s)) →
  NoDup (pt_name <$> known (others (m_cat s))) →
  let s1 := (EnsurePartitions others (PartitionAhead cfg) s).2 in
  ∃ ending s', runMaintenance scan cfg archiver results others fuel s = (inr ending, s') ∧
    match ending with
    | PassDone => True
    | PassPanicked => archiver = NilArchive ∧ detached_only s1 s'
    | OutOfFuel => False
    end ∧
    ∃ s2, later (m_world s) (m_world s2) ∧ later (m_world s2) (m_world s') ∧
      ∀ p, p ∈ attached (m_cat s1) → p ∉ attached (m_cat s') →
        past_retention (length Tables) (retention_of cfg) s2 p.
Proof.
  intros Henv Hsize Hnd Hndo s1. unfold runMaintenance.
  pose proof (EnsurePartitions_settled others (PartitionAhead cfg) s) as (Hdb & He1 & Hl1).
  pose proof (EnsurePartitions_names others (PartitionAhead cfg) s Hnd Hndo) as Hnd1. fold s1 in Hdb, He1, Hl1, Hnd1.
  erewrite bind_inr; [|apply try_eq, surjective_pairing]. fold s1.
  destruct (ExpireKeys_swept scan results (retention_of cfg) (maintenanceInterval / 2) fuel (m_world s1))
    as (deleted & err & n & Hrun & Hs & _); [done|by rewrite He1|by rewrite Hdb|].
  set (x := ExpireKeys _ _ _ _ _ (m_world s1)) in *.
  assert (Hlift : lift (ExpireKeys scan results fuel (retention_of cfg) (maintenanceInterval / 2)) s1 =
    (inr (Some (deleted, err)), mkMWorld x.2 (m_cat s1))).
  { unfold lift. fold x. destruct x as [r w]. simpl in *. by subst. }
  rewrite (bind_inr _ _ _ _ _ Hlift).
  assert (Hcount : ∃ s2, (if 0 <? deleted then lift (emit (Add "retention_deleted" ["idempotency_keys"] deleted)) else mret tt)
      (mkMWorld x.2 (m_cat s1)) = (inr tt, s2) ∧ m_cat s2 = m_cat s1 ∧ w_clock (m_world s2) = w_clock x.2).
  { destruct (0 <? deleted); by eexists. }
  destruct Hcount as (s2 & Hrun2 & Hc2 & Hclk2). rewrite (bind_inr _ _ _ _ _ Hrun2).
  assert (Hl2 : later (m_world s) (m_world s2)).
  { eapply later_trans; [exact Hl1|]. eapply later_trans; [apply Hs|by apply later_same]. }
  destruct (retire_pass_ok s2) as (ending & s' & Hret & Hl & Hpast & Hend); [by rewrite Hc2|].
  exists ending, s'. split; [done|]. unfold detached_only in *. rewrite Hc2 in Hpast, Hend.
  split; [done|]. by exists s2.
Qed.
End Keeping.

(** ** Theorem *)

(** C27: a housekeeping pass never takes the ground from under current writes: a partition whose
    range ends after the pass is still attached, as long as the other replicas that held the
    lock before it detached none.  Whatever statement or export fails, the pass returns, with
    one exception: when the archiver is the nil archive that an unconfigured object store
    gives it, it may panic, which ends the process, and then a partition past its retention
    was detached and nothing exported.  When its first step committed, the seconds
    from the end of each table's last partition on (from the current period on for a table
    without one) that the pass has not left behind are covered up to the horizon at the end of
    the pass, by an attached partition unless a table with its name was there before; a gap
    before the last partition is not filled. *)
Theorem maintenance_keeps_future `{!Objects} (scan : DB → list ((string * string) * key_row))
    (cfg : Config) (archiver : archiver_value) (results : option ResultStore) (others : catalog → catalog)
    (fuel : nat) (s : mworld) :
  (∀ d, scan d ≡ₚ map_to_list (db_keys d)) →
  w_env (m_world s) = [] → (size (db_keys (w_db (m_world s))) < fuel)%nat →
  NoDup (pt_name <$> known (m_cat s)) → NoDup (pt_name <$> known (others (m_cat s))) →
  (∀ p, p ∈ attached (m_cat s) → p ∈ attached (others (m_cat s))) →
  (∀ i j, (i <= j)%nat → w_clock (m_world s) i <= w_clock (m_world s) j) →
  (∀ table, 0 <= window (retention_of cfg) table) →
  let run := runMaintenance scan cfg archiver results others fuel s in
  let c := m_cat s in let found := others c in let c' := m_cat run.2 in
  let ended := w_clock (m_world run.2) 2%nat in
  let h := w_clock (m_world s) 0%nat + PartitionAhead cfg in
  let start := run_start (w_db (m_world s)) found in
  (run.1 = inr PassDone ∨
     run.1 = inr PassPanicked ∧ archiver = NilArchive ∧
     detached_only (EnsurePartitions others (PartitionAhead cfg) s).2 run.2) ∧
  (∀ p upper, p ∈ attached c → pt_upper p = Some upper → ended < upper * 1000 → p ∈ attached c') ∧
  ((EnsurePartitions others (PartitionAhead cfg) s).1 = inr tt →
   (∀ t, t ∈ Tables → -62167219200 * Second <= start t) → h <= 253402300800 * Second →
   ∀ t sec, t ∈ Tables → unix_sec (start t) <= sec → ended <= sec * Second → (sec + 1) * Second <= h →
   ∃ lo, unix_sec lo <= sec < unix_sec (next t lo) ∧ (part t lo ∈ attached c' ∨ taken found (partitionName t lo))).
Proof.
  intros Hscan Henv Hsize Hnd Hndo Hsub Hmono Hwin. cbv zeta.
  destruct (runMaintenance_ok scan Hscan cfg archiver results others fuel s Henv Hsize Hnd Hndo)
    as (ending & s' & -> & Hend & s2 & [i Hi] & [j Hj] & Hpast). cbn [fst snd].
  assert (Hkeep : ∀ p upper, p ∈ attached (m_cat (EnsurePartitions others (PartitionAhead cfg) s).2) →
    pt_upper p = Some upper → w_clock (m_world s') 2%nat < upper * 1000 → p ∈ attached (m_cat s')).
  { intros p upper Hp Hu Hlt. destruct (decide (p ∈ attached (m_cat s'))) as [|Hn]; [done|exfalso].
    destruct (Hpast p Hp Hn) as (u & k & Hu' & Hk & Hle). rewrite Hu in Hu'. injection Hu' as <-.
    specialize (Hwin (pt_table p)). rewrite Hj, Hi in Hlt. rewrite Hi in Hle. simpl in Hk.
    specialize (Hmono (i + k)%nat (i + (j + 2))%nat ltac:(lia)). lia. }
  destruct (EnsurePartitions others (PartitionAhead cfg) s) as [r s1] eqn:E. cbn [fst snd] in *.
  split_and!.
  - destruct ending; [by left|by right|done].
  - intros p upper Hp Hu Hlt. apply (Hkeep p upper); [|done|done].
    apply EnsurePartitions_runs in E as [(e & _ & [->| ->])|(c & s3 & s4 & E & _ & ->)]; [done|by apply Hsub|].
    apply Hsub in Hp. revert E Hp. apply (extend_tables_keeps (λ c, p ∈ attached c)).
    intros table name lo hi c0 u c1 [[_ ->]|[_ ->]]%create_partition_spec Hin; [done|]. simpl. apply elem_of_app. by left.
  - intros -> Hyears Hh t sec Ht Hlo Hended Hhi.
    apply EnsurePartitions_covers in E as [(e & [=] & _)|(new & _ & _ & Hcov)]; [|done|done].
    destruct (Hcov t Ht sec Hlo Hhi) as (lo & _ & Hr & [Hin|Hin]); exists lo; (split; [done|]); [left|by right].
    eapply Hkeep; [exact Hin|done|]. unfold bound_us, Second in *. simpl. lia.
Qed.

(** A server that has run for a while: an expired partition and the current ones. *)
Definition aged_catalog : catalog :=
  mkCatalog [mkPartition "conflicts" "conflicts_20230102" (Some (1672617600000000, 1673222400000000));
             mkPartition "conflicts" "conflicts_20231113" (Some (1699833600000000, 1700438400000000))] [] [] [].
Definition month_config : Config :=
  mkConfig "" "" "" "" 0 "" 0 0 0 0 0 "" 0 0 0 0 0 (28 * 24 * Hour) (720 * Hour) (720 * Hour) (720 * Hour)
    (720 * Hour) 1000 "" "" 0 0 "" "" "" "".
Definition aged_install : mworld :=
  mkMWorld (set_clock (λ _, 1700000000 * Second) (world_of (set_now 1700000000000000 empty_db))) aged_catalog.
Definition aged_pass (archiver : archiver_value) : (goerr + pass) * mworld :=
  runMaintenance (λ d, map_to_list (db_keys d)) month_config archiver None id 1 aged_install.

(** Without an object store the same pass ends the process, with the partition detached. *)
Example unconfigured_pass :
  let run := aged_pass (archiver_of false) in
  run.1 = inr PassPanicked ∧ archives (m_cat run.2) = [] ∧
  detached (m_cat run.2) = [mkPartition "conflicts" "conflicts_20230102" (Some (1672617600000000, 1673222400000000))].
Proof. vm_compute. done. Qed.

Lemma maintenance_keeps_future_witness :
  (aged_pass AnArchive).1 = inr PassDone ∧
  mkPartition "conflicts" "conflicts_20231113" (Some (1699833600000000, 1700438400000000)) ∈ attached (m_cat (aged_pass AnArchive).2) ∧
  archives (m_cat (aged_pass AnArchive).2) = [("conflicts", "conflicts_20230102")].
Proof.
  destruct (maintenance_keeps_future (λ d, map_to_list (db_keys d)) month_config AnArchive None id 1 aged_install)
    as (Hrun & Hkeep & _).
  - intros d. reflexivity.
  - reflexivity.
  - vm_compute. lia.
  - apply (bool_decide_unpack _). vm_compute. exact I.
  - apply (bool_decide_unpack _). vm_compute. exact I.
  - intros p Hp. exact Hp.
  - intros i j _. reflexivity.
  - intros table. unfold window. destruct (String.eqb _ _); [|destruct (String.eqb _ _)]; apply Z.leb_le; vm_compute; reflexivity.
  - split; [destruct Hrun as [Hrun|(_ & [=] & _)]; exact Hrun|]. split; [|vm_compute; reflexivity].
    apply (Hkeep _ 1700438400000000); [right; left|reflexivity|apply Z.ltb_lt; vm_compute; reflexivity].
Defined.
