(* ===== verification/Store.v ===== *)
(** * Store: internal/store

    [Migrate] brings the schema up to date under a lock; the verifications run at start-up.  What
    the text of a migration does is the database server's: [run_sql] is a parameter, a function
    on the schema that fails or gives the new schema, as DDL in a transaction does. *)

From S2P Require Import Prelude GoString GoTime Sha256 Manifest Conflict World ResultStore Retention Partitions.

(** ** Migrations *)

(** [strings.TrimSuffix]. *)
Fixpoint TrimSuffix (s p : string) : string :=
  if String.eqb s p then EmptyString
  else match s with EmptyString => EmptyString | String c s' => String c (TrimSuffix s' p) end.

Record migration := mkMigration { version : string; body : string }.

(** The schema and the rows of schema_migrations, when that table is there. *)
Record sdb (Schema : Type) := mkSDB { db_schema : Schema; db_ledger : option (list string) }.
Arguments mkSDB {_}.
Arguments db_schema {_}.
Arguments db_ledger {_}.

(** The database, the script of faults, what other replicas do while this one waits for the
    lock, and whether the lock is held by this session. *)
Record sworld (Schema : Type) := mkSWorld {
  s_db : sdb Schema;
  s_faults : list fault;
  s_others : list (sdb Schema → sdb Schema);
  s_lock : bool;
}.
Arguments mkSWorld {_}.
Arguments s_db {_}.
Arguments s_faults {_}.
Arguments s_others {_}.
Arguments s_lock {_}.

Section Migrate.
Context {Schema : Type} (run_sql : string → Schema → goerr + Schema).
(** The embedded files, by name. *)
Context (FS : list (string * string)).

Local Abbreviation MS := (St (sworld Schema)).

Definition next_fault (s : sworld Schema) : fault * sworld Schema :=
  (default Fine (head (s_faults s)), mkSWorld (s_db s) (tail (s_faults s)) (s_others s) (s_lock s)).

Definition put_db (d : sdb Schema) (s : sworld Schema) : sworld Schema :=
  mkSWorld d (s_faults s) (s_others s) (s_lock s).

(** A round trip without effect on the tables. *)
Definition ping : MS unit := λ s,
  match next_fault s with
  | (Fine, s1) => (inr tt, s1)
  | (Refused e, s1) | (LostAck e, s1) => (inl e, s1)
  end.

(** [pg_advisory_lock] waits until no other session holds it. *)
Definition lock : MS unit := λ s,
  match next_fault s with
  | (Refused e, s1) => (inl e, s1)
  | (flt, s1) =>
      let d := match s_others s1 with f :: _ => f (s_db s1) | [] => s_db s1 end in
      (match flt with LostAck e => inl e | _ => inr tt end,
       mkSWorld d (s_faults s1) (tail (s_others s1)) true)
  end.

Definition unlock (s : sworld Schema) : sworld Schema :=
  match next_fault s with
  | (Refused _, s1) => s1
  | (_, s1) => mkSWorld (s_db s1) (s_faults s1) (s_others s1) false
  end.

(** A statement in a transaction of its own, and one in the open transaction. *)
Definition s_exec {A} (f : sdb Schema → goerr + (A * sdb Schema)) : MS A := λ s,
  match next_fault s with
  | (Refused e, s1) => (inl e, s1)
  | (flt, s1) => match f (s_db s1) with
                 | inl e => (inl e, s1)
                 | inr (x, d) => (match flt with LostAck e => inl e | _ => inr x end, put_db d s1)
                 end
  end.

Definition s_tx {A} (f : sdb Schema → goerr + (A * sdb Schema)) (d : sdb Schema) : MS (A * sdb Schema) := λ s,
  match next_fault s with
  | (Fine, s1) => match f d with inl e => (inl e, s1) | inr r => (inr r, s1) end
  | (Refused e, s1) | (LostAck e, s1) => (inl e, s1)
  end.

Definition s_commit (d : sdb Schema) : MS unit := s_exec (λ _, inr (tt, d)).

Definition ledgerDDL (d : sdb Schema) : goerr + (unit * sdb Schema) :=
  inr (tt, mkSDB (db_schema d) (Some (default [] (db_ledger d)))).

Definition no_ledger : goerr := undefined_table "schema_migrations".

Definition select_versions (d : sdb Schema) : goerr + (list string * sdb Schema) :=
  match db_ledger d with None => inl no_ledger | Some l => inr (l, d) end.

Definition insert_version (v : string) (d : sdb Schema) : goerr + (unit * sdb Schema) :=
  match db_ledger d with
  | None => inl no_ledger
  | Some l =>
      if decide (v ∈ l) then inl (mkErr (PgError "23505") "duplicate key value violates unique constraint")
      else inr (tt, mkSDB (db_schema d) (Some (l ++ [v])))
  end.

Definition run_body (text : string) (d : sdb Schema) : goerr + (unit * sdb Schema) :=
  match run_sql text (db_schema d) with
  | inl e => inl e
  | inr schema => inr (tt, mkSDB schema (db_ledger d))
  end.

Definition appliedVersions : MS (list string) := wrapping "read schema_migrations" (s_exec select_versions).

Definition name_le (a b : string * string) : Prop := str_le a.1 b.1.
#[export] Instance name_le_dec a b : Decision (name_le a b).
Proof. unfold name_le. apply _. Defined.

Definition pendingMigrations (applied : list string) : list migration :=
  let entries := merge_sort name_le (filter (λ f, HasSuffix f.1 ".sql" = true) FS) in
  filter (λ m, version m ∉ applied) (fmap (λ f, mkMigration (TrimSuffix f.1 ".sql") f.2) entries).

Definition apply_migration (m : migration) : MS unit :=
  _ ← wrapping "begin" ping;
  s ← get;
  '(_, d) ← wrapping "exec" (s_tx (run_body (body m)) (s_db s));
  '(_, d) ← wrapping "record version" (s_tx (insert_version (version m)) d);
  wrapping "commit" (s_commit d).

Fixpoint apply_all (pending : list migration) : MS unit :=
  match pending with
  | [] => mret tt
  | m :: rest => _ ← wrapping ("apply " +:+ version m) (apply_migration m); apply_all rest
  end.

Definition migrate_locked : MS unit :=
  _ ← wrapping "create schema_migrations" (s_exec ledgerDDL);
  applied ← appliedVersions;
  apply_all (pendingMigrations applied).

Definition Migrate : MS unit :=
  _ ← wrapping "acquire migration connection" ping;
  _ ← wrapping "acquire migration lock" lock;
  finally migrate_locked unlock.
End Migrate.

(** ** Verifications *)

(** The columns of the primary key and the unique constraints of idempotency_keys, each in its
    order, joined by their ordinal. *)
Definition ord_le (a b : nat * string) : Prop := (a.1 <= b.1)%nat.
#[export] Instance ord_le_dec a b : Decision (ord_le a b).
Proof. unfold ord_le. apply _. Defined.

Definition constraintColumns (constraints : list (list string)) : option string :=
  match merge_sort ord_le (mjoin ((λ columns, imap (λ i c, (i, c)) columns) <$> constraints)) with
  | [] => None
  | rows => Some (Join rows.*2 ",")
  end.

Definition expectedKeyConstraint : string := "agent_id,idempotency_key".

Definition VerifyUniqueConstraint (constraints : list (list string)) : M unit :=
  columns ← wrapping "read idempotency_keys constraint" (query (λ d, inr (constraintColumns constraints, d)));
  match columns with
  | None => throw (errorf "read idempotency_keys constraint: cannot scan NULL")
  | Some columns =>
      if String.eqb columns expectedKeyConstraint then mret tt
      else throw (errorf ("idempotency_keys unique constraint is (" +:+ columns +:+ "), want (" +:+
                          expectedKeyConstraint +:+ ")"))
  end.

Definition latestPartitionBound (table : string) (c : catalog) : option Z :=
  match omap pt_upper (filter (λ p, pt_table p = table) (attached c)) with
  | [] => None
  | u :: rest => Some (foldr Z.max u rest)
  end.

Definition PartitionHeadroom (table : string) : MM Z :=
  latest ← wrapping ("read " +:+ table +:+ " partition bounds") (ddl (λ c, inr (latestPartitionBound table c, c)));
  match latest with
  | None => throw (errorf ("read " +:+ table +:+ " partition bounds: cannot scan NULL"))
  | Some us => current ← lift now; mret (Sub (us * 1000) current)
  end.

Definition headroom_tables : list string := ["write_intents"; "conflicts"; "payload_access_audit"].

Lemma headroom_tables_all : headroom_tables = Name <$> Tables.
Proof. reflexivity. Qed.

Fixpoint verify_tables (minimum : Z) (tables : list string) : MM unit :=
  match tables with
  | [] => mret tt
  | table :: rest =>
      headroom ← PartitionHeadroom table;
      if headroom <? minimum
      then throw (errorf (table +:+ " has " +:+ Duration_String (Round Hour headroom) +:+
                          " of partition headroom, want at least " +:+ Duration_String minimum))
      else verify_tables minimum rest
  end.

Definition VerifyPartitionHeadroom (minimum : Z) : MM unit := verify_tables minimum headroom_tables.

(** ** Lemmas *)

Section Migrated.
Context {Schema : Type} (run_sql : string → Schema → goerr + Schema) (FS : list (string * string)).
Implicit Types (d : sdb Schema) (s : sworld Schema).

(** One migration: its text has run and its version is recorded, together. *)
Definition migrated_by (m : migration) d d' : Prop :=
  ∃ schema l, run_sql (body m) (db_schema d) = inr schema ∧ db_ledger d = Some l ∧ (version m ∉ l) ∧
    d' = mkSDB schema (Some (l ++ [version m])).

Fixpoint migrated (ms : list migration) d d' : Prop :=
  match ms with
  | [] => d' = d
  | m :: rest => ∃ d1, migrated_by m d d1 ∧ migrated rest d1 d'
  end.

Lemma migrated_ledger ms d d' l :
  migrated ms d d' → db_ledger d = Some l → db_ledger d' = Some (l ++ (version <$> ms)).
Proof.
  revert d l. induction ms as [|m ms IH]; csimpl; intros d l.
  { intros ->. by rewrite app_nil_r. }
  intros (d1 & (schema & l' & _ & Hl & _ & ->) & Hms) Hd. rewrite Hd in Hl. injection Hl as <-.
  erewrite IH by done. by rewrite <- app_assoc.
Qed.

Lemma s_exec_cases {A} ctx (f : sdb Schema → goerr + (A * sdb Schema)) s r s' :
  wrapping ctx (s_exec f) s = (r, s') →
  s_lock s' = s_lock s ∧
  ((s_db s' = s_db s ∧ ∃ e, r = inl e) ∨
   ∃ x d, f (s_db s) = inr (x, d) ∧ s_db s' = d ∧ (r = inr x ∨ ∃ e, r = inl e)).
Proof.
  unfold wrapping, s_exec, next_fault.
  destruct (default Fine _), (f (s_db _)) as [|[x d]] eqn:Hf; intros [= <- <-]; simpl in *; eauto 10.
Qed.

Lemma s_tx_runs {A} ctx (f : sdb Schema → goerr + (A * sdb Schema)) d s r s' :
  wrapping ctx (s_tx f d) s = (r, s') → s_db s' = s_db s ∧ ∀ x, r = inr x → f d = inr x.
Proof.
  unfold wrapping, s_tx, next_fault.
  destruct (default Fine _), (f d) as [|]; intros [= <- <-]; (split; [done|]); intros x [= <-]; done.
Qed.

Lemma ping_runs ctx s r s' : wrapping ctx ping s = (r, s') → s_db s' = s_db s.
Proof. unfold wrapping, ping, next_fault. by destruct (default Fine _); intros [= <- <-]. Qed.

(** A migration is applied and recorded, or nothing happened and an error is reported. *)
Lemma apply_migration_ok m s r s' :
  apply_migration run_sql m s = (r, s') →
  (s_db s' = s_db s ∧ ∃ e, r = inl e) ∨ (migrated_by m (s_db s) (s_db s') ∧ (r = inr tt ∨ ∃ e, r = inl e)).
Proof.
  unfold apply_migration. run_first [[e|u] s1] as E.
  { intros [= <- <-]. apply ping_runs in E. eauto. }
  apply ping_runs in E. erewrite bind_inr by done. rewrite E.
  run_first [[e|[u2 d]] s2] as E2; apply s_tx_runs in E2 as [H2 Hd]; [intros [= <- <-]; left; split; [congruence|eauto]|].
  run_first [[e|[u3 d2]] s3] as E3; apply s_tx_runs in E3 as [H3 Hd2]; [intros [= <- <-]; left; split; [congruence|eauto]|].
  intros [_ [[H4 He]|(x & d3 & [= <- <-] & H4 & Hr)]]%s_exec_cases; [left; split; [congruence|done]|].
  right. rewrite H4. split; [|done].
  specialize (Hd _ eq_refl). specialize (Hd2 _ eq_refl). unfold run_body in Hd. unfold insert_version in Hd2.
  destruct (run_sql (body m) (db_schema (s_db s))) as [|schema] eqn:Hs; [done|]. injection Hd as _ <-. simpl in Hd2.
  destruct (db_ledger (s_db s)) as [l|] eqn:Hl; [|done]. destruct (decide _) as [|Hn]; [done|].
  injection Hd2 as _ <-. by exists schema, l.
Qed.

Lemma apply_all_ok pending : ∀ s r s',
  apply_all run_sql pending s = (r, s') →
  ∃ done rest, pending = done ++ rest ∧ migrated done (s_db s) (s_db s') ∧
    (r = inr tt ∧ rest = [] ∨ ∃ e, r = inl e).
Proof.
  induction pending as [|m pending IH]; intros s r s'; cbn [apply_all].
  { intros [= <- <-]. exists [], []. split_and!; [done..|by left]. }
  run_first [[e|u] s1] as E; unfold wrapping in E;
    destruct (apply_migration run_sql m s) as [[e'|u'] s2] eqn:Ea; try done; injection E as <- <-;
    apply apply_migration_ok in Ea as [[Hs He]|[Hm Hr]].
  - intros [= <- <-]. exists [], (m :: pending). split_and!; [done..|right; eauto].
  - intros [= <- <-]. exists [m], pending. split_and!; [done|by exists (s_db s2)|right; eauto].
  - by destruct He.
  - intros (done & rest & -> & Hms & Hres)%IH. exists (m :: done), rest. split_and!; [done|by exists (s_db s2)|done].
Qed.

Lemma nothing_pending l :
  pendingMigrations FS (l ++ (version <$> pendingMigrations FS l)) = [].
Proof.
  unfold pendingMigrations at 1. apply filter_drops. intros m Hm Hn. apply Hn. apply elem_of_app.
  destruct (decide (version m ∈ l)); [by left|right]. apply list_elem_of_fmap_2.
  unfold pendingMigrations. apply list_elem_of_filter. done.
Qed.

Lemma ping_others ctx s r s' : wrapping ctx ping s = (r, s') → s_others s' = s_others s.
Proof. unfold wrapping, ping, next_fault. by destruct (default Fine _); intros [= <- <-]. Qed.

Lemma lock_runs ctx s r s' :
  wrapping ctx lock s = (r, s') →
  let found := match s_others s with f :: _ => f (s_db s) | [] => s_db s end in
  (r = inr tt → s_db s' = found) ∧ (s_db s' = s_db s ∨ s_db s' = found).
Proof. unfold wrapping, lock, next_fault. destruct (default Fine _); intros [= <- <-]; (split; [by intros|auto]). Qed.

(** Under the lock. *)
Lemma migrate_locked_ok s r s' :
  migrate_locked run_sql FS s = (r, s') →
  let l := default [] (db_ledger (s_db s)) in
  (∃ e, r = inl e ∧ s_db s' = s_db s) ∨
  ∃ done rest, pendingMigrations FS l = done ++ rest ∧
    migrated done (mkSDB (db_schema (s_db s)) (Some l)) (s_db s') ∧
    (r = inr tt ∧ rest = [] ∨ ∃ e, r = inl e).
Proof.
  unfold migrate_locked. run_first [[e|u] s1] as E; apply s_exec_cases in E as [_ [[Hs He]|(x & d & [= <- <-] & Hs & He)]].
  - intros [= <- <-]. left. eauto.
  - intros [= <- <-]. right. exists [], (pendingMigrations FS (default [] (db_ledger (s_db s)))). split_and!; [done..|eauto].
  - by destruct He.
  - run_first [[e|applied] s2] as E2; unfold appliedVersions in E2; apply s_exec_cases in E2 as [_ Hc]; rewrite Hs in Hc.
    + intros [= <- <-]. right. exists [], (pendingMigrations FS (default [] (db_ledger (s_db s)))).
      split_and!; [done| |eauto]. destruct Hc as [[-> _]|(x & d & [= <- <-] & -> & _)]; done.
    + destruct Hc as [[_ [? ?]]|(x & d & [= <- <-] & H2 & [[= ->]|[? ?]])]; try done.
      intros (done & rest & Hp & Hms & Hr)%apply_all_ok. rewrite H2 in Hms. right. by exists done, rest.
Qed.

Lemma unlock_db s : s_db (unlock s) = s_db s.
Proof. unfold unlock, next_fault. by destruct (default Fine _). Qed.
End Migrated.

(** What a run of [Migrate] does. *)
Lemma Migrate_runs {Schema : Type} (run_sql : string → Schema → goerr + Schema)
    (FS : list (string * string)) (s s' : sworld Schema) (r : goerr + unit) :
  Migrate run_sql FS s = (r, s') →
  let found := match s_others s with f :: _ => f (s_db s) | [] => s_db s end in
  let l := default [] (db_ledger found) in
  (∃ e, r = inl e ∧ (s_db s' = s_db s ∨ s_db s' = found)) ∨
  ∃ done rest, pendingMigrations FS l = done ++ rest ∧
    migrated run_sql done (mkSDB (db_schema found) (Some l)) (s_db s') ∧
    db_ledger (s_db s') = Some (l ++ (version <$> done)) ∧
    (r = inr tt → rest = [] ∧ pendingMigrations FS (l ++ (version <$> done)) = []).
Proof.
  intros Hrun found l. revert Hrun. unfold Migrate. run_first [[e|u] s1] as E.
  { intros [= <- <-]. apply ping_runs in E. left. eauto. }
  pose proof (ping_others _ _ _ _ E) as Ho. apply ping_runs in E.
  run_first [[e|u2] s2] as E2; apply lock_runs in E2 as [Hlock H2]; rewrite E, Ho in H2; fold found in H2.
  { intros [= <- <-]. left. exists e. split; [done|]. destruct H2; [left; congruence|by right]. }
  destruct u2. specialize (Hlock eq_refl). rewrite E, Ho in Hlock. fold found in Hlock. clear H2.
  unfold finally. destruct (migrate_locked run_sql FS s2) as [res s3] eqn:E3. intros [= <- <-]. rewrite unlock_db.
  apply migrate_locked_ok in E3 as [(e & -> & H3)|(done & rest & Hp & Hms & Hr)]; rewrite ?Hlock in *.
  { left. eauto. }
  right. exists done, rest. pose proof (migrated_ledger run_sql _ _ _ l Hms eq_refl) as Hl.
  split_and!; [done..|]. intros ->. destruct Hr as [[_ ->]|[? ?]]; [|done]. split; [done|].
  rewrite app_nil_r in Hp. rewrite <- Hp. apply nothing_pending.
Qed.

(** Migrations run in the order of their names, each exactly once, and each with its record:
    whatever fails, what a run of [Migrate] leaves is the schema it found under the lock with
    the first so many of the pending migrations applied and recorded, and no other effect; when
    it reports success that is all of them, and the next run finds nothing to do. *)
Theorem migrate_in_order {Schema : Type} (run_sql : string → Schema → goerr + Schema)
    (FS : list (string * string)) (s s' : sworld Schema) (r : goerr + unit) :
  Migrate run_sql FS s = (r, s') →
  let found := match s_others s with f :: _ => f (s_db s) | [] => s_db s end in
  let l := default [] (db_ledger found) in
  (∃ e, r = inl e ∧ (s_db s' = s_db s ∨ s_db s' = found)) ∨
  ∃ done rest, pendingMigrations FS l = done ++ rest ∧
    migrated run_sql done (mkSDB (db_schema found) (Some l)) (s_db s') ∧
    db_ledger (s_db s') = Some (l ++ (version <$> done)) ∧
    (r = inr tt → rest = [] ∧ pendingMigrations FS (l ++ (version <$> done)) = []).
Proof. apply Migrate_runs. Qed.

(** A first start on an empty database, where each migration adds its own line. *)
Definition demo_sql (text : string) (schema : list string) : goerr + list string := inr (schema ++ [text]).
Definition demo_files : list (string * string) :=
  [("0002_conflict_detection.sql", "ALTER"); ("embed.go", "package"); ("0001_init.sql", "CREATE")].
Definition empty_server : sworld (list string) := mkSWorld (mkSDB [] None) [] [] false.

Lemma migrate_in_order_witness :
  (Migrate demo_sql demo_files empty_server).1 = inr tt ∧
  s_db (Migrate demo_sql demo_files empty_server).2 =
    mkSDB ["CREATE"; "ALTER"] (Some ["0001_init"; "0002_conflict_detection"]) ∧
  pendingMigrations demo_files ["0001_init"; "0002_conflict_detection"] = [].
Proof.
  assert (Hrun : Migrate demo_sql demo_files empty_server =
    (inr tt, mkSWorld (mkSDB ["CREATE"; "ALTER"] (Some ["0001_init"; "0002_conflict_detection"])) [] [] false))
    by (vm_compute; reflexivity).
  destruct (migrate_in_order demo_sql demo_files empty_server _ _ Hrun) as [(e & He & _)|(done & rest & _ & _ & Hl & Hok)];
    [discriminate He|].
  rewrite Hrun. split; [reflexivity|]. split; [reflexivity|].
  destruct (Hok eq_refl) as [_ Hp]. injection Hl as Hl. rewrite <- Hl in Hp. exact Hp.
Defined.

(** ** Headroom *)

Lemma foldr_max_ge u rest x : x ∈ u :: rest → x <= foldr Z.max u rest.
Proof.
  induction rest as [|y rest IH]; simpl; [by intros ->%list_elem_of_singleton|].
  intros [->|[->|Hin]%elem_of_cons]%elem_of_cons; [|lia|].
  - specialize (IH ltac:(by left)). lia.
  - specialize (IH ltac:(by right)). lia.
Qed.

(** The last bound is not before the end of any partition. *)
Lemma latest_ge c p upper :
  p ∈ attached c → pt_upper p = Some upper → ∃ us, latestPartitionBound (pt_table p) c = Some us ∧ upper <= us.
Proof.
  intros Hp Hu. unfold latestPartitionBound.
  assert (Hin : upper ∈ omap pt_upper (filter (λ q, pt_table q = pt_table p) (attached c))).
  { apply list_elem_of_omap. exists p. split; [|done]. by apply list_elem_of_filter. }
  destruct (omap _ _) as [|u rest]; [by apply elem_of_nil in Hin|]. eexists. split; [done|by apply foldr_max_ge].
Qed.

(** And it is the end of one. *)
Lemma foldr_max_in (u : Z) (l : list Z) : foldr Z.max u l ∈ u :: l.
Proof.
  induction l as [|x l IH]; simpl; [by left|].
  destruct (Z.max_spec x (foldr Z.max u l)) as [[_ ->]|[_ ->]]; [|right; by left].
  apply elem_of_cons in IH as [->|IH]; [by left|]. right. by right.
Qed.

Lemma latest_reached table c us : latestPartitionBound table c = Some us →
  ∃ p, p ∈ attached c ∧ pt_table p = table ∧ pt_upper p = Some us.
Proof.
  unfold latestPartitionBound. destruct (omap _ _) as [|u rest] eqn:E; [done|]. intros [= <-].
  pose proof (foldr_max_in u rest) as Hin. rewrite <- E in Hin.
  apply list_elem_of_omap in Hin as (p & [Ht Hp]%list_elem_of_filter & Hu). by exists p.
Qed.

Lemma verify_tables_ok minimum tables : ∀ s,
  w_faults (m_world s) = [] → minimum <= int64_max →
  (∀ table, table ∈ tables → ∃ us, latestPartitionBound table (m_cat s) = Some us ∧
     ∀ j, (j < length tables)%nat → w_clock (m_world s) j + minimum <= us * 1000) →
  (verify_tables minimum tables s).1 = inr tt.
Proof.
  induction tables as [|table tables IH]; intros s Hf Hmin Hall; [done|]. cbn [verify_tables].
  destruct (Hall table ltac:(by left)) as (us & Hus & Hj). pose proof (Hj 0%nat ltac:(simpl; lia)) as H0.
  destruct s as [w c]. simpl in *.
  assert (Hrun : PartitionHeadroom table (mkMWorld w c) =
    (inr (Sub (us * 1000) (w_clock w 0%nat)), mkMWorld (now w).2 c)).
  { unfold PartitionHeadroom. erewrite (bind_inr _ _ _ (Some us) (mkMWorld w c)); [done|].
    unfold wrapping, ddl. simpl. rewrite Hf. simpl. rewrite Hus. destruct w. simpl in *. by subst. }
  rewrite (bind_inr _ _ _ _ _ Hrun).
  destruct (Z.ltb_spec (Sub (us * 1000) (w_clock w 0%nat)) minimum); [unfold Sub in *; lia|].
  apply IH; [done|done|]. intros t' Hin. destruct (Hall t' ltac:(by right)) as (us' & Hus' & Hj').
  exists us'. split; [done|]. intros j Hlt. apply (Hj' (S j)). lia.
Qed.

Lemma PartitionHeadroom_runs table s r s' : PartitionHeadroom table s = (r, s') →
  m_cat s' = m_cat s ∧ w_db (m_world s') = w_db (m_world s) ∧ w_sent (m_world s') = w_sent (m_world s) ∧
  ∀ h, r = inr h → ∃ us, latestPartitionBound table (m_cat s) = Some us ∧
    h = Sub (us * 1000) (w_clock (m_world s) 0%nat) ∧ ∀ n, w_clock (m_world s') n = w_clock (m_world s) (S n).
Proof.
  unfold PartitionHeadroom, mbind, St_bind, wrapping, ddl.
  destruct (default Fine (head (w_faults (m_world s)))) as [|e|e]; simpl;
    [destruct (latestPartitionBound table (m_cat s)) as [us|]| |]; intros [= <- <-]; split_and!; try done; intros h [= <-].
  exists us. by split_and!.
Qed.

Lemma verify_tables_inv minimum tables : ∀ s s' r, verify_tables minimum tables s = (r, s') →
  m_cat s' = m_cat s ∧ w_db (m_world s') = w_db (m_world s) ∧ w_sent (m_world s') = w_sent (m_world s) ∧
  (r = inr tt → ∀ table, table ∈ tables → ∃ us j, (j < length tables)%nat ∧
     latestPartitionBound table (m_cat s) = Some us ∧ minimum <= Sub (us * 1000) (w_clock (m_world s) j)).
Proof.
  induction tables as [|table tables IH]; intros s s' r; cbn [verify_tables].
  { intros [= <- <-]. split_and!; try done. by intros _ t ?%not_elem_of_nil. }
  run_first [[e|h] s1] as E; apply PartitionHeadroom_runs in E as (Hc & Hd & Hs & Hh).
  { intros [= <- <-]. by split_and!. }
  destruct (Hh h eq_refl) as (us & Hus & -> & Hclk).
  destruct (Z.ltb_spec (Sub (us * 1000) (w_clock (m_world s) 0%nat)) minimum); [by intros [= <- <-]; split_and!|].
  intros Hrun. destruct (IH _ _ _ Hrun) as (Hc' & Hd' & Hs' & Hok). split_and!; try congruence.
  intros Hr t [->|Hin]%elem_of_cons.
  - exists us, 0%nat. split_and!; [simpl; lia|done|lia].
  - destruct (Hok Hr t Hin) as (us' & j & Hj & Hus' & Hle). exists us', (S j). rewrite Hc in Hus'.
    rewrite Hclk in Hle. split_and!; [simpl; lia|done|done].
Qed.

Lemma part_upper t lo : pt_upper (part t lo) = Some (bound_us (next t lo)).
Proof. unfold part. generalize (bound_us lo) (bound_us (next t lo)). reflexivity. Qed.

(** A table covered up to the horizon has its last bound there, but for less than a second. *)
Lemma covered_headroom start h t c c' :
  covers start h t c c' → start + Second <= h →
  (∀ lo, start <= lo → ¬ taken c (partitionName t lo)) →
  ∃ us, latestPartitionBound (Name t) c' = Some us ∧ h <= us * 1000 + Second.
Proof.
  intros Hcov Hroom Hfree. destruct (Hcov (unix_sec h - 1)) as (lo & Hlo & Hr & [Hin|Hin]).
  - unfold unix_sec, Second in *. Z.to_euclidean_division_equations; lia.
  - unfold unix_sec, Second. Z.to_euclidean_division_equations; lia.
  - destruct (latest_ge c' _ _ Hin (part_upper t lo)) as (us & Hus & Hge).
    exists us. split; [exact Hus|]. revert Hr Hge. unfold bound_us. generalize (unix_sec (next t lo)) as n. intros n Hr Hge.
    unfold unix_sec, Second in *. Z.to_euclidean_division_equations; lia.
  - by destruct (Hfree lo Hlo).
Qed.

(** Partition maintenance satisfies the start-up check: after a run of [EnsurePartitions]
    that succeeded, [VerifyPartitionHeadroom] passes as long as the minimum, the time that has
    passed and one second fit into the interval the run was asked to cover, provided no table
    had the name of a partition still to be made. *)
Theorem headroom_after_ensure (others : catalog → catalog) (ahead minimum : Z) (s s1 : mworld) :
  let h := w_clock (m_world s) 0%nat + ahead in
  let found := others (m_cat s) in
  let start := run_start (w_db (m_world s)) found in
  EnsurePartitions others ahead s = (inr tt, s1) →
  (∀ t, t ∈ Tables → -62167219200 * Second <= start t ∧ start t + Second <= h) → h <= 253402300800 * Second →
  (∀ t lo, t ∈ Tables → start t <= lo → ¬ taken found (partitionName t lo)) →
  w_faults (m_world s1) = [] → minimum <= int64_max →
  (∀ j, (j < 3)%nat → w_clock (m_world s1) j + minimum + Second <= h) →
  (VerifyPartitionHeadroom minimum s1).1 = inr tt.
Proof.
  intros h found start E Hstart Hh Hfree Hf Hmin Hclk.
  apply EnsurePartitions_covers in E as [(e & [=] & _)|(new & _ & _ & Hcov)]; [|by intros t Ht; apply Hstart|done].
  apply verify_tables_ok; [done|done|]. intros table Htable.
  rewrite headroom_tables_all in Htable. apply list_elem_of_fmap in Htable as (t & -> & Ht).
  destruct (covered_headroom _ _ _ _ _ (Hcov t Ht)) as (us & Hus & Hge);
    [by apply Hstart|by intros lo; apply Hfree|].
  exists us. split; [done|]. intros j Hj. specialize (Hclk j Hj). fold h in Hge. lia.
Qed.

Lemma headroom_after_ensure_witness :
  (VerifyPartitionHeadroom (5 * 24 * Hour) (EnsurePartitions id week fresh_install).2).1 = inr tt.
Proof.
  apply (headroom_after_ensure id week (5 * 24 * Hour) fresh_install).
  - apply injective_projections; vm_compute; reflexivity.
  - intros t Ht. each_table Ht; split; apply Z.leb_le; vm_compute; reflexivity.
  - apply Z.leb_le. vm_compute. reflexivity.
  - intros t lo _ _ Htaken. unfold taken in Htaken. simpl in Htaken. by apply elem_of_nil in Htaken.
  - vm_compute. reflexivity.
  - apply Z.leb_le. vm_compute. reflexivity.
  - intros j _. apply Z.leb_le. vm_compute. reflexivity.
Defined.
