(* ===== verification/Reconcile.v ===== *)
(** * Reconcile: internal/probe and internal/reconcile

    The sweep that ends keys left pending: it asks the downstream how often the write ran and
    records done, failed or indeterminate, or leaves the key for the next sweep when the probe
    cannot answer. *)

From S2P Require Import Prelude GoString Sha256 Manifest Conflict World Json Claim ResultStore.

(** ** internal/probe *)

Module Probe.
Record ProbeClient := mkProbeClient { pc_baseURL : string; pc_buildError : option string }.

Record Verdict := mkVerdict { Executions_count : Z; v_Result : string }.

Inductive Outcome := Unknown | Executed | NotExecuted.

(** [http.Client.Do] of a GET: nothing is executed by it. *)
Definition fetch (target : string) : M transport := λ w,
  (inr (default (SendError "EOF") (head (w_replies w))), set_replies (tail (w_replies w)) w).

Section Probe.
(** [json.Decoder.Decode] into the struct of count and executions. *)
Context (decode : string → goerr + (Z * list string)) (c : ProbeClient).

Definition target (path agentID k : string) : string :=
  pc_baseURL c +:+ path +:+ "?correlation_id=" +:+ correlation_ID agentID k.

Definition Executions (path agentID k : string) : M Verdict :=
  match pc_buildError c with
  | Some text => throw (errorf ("build probe request: " +:+ text))
  | None =>
      t ← fetch (target path agentID k);
      match t with
      | DialError text | RedirectDialError _ text | SendError text => throw (errorf ("probe downstream: " +:+ text))
      | ReadError text => throw (errorf ("decode probe response: " +:+ text))
      | Response status payload =>
          if negb (status =? 200) then throw (errorf ("probe returned " +:+ Itoa status))
          else
            match decode payload with
            | inl e => throw (wrap "decode probe response" e)
            | inr (count, executions) => mret (mkVerdict count (default "" (last executions)))
            end
      end
  end.

Definition Probe (path agentID k : string) : M (Outcome * string) :=
  verdict ← Executions path agentID k;
  if Executions_count verdict =? 0 then mret (NotExecuted, "")
  else mret (Executed, v_Result verdict).
End Probe.
End Probe.

(** ** internal/reconcile *)

Definition defaultBatch : nat := 200.

Record Summary := mkSummary {
  Scanned : Z;
  s_Done : Z;
  s_Failed : Z;
  s_Indeterminate : Z;
  Unresolved : Z;
}.

Definition incDone (s : Summary) : Summary :=
  mkSummary (Scanned s) (s_Done s + 1) (s_Failed s) (s_Indeterminate s) (Unresolved s).
Definition incFailed (s : Summary) : Summary :=
  mkSummary (Scanned s) (s_Done s) (s_Failed s + 1) (s_Indeterminate s) (Unresolved s).
Definition incIndeterminate (s : Summary) : Summary :=
  mkSummary (Scanned s) (s_Done s) (s_Failed s) (s_Indeterminate s + 1) (Unresolved s).
Definition incUnresolved (s : Summary) : Summary :=
  mkSummary (Scanned s) (s_Done s) (s_Failed s) (s_Indeterminate s) (Unresolved s + 1).

Record stale := mkStale { st_agentID : string; st_key : string; st_resourceType : string }.

(** The [WHERE] and the [ORDER BY] of [selectStale]. *)
Definition is_stale (staleAfter : Z) (d : DB) (r : key_row) : Prop :=
  k_status r = StatusPending ∧ k_claimed r < db_now d - interval_us staleAfter.
#[export] Instance is_stale_dec staleAfter d r : Decision (is_stale staleAfter d r).
Proof. unfold is_stale. apply _. Defined.

Definition claimed_before (a b : (string * string) * key_row) : Prop := k_claimed a.2 <= k_claimed b.2.
#[export] Instance claimed_before_dec a b : Decision (claimed_before a b).
Proof. unfold claimed_before. apply _. Defined.

Definition selectStale (staleAfter : Z) (batch : nat) : stmt (list stale) := λ d,
  inr ((λ x, mkStale x.1.1 x.1.2 (k_rtype x.2)) <$>
         take batch (merge_sort claimed_before
           (filter (λ x, is_stale staleAfter d x.2) (map_to_list (db_keys d)))), d).

Section Reconciler.
Context `{!Pg, !Objects}.
Context (decode : string → goerr + (Z * list string)).

Record Reconciler := mkReconciler {
  prober : Probe.ProbeClient;
  results : ResultStore;
  staleAfter : Z;
  batch : nat;
}.
Context (r : Reconciler).

Definition staleKeys : M (list stale) :=
  wrapping "select stale keys" (query (selectStale (staleAfter r) (batch r))).

(** [complete]: whether the row was updated, and the summary. *)
Definition complete (candidate : stale) (status : Status) (result detail : string)
    (summary : Summary) : M (bool * Summary) :=
  placement ← Place (results r) (st_agentID candidate) (st_key candidate) result;
  _ ← interleave;
  updated ← try (Complete (st_agentID candidate) (st_key candidate) status
                   (Inline placement) (p_Ref placement) detail);
  match updated with
  | inl _ => mret (false, incUnresolved summary)
  | inr b => mret (b, summary)
  end.

Definition escalate (candidate : stale) (detail : string) (summary : Summary) : M Summary :=
  '(updated, summary) ← complete candidate StatusIndeterminate "" detail summary;
  if negb updated then mret summary
  else
    _ ← emit (Inc "reconciled" ["indeterminate"]);
    mret (incIndeterminate summary).

Definition resolve (snapshot : Snapshot) (candidate : stale) (summary : Summary) : M Summary :=
  match Lookup_type snapshot (st_resourceType candidate) with
  | None => escalate candidate "no_probe_registered" summary
  | Some definition =>
      probed ← try (Probe.Probe decode (prober r) (ProbePath definition) (st_agentID candidate)
                      (st_key candidate));
      match probed with
      | inl _ =>
          _ ← emit (Inc "probe_failures" [st_resourceType candidate]);
          mret (incUnresolved summary)
      | inr (Probe.Executed, result) =>
          '(updated, summary) ← complete candidate StatusDone result "resolved_by_probe" summary;
          if (updated : bool) then
            _ ← emit (Inc "reconciled" ["done"]);
            mret (incDone summary)
          else mret summary
      | inr (Probe.NotExecuted, _) =>
          '(updated, summary) ←
            complete candidate StatusFailed "" "probe_found_no_execution" summary;
          if (updated : bool) then
            _ ← emit (Inc "reconciled" ["failed"]);
            mret (incFailed summary)
          else mret summary
      | inr (Probe.Unknown, _) => escalate candidate "probe_returned_unknown" summary
      end
  end.

(** [Sweep]; [Current n] is the snapshot served when candidate [n] is resolved. *)
Definition Sweep (Current : nat → Snapshot) : M Summary :=
  candidates ← staleKeys;
  for_range (imap pair candidates) (mkSummary (Z.of_nat (length candidates)) 0 0 0 0)
    (λ summary '(n, candidate), resolve (Current n) candidate summary).
End Reconciler.
