(* ===== verification/ReconcileProps.v ===== *)
(** * ReconcileProps: the theorems on the sweep

    A key is ended as the probe says and not otherwise, the sweep touches nothing but stale
    pending keys, and its summary accounts for every key it looked at. *)

From S2P Require Import Prelude GoString Sha256 Manifest Conflict World Json Claim ClaimSpec ClaimInv.
From S2P Require Import ClaimSafety ResultStore Reconcile.

Section ReconcileProps.
Context `{!Pg, !Objects}.
Context (decode : string → goerr + (Z * list string)) (r : Reconciler).
Implicit Types (w : world) (c : stale) (s : Summary).

(** The tables once the other connections had their turn. *)
Definition after_env w : DB :=
  match w_env w with [] => w_db w | f :: _ => f (w_db w) end.

(** What a probe's reply, read with the manifest, says of the key. *)
Definition probe_says (snapshot : Snapshot) c (reply : option transport) : option Status :=
  match Lookup_type snapshot (st_resourceType c) with
  | None => Some StatusIndeterminate
  | Some _ =>
      match Probe.pc_buildError (prober r), reply with
      | None, Some (Response status payload) =>
          if status =? 200 then
            match decode payload with
            | inr (count, _) => Some (if count =? 0 then StatusFailed else StatusDone)
            | inl _ => None
            end
          else None
      | _, _ => None
      end
  end.

(** The key of the candidate was ended with [status]. *)
Definition ended_as c (status : Status) (d d' : DB) : Prop :=
  ∃ result ref detail, complete_step (st_agentID c) (st_key c) status result ref detail d true d'.

(** A write of the outcome: it happened and is counted, or it did not, or its fate is unknown
    and the key is left for the next sweep. *)
Inductive wrote_outcome c (status : Status) s (d : DB) : bool * Summary → DB → Prop :=
| wo_done d' : ended_as c status d d' → wrote_outcome c status s d (true, s) d'
| wo_late : wrote_outcome c status s d (false, s) d
| wo_failed d' : d' = d ∨ ended_as c status d d' →
    wrote_outcome c status s d (false, incUnresolved s) d'.

Lemma complete_outcome c status result detail s w :
  ∃ x, (complete r c status result detail s w).1 = inr x ∧
    w_env (complete r c status result detail s w).2 = tail (w_env w) ∧
    wrote_outcome c status s (after_env w) x (w_db (complete r c status result detail s w).2).
Proof.
  unfold complete, mbind, St_bind.
  destruct (Place_spec (results r) (st_agentID c) (st_key c) result w) as (p & Hp & Hf & _).
  destruct (Place (results r) (st_agentID c) (st_key c) result w) as [rp w1]. simpl in *. subst rp.
  assert (Henv : w_env w1 = w_env w ∧ w_db w1 = w_db w) by (by rewrite Hf). destruct Henv as [He Hdb].
  set (w2 := (interleave w1).2).
  assert (Hw2 : interleave w1 = (inr tt, w2) ∧ w_db w2 = after_env w ∧ w_env w2 = tail (w_env w)).
  { unfold w2, interleave, after_env. rewrite He, Hdb. by destruct (w_env w). }
  destruct Hw2 as (-> & Hd2 & He2). unfold try.
  pose proof (Complete_refines (st_agentID c) (st_key c) status (Inline p) (p_Ref p) detail w2) as Hc.
  simpl in Hc. destruct (Complete _ _ status _ _ detail w2) as [[e|b] w3]; simpl.
  - destruct Hc as (Hfr & _ & _ & Hd). exists (false, incUnresolved s). split_and!; [done| |].
    + apply call_frame_env in Hfr as [-> _]. done.
    + rewrite Hd2 in Hd. apply wo_failed. destruct Hd as [->|Hd]; [by left|right].
      by eexists _, _, _.
  - destruct Hc as (Hfr & _ & _ & Hd). exists (b, s). split_and!; [done| |].
    + apply call_frame_env in Hfr as [-> _]. done.
    + rewrite Hd2 in Hd. destruct b.
      * apply wo_done. by eexists _, _, _.
      * inversion Hd. apply wo_late.
Qed.

Definition counted (status : Status) s : Summary :=
  match status with
  | StatusDone => incDone s | StatusFailed => incFailed s | _ => incIndeterminate s
  end.

(** What resolving one candidate does: the write its probe calls for, or nothing. *)
Inductive resolved c s (d : DB) : option Status → Summary → DB → Prop :=
| rs_none : resolved c s d None (incUnresolved s) d
| rs_write status b s' d' :
    wrote_outcome c status s d (b, s') d' →
    resolved c s d (Some status) (if (b : bool) then counted status s' else s') d'.

Lemma write_resolved c status result detail s w (k : bool * Summary → M Summary) :
  (∀ b s' w', (k (b, s') w').1 = inr (if (b : bool) then counted status s' else s') ∧
     w_db (k (b, s') w').2 = w_db w' ∧ w_env (k (b, s') w').2 = w_env w') →
  ∃ s', ((complete r c status result detail s ≫= k) w).1 = inr s' ∧
    w_env ((complete r c status result detail s ≫= k) w).2 = tail (w_env w) ∧
    resolved c s (after_env w) (Some status) s' (w_db ((complete r c status result detail s ≫= k) w).2).
Proof.
  intros Hk. unfold mbind, St_bind.
  destruct (complete_outcome c status result detail s w) as ([b s'] & Hx & He & Ho).
  destruct (complete r c status result detail s w) as [x w1]. simpl in *. subst x.
  destruct (Hk b s' w1) as (Hr & Hd & He'). rewrite Hr, Hd, He'. eexists. split_and!; [done..|].
  by apply rs_write.
Qed.

(** The probe, read off its reply. *)
Lemma probe_spec path c w :
  let says := match Probe.pc_buildError (prober r), head (w_replies w) with
              | None, Some (Response status payload) =>
                  if status =? 200 then
                    match decode payload with
                    | inr (count, _) => Some (if count =? 0 then StatusFailed else StatusDone)
                    | inl _ => None
                    end
                  else None
              | _, _ => None
              end in
  let '(x, w') := Probe.Probe decode (prober r) path (st_agentID c) (st_key c) w in
  w_db w' = w_db w ∧ w_env w' = w_env w ∧
  match says with
  | None => ∃ e, x = inl e
  | Some StatusFailed => x = inr (Probe.NotExecuted, EmptyString)
  | Some _ => ∃ result, x = inr (Probe.Executed, result)
  end.
Proof.
  unfold Probe.Probe, Probe.Executions, mbind, St_bind.
  destruct (Probe.pc_buildError (prober r)) as [text|]; simpl; [by eauto|]. unfold Probe.fetch.
  destruct (head (w_replies w)) as [[text|code text|text|text|status payload]|]; simpl; try by eauto.
  destruct (status =? 200); simpl; [|by eauto].
  destruct (decode payload) as [e|[count executions]]; simpl; [by eauto|].
  destruct (count =? 0); simpl; by eauto.
Qed.

Lemma resolve_spec snapshot c s w :
  let says := probe_says snapshot c (head (w_replies w)) in
  ∃ s' d, (resolve decode r snapshot c s w).1 = inr s' ∧
    (w_env w = [] → w_env (resolve decode r snapshot c s w).2 = []) ∧
    d = match says with Some _ => after_env w | None => w_db w end ∧
    resolved c s d says s' (w_db (resolve decode r snapshot c s w).2).
Proof.
  assert (Htail : ∀ (e l : list (DB → DB)), l = tail e → e = [] → l = []) by (by intros e l -> ->).
  unfold resolve, probe_says.
  destruct (Lookup_type snapshot (st_resourceType c)) as [def|].
  2: { destruct (write_resolved c StatusIndeterminate "" "no_probe_registered" s w
         (λ '(updated, summary), if negb updated then mret summary
            else _ ← emit (Inc "reconciled" ["indeterminate"]); mret (incIndeterminate summary)))
         as (s' & Hr & He & Hres); [by intros [] s' w'|].
       exists s', (after_env w). split_and!; [done|by apply Htail|done|done]. }
  pose proof (probe_spec (ProbePath def) c w) as Hp. simpl in Hp.
  destruct (Probe.Probe _ _ _ _ _ w) as [x w1] eqn:Hrun. destruct Hp as (Hd & He & Hp).
  rewrite (bind_inr _ _ _ _ _ (try_eq _ _ _ _ Hrun)). clear Hrun.
  assert (Ha : after_env w1 = after_env w) by (unfold after_env; by rewrite He, Hd).
  destruct (match Probe.pc_buildError (prober r), head (w_replies w) with
    | None, Some (Response status payload) => _ | _, _ => _ end) as [status|] eqn:Hsays.
  2: { destruct Hp as [e ->]. exists (incUnresolved s), (w_db w).
       split_and!; [done| |done|].
       - change (w_env w = [] → w_env w1 = []). by rewrite He.
       - change (resolved c s (w_db w) None (incUnresolved s) (w_db w1)). rewrite Hd. apply rs_none. }
  assert (Hcase : status = StatusFailed ∨ status = StatusDone).
  { repeat case_match; simplify_eq; auto. }
  destruct Hcase as [->| ->].
  - subst x. simpl.
    destruct (write_resolved c StatusFailed "" "probe_found_no_execution" s w1
      (λ '(updated, summary), if (updated : bool) then
           _ ← emit (Inc "reconciled" ["failed"]); mret (incFailed summary) else mret summary))
      as (s' & Hr & He' & Hres); [by intros [] s' w'|].
    rewrite Ha in Hres. exists s', (after_env w).
    split_and!; [done|rewrite <- He; by apply Htail|done|done].
  - destruct Hp as [result ->]. simpl.
    destruct (write_resolved c StatusDone result "resolved_by_probe" s w1
      (λ '(updated, summary), if (updated : bool) then
           _ ← emit (Inc "reconciled" ["done"]); mret (incDone summary) else mret summary))
      as (s' & Hr & He' & Hres); [by intros [] s' w'|].
    rewrite Ha in Hres. exists s', (after_env w).
    split_and!; [done|rewrite <- He; by apply Htail|done|done].
Qed.

(** With no other connection at work, resolving leaves the tables alone or ends the key as its
    probe says. *)
Lemma resolve_ends snapshot c s w :
  w_env w = [] →
  let d' := w_db (resolve decode r snapshot c s w).2 in
  d' = w_db w ∨
  ∃ status, probe_says snapshot c (head (w_replies w)) = Some status ∧ ended_as c status (w_db w) d'.
Proof.
  intros Henv d'. destruct (resolve_spec snapshot c s w) as (s' & d & _ & _ & Hd & Hres).
  assert (d = w_db w) as ->.
  { rewrite Hd. unfold after_env. rewrite Henv. by destruct (probe_says _ _ _). }
  fold d' in Hres. destruct (probe_says _ _ _) as [status|]; inversion Hres as [|st b s1 d1 Hw]; subst; [|by left].
  inversion Hw as [d1 He|Hl|d1 [->|He]]; subst; eauto.
Qed.

(** *** The loop *)

Definition total s : Z := s_Done s + s_Failed s + s_Indeterminate s + Unresolved s.

(** [s'] counts at most [n] more keys than [s]. *)
Definition counts_more (n : Z) s s' : Prop :=
  Scanned s' = Scanned s ∧ s_Done s <= s_Done s' ∧ s_Failed s <= s_Failed s' ∧
  s_Indeterminate s <= s_Indeterminate s' ∧ Unresolved s <= Unresolved s' ∧
  total s' <= total s + n.

Lemma resolved_counts c s d says s' d' : resolved c s d says s' d' → counts_more 1 s s'.
Proof.
  unfold counts_more, total.
  intros [|status b s1 d1 Hw]; [simpl; lia|]. inversion Hw; subst; try destruct status; simpl; lia.
Qed.

(** A candidate's row is the only one resolving it moves. *)
Lemma resolved_rows c s d says s' d' key :
  resolved c s d says s' d' → key ≠ (st_agentID c, st_key c) →
  db_keys d' !! key = db_keys d !! key.
Proof.
  intros Hr Hne.
  assert (Hended : ∀ status d1, ended_as c status d d1 → db_keys d1 !! key = db_keys d !! key).
  { intros status d1 (result & ref & detail & Hs). inversion Hs as [|r0 stored H1 H2 H3 H4]; subst.
    assert (∀ x, db_keys ((if decide (status = StatusFailed)
      then void_latest (st_agentID c) (st_key c) else (λ y, y)) x) = db_keys x) as ->.
    { intros x. case_decide; [|done]. unfold void_latest. by destruct (head _). }
    simpl. by rewrite lookup_insert_ne. }
  destruct Hr as [|status b s' d' Hw]; [done|].
  inversion Hw as [d1 He|Hl|d1 [->|He]]; subst; eauto.
Qed.

Lemma sweep_loop (Current : nat → Snapshot) : ∀ l s w,
  let run := for_range l s (λ summary '(n, candidate), resolve decode r (Current n) candidate summary) w in
  ∃ s', run.1 = inr s' ∧ counts_more (Z.of_nat (length l)) s s' ∧
    (w_env w = [] → w_env run.2 = [] ∧
       ∀ key, (∀ n c, (n, c) ∈ l → key ≠ (st_agentID c, st_key c)) →
         db_keys (w_db run.2) !! key = db_keys (w_db w) !! key).
Proof.
  induction l as [|[n c] l IH]; intros s w run.
  - exists s. split_and!; [done|unfold counts_more; simpl; lia|done].
  - destruct (resolve_spec (Current n) c s w) as (s1 & d & Hr & He & Hd & Hres).
    destruct (resolve decode r (Current n) c s w) as [x w1] eqn:Hrun. simpl in *. subst x.
    destruct (IH s1 w1) as (s' & Hr' & Hc & Hk).
    assert (Heq : run = for_range l s1 (λ summary '(n, candidate),
      resolve decode r (Current n) candidate summary) w1).
    { unfold run. by rewrite (bind_inr _ _ _ _ _ Hrun). }
    rewrite Heq. exists s'. split_and!; [done| |].
    + apply resolved_counts in Hres. unfold counts_more in *. simpl. lia.
    + intros Hn. destruct (Hk (He Hn)) as [Hn' Hkeys]. split; [done|]. intros key Hkey.
      rewrite Hkeys by (intros m c' Hin; apply (Hkey m c'); by right).
      assert (d = w_db w) as ->.
      { rewrite Hd. unfold after_env. rewrite Hn. by destruct (probe_says _ _ _). }
      eapply resolved_rows; [done|]. apply (Hkey n). by left.
Qed.

Lemma selectStale_elem sa b d l c :
  selectStale sa b d = inr (l, d) → c ∈ l →
  ∃ row, db_keys d !! (st_agentID c, st_key c) = Some row ∧ is_stale sa d row ∧
    st_resourceType c = k_rtype row.
Proof.
  intros [= <-] Hc. apply list_elem_of_fmap in Hc as ([[a k] row] & -> & Hin).
  apply subseteq_take in Hin. rewrite merge_sort_Permutation in Hin.
  apply list_elem_of_filter in Hin as [Hst Hin]. apply elem_of_map_to_list in Hin. by exists row.
Qed.

Lemma staleKeys_spec w :
  match staleKeys r w with
  | (inl e, w') => w_db w' = w_db w
  | (inr l, w') => w_db w' = w_db w ∧ w_env w' = w_env w ∧
      selectStale (staleAfter r) (batch r) (w_db w) = inr (l, w_db w)
  end.
Proof.
  unfold staleKeys, wrapping, query. by destruct (default Fine (head (w_faults w))).
Qed.
End ReconcileProps.

Section Theorems.
Context `{!Pg, !Objects}.
Context (decode : string → goerr + (Z * list string)) (r : Reconciler).

(** C17: a stale key is ended as its probe says and not otherwise: whatever the faults and the
    other connections do, resolving it writes failed only when the downstream answered that
    the write never ran, done only when it answered that it ran, indeterminate only when no
    manifest declares a probe, and nothing at all (the key stays for the next sweep) when the
    probe gave no answer. *)
Theorem resolve_follows_probe snapshot c s w :
  ∃ s' d, (resolve decode r snapshot c s w).1 = inr s' ∧
    (d = w_db w ∨ d = after_env w) ∧
    match probe_says decode r snapshot c (head (w_replies w)) with
    | None => s' = incUnresolved s ∧ w_db (resolve decode r snapshot c s w).2 = w_db w
    | Some status =>
        w_db (resolve decode r snapshot c s w).2 = d ∨
        ended_as c status d (w_db (resolve decode r snapshot c s w).2)
    end.
Proof.
  destruct (resolve_spec decode r snapshot c s w) as (s' & d & Hr & _ & Hd & Hres).
  destruct (resolve decode r snapshot c s w) as [x w']. simpl in *.
  exists s', d. split_and!; [done|destruct (probe_says _ _ _ _ _); auto|].
  destruct Hres as [|status b s' d' Hw]; [done|].
  inversion Hw as [d1 He|Hl|d1 [->|He]]; subst; auto.
Qed.

(** A sweep ends nothing but stale keys and accounts for what it did: it fails only when
    the select does, touching nothing; otherwise, with no other connection at work, a row that
    was not pending longer than the threshold is as it was, each counter is at least zero and
    together they do not exceed the keys scanned, of which there are at most a batch. *)
Theorem sweep_only_stale Current w :
  w_env w = [] →
  match Sweep decode r Current w with
  | (inl e, w') => w_db w' = w_db w
  | (inr s, w') =>
      (∀ key, (∀ row, db_keys (w_db w) !! key = Some row → ¬ is_stale (staleAfter r) (w_db w) row) →
         db_keys (w_db w') !! key = db_keys (w_db w) !! key) ∧
      0 <= s_Done s ∧ 0 <= s_Failed s ∧ 0 <= s_Indeterminate s ∧ 0 <= Unresolved s ∧
      total s <= Scanned s <= Z.of_nat (batch r)
  end.
Proof.
  intros Hn. unfold Sweep. pose proof (staleKeys_spec r w) as Hs.
  destruct (staleKeys r w) as [[e|l] w1] eqn:Hrun.
  { by rewrite (bind_inl _ _ _ _ _ Hrun). }
  rewrite (bind_inr _ _ _ _ _ Hrun). destruct Hs as (Hd & He & Hsel).
  destruct (sweep_loop decode r Current (imap pair l) (mkSummary (Z.of_nat (length l)) 0 0 0 0) w1)
    as (s' & Hr & Hc & Hk).
  destruct (for_range _ _ _ w1) as [x w2]. simpl in *. subst x.
  unfold counts_more, total in *. rewrite length_imap in Hc. simpl in Hc. split_and!; try lia.
  - intros key Hkey. rewrite He in Hk. destruct (Hk Hn) as [_ Hkeys]. rewrite <- Hd. apply Hkeys.
    intros n c Hin Heq. apply elem_of_lookup_imap in Hin as (m & c' & [= _ <-] & Hc').
    apply list_elem_of_lookup_2 in Hc'.
    destruct (selectStale_elem _ _ _ _ c Hsel Hc') as (row & Hrow & Hst & _).
    rewrite <- Heq in Hrow. by apply (Hkey row).
  - injection Hsel as <-. destruct Hc as [-> _]. rewrite length_fmap, length_take. lia.
Qed.

(** The sweep takes the oldest stale keys first and no others: every key it selects is
    pending past the threshold, a stale key left out was claimed no earlier than any selected
    one, and none is left out unless the batch is full. *)
Theorem stale_selection d l :
  selectStale (staleAfter r) (batch r) d = inr (l, d) →
  (∀ c, c ∈ l → ∃ row, db_keys d !! (st_agentID c, st_key c) = Some row ∧
     is_stale (staleAfter r) d row) ∧
  (∀ a k row, db_keys d !! (a, k) = Some row → is_stale (staleAfter r) d row →
     mkStale a k (k_rtype row) ∈ l ∨
     length l = batch r ∧ ∀ c row', c ∈ l → db_keys d !! (st_agentID c, st_key c) = Some row' →
       k_claimed row' <= k_claimed row).
Proof.
  intros Hsel. split.
  { intros c Hc. destruct (selectStale_elem _ _ _ _ c Hsel Hc) as (row & ? & ? & _). eauto. }
  injection Hsel as <-. intros a k row Hrow Hst.
  set (all := merge_sort claimed_before _).
  assert (Hsorted : StronglySorted claimed_before all).
  { apply StronglySorted_merge_sort.
    - intros x y z. unfold claimed_before. lia.
    - intros x y. unfold claimed_before. lia. }
  assert (Hin : ((a, k), row) ∈ all).
  { unfold all. rewrite merge_sort_Permutation. apply list_elem_of_filter. split; [done|].
    by apply elem_of_map_to_list. }
  rewrite <- (take_drop (batch r) all) in Hin, Hsorted.
  apply elem_of_app in Hin as [Hin|Hin].
  - left. apply list_elem_of_fmap. by exists ((a, k), row).
  - right. rewrite length_fmap, length_take. split.
    + apply list_elem_of_lookup_1 in Hin as [n Hn]. apply lookup_lt_Some in Hn.
      rewrite length_drop in Hn. lia.
    + intros c row' (x & -> & Hx)%list_elem_of_fmap Hrow'.
      assert (Hx' : x ∈ all) by (by apply subseteq_take in Hx).
      unfold all in Hx'. rewrite merge_sort_Permutation in Hx'.
      apply list_elem_of_filter in Hx' as [_ Hx']. destruct x as [[a' k'] row0].
      apply elem_of_map_to_list in Hx'. simpl in *. rewrite Hx' in Hrow'. injection Hrow' as <-.
      exact (StronglySorted_app_1_elem_of _ _ _ ((a', k'), row0) ((a, k), row) Hsorted Hx Hin).
Qed.
End Theorems.

(** ** Witnesses *)

Section Witnesses.
#[local] Existing Instance demo_pg.

Definition demo_reconciler : Reconciler :=
  mkReconciler (Probe.mkProbeClient "http://d" None) (mkResultStore false 0) (30 * Second) 10.

(** One key claimed at 0 and one at 50 s, at 60 s. *)
Definition demo_row (claimed : Z) : key_row :=
  mkKey "h" StatusPending "ticket" "7" "close" None None None 1 claimed claimed None.
Definition demo_db : DB :=
  mkDB 60000000 0 (<[("a", "old") := demo_row 0]> {[("a", "new") := demo_row 50000000]}) [] [] [] [].

Definition demo_decode (s : string) : goerr + (Z * list string) := inr (1, [s]).
Definition demo_snapshot : Snapshot := mkSnapshot "v" ∅.

Lemma sweep_only_stale_witness :
  let w' := (Sweep demo_decode demo_reconciler (λ _, demo_snapshot) (world_of demo_db)).2 in
  db_keys (w_db w') !! ("a", "new") = Some (demo_row 50000000) ∧
  (k_status <$> db_keys (w_db w') !! ("a", "old")) = Some StatusIndeterminate.
Proof.
  intros w'. split; [|by vm_compute].
  pose proof (sweep_only_stale demo_decode demo_reconciler (λ _, demo_snapshot) (world_of demo_db) eq_refl)
    as Hs. subst w'.
  destruct (Sweep _ _ _ (world_of demo_db)) as [[e|s] w'] eqn:Hrun; [by vm_compute in Hrun|].
  destruct Hs as [Hk _]. simpl. rewrite Hk; [by vm_compute|].
  intros row Hrow. vm_compute in Hrow. injection Hrow as <-. intros [_ Hc]. by vm_compute in Hc.
Defined.

Lemma stale_selection_witness :
  ∃ l, selectStale (30 * Second) 10 demo_db = inr (l, demo_db) ∧ length l = 1%nat ∧
    ∀ c, c ∈ l → ∃ row, db_keys demo_db !! (st_agentID c, st_key c) = Some row ∧
      is_stale (30 * Second) demo_db row.
Proof.
  exists [mkStale "a" "old" "ticket"].
  assert (Hs : selectStale (30 * Second) 10 demo_db = inr ([mkStale "a" "old" "ticket"], demo_db))
    by (by vm_compute).
  split; [exact Hs|]. split; [done|].
  exact (proj1 (stale_selection demo_reconciler demo_db _ Hs)).
Defined.
End Witnesses.
