(* ===== verification/ReconcileRun.v ===== *)
(** * ReconcileRun: the reconciler's loop

    [Run] sweeps on every tick.  When the probes answer and the server takes what they say, a
    sweep ends a whole batch, so the stale keys drain; when they do not, the batch is selected
    again on the next tick. *)

From S2P Require Import Prelude GoString Sha256 Manifest Conflict World Json Claim ClaimSpec ClaimInv.
From S2P Require Import ClaimSafety ResultStore Retention Reconcile ReconcileProps.

Section Run.
Context `{!Pg, !Objects}.
Context (decode : string → goerr + (Z * list string)) (r : Reconciler).

(** [Run], cancelled after so many ticks; [Current t n] is the snapshot served when candidate
    [n] of the sweep with [t] ticks to come is resolved. *)
Fixpoint Run (Current : nat → nat → Snapshot) (ticks : nat) : M unit :=
  match ticks with
  | O => throw ctx_canceled
  | S rest =>
      _ ← try (Sweep decode r (Current rest));
      Run Current rest
  end.
End Run.

(** ** The stale keys *)

Definition stale_keys (sa : Z) (d : DB) : gmap (string * string) key_row :=
  filter (λ x, is_stale sa d x.2) (db_keys d).

Definition key_of (c : stale) : string * string := (st_agentID c, st_key c).

Lemma stale_keys_ended sa d d' key row :
  db_keys d' = <[key := row]> (db_keys d) → db_now d' = db_now d → k_status row ≠ StatusPending →
  stale_keys sa d' = delete key (stale_keys sa d).
Proof.
  intros Hk Hn Hs. unfold stale_keys. rewrite Hk. apply map_eq. intros i. apply option_eq. intros x.
  rewrite lookup_delete_Some, !map_lookup_filter_Some, lookup_insert_Some. unfold is_stale. rewrite Hn. simpl.
  naive_solver.
Qed.

Lemma filter_to_list sa d :
  filter (λ x, is_stale sa d x.2) (map_to_list (db_keys d)) ≡ₚ map_to_list (stale_keys sa d).
Proof.
  apply NoDup_Permutation; [apply NoDup_filter, NoDup_map_to_list|apply NoDup_map_to_list|].
  intros [k x]. rewrite list_elem_of_filter, !elem_of_map_to_list. unfold stale_keys.
  rewrite map_lookup_filter_Some. simpl. tauto.
Qed.

Lemma selectStale_count sa b d l :
  selectStale sa b d = inr (l, d) →
  length l = Nat.min b (size (stale_keys sa d)) ∧ NoDup (key_of <$> l) ∧
  ∀ c, c ∈ l → is_Some (stale_keys sa d !! key_of c).
Proof.
  intros Hsel. split_and!.
  - injection Hsel as <-. rewrite length_fmap, length_take, merge_sort_Permutation, filter_to_list.
    by rewrite length_map_to_list.
  - injection Hsel as <-. rewrite <- list_fmap_compose.
    assert (Hnd : NoDup (fst <$> merge_sort claimed_before
      (filter (λ x, is_stale sa d x.2) (map_to_list (db_keys d))))).
    { rewrite merge_sort_Permutation, filter_to_list. apply NoDup_fst_map_to_list. }
    rewrite <- (take_drop b (merge_sort _ _)), fmap_app in Hnd. apply NoDup_app in Hnd as (Hnd & _ & _).
    replace (fmap (key_of ∘ _) _) with (fst <$> take b (merge_sort claimed_before
      (filter (λ x, is_stale sa d x.2) (map_to_list (db_keys d))))); [done|].
    apply list_fmap_ext. by intros _ [[a k] row] _.
  - intros c Hc. destruct (selectStale_elem sa b d l c Hsel Hc) as (row & Hrow & Hst & _).
    exists row. unfold stale_keys, key_of. by apply map_lookup_filter_Some.
Qed.

(** Stale keys may have been ended; nothing else changed, nor the time. *)
Definition settles (sa : Z) (d d' : DB) : Prop :=
  db_now d' = db_now d ∧
  ∀ key row, db_keys d !! key = Some row → ∃ row', db_keys d' !! key = Some row' ∧
    (row' = row ∨ is_stale sa d row ∧ k_status row' ≠ StatusPending).

Lemma settles_refl sa d : settles sa d d.
Proof. split; [done|]. eauto. Qed.

Lemma settles_trans sa d1 d2 d3 : settles sa d1 d2 → settles sa d2 d3 → settles sa d1 d3.
Proof.
  intros [Hn1 H1] [Hn2 H2]. split; [congruence|]. intros key row Hrow.
  destruct (H1 key row Hrow) as (row1 & Hrow1 & Hc1). destruct (H2 key row1 Hrow1) as (row2 & Hrow2 & Hc2).
  exists row2. split; [done|]. unfold is_stale in *. rewrite Hn1 in Hc2.
  destruct Hc1 as [->|[? ?]], Hc2 as [->|[[? ?] ?]]; auto.
Qed.

Lemma settles_ended sa d d' key row row' :
  stale_keys sa d !! key = Some row → db_keys d' = <[key := row']> (db_keys d) → db_now d' = db_now d →
  k_status row' ≠ StatusPending → settles sa d d'.
Proof.
  intros [Hrow Hst]%map_lookup_filter_Some Hk Hn Hs. split; [done|]. intros key1 row1 Hrow1. rewrite Hk.
  destruct (decide (key1 = key)) as [->|Hne].
  - exists row'. rewrite lookup_insert_eq. split; [done|]. right. rewrite Hrow in Hrow1. by injection Hrow1 as <-.
  - exists row1. rewrite lookup_insert_ne by done. auto.
Qed.

(** When none is left, all of them were ended. *)
Lemma settled_all sa d d' key row :
  settles sa d d' → stale_keys sa d' = ∅ → stale_keys sa d !! key = Some row →
  ∃ row', db_keys d' !! key = Some row' ∧ k_status row' ≠ StatusPending.
Proof.
  intros [Hn Hs] Hempty [Hrow Hst]%map_lookup_filter_Some. destruct (Hs key row Hrow) as (row' & Hrow' & Hc).
  exists row'. split; [done|]. destruct Hc as [->|[_ ?]]; [|done]. exfalso.
  assert (Hin : stale_keys sa d' !! key = Some row).
  { apply map_lookup_filter_Some. split; [done|]. unfold is_stale in *. by rewrite Hn. }
  rewrite Hempty in Hin. by apply lookup_empty_Some in Hin.
Qed.

(** ** A sweep in which everything answers *)

Section Calm.
Context `{!Pg, !Objects}.
Context (decode : string → goerr + (Z * list string)) (r : Reconciler).
Implicit Types (w : world) (c : stale) (s : Summary).

(** The probe answers, and the server takes the result it found. *)
Definition answers (reply : transport) : Prop :=
  match reply with
  | Response status payload =>
      status = 200 ∧
      match decode payload with
      | inr (_, executions) =>
          default "" (last executions) = "" ∨ is_Some (jsonb_in (default "" (last executions)))
      | inl _ => False
      end
  | _ => False
  end.

(** No statement fails, nobody else writes, and [n] probes are answered. *)
Definition calm (n : nat) w : Prop :=
  quiet w ∧ w_env w = [] ∧ Forall answers (w_replies w) ∧ (n <= length (w_replies w))%nat.

(** What ending the candidate does to the tables. *)
Definition ends c (d d' : DB) : Prop :=
  ∃ row, db_keys d' = <[key_of c := row]> (db_keys d) ∧ db_now d' = db_now d ∧
    k_status row ≠ StatusPending.

Lemma complete_step_ends c status result ref detail d b d' row :
  db_keys d !! key_of c = Some row → k_status row = StatusPending → status ≠ StatusPending →
  complete_step (st_agentID c) (st_key c) status result ref detail d b d' →
  b = true ∧ ends c d d'.
Proof.
  unfold key_of. intros Hrow Hp Hs. destruct 1 as [Hn|r0 stored Hr _ _ _]; [by destruct (Hn row Hrow)|].
  split; [done|]. eexists. split_and!.
  - case_decide; [unfold void_latest; destruct (head _)|]; reflexivity.
  - case_decide; [unfold void_latest; by destruct (head _)|done].
  - done.
Qed.

Lemma complete_calm n c status result detail s w row :
  calm n w → db_keys (w_db w) !! key_of c = Some row → k_status row = StatusPending →
  status ≠ StatusPending → (result = "" ∨ is_Some (jsonb_in result)) →
  ∃ w', complete r c status result detail s w = (inr (true, s), w') ∧ calm n w' ∧
    ends c (w_db w) (w_db w').
Proof.
  intros (Hq & He & Hr & Hlen) Hrow Hp Hs Hres. unfold complete, mbind, St_bind.
  destruct (Place_spec (results r) (st_agentID c) (st_key c) result w) as (p & Hpl & Hf & Hcase).
  destruct (Place (results r) (st_agentID c) (st_key c) result w) as [x w1]. simpl in *. subst x.
  assert (Hstore : storable (Inline p) (p_Ref p)).
  { destruct Hcase as [[-> ->]|(-> & _)]; split; auto. }
  assert (Hw1 : w_db w1 = w_db w ∧ w_env w1 = [] ∧ w_replies w1 = w_replies w ∧ quiet w1) by (by rewrite Hf).
  destruct Hw1 as (Hd1 & He1 & Hr1 & Hq1).
  assert (Hi : interleave w1 = (inr tt, w1)).
  { unfold interleave. rewrite He1. done. }
  rewrite Hi. unfold try.
  pose proof (Complete_refines (st_agentID c) (st_key c) status (Inline p) (p_Ref p) detail w1) as Hc.
  simpl in Hc. destruct (Complete _ _ status _ _ detail w1) as [[e|b] w3].
  { destruct Hc as (_ & _ & Hno & _). by destruct (Hno (conj Hq1 Hstore)). }
  destruct Hc as (Hfr & _ & Hq3 & Hstep). apply call_frame_env in Hfr as (He3 & _ & Hr3 & _).
  rewrite Hd1 in Hstep. eapply complete_step_ends in Hstep as [-> Hends]; [|done..].
  exists w3. split; [done|]. split; [|done]. unfold calm. rewrite He3, Hr3, Hr1. auto.
Qed.

Lemma calm_less n m w : calm n w → (m <= n)%nat → calm m w.
Proof. unfold calm. intros (? & ? & ? & ?) ?. split_and!; auto. lia. Qed.

(** A probe that is answered. *)
Lemma probe_calm n path c w :
  Probe.pc_buildError (prober r) = None → calm (S n) w →
  ∃ w', calm n w' ∧ w_db w' = w_db w ∧
    ((Probe.Probe decode (prober r) path (st_agentID c) (st_key c) w = (inr (Probe.NotExecuted, ""), w')) ∨
     ∃ result, Probe.Probe decode (prober r) path (st_agentID c) (st_key c) w =
                 (inr (Probe.Executed, result), w') ∧ (result = "" ∨ is_Some (jsonb_in result))).
Proof.
  intros Hb (Hq & He & Hr & Hlen). destruct (w_replies w) as [|reply rest] eqn:Hw; [simpl in Hlen; lia|].
  exists (set_replies rest w). apply Forall_cons in Hr as [Ha Hr]. simpl in Hlen.
  split; [unfold calm; simpl; split_and!; auto; lia|]. split; [done|].
  unfold Probe.Probe, Probe.Executions. rewrite Hb. unfold Probe.fetch, mbind, St_bind. rewrite Hw. simpl.
  destruct reply as [| | | |status payload]; try done. destruct Ha as [-> Ha].
  simpl. destruct (decode payload) as [|[count executions]]; [done|]. simpl.
  destruct (count =? 0); [by left|right]. by eexists.
Qed.

Lemma resolve_calm n snapshot c s w row :
  Probe.pc_buildError (prober r) = None → calm (S n) w →
  db_keys (w_db w) !! key_of c = Some row → k_status row = StatusPending →
  ∃ s' w', resolve decode r snapshot c s w = (inr s', w') ∧ calm n w' ∧ ends c (w_db w) (w_db w').
Proof.
  intros Hb Hc Hrow Hp. unfold resolve.
  destruct (Lookup_type snapshot (st_resourceType c)) as [definition|].
  2: { destruct (complete_calm (S n) c StatusIndeterminate "" "no_probe_registered" s w row) as (w' & Hrun & Hc' & He); [first [done|auto]..|].
       unfold escalate. rewrite (bind_inr _ _ _ _ _ Hrun). simpl. eexists _, _. split; [done|].
       split; [|done]. apply (calm_less (S n)); [|lia]. done. }
  destruct (probe_calm n (ProbePath definition) c w Hb Hc) as (w1 & Hc1 & Hd & Hcase).
  rewrite <- Hd in Hrow. rewrite <- Hd.
  destruct Hcase as [Hrun|(result & Hrun & Hres)]; rewrite (bind_inr _ _ _ _ _ (try_eq _ _ _ _ Hrun)).
  - destruct (complete_calm n c StatusFailed "" "probe_found_no_execution" s w1 row) as (w' & Hrun' & Hc' & He); [first [done|auto]..|].
    rewrite (bind_inr _ _ _ _ _ Hrun'). by eexists _, _.
  - destruct (complete_calm n c StatusDone result "resolved_by_probe" s w1 row) as (w' & Hrun' & Hc' & He); [first [done|auto]..|].
    rewrite (bind_inr _ _ _ _ _ Hrun'). by eexists _, _.
Qed.

(** The keys of the batch are ended, one after the other. *)
Lemma sweep_ends (Current : nat → Snapshot) : ∀ (l : list (nat * stale)) n s w,
  Probe.pc_buildError (prober r) = None → calm (n + length l) w → NoDup (key_of ∘ snd <$> l) →
  (∀ x, x ∈ l → is_Some (stale_keys (staleAfter r) (w_db w) !! key_of x.2)) →
  ∃ s' w', for_range l s (λ summary '(n, candidate), resolve decode r (Current n) candidate summary) w = (inr s', w') ∧
    calm n w' ∧ settles (staleAfter r) (w_db w) (w_db w') ∧
    (size (stale_keys (staleAfter r) (w_db w')) + length l)%nat = size (stale_keys (staleAfter r) (w_db w)).
Proof.
  induction l as [|[m c] l IH]; intros n s w Hb Hc Hnd Hst.
  { eexists _, _. split; [done|]. simpl in *. rewrite Nat.add_0_r in *. split_and!; [done|apply settles_refl|done]. }
  destruct (Hst (m, c)) as [row Hrow]; [by left|]. simpl in Hrow.
  pose proof Hrow as [Hr [Hp _]]%map_lookup_filter_Some. simpl in Hp.
  replace (n + length ((m, c) :: l))%nat with (S (n + length l)) in Hc by (simpl; lia).
  destruct (resolve_calm (n + length l) (Current m) c s w row Hb Hc Hr Hp) as (s1 & w1 & Hrun & Hc1 & row' & Hk & Hn & Hs).
  pose proof (stale_keys_ended (staleAfter r) _ _ _ _ Hk Hn Hs) as Hdel.
  rewrite fmap_cons, NoDup_cons in Hnd. destruct Hnd as [Hnot Hnd].
  destruct (IH n s1 w1 Hb Hc1 Hnd) as (s' & w' & Hrest & Hc' & Hset & Hsize).
  - intros x Hx. rewrite Hdel, lookup_delete_ne; [apply Hst; by right|].
    intros Heq. apply Hnot. apply list_elem_of_fmap. by exists x.
  - exists s', w'. cbn [for_range]. rewrite (bind_inr _ _ _ _ _ Hrun). split; [done|]. split; [done|].
    split; [by eapply settles_trans; [eapply settles_ended|]|]. rewrite Hdel in Hsize. rewrite map_size_delete_Some in Hsize by eauto.
    assert (size (stale_keys (staleAfter r) (w_db w)) ≠ 0%nat).
    { apply map_size_ne_0_lookup. eauto. }
    simpl. lia.
Qed.

Lemma Sweep_calm (Current : nat → Snapshot) n w :
  Probe.pc_buildError (prober r) = None →
  calm (n + Nat.min (batch r) (size (stale_keys (staleAfter r) (w_db w)))) w →
  ∃ s' w', Sweep decode r Current w = (inr s', w') ∧ calm n w' ∧
    settles (staleAfter r) (w_db w) (w_db w') ∧
    size (stale_keys (staleAfter r) (w_db w')) = (size (stale_keys (staleAfter r) (w_db w)) - batch r)%nat.
Proof.
  intros Hb Hc. unfold Sweep.
  destruct (selectStale (staleAfter r) (batch r) (w_db w)) as [?|[l d]] eqn:Hsel; [done|].
  assert (d = w_db w) as -> by (by injection Hsel as _ <-).
  destruct (selectStale_count _ _ _ _ Hsel) as (Hlen & Hnd & Hst).
  assert (Hread : ∃ w1, staleKeys r w = (inr l, w1) ∧ w_db w1 = w_db w ∧
    calm (n + length (imap pair l)) w1).
  { rewrite length_imap, Hlen. destruct Hc as (Hq & He & Hr & Hle).
    unfold staleKeys, wrapping, query. rewrite (quiet_head _ Hq), Hsel.
    eexists. split; [done|]. split; [done|]. unfold calm, quiet in *. simpl. split_and!; auto.
    by apply Forall_tail. }
  destruct Hread as (w1 & Hrun & Hd & Hc1). rewrite (bind_inr _ _ _ _ _ Hrun). rewrite <- Hd in *.
  assert (Hsnd : (key_of ∘ snd <$> imap pair l) = key_of <$> l).
  { rewrite list_fmap_compose. f_equal. apply list_eq. intros i. rewrite list_lookup_fmap, list_lookup_imap.
    by destruct (l !! i). }
  destruct (sweep_ends Current (imap pair l) n (mkSummary (Z.of_nat (length l)) 0 0 0 0) w1 Hb Hc1) 
    as (s' & w' & Hloop & Hc' & Hset & Hsize).
  - by rewrite Hsnd.
  - intros [m c] Hx. apply Hst. apply elem_of_lookup_imap in Hx as (i & c' & [= _ ->] & Hi).
    by apply list_elem_of_lookup_2 in Hi.
  - rewrite length_imap in Hsize. exists s', w'. split; [done|]. split; [done|]. split; [done|lia].
Qed.

Lemma Run_drains_all Current : ∀ ticks w,
  Probe.pc_buildError (prober r) = None →
  calm (size (stale_keys (staleAfter r) (w_db w))) w →
  settles (staleAfter r) (w_db w) (w_db (Run decode r Current ticks w).2) ∧
  size (stale_keys (staleAfter r) (w_db (Run decode r Current ticks w).2)) =
    (size (stale_keys (staleAfter r) (w_db w)) - ticks * batch r)%nat.
Proof.
  induction ticks as [|t IH]; intros w Hb Hc; [split; [apply settles_refl|simpl; lia]|]. cbn [Run].
  set (k := size (stale_keys (staleAfter r) (w_db w))) in *.
  destruct (Sweep_calm (Current t) (k - batch r) w Hb) as (s' & w' & Hrun & Hc' & Hset & Hsize).
  { apply (calm_less k); [done|]. fold k. lia. }
  rewrite (bind_inr _ _ _ _ _ (try_eq _ _ _ _ Hrun)). fold k in Hsize. rewrite <- Hsize in Hc'.
  destruct (IH w' Hb Hc') as [Hset' ->]. split; [by eapply settles_trans|]. simpl. lia.
Qed.

(** ** A batch that nothing answers *)

(** Every probe fails, and the types have one. *)
Definition silent (reply : transport) : Prop :=
  match reply with Response status _ => status ≠ 200 | _ => True end.

Lemma resolve_silent snapshot c s w :
  is_Some (Lookup_type snapshot (st_resourceType c)) → Forall silent (w_replies w) →
  ∃ w', resolve decode r snapshot c s w = (inr (incUnresolved s), w') ∧ w_db w' = w_db w ∧
    Forall silent (w_replies w') ∧ w_faults w' = w_faults w ∧
    w_metrics w' = w_metrics w ++ [Inc "probe_failures" [st_resourceType c]].
Proof.
  intros [definition Hdef] Hs. unfold resolve. rewrite Hdef.
  assert (Hp : ∃ e w1, Probe.Probe decode (prober r) (ProbePath definition) (st_agentID c) (st_key c) w = (inl e, w1) ∧
    w_db w1 = w_db w ∧ Forall silent (w_replies w1) ∧ w_faults w1 = w_faults w ∧ w_metrics w1 = w_metrics w).
  { unfold Probe.Probe, Probe.Executions, mbind, St_bind.
    destruct (Probe.pc_buildError (prober r)) as [text|]; [by eexists _, _|]. unfold Probe.fetch.
    assert (Htail : Forall silent (tail (w_replies w))) by (by destruct Hs).
    destruct Hs as [|[| | | |status payload] rest Hx _]; simpl in *; try by eexists _, _.
    rewrite (proj2 (Z.eqb_neq _ _) Hx). by eexists _, _. }
  destruct Hp as (e & w1 & Hrun & Hd & Hr & Hf & Hm). rewrite (bind_inr _ _ _ _ _ (try_eq _ _ _ _ Hrun)).
  unfold emit, mbind, St_bind. simpl. eexists. split; [done|]. simpl. by rewrite Hd, Hf, Hm.
Qed.

Definition probe_failures (l : list stale) : list metric :=
  (λ c, Inc "probe_failures" [st_resourceType c]) <$> l.

Lemma sweep_silent (Current : nat → Snapshot) : ∀ l i s w,
  (∀ n c, c ∈ l → is_Some (Lookup_type (Current n) (st_resourceType c))) → Forall silent (w_replies w) →
  ∃ s' w', for_range (imap (λ n c, ((i + n)%nat, c)) l) s
      (λ summary '(n, candidate), resolve decode r (Current n) candidate summary) w = (inr s', w') ∧
    w_db w' = w_db w ∧ Forall silent (w_replies w') ∧ w_faults w' = w_faults w ∧
    w_metrics w' = w_metrics w ++ probe_failures l.
Proof.
  induction l as [|c l IH]; intros i s w Hreg Hs.
  { eexists _, _. simpl. rewrite app_nil_r. by split_and!. }
  destruct (resolve_silent (Current (i + 0)%nat) c s w) as (w1 & Hrun & Hd & Hr & Hf & Hm); [apply Hreg; by left|done|].
  destruct (IH (S i) (incUnresolved s) w1) as (s' & w' & Hloop & Hd' & Hr' & Hf' & Hm'); [intros; apply Hreg; by right|done|].
  exists s', w'. rewrite imap_cons. cbn [for_range]. rewrite (bind_inr _ _ _ _ _ Hrun).
  split; [|rewrite Hd', Hf', Hm', Hm, <- app_assoc; by split_and!].
  rewrite <- Hloop. f_equal. apply imap_ext. intros n x _. simpl. f_equal. lia.
Qed.

(** A batch whose probes all fail is selected again by every sweep: nothing is ended, the probes
    that fail are those of the batch, and no key behind it is ever asked about. *)
Lemma batch_blocks Current l : ∀ ticks w,
  selectStale (staleAfter r) (batch r) (w_db w) = inr (l, w_db w) → quiet w →
  (∀ t n c, c ∈ l → is_Some (Lookup_type (Current t n) (st_resourceType c))) → Forall silent (w_replies w) →
  w_db (Run decode r Current ticks w).2 = w_db w ∧
  w_metrics (Run decode r Current ticks w).2 = w_metrics w ++ mjoin (replicate ticks (probe_failures l)).
Proof.
  induction ticks as [|t IH]; intros w Hsel Hq Hreg Hs; [simpl; by rewrite app_nil_r|].
  cbn [Run]. set (w1 := set_faults (tail (w_faults w)) w).
  assert (Hread : staleKeys r w = (inr l, w1)).
  { unfold staleKeys, wrapping, query. rewrite (quiet_head _ Hq), Hsel. subst w1. by destruct w. }
  destruct (sweep_silent (Current t) l 0 (mkSummary (Z.of_nat (length l)) 0 0 0 0) w1 (Hreg t) Hs)
    as (s' & w' & Hloop & Hd & Hr & Hf & Hm).
  assert (Hsweep : Sweep decode r (Current t) w = (inr s', w')).
  { unfold Sweep. rewrite (bind_inr _ _ _ _ _ Hread). exact Hloop. }
  rewrite (bind_inr _ _ _ _ _ (try_eq _ _ _ _ Hsweep)).
  assert (Hq' : quiet w') by (unfold quiet in *; rewrite Hf; by apply Forall_tail).
  change (w_db w' = w_db w) in Hd. change (w_metrics w' = w_metrics w ++ probe_failures l) in Hm.
  destruct (IH w') as [-> ->]; [by rewrite Hd|done..|]. rewrite Hd, Hm, <- app_assoc. done.
Qed.
End Calm.

(** ** Theorem *)

Section Drain.
Context `{!Pg, !Objects}.
Context (decode : string → goerr + (Z * list string)) (r : Reconciler).

(** C19: the stale keys drain: while the probes answer and the server takes statements and
    results, every tick ends a batch of stale keys or all there are, so after as many ticks as
    batches are needed no key is stale and every key that was is ended; keys that were not
    stale are left as they were throughout, whatever snapshot of the manifests is served. *)
Theorem stale_keys_drain (Current : nat → nat → Snapshot) (ticks : nat) (w : world) :
  let stale d := stale_keys (staleAfter r) d in
  let d := w_db w in
  let d' := w_db (Run decode r Current ticks w).2 in
  Probe.pc_buildError (prober r) = None → calm decode (size (stale d)) w →
  size (stale d') = (size (stale d) - ticks * batch r)%nat ∧
  (∀ key row, db_keys d !! key = Some row → ¬ is_stale (staleAfter r) d row → db_keys d' !! key = Some row) ∧
  ((size (stale d) <= ticks * batch r)%nat →
     stale d' = ∅ ∧
     ∀ key, is_Some (stale d !! key) → ∃ row', db_keys d' !! key = Some row' ∧ k_status row' ≠ StatusPending).
Proof.
  intros stale d d' Hb Hc. destruct (Run_drains_all decode r Current ticks w Hb Hc) as [Hset Hsize].
  split; [exact Hsize|]. split.
  - intros key row Hrow Hst. destruct Hset as [_ Hset].
    destruct (Hset key row Hrow) as (row' & Hrow' & [->|[? _]]); done.
  - intros Hle. assert (Hempty : stale d' = ∅).
    { apply map_size_empty_inv. unfold stale, d'. rewrite Hsize. unfold stale, d in Hle. lia. }
    split; [done|]. intros key [row Hrow]. by eapply settled_all.
Qed.
End Drain.

(** ** Witnesses *)

Section Witnesses.
#[local] Existing Instance demo_pg.

(** Three keys claimed at 0, 1 and 50 s, at 60 s, of a type with a probe; batches of one. *)
Definition probed_snapshot : Snapshot :=
  mkSnapshot "v" {["ticket" := mkDefinition "ticket" Second true "/probe" ∅ (mkErrors [] [])]}.
Definition three_keys : DB :=
  mkDB 60000000 0 (<[("a", "k1") := demo_row 0]> (<[("a", "k2") := demo_row 1000000]>
    {[("a", "k3") := demo_row 50000000]})) [] [] [] [].
Definition one_by_one : Reconciler :=
  mkReconciler (Probe.mkProbeClient "http://d" None) (mkResultStore false 0) (30 * Second) 1.

(** The probe of the older key finds no execution and the other finds one. *)
Definition counts (s : string) : goerr + (Z * list string) := inr (if String.eqb s "0" then (0, []) else (1, ["{}"])).
Definition answered : world := set_replies [Response 200 "0"; Response 200 "1"] (world_of three_keys).

Lemma stale_keys_drain_witness :
  let d' := w_db (Run counts one_by_one (λ _ _, probed_snapshot) 2 answered).2 in
  size (stale_keys (30 * Second) three_keys) = 2%nat ∧ stale_keys (30 * Second) d' = ∅ ∧
  db_keys d' !! ("a", "k3") = Some (demo_row 50000000) ∧
  ((λ k, k_status <$> db_keys d' !! ("a", k)) <$> ["k1"; "k2"]) = [Some StatusFailed; Some StatusDone].
Proof.
  intros d'. assert (Hsize : size (stale_keys (30 * Second) three_keys) = 2%nat) by (vm_compute; reflexivity).
  destruct (stale_keys_drain counts one_by_one (λ _ _, probed_snapshot) 2 answered) as (_ & Hkeep & Hdrain).
  - reflexivity.
  - split; [apply Forall_nil; exact I|]. split; [reflexivity|]. split.
    + apply Forall_cons. split; [split; [reflexivity|left; reflexivity]|].
      apply Forall_singleton. split; [reflexivity|right; eexists; vm_compute; reflexivity].
    + vm_compute. repeat constructor.
  - split; [exact Hsize|]. split; [apply Hdrain; vm_compute; repeat constructor|]. split.
    + apply Hkeep; [vm_compute; reflexivity|]. intros [_ Hc]. vm_compute in Hc. discriminate Hc.
    + vm_compute. reflexivity.
Defined.

(** With the first probe down, the batch of one blocks: the second key, whose turn never comes,
    stays pending for every number of ticks. *)
Lemma batch_blocks_example (ticks : nat) :
  w_db (Run counts one_by_one (λ _ _, probed_snapshot) ticks (world_of three_keys)).2 = three_keys.
Proof.
  destruct (batch_blocks counts one_by_one (λ _ _, probed_snapshot) [mkStale "a" "k1" "ticket"] ticks
    (world_of three_keys)) as [Hd _]; [by vm_compute|by apply Forall_nil| |by apply Forall_nil|exact Hd].
  intros t n c ->%list_elem_of_singleton. eexists. by vm_compute.
Qed.
End Witnesses.
