(* ===== verification/Api.v ===== *)
(** * Api: internal/api (api.go, identity.go)

    The write handler from the headers to the response: identity, key, body, manifest, hash,
    claim with serialization, the downstream call, the recording of its outcome; and the read
    handler.  A handler is a computation that ends with its one response.  The loops that poll
    until a deadline take fuel and end with [None] when it runs out, which the termination
    theorem excludes. *)

From S2P Require Import Prelude GoString Sha256 Manifest Conflict Latency World Json Claim Config.
From S2P Require Import Downstream ResultStore.

(** ** HTTP *)

Record writeRequest := mkWrite {
  wr_AgentID : string;
  wr_ResourceType : string;
  wr_ResourceID : string;
  wr_Operation : string;
  wr_Payload : string;
}.

(** What [json.NewDecoder(r.Body).Decode(&req)] over the size-limited body gives. *)
Inductive body_read :=
| BodyTooLarge
| BodyMalformed (text : string)
| BodyDecoded (req : writeRequest).

(** The parts of a request the handlers read; [h_Key] is the Idempotency-Key header of a write
    and the path value of a read. *)
Record http_request := mkHttp {
  h_AgentID : string;
  h_Role : string;
  h_Key : string;
  h_Body : body_read;
}.

Record response := mkResponse {
  resp_status : Z;
  resp_headers : list (string * string);
  resp_body : json;
}.

Definition writeJSON (status : Z) (body : json) : response :=
  mkResponse status [("Content-Type", "application/json")] body.

Definition writeRaw (status : Z) (body : string) : response :=
  mkResponse status [("Content-Type", "application/json")] (JRaw body).

Definition writeProblem (status : Z) (k reason detail : string) : response :=
  writeJSON status (JObj (
    [("status", JStr "rejected"); ("reason", JStr reason)] ++
    (if negb (String.eqb k "") then [("idempotency_key", JStr k)] else []) ++
    (if negb (String.eqb detail "") then [("detail", JStr detail)] else []))).

Definition writeNotExecuted (k reason : string) : response :=
  writeJSON 503 (JObj [("idempotency_key", JStr k); ("status", JStr (status_text StatusFailed));
    ("reason", JStr reason); ("retryable", JBool true);
    ("detail", JStr "No claim was made and nothing was sent downstream. Retry the same key.")]).

(** ** identity.go *)

Definition RoleAgent : string := "agent".

Record identity := mkIdentity { id_AgentID : string; id_Role : string }.

Definition readIdentity (r : http_request) : option identity :=
  let agentID := TrimSpace (h_AgentID r) in
  let role := TrimSpace (h_Role r) in
  if String.eqb agentID "" || String.eqb role "" then None else Some (mkIdentity agentID role).

Definition uuid_rune (i : nat) (c : Z) : bool :=
  if bool_decide (i ∈ [8; 13; 18; 23]%nat) then c =? 45
  else ((48 <=? c) && (c <=? 57)) || ((97 <=? c) && (c <=? 102)) || ((65 <=? c) && (c <=? 70)).

Definition isUUID (value : string) : bool :=
  if negb (String.length value =? 36)%nat then false
  else forallb (λ '(i, c), uuid_rune i c) (runes value).

(** ** api.go *)

Definition pendingPollFloor : Z := 20 * Millisecond.

(** Go on with the value of a loop that did not run out of fuel. *)
Definition or_fuel {A B} (m : M (option A)) (k : A → M (option B)) : M (option B) :=
  x ← m;
  match x with None => mret None | Some a => k a end.

Definition lookupOperation (snapshot : Snapshot) (resourceType operation : string) :
    option (Definition_ * Operation) :=
  match Lookup_type snapshot resourceType with
  | None => None
  | Some definition =>
      match Operations definition !! operation with
      | None => None
      | Some declared => Some (definition, declared)
      end
  end.

Definition statusFor (d : Disposition) : Status :=
  match d with
  | Done => StatusDone
  | Failed => StatusFailed
  | Indeterminate => StatusIndeterminate
  end.

(** [d.Round(time.Second)] in seconds, for a non-negative duration. *)
Definition round_seconds (d : Z) : Z :=
  let r := d mod Second in (if decide (r + r < Second) then d - r else d + Second - r) / Second.

Record Server := mkServer {
  cfg : Config;
  downstream : Client;
  srv_results : ResultStore;
}.

Section Handlers.
Context `{!Pg, !Objects}.
(** [canonical.Hash]. *)
Context (canonical_Hash : writeRequest → goerr + string).
Context (s : Server).

(** [time.After]: the wait, cut short when the request is cancelled; other connections
    commit meanwhile. *)
Definition wait : M bool :=
  cancelled ← ctx_done;
  if (cancelled : bool) then mret true
  else _ ← interleave; mret false.

Fixpoint waitForTerminal (fuel : nat) (blocking : Blocking_) (deadline : Z) :
    M (option bool) :=
  match fuel with
  | O => mret None
  | S f =>
      t ← now;
      if negb (t <? deadline) then mret (Some false)
      else
        r ← try (Lookup (b_AgentID blocking) (b_Key blocking));
        match r with
        | inl _ => mret (Some false)
        | inr None => mret (Some true)
        | inr (Some record) =>
            if negb (bool_decide (Status_ record = StatusPending)) then mret (Some true)
            else
              cancelled ← wait;
              if (cancelled : bool) then mret (Some false) else waitForTerminal f blocking deadline
        end
  end.

Definition with_verdict (v : Verdict) (r : Result) : Result :=
  mkResult v (Record_of r) (IntentID r) (Collided r) (LockWait r) (Blocking r) (Observed r).

(** The loop of [claimWithSerialization]; each part has the same fuel. *)
Fixpoint claim_loop (fuel turns : nat) (req : Request) (deadline : Z) : M (option Result) :=
  match turns with
  | O => mret None
  | S more =>
      result ← Claim req;
      match Verdict_ result, Blocking result with
      | VerdictSerialize, Some blocking =>
          or_fuel (waitForTerminal fuel blocking deadline) (λ terminal,
            if negb terminal then
              _ ← emit (Inc "serialization_waits" ["timeout"]);
              mret (Some (with_verdict VerdictSerializeTimeout result))
            else
              _ ← emit (Inc "serialization_waits" ["resolved"]);
              claim_loop fuel more req deadline)
      | _, _ => mret (Some result)
      end
  end.

Definition claimWithSerialization (fuel : nat) (req : Request) : M (option Result) :=
  t ← now;
  claim_loop fuel fuel req (t + SerializeWait (cfg s)).

(** The retries of [persistOutcome]. *)
Fixpoint persist_loop (attempts : nat) (agentID k : string) (status : Status)
    (placement : Placement) (detail : string) : M bool :=
  match attempts with
  | O => mret false
  | S more =>
      r ← try (Complete agentID k status (Inline placement) (p_Ref placement) detail);
      match r with
      | inr updated => mret updated
      | inl _ =>
          _ ← (match more with O => mret tt | S _ => interleave end);
          persist_loop more agentID k status placement detail
      end
  end.

Definition persistOutcome (agentID k : string) (status : Status) (outcome : Outcome) : M bool :=
  placement ← Place (srv_results s) agentID k (out_Result outcome);
  _ ← (if Offloaded placement then emit (Inc "results_offloaded" [])
       else if FellBack placement then emit (Inc "offload_fallbacks" []) else mret tt);
  persist_loop (Z.to_nat (OutcomeWriteAttempts (cfg s))) agentID k status placement
    (out_Detail outcome).

Definition outcome_response (k : string) (intentID : string) (outcome : Outcome) : response :=
  match Disposition_ outcome with
  | Done =>
      writeJSON 201 (JObj [("idempotency_key", JStr k); ("status", JStr (status_text StatusDone));
        ("result", JRaw (out_Result outcome)); ("replayed", JBool false);
        ("intent_id", JStr intentID)])
  | Failed =>
      writeJSON 503 (JObj [("idempotency_key", JStr k); ("status", JStr (status_text StatusFailed));
        ("reason", JStr "downstream_unreachable"); ("retryable", JBool true)])
  | Indeterminate =>
      writeJSON 502 (JObj [("idempotency_key", JStr k);
        ("status", JStr (status_text StatusIndeterminate));
        ("reason", JStr "downstream_timeout_after_send"); ("retryable", JBool false);
        ("detail", JStr "The write may or may not have been applied. Do not retry this key.")])
  end.

Definition downstream_request (k : string) (req : writeRequest) (definition : Definition_) : dRequest :=
  mkDRequest (wr_AgentID req) k (wr_ResourceType req) (wr_ResourceID req) (wr_Operation req)
    (wr_Payload req) (Errors definition).

Definition execute (k : string) (req : writeRequest) (definition : Definition_)
    (claimed : Result) : M response :=
  started ← now;
  outcome ← Execute (downstream s) (downstream_request k req definition);
  _ ← interleave;
  ended ← now;
  let took := ended - started in
  _ ← emit (Observe "downstream_duration" [Disposition_String (Disposition_ outcome)] took);
  _ ← (if ResultInlineBytes (cfg s) <? Z.of_nat (String.length (out_Result outcome))
       then emit (Inc "oversized_results" []) else mret tt);
  _ ← (if negb (bool_decide (Disposition_ outcome = Failed))
       then modify (λ w, set_latency (Latency.Observe (wr_ResourceType req) took (w_latency w)) w)
       else mret tt);
  let status := statusFor (Disposition_ outcome) in
  _ ← emit (Inc "writes" [status_text status]);
  _ ← persistOutcome (wr_AgentID req) k status outcome;
  mret (outcome_response k (IntentID claimed) outcome).

Fixpoint await_loop (fuel : nat) (record : Record_) (deadline : Z) : M (option Record_) :=
  match fuel with
  | O => mret None
  | S f =>
      t ← now;
      if negb (t <? deadline) then mret (Some record)
      else
        cancelled ← wait;
        if (cancelled : bool) then mret (Some record)
        else
          r ← try (Lookup (AgentID record) (Key record));
          match r with
          | inl _ | inr None => mret (Some record)
          | inr (Some current) =>
              if negb (bool_decide (Status_ current = StatusPending)) then mret (Some current)
              else await_loop f record deadline
          end
  end.

Definition awaitCompletion (fuel : nat) (record : Record_) : M (option Record_) :=
  if negb (bool_decide (Status_ record = StatusPending)) || (ClaimPendingWait (cfg s) <=? 0)
  then mret (Some record)
  else
    t ← now;
    await_loop fuel record (t + ClaimPendingWait (cfg s)).

(** [resolveResult]: the result, or the response that says it cannot be read. *)
Definition resolveResult (k : string) (record : Record_) : M (response + string) :=
  r ← try (Resolve (srv_results s) (Result_ record) (ResultRef record));
  match r with
  | inr result => mret (inr result)
  | inl _ =>
      _ ← emit (Inc "result_fetch_failures" []);
      mret (inl (writeJSON 500 (JObj [("idempotency_key", JStr k);
        ("status", JStr (status_text (Status_ record)));
        ("reason", JStr "result_unavailable"); ("retryable", JBool true);
        ("detail", JStr ("The write completed and its outcome is recorded, but the stored result "
          +:+ "could not be read. Retrying the same key replays it and cannot re-execute."))])))
  end.

Definition writeExisting (k resourceType : string) (record : Record_) : M response :=
  match Status_ record with
  | StatusDone =>
      r ← resolveResult k record;
      match r with
      | inl problem => mret problem
      | inr result =>
          _ ← emit (Inc "replays" []);
          mret (writeJSON 200 (JObj [("idempotency_key", JStr k);
            ("status", JStr (status_text (Status_ record))); ("result", JRaw result);
            ("replayed", JBool true)]))
      end
  | StatusPending =>
      t ← gets w_latency;
      let wait := Latency.RetryAfter resourceType t in
      mret (mkResponse 202
        [("Retry-After", Itoa (Z.max 1 (round_seconds wait))); ("Location", "/v1/writes/" +:+ k);
         ("Content-Type", "application/json")]
        (JObj [("idempotency_key", JStr k); ("status", JStr (status_text (Status_ record)));
               ("retry_after_ms", JInt (wait / Millisecond))]))
  | StatusRejected =>
      if (String.length (Result_ record) =? 0)%nat
      then mret (writeProblem 409 k "conflicting_write" (OutcomeDetail record))
      else mret (writeRaw 409 (Result_ record))
  | StatusIndeterminate =>
      mret (writeJSON 502 (JObj [("idempotency_key", JStr k);
        ("status", JStr (status_text (Status_ record)));
        ("reason", JStr "indeterminate_outcome"); ("retryable", JBool false);
        ("detail", JStr "The write may or may not have been applied. Do not retry this key.")]))
  | StatusFailed =>
      mret (writeJSON 503 (JObj [("idempotency_key", JStr k);
        ("status", JStr (status_text (Status_ record)));
        ("reason", JStr "downstream_unreachable"); ("retryable", JBool true)]))
  end.

Definition claim_request (k hash : string) (req : writeRequest) (snapshot : Snapshot)
    (definition : Definition_) (declared : Operation) : Request :=
  mkRequest (wr_AgentID req) k hash (wr_ResourceType req) (wr_ResourceID req) (wr_Operation req)
    declared (wr_Payload req) (ConflictWindow definition) (Enforce definition)
    (version snapshot) (ConflictLockTimeout (cfg s)).

(** The [switch] on the verdict. *)
Definition answer (fuel : nat) (k : string) (req : writeRequest) (definition : Definition_)
    (result : Result) : M (option response) :=
  match Verdict_ result, Record_of result with
  | VerdictMismatch, _ =>
      _ ← emit (Inc "hash_mismatches" [wr_ResourceType req]);
      mret (Some (writeProblem 422 k "request_hash_mismatch"
        "This key was previously used with a different request body."))
  | VerdictExisting, Some record =>
      or_fuel (awaitCompletion fuel record) (λ current,
        Some <$> writeExisting k (wr_ResourceType req) current)
  | VerdictRejected, Some record =>
      _ ← emit (Inc "conflicts" [wr_ResourceType req; resolution_text ResolutionRejected]);
      _ ← emit (Inc "writes" [status_text StatusRejected]);
      mret (Some (writeRaw 409 (Result_ record)))
  | VerdictLockTimeout, _ =>
      _ ← emit (Inc "lock_timeouts" [wr_ResourceType req]);
      mret (Some (writeNotExecuted k "resource_busy"))
  | VerdictSerializeTimeout, _ => mret (Some (writeNotExecuted k "serialization_wait_expired"))
  | _, record =>
      _ ← (match record with
           | Some rec => if 1 <? AttemptCount rec
                         then emit (Observe "reclaim_attempts" [] (AttemptCount rec)) else mret tt
           | None => mret tt
           end);
      Some <$> execute k req definition result
  end.

Definition observe_claim (req : writeRequest) (result : Result) : M unit :=
  _ ← (if Collided result then emit (Inc "claim_collisions" []) else mret tt);
  _ ← emit (Observe "lock_wait" [wr_ResourceType req] (LockWait result));
  (if 0 <? Observed result
   then emit (Add "conflicts" [wr_ResourceType req; resolution_text ResolutionObserved] (Observed result))
   else mret tt).

(** The checks before the claim: the response that refuses, or what is claimed. *)
Definition admission (snapshot : Snapshot) (r : http_request) :
    response + (string * writeRequest * Definition_ * Request) :=
  match readIdentity r with
  | None => inl (writeProblem 401 "" "missing_identity" "")
  | Some caller =>
      if negb (String.eqb (id_Role caller) RoleAgent)
      then inl (writeProblem 403 "" "role_insufficient" "")
      else
        let k := ToLower (h_Key r) in
        if negb (isUUID k)
        then inl (writeProblem 422 k "malformed_idempotency_key" "Idempotency-Key must be a UUID.")
        else
          match h_Body r with
          | BodyTooLarge => inl (writeProblem 413 k "payload_too_large" "")
          | BodyMalformed text => inl (writeProblem 400 k "malformed_request" text)
          | BodyDecoded req =>
              if String.eqb (wr_AgentID req) "" || String.eqb (wr_ResourceType req) "" ||
                 String.eqb (wr_ResourceID req) "" || String.eqb (wr_Operation req) "" ||
                 (String.length (wr_Payload req) =? 0)%nat
              then inl (writeProblem 400 k "missing_field" "")
              else if negb (String.eqb (wr_AgentID req) (id_AgentID caller))
              then inl (writeProblem 403 k "agent_id_mismatch" "")
              else
                match lookupOperation snapshot (wr_ResourceType req) (wr_Operation req) with
                | None => inl (writeProblem 422 k "unknown_operation"
                    ("No manifest declares this operation for this resource_type. A write whose "
                     +:+ "downstream responses cannot be classified is never admitted."))
                | Some (definition, declared) =>
                    match canonical_Hash req with
                    | inl e => inl (writeProblem 422 k "unhashable_request" (e_text e))
                    | inr hash =>
                        inr (k, req, definition, claim_request k hash req snapshot definition declared)
                    end
                end
          end
  end.

(** [handleWrite]; [snapshot] is what [s.manifests.Current()] returns. *)
Definition handleWrite (fuel : nat) (snapshot : Snapshot) (r : http_request) :
    M (option response) :=
  match admission snapshot r with
  | inl refused => mret (Some refused)
  | inr (k, req, definition, claim_req) =>
      claimed ← try (claimWithSerialization fuel claim_req);
      match claimed with
      | inl _ => mret (Some (writeProblem 500 k "claim_failed" ""))
      | inr None => mret None
      | inr (Some result) =>
          _ ← observe_claim req result;
          answer fuel k req definition result
      end
  end.

Definition handleRead (r : http_request) : M response :=
  match readIdentity r with
  | None => mret (writeProblem 401 "" "missing_identity" "")
  | Some caller =>
      let k := ToLower (h_Key r) in
      if negb (isUUID k) then mret (writeProblem 422 k "malformed_idempotency_key" "")
      else
        found ← try (Lookup (id_AgentID caller) k);
        match found with
        | inl _ => mret (writeProblem 500 k "lookup_failed" "")
        | inr None => mret (writeProblem 404 k "unknown_key" "")
        | inr (Some record) =>
            resolved ← resolveResult k record;
            match resolved with
            | inl problem => mret problem
            | inr result =>
                mret (writeJSON 200 (JObj (
                  [("idempotency_key", JStr k); ("status", JStr (status_text (Status_ record)));
                   ("attempt_count", JInt (AttemptCount record))] ++
                  (if (0 <? String.length result)%nat then [("result", JRaw result)] else []) ++
                  (if negb (String.eqb (OutcomeDetail record) "")
                   then [("detail", JStr (OutcomeDetail record))] else []))))
            end
        end
  end.
End Handlers.
