(* ===== verification/JsonDecode.v ===== *)
(** * JsonDecode: json.Decoder into an [any], with UseNumber

    The first value of a text, as encoding/json decodes it: objects are maps in which a later
    member replaces an earlier one of the same name, numbers keep their literal, strings have
    their escapes resolved and bytes that are not UTF-8 replaced.  What follows the value is
    not read.  The lexical rules are the scanner's of Json.v. *)

From S2P Require Import Prelude GoString Json.

Inductive value :=
| VNull
| VBool (b : bool)
| VNumber (literal : string)
| VString (s : string)
| VArray (items : list value)
| VObject (members : list (string * value)).

(** ** Text *)

(** [utf8.EncodeRune]. *)
Definition encode_rune (r : Z) : string :=
  let tail (k : Z) := byte_of (Z.lor 128 (Z.land (Z.shiftr r k) 63)) in
  if (r <? 0) || (1114111 <? r) || ((55296 <=? r) && (r <=? 57343)) then bytes_of_codes [239; 191; 189]
  else if r <? 128 then String (byte_of r) ""
  else if r <? 2048 then String (byte_of (Z.lor 192 (Z.shiftr r 6))) (String (tail 0) "")
  else if r <? 65536 then
    String (byte_of (Z.lor 224 (Z.shiftr r 12))) (String (tail 6) (String (tail 0) ""))
  else
    String (byte_of (Z.lor 240 (Z.shiftr r 18))) (String (tail 12) (String (tail 6) (String (tail 0) ""))).

Definition hex_val (v : Z) : Z := if is_digit v then v - 48 else if v <=? 70 then v - 55 else v - 87.

(** [getu4]: the code of a \u escape at the head of the text. *)
Definition getu4 (s : string) : option Z :=
  match s with
  | String c (String d (String h3 (String h2 (String h1 (String h0 _))))) =>
      let v c := byte_val c in
      if (v c =? 92) && (v d =? 117) && is_hex (v h3) && is_hex (v h2) && is_hex (v h1) && is_hex (v h0)
      then Some (((hex_val (v h3) * 16 + hex_val (v h2)) * 16 + hex_val (v h1)) * 16 + hex_val (v h0))
      else None
  | _ => None
  end.

Definition is_surrogate (r : Z) : bool := (55296 <=? r) && (r <=? 57343).

(** [utf16.DecodeRune]. *)
Definition decode_surrogates (r1 r2 : Z) : Z :=
  if (55296 <=? r1) && (r1 <? 56320) && (56320 <=? r2) && (r2 <? 57344)
  then Z.lor (Z.shiftl (r1 - 55296) 10) (r2 - 56320) + 65536
  else RuneError.

Definition escaped (v : Z) : option Z :=
  if (v =? 34) || (v =? 92) || (v =? 47) then Some v
  else if v =? 98 then Some 8 else if v =? 102 then Some 12 else if v =? 110 then Some 10
  else if v =? 114 then Some 13 else if v =? 116 then Some 9 else None.

(** [unquote] of what is between the quotes; [skip] bytes are already dealt with. *)
Fixpoint unquote_from (skip : nat) (s : string) : string :=
  match s with
  | EmptyString => EmptyString
  | String c r =>
      match skip with
      | S n => unquote_from n r
      | O =>
          if byte_val c =? 92 then
            match getu4 s with
            | Some rr =>
                if is_surrogate rr then
                  let dec := decode_surrogates rr (default (-1) (getu4 (drop_bytes 6 s))) in
                  if dec =? RuneError then encode_rune RuneError +:+ unquote_from 5 r
                  else encode_rune dec +:+ unquote_from 11 r
                else encode_rune rr +:+ unquote_from 5 r
            | None =>
                match r with
                | EmptyString => EmptyString
                | String d _ => String (byte_of (default 0 (escaped (byte_val d)))) (unquote_from 1 r)
                end
            end
          else if byte_val c <? 128 then String c (unquote_from 0 r)
          else let '(rune, w) := decode_rune s in encode_rune rune +:+ unquote_from (w - 1) r
      end
  end.

Definition unquote (raw : string) : string := unquote_from 0 raw.

(** ** Tokens *)

Fixpoint skip_space (s : string) : string :=
  match s with
  | String c r => if is_space (byte_val c) then skip_space r else s
  | EmptyString => EmptyString
  end.

(** After the opening quote: what is before the closing one, and the rest. *)
Fixpoint string_token (state : scan_state) (s : string) : option (string * string) :=
  match s with
  | EmptyString => None
  | String c r =>
      match scan_step state [] (byte_val c) with
      | None => None
      | Some (EndValue, _, _) => Some (EmptyString, r)
      | Some (next, _, _) => '(raw, rest) ← string_token next r; Some (String c raw, rest)
      end
  end.

Definition in_number (state : scan_state) : bool :=
  match state with Neg | S1 | S0 | Dot | Dot0 | SE | ESign | E0 => true | _ => false end.

Definition number_complete (state : scan_state) : bool :=
  match state with S1 | S0 | Dot0 | E0 => true | _ => false end.

(** The longest number that continues the state. *)
Fixpoint number_token (state : scan_state) (s : string) : option (string * string) :=
  let stop := if number_complete state then Some (EmptyString, s) else None in
  match s with
  | EmptyString => stop
  | String c r =>
      match scan_step state [ParseArrayValue] (byte_val c) with
      | Some (next, _, _) =>
          if in_number next then '(lit, rest) ← number_token next r; Some (String c lit, rest) else stop
      | None => stop
      end
  end.

Definition word (w : string) (x : value) (s : string) : option (value * string) :=
  if HasPrefix s w then Some (x, drop_bytes (String.length w) s) else None.

(** ** Values *)

(** [m[key] = v]. *)
Fixpoint set_member (key : string) (v : value) (m : list (string * value)) : list (string * value) :=
  match m with
  | [] => [(key, v)]
  | (k, x) :: rest => if String.eqb k key then (key, v) :: rest else (k, x) :: set_member key v rest
  end.

Definition head_is (v : Z) (s : string) : bool :=
  match s with String c _ => byte_val c =? v | EmptyString => false end.

Definition after (n : nat) (s : string) : string := skip_space (drop_bytes n s).

(** A value, the elements of an array up to its end, and the members of an object up to its. *)
Fixpoint parse_value (fuel : nat) (depth : Z) (s : string) {struct fuel} : option (value * string) :=
  match fuel with
  | O => None
  | S f =>
      match s with
      | EmptyString => None
      | String c r =>
          let v := byte_val c in
          if v =? 34 then '(raw, rest) ← string_token InString r; Some (VString (unquote raw), rest)
          else if v =? 91 then
            if maxNestingDepth <=? depth then None
            else if head_is 93 (skip_space r) then Some (VArray [], drop_bytes 1 (skip_space r))
            else parse_elements f (depth + 1) [] (skip_space r)
          else if v =? 123 then
            if maxNestingDepth <=? depth then None
            else if head_is 125 (skip_space r) then Some (VObject [], drop_bytes 1 (skip_space r))
            else parse_members f (depth + 1) [] (skip_space r)
          else if v =? 116 then word "true" (VBool true) s
          else if v =? 102 then word "false" (VBool false) s
          else if v =? 110 then word "null" VNull s
          else
            match scan_step BeginValue [ParseArrayValue] v with
            | Some (state, _, _) =>
                if in_number state then '(lit, rest) ← number_token state r; Some (VNumber (String c lit), rest)
                else None
            | None => None
            end
      end
  end
with parse_elements (fuel : nat) (depth : Z) (items : list value) (s : string) {struct fuel} : option (value * string) :=
  match fuel with
  | O => None
  | S f =>
      '(x, rest) ← parse_value f depth s;
      let rest := skip_space rest in
      if head_is 93 rest then Some (VArray (items ++ [x]), drop_bytes 1 rest)
      else if head_is 44 rest then parse_elements f depth (items ++ [x]) (after 1 rest)
      else None
  end
with parse_members (fuel : nat) (depth : Z) (members : list (string * value)) (s : string) {struct fuel} : option (value * string) :=
  match fuel with
  | O => None
  | S f =>
      if head_is 34 s then
        '(raw, rest) ← string_token InString (drop_bytes 1 s);
        let rest := skip_space rest in
        if head_is 58 rest then
          '(x, rest) ← parse_value f depth (after 1 rest);
          let rest := skip_space rest in
          let members := set_member (unquote raw) x members in
          if head_is 125 rest then Some (VObject members, drop_bytes 1 rest)
          else if head_is 44 rest then parse_members f depth members (after 1 rest)
          else None
        else None
      else None
  end.

(** [decoder.Decode(&value)] of a reader of the text. *)
Definition Decode (text : string) : option value :=
  fst <$> parse_value (S (2 * String.length text)) 0 (skip_space text).


(** ** The fuel is enough *)

Local Abbreviation len := String.length.

Lemma rest_of {A B} (a c : A) (b d : B) : Some (a, b) = Some (c, d) → b = d.
Proof. by intros [= _ ->]. Qed.

Lemma skip_space_len s : (len (skip_space s) <= len s)%nat.
Proof. induction s as [|c r IH]; simpl; [lia|]. destruct (is_space _); simpl; lia. Qed.

Lemma drop_bytes_len n s : (len (drop_bytes n s) <= len s)%nat.
Proof. revert s. induction n as [|n IH]; intros [|c r]; simpl; try lia. specialize (IH r). lia. Qed.

Lemma head_drop v s : head_is v s = true → (len (drop_bytes 1 s) < len s)%nat.
Proof. destruct s as [|c r]; [done|]. intros _. simpl. pose proof (drop_bytes_len 0 r). simpl in *. destruct r; simpl in *; lia. Qed.

Lemma after_len v s : head_is v s = true → (len (after 1 s) < len s)%nat.
Proof. intros H%head_drop. unfold after. pose proof (skip_space_len (drop_bytes 1 s)). lia. Qed.

Lemma string_token_len state s raw rest : string_token state s = Some (raw, rest) → (len rest < len s)%nat.
Proof.
  revert state raw. induction s as [|c r IH]; intros state raw; simpl; [done|].
  destruct (scan_step state [] (byte_val c)) as [[[next st] b]|]; [|done].
  assert (Hgo : (string_token next r ≫= λ '(raw, rest), Some (String c raw, rest)) = Some (raw, rest) →
    (len rest < S (len r))%nat).
  { destruct (string_token next r) as [[raw' rest']|] eqn:E; simpl; [|done]. intros <-%rest_of.
    specialize (IH next raw' E). lia. }
  destruct next; try exact Hgo. intros <-%rest_of. lia.
Qed.

Lemma number_token_len state s lit rest : number_token state s = Some (lit, rest) → (len rest <= len s)%nat.
Proof.
  revert state lit. induction s as [|c r IH]; intros state lit; simpl.
  { destruct (number_complete state); [|done]. intros <-%rest_of. simpl. lia. }
  assert (Hstop : (if number_complete state then Some (EmptyString, String c r) else None) = Some (lit, rest) →
    (len rest <= S (len r))%nat).
  { destruct (number_complete state); [|done]. intros <-%rest_of. simpl. lia. }
  destruct (scan_step state [ParseArrayValue] (byte_val c)) as [[[next st] b]|]; [|done].
  destruct (in_number next); [|done]. destruct (number_token next r) as [[lit' rest']|] eqn:E; simpl; [|done].
  intros <-%rest_of. specialize (IH next lit' E). lia.
Qed.

Lemma word_len w x s v rest : w ≠ EmptyString → word w x s = Some (v, rest) → (len rest < len s)%nat.
Proof.
  intros Hw. unfold word. destruct w as [|d w]; [done|]. destruct s as [|c s]; [done|].
  destruct (HasPrefix _ _); [|done]. intros <-%rest_of. simpl. pose proof (drop_bytes_len (len w) s). lia.
Qed.

(** Each of the three parsers reads something. *)
Lemma parse_shrinks f :
  (∀ d s v rest, parse_value f d s = Some (v, rest) → (len rest < len s)%nat) ∧
  (∀ d l s v rest, parse_elements f d l s = Some (v, rest) → (len rest < len s)%nat) ∧
  (∀ d l s v rest, parse_members f d l s = Some (v, rest) → (len rest < len s)%nat).
Proof.
  induction f as [|f (IHv & IHe & IHm)]; [done|]. split_and!.
  - intros d [|c r] v rest; cbn [parse_value]; [done|].
    pose proof (skip_space_len r). assert (Hlen : len (String c r) = S (len r)) by done.
    destruct (byte_val c =? 34).
    { destruct (string_token InString r) as [[raw rest']|] eqn:E; [|done]. intros <-%rest_of.
      apply string_token_len in E. lia. }
    destruct (byte_val c =? 91).
    { destruct (maxNestingDepth <=? d); [done|]. destruct (head_is 93 (skip_space r)) eqn:Hh.
      - intros <-%rest_of. apply head_drop in Hh. lia.
      - intros E%IHe. lia. }
    destruct (byte_val c =? 123).
    { destruct (maxNestingDepth <=? d); [done|]. destruct (head_is 125 (skip_space r)) eqn:Hh.
      - intros <-%rest_of. apply head_drop in Hh. lia.
      - intros E%IHm. lia. }
    destruct (byte_val c =? 116); [by apply word_len|]. destruct (byte_val c =? 102); [by apply word_len|].
    destruct (byte_val c =? 110); [by apply word_len|].
    destruct (scan_step _ _ _) as [[[state st] b]|]; [|done]. destruct (in_number state); [|done].
    destruct (number_token state r) as [[lit rest']|] eqn:E; [|done]. intros <-%rest_of.
    apply number_token_len in E. lia.
  - intros d l s v rest; cbn [parse_elements]. destruct (parse_value f d s) as [[x r1]|] eqn:E; [|done].
    apply IHv in E. cbn [mbind option_bind]. pose proof (skip_space_len r1).
    destruct (head_is 93 _) eqn:Hh; [intros <-%rest_of; apply head_drop in Hh; lia|].
    destruct (head_is 44 _) eqn:Hc; [|done]. intros E2%IHe. apply after_len in Hc. lia.
  - intros d l s v rest; cbn [parse_members]. destruct (head_is 34 s) eqn:Hq; [|done]. apply head_drop in Hq.
    destruct (string_token InString _) as [[raw r1]|] eqn:E; [|done]. apply string_token_len in E.
    cbn [mbind option_bind]. pose proof (skip_space_len r1). destruct (head_is 58 _) eqn:Hc; [|done]. apply after_len in Hc.
    destruct (parse_value f d _) as [[x r2]|] eqn:E2; [|done]. apply IHv in E2. cbn [mbind option_bind].
    pose proof (skip_space_len r2). destruct (head_is 125 _) eqn:Hh; [intros <-%rest_of; apply head_drop in Hh; lia|].
    destruct (head_is 44 _) eqn:Hc2; [|done]. intros E3%IHm. apply after_len in Hc2. lia.
Qed.

(** More fuel than twice the length changes nothing. *)
Lemma parse_enough f : ∀ g, (f <= g)%nat →
  (∀ d s, (2 * len s + 1 <= f)%nat → parse_value g d s = parse_value f d s) ∧
  (∀ d l s, (2 * len s + 2 <= f)%nat → parse_elements g d l s = parse_elements f d l s) ∧
  (∀ d l s, (2 * len s + 2 <= f)%nat → parse_members g d l s = parse_members f d l s).
Proof.
  induction f as [|f IH]; intros g Hg; [split_and!; intros; lia|]. destruct g as [|g]; [lia|].
  destruct (IH g ltac:(lia)) as (IHv & IHe & IHm). pose proof (parse_shrinks f) as (Sv & _ & _). split_and!.
  - intros d [|c r] Hf; cbn [parse_value]; [done|]. pose proof (skip_space_len r). simpl in Hf.
    rewrite IHe, IHm by lia. done.
  - intros d l s Hf; cbn [parse_elements]. rewrite IHv by lia.
    destruct (parse_value f d s) as [[x r1]|] eqn:E; [|done]. apply Sv in E. cbn [mbind option_bind].
    pose proof (skip_space_len r1). destruct (head_is 93 _); [done|]. destruct (head_is 44 _) eqn:Hc; [|done].
    apply after_len in Hc. rewrite IHe by lia. done.
  - intros d l s Hf; cbn [parse_members]. destruct (head_is 34 s) eqn:Hq; [|done]. apply head_drop in Hq.
    destruct (string_token InString _) as [[raw r1]|] eqn:E; [|done]. apply string_token_len in E.
    cbn [mbind option_bind]. pose proof (skip_space_len r1). destruct (head_is 58 _) eqn:Hc; [|done]. apply after_len in Hc.
    rewrite IHv by lia. destruct (parse_value f d _) as [[x r2]|] eqn:E2; [|done]. apply Sv in E2. cbn [mbind option_bind].
    pose proof (skip_space_len r2). destruct (head_is 125 _); [done|]. destruct (head_is 44 _) eqn:Hc2; [|done].
    apply after_len in Hc2. rewrite IHm by lia. done.
Qed.

Lemma Decode_fuel text fuel :
  (S (2 * len text) <= fuel)%nat → fst <$> parse_value fuel 0 (skip_space text) = Decode text.
Proof.
  intros Hf. unfold Decode. f_equal. pose proof (skip_space_len text).
  apply (parse_enough (S (2 * len text)) fuel Hf). lia.
Qed.

Example decode_examples :
  (Decode <$> ["[1, [], -0.5e3 ] "; "1x"; "[01]"; "[1,]"; " {} "; "nul"]) =
  [Some (VArray [VNumber "1"; VArray []; VNumber "-0.5e3"]); Some (VNumber "1"); None; None; Some (VObject []); None].
Proof. by vm_compute. Qed.
