(* ===== verification/JsonRound.v ===== *)
(** * JsonRound: what json.Marshal writes is what json.Decoder reads

    Three round trips over the definitions of Json.v and JsonDecode.v: a quoted string is read
    back as its text with bytes that are not UTF-8 replaced ([holds_quoted]), the compaction of
    a raw message does not change the value it holds ([decode_compact]), and an object of such
    parts is read back member by member ([holds_object]).  What is written is UTF-8 when the raw
    messages are ([quoted_utf8], [compact_utf8]).

    The compaction is followed through the scanner: [reads] goes from one place in a text to a
    later one, and [reparsed] says of a parser that what it reads is written again so that it
    reads the same value. *)

From S2P Require Import Prelude GoString Json JsonDecode.

#[local] Arguments String.append !_ _ /.

(** ** The inside of a string *)

(** The text with every byte that is not UTF-8 replaced, as [strings.ToValidUTF8] and [range] do. *)
Fixpoint coerced_from (skip : nat) (s : string) : string :=
  match s with
  | EmptyString => EmptyString
  | String c r =>
      match skip with
      | S n => coerced_from n r
      | O => let '(rune, w) := decode_rune s in encode_rune rune +:+ coerced_from (w - 1) r
      end
  end.

Definition coerced (s : string) : string := coerced_from 0 s.

(** The compaction of what is between the quotes. *)
Fixpoint craw (skip : nat) (s : string) : string :=
  match s with
  | EmptyString => EmptyString
  | String c r =>
      match skip with
      | S n => craw n r
      | O =>
          let v := byte_val c in
          if (v =? 60) || (v =? 62) || (v =? 38) then escape_u v +:+ craw 0 r
          else
            let b i := match String.get i r with Some d => byte_val d | None => -1 end in
            if (v =? 226) && (b 0%nat =? 128) && ((b 1%nat =? 168) || (b 1%nat =? 169))
            then escape_u (8064 + b 1%nat) +:+ craw 2 r
            else String c (craw 0 r)
      end
  end.

(** Complete escapes: the scanner goes through and is back in the string. *)
Definition inside (raw : string) : Prop := scan InString [] raw = Some (InString, []).

Definition in_string (s : scan_state) : bool :=
  match s with InString | InStringEsc | InStringEscU _ => true | _ => false end.

Lemma byte_val_inj c d : byte_val c = byte_val d → c = d.
Proof. unfold byte_val. intros H%Nat2Z.inj. rewrite <- (Ascii.ascii_nat_embedding c), H. apply Ascii.ascii_nat_embedding. Qed.

Lemma byte_of_byte_val c : byte_of (byte_val c) = c.
Proof. unfold byte_of, byte_val. rewrite Nat2Z.id. apply Ascii.ascii_nat_embedding. Qed.

(** The states of a string do not look at the stack. *)
Lemma in_string_stack s st v : in_string s = true →
  scan_step s st v = match scan_step s [] v with Some (s', _, b) => Some (s', st, b) | None => None end.
Proof. destruct s; try done; intros _; simpl; by repeat case_match. Qed.

Lemma in_string_step s v s' st b : in_string s = true → scan_step s [] v = Some (s', st, b) →
  st = [] ∧ b = false ∧ (in_string s' = true ∨ s = InString ∧ v = 34 ∧ s' = EndValue).
Proof.
  destruct s; try done; intros _; simpl; repeat case_match; try done; intros [= <- <- <-]; split_and!; auto.
  right. split_and!; auto. by apply Z.eqb_eq.
Qed.

(** Blank space after the end never leads back into a string. *)
Lemma ended_scan text : ∀ s st s', s = EndValue ∨ s = EndTop → scan s [] text = Some (s', st) → in_string s' = false.
Proof.
  induction text as [|c text IH]; intros s st s' Hs; [intros [= <- _]; by destruct Hs as [->| ->]|].
  destruct Hs as [->| ->]; simpl; unfold stateEndTop; destruct (is_space (byte_val c)); try done; apply IH; auto.
Qed.

Lemma token_scan : ∀ s state raw rest, in_string state = true → string_token state s = Some (raw, rest) →
  s = raw +:+ String quote_char rest ∧ scan state [] raw = Some (InString, []).
Proof.
  induction s as [|c s IH]; intros state raw rest Hst; simpl; [done|].
  destruct (scan_step state [] (byte_val c)) as [[[next st] b]|] eqn:E; [|done].
  destruct (in_string_step _ _ _ _ _ Hst E) as (-> & -> & [Hn|(-> & Hv & ->)]).
  - assert (Hgo : (string_token next s ≫= λ '(raw, rest), Some (String c raw, rest)) = Some (raw, rest) →
      String c s = raw +:+ String quote_char rest ∧ scan state [] raw = Some (InString, [])).
    { destruct (string_token next s) as [[raw' rest']|] eqn:Et; [|done]. simpl. intros [= <- <-].
      destruct (IH _ _ _ Hn Et) as [-> Hscan]. split; [done|]. simpl. by rewrite E. }
    destruct next; try done; exact Hgo.
  - intros [= <- <-]. split; [|done]. simpl. f_equal. by apply byte_val_inj.
Qed.

Lemma token_of_scan : ∀ a state rest, in_string state = true → scan state [] a = Some (InString, []) →
  string_token state (a +:+ String quote_char rest) = Some (a, rest).
Proof.
  induction a as [|c a IH]; intros state rest Hst; simpl.
  { intros [= ->]. done. }
  destruct (scan_step state [] (byte_val c)) as [[[next st] b]|] eqn:E; [|done].
  destruct (in_string_step _ _ _ _ _ Hst E) as (-> & -> & [Hn|(-> & Hv & ->)]).
  - intros Hscan. rewrite (IH _ _ Hn Hscan). by destruct next.
  - intros Hscan%ended_scan; [done|auto].
Qed.

(** ** Runes and their context *)

Definition is_cont (b : Z) : bool := (128 <=? b) && (b <=? 191).
#[local] Arguments is_cont : simpl never.

(** The continuation byte at a place, if all before it are continuation bytes too. *)
Fixpoint nth_cont (i : nat) (s : string) {struct s} : Z :=
  match s with
  | EmptyString => -1
  | String c r =>
      if is_cont (byte_val c) then match i with O => byte_val c | S j => nth_cont j r end else -1
  end.

Definition decode_conts (b0 b1 b2 b3 : Z) : Z * nat :=
  if b0 <? 128 then (b0, 1%nat)
  else if cont 194 223 b0 then
    if cont 128 191 b1 then (Z.lor (Z.shiftl (Z.land b0 31) 6) (Z.land b1 63), 2%nat) else (RuneError, 1%nat)
  else if cont 224 239 b0 then
    let lo := if b0 =? 224 then 160 else 128 in
    let hi := if b0 =? 237 then 159 else 191 in
    if cont lo hi b1 && cont 128 191 b2 then
      (Z.lor (Z.lor (Z.shiftl (Z.land b0 15) 12) (Z.shiftl (Z.land b1 63) 6)) (Z.land b2 63), 3%nat)
    else (RuneError, 1%nat)
  else if cont 240 244 b0 then
    let lo := if b0 =? 240 then 144 else 128 in
    let hi := if b0 =? 244 then 143 else 191 in
    if cont lo hi b1 && cont 128 191 b2 && cont 128 191 b3 then
      (Z.lor (Z.lor (Z.shiftl (Z.land b0 7) 18) (Z.shiftl (Z.land b1 63) 12))
             (Z.lor (Z.shiftl (Z.land b2 63) 6) (Z.land b3 63)), 4%nat)
    else (RuneError, 1%nat)
  else (RuneError, 1%nat).

Lemma cont_not lo hi b : 128 <= lo → hi <= 191 → is_cont b = false → cont lo hi b = false.
Proof. unfold is_cont, cont. rewrite !andb_false_iff, !Z.leb_gt. lia. Qed.

(** A rune is decided by its first byte and the continuation bytes that follow it. *)
Lemma decode_by_conts c r :
  decode_rune (String c r) = decode_conts (byte_val c) (nth_cont 0 r) (nth_cont 1 r) (nth_cont 2 r).
Proof.
  unfold decode_rune, decode_conts.
  assert (Hno : ∀ lo hi, 128 <= lo → hi <= 191 → cont lo hi (-1) = false) by (intros; by apply cont_not).
  assert (Hcase : ∀ lo hi b, 128 <= lo → hi <= 191 → cont lo hi b = true → is_cont b = true).
  { intros lo hi b Hlo Hhi Hc. destruct (is_cont b) eqn:E; [done|]. by rewrite (cont_not lo hi b) in Hc. }
  set (lo3 := if byte_val c =? 224 then 160 else 128). set (hi3 := if byte_val c =? 237 then 159 else 191).
  set (lo4 := if byte_val c =? 240 then 144 else 128). set (hi4 := if byte_val c =? 244 then 143 else 191).
  assert (H3 : 128 <= lo3 ∧ hi3 <= 191) by (unfold lo3, hi3; repeat case_match; lia).
  assert (H4 : 128 <= lo4 ∧ hi4 <= 191) by (unfold lo4, hi4; repeat case_match; lia).
  destruct r as [|c1 r]; simpl nth_cont; simpl String.get; cbn [is_cont].
  { by rewrite !Hno by lia. }
  destruct (is_cont (byte_val c1)) eqn:E1.
  2: { by rewrite !(cont_not _ _ (byte_val c1)), !Hno by (done || lia). }
  destruct r as [|c2 r]; simpl nth_cont; simpl String.get.
  { by rewrite !Hno, !andb_false_r by lia. }
  destruct (is_cont (byte_val c2)) eqn:E2.
  2: { by rewrite !(cont_not _ _ (byte_val c2)), !Hno, !andb_false_r by (done || lia). }
  destruct r as [|c3 r]; simpl nth_cont; simpl String.get; [by rewrite !Hno, !andb_false_r by lia|].
  destruct (is_cont (byte_val c3)) eqn:E3; [done|]. by rewrite !(cont_not _ _ (byte_val c3)), !Hno, !andb_false_r by (done || lia).
Qed.

(** Other characters keep the continuation bytes. *)
Lemma craw_cont c r : is_cont (byte_val c) = true → craw 0 (String c r) = String c (craw 0 r).
Proof.
  unfold is_cont. rewrite andb_true_iff, !Z.leb_le. intros H. cbn [craw].
  rewrite (proj2 (Z.eqb_neq (byte_val c) 60)), (proj2 (Z.eqb_neq (byte_val c) 62)), (proj2 (Z.eqb_neq (byte_val c) 38)),
    (proj2 (Z.eqb_neq (byte_val c) 226)) by lia. done.
Qed.

Lemma craw_head c r : is_cont (byte_val c) = false →
  ∃ d r', craw 0 (String c r) = String d r' ∧ is_cont (byte_val d) = false.
Proof.
  intros Hc. cbn [craw]. destruct (_ || _); [by eexists _, _|].
  destruct (_ && _); [by eexists _, _|]. by eexists _, _.
Qed.

Lemma nth_cont_craw r : ∀ i, nth_cont i (craw 0 r) = nth_cont i r.
Proof.
  induction r as [|c r IH]; intros i; [done|]. destruct (is_cont (byte_val c)) eqn:Hc.
  - rewrite craw_cont by done. cbn [nth_cont]. rewrite Hc. destruct i; [done|]. apply IH.
  - destruct (craw_head c r Hc) as (d & r' & -> & Hd). cbn [nth_cont]. by rewrite Hc, Hd.
Qed.

Lemma decode_rune_craw c r : decode_rune (String c (craw 0 r)) = decode_rune (String c r).
Proof. by rewrite !decode_by_conts, !nth_cont_craw. Qed.

(** The width of a rune counts continuation bytes. *)
Fixpoint conts (n : nat) (s : string) : Prop :=
  match n, s with
  | O, _ => True
  | S n', String c r => is_cont (byte_val c) = true ∧ conts n' r
  | S _, EmptyString => False
  end.

Lemma conts_of n : ∀ s, (∀ i, (i < n)%nat → is_cont (nth_cont i s) = true) → conts n s.
Proof.
  induction n as [|n IH]; intros [|c s] H; simpl; [done..| |].
  - specialize (H 0%nat ltac:(lia)). by simpl in H.
  - pose proof (H 0%nat ltac:(lia)) as H0. simpl in H0. destruct (is_cont (byte_val c)) eqn:Hc; [|done].
    split; [done|]. apply IH. intros i Hi. specialize (H (S i) ltac:(lia)). simpl in H. by rewrite Hc in H.
Qed.

Lemma cont_is lo hi b : 128 <= lo → hi <= 191 → cont lo hi b = true → is_cont b = true.
Proof. intros Hlo Hhi Hc. destruct (is_cont b) eqn:E; [done|]. by rewrite (cont_not lo hi b) in Hc. Qed.

Lemma decode_conts_width b0 b1 b2 b3 rune w : decode_conts b0 b1 b2 b3 = (rune, w) →
  (1 <= w)%nat ∧ (w <= 4)%nat ∧ (2 <= w → is_cont b1 = true)%nat ∧ (3 <= w → is_cont b2 = true)%nat ∧ (4 <= w → is_cont b3 = true)%nat.
Proof.
  unfold decode_conts. assert (H1 : 128 <= (if b0 =? 224 then 160 else 128)) by (destruct (b0 =? 224); lia).
  assert (H2 : (if b0 =? 237 then 159 else 191) <= 191) by (destruct (b0 =? 237); lia).
  assert (H3 : 128 <= (if b0 =? 240 then 144 else 128)) by (destruct (b0 =? 240); lia).
  assert (H4 : (if b0 =? 244 then 143 else 191) <= 191) by (destruct (b0 =? 244); lia).
  destruct (b0 <? 128); [intros [= <- <-]; split_and!; lia|].
  destruct (cont 194 223 b0).
  { destruct (cont 128 191 b1) eqn:E; intros [= <- <-]; split_and!; try (intros; lia). intros _. eapply cont_is; [| |eassumption]; lia. }
  destruct (cont 224 239 b0).
  { destruct (cont _ _ b1 && _) eqn:E; intros [= <- <-]; split_and!; try (intros; lia);
      apply andb_true_iff in E as [E1 E2]; intros _; (eapply cont_is; [| |eassumption]; lia). }
  destruct (cont 240 244 b0); [|intros [= <- <-]; split_and!; intros; lia].
  destruct (cont _ _ b1 && _ && _) eqn:E; intros [= <- <-]; split_and!; try (intros; lia);
    apply andb_true_iff in E as [[E1 E2]%andb_true_iff E3]; intros _; (eapply cont_is; [| |eassumption]; lia).
Qed.

Lemma decode_width c r rune w : decode_rune (String c r) = (rune, w) → (1 <= w)%nat ∧ conts (w - 1) r.
Proof.
  rewrite decode_by_conts. intros (H1 & H4 & Hc1 & Hc2 & Hc3)%decode_conts_width. split; [done|].
  apply conts_of. intros i Hi. assert (i = 0 ∨ i = 1 ∨ i = 2)%nat as [->|[->| ->]] by lia; auto with lia.
Qed.

(** Past the rune's bytes both sides agree. *)
Lemma unquote_conts n : ∀ r, conts n r → unquote_from n (craw 0 r) = unquote_from 0 (craw 0 (drop_bytes n r)) ∧
  unquote_from n r = unquote_from 0 (drop_bytes n r).
Proof.
  induction n as [|n IH]; intros [|c r]; simpl drop_bytes; [done..|]. intros [Hc Hn].
  rewrite craw_cont by done. by apply IH.
Qed.

Lemma inside_cons c r : inside (String c r) ↔
  match scan_step InString [] (byte_val c) with Some (s', st', _) => scan s' st' r = Some (InString, []) | None => False end.
Proof. unfold inside. cbn [scan]. destruct (scan_step InString [] (byte_val c)) as [[[s' st'] b]|]; naive_solver. Qed.

Lemma inside_high n : ∀ r, conts n r → inside r → inside (drop_bytes n r).
Proof.
  induction n as [|n IH]; intros [|c r]; simpl drop_bytes; [done..|]. intros [Hc Hn] Hin.
  apply IH; [done|]. unfold is_cont in Hc. apply andb_true_iff in Hc as [Hc1 Hc2]. apply Z.leb_le in Hc1, Hc2.
  unfold inside in *. by rewrite scan_high in Hin by lia.
Qed.

(** A \u escape in front of a text: what [unquote] makes of it, unless it starts a pair. *)
Lemma getu4_escape z r : z = 60 ∨ z = 62 ∨ z = 38 ∨ z = 8232 ∨ z = 8233 → getu4 (escape_u z +:+ r) = Some z.
Proof. intros [->|[->|[->|[->| ->]]]]; by vm_compute. Qed.

Lemma unquote_hex h3 h2 h1 h0 z r :
  getu4 (String backslash (String "u" (String h3 (String h2 (String h1 (String h0 r)))))) = Some z →
  unquote_from 0 (String backslash (String "u" (String h3 (String h2 (String h1 (String h0 r)))))) =
    if is_surrogate z then
      let dec := decode_surrogates z (default (-1) (getu4 r)) in
      if dec =? RuneError then encode_rune RuneError +:+ unquote_from 0 r else encode_rune dec +:+ unquote_from 6 r
    else encode_rune z +:+ unquote_from 0 r.
Proof.
  intros Hg. cbn [unquote_from]. change (byte_val backslash =? 92) with true. cbv iota. rewrite Hg.
  cbn [drop_bytes]. by destruct r.
Qed.

Lemma unquote_escape_u z r : is_surrogate z = false → getu4 (escape_u z +:+ r) = Some z →
  unquote_from 0 (escape_u z +:+ r) = encode_rune z +:+ unquote_from 0 r.
Proof.
  intros Hs Hg. change (escape_u z +:+ r) with (String backslash (String "u" (String (hex_digit (z / 4096))
    (String (hex_digit (z / 256 mod 16)) (String (hex_digit (z / 16 mod 16)) (String (hex_digit (z mod 16)) r)))))) in *.
  rewrite (unquote_hex _ _ _ _ z) by exact Hg. by rewrite Hs.
Qed.

(** What the scanner demands after a backslash. *)
Lemma inside_escape r : inside (String backslash r) →
  (∃ d r', r = String d r' ∧ byte_val d ≠ 117 ∧ byte_val d ∈ [98; 102; 110; 114; 116; 92; 47; 34] ∧ inside r') ∨
  (∃ h3 h2 h1 h0 r', r = String "u" (String h3 (String h2 (String h1 (String h0 r')))) ∧
     is_hex (byte_val h3) = true ∧ is_hex (byte_val h2) = true ∧ is_hex (byte_val h1) = true ∧
     is_hex (byte_val h0) = true ∧ inside r').
Proof.
  rewrite inside_cons. change (scan_step InString [] (byte_val backslash)) with (Some (InStringEsc, @nil parse_state, false)).
  destruct r as [|d r]; [done|]. cbn [scan].
  destruct (Z.eqb_spec (byte_val d) 117) as [Hu|Hu].
  - assert (d = "u"%char) as -> by by apply byte_val_inj.
    change (scan_step InStringEsc [] (byte_val "u")) with (Some (InStringEscU 3, @nil parse_state, false)).
    intros Hs. right. destruct r as [|h3 r]; [done|]. cbn [scan scan_step] in Hs.
    destruct (is_hex (byte_val h3)) eqn:E3; [|done]. destruct r as [|h2 r]; [done|]. cbn [scan scan_step] in Hs.
    destruct (is_hex (byte_val h2)) eqn:E2; [|done]. destruct r as [|h1 r]; [done|]. cbn [scan scan_step] in Hs.
    destruct (is_hex (byte_val h1)) eqn:E1; [|done]. destruct r as [|h0 r]; [done|]. cbn [scan scan_step] in Hs.
    destruct (is_hex (byte_val h0)) eqn:E0; [|done]. by exists h3, h2, h1, h0, r.
  - left. exists d, r. split; [done|]. split; [done|]. revert H. cbn [scan_step].
    rewrite (proj2 (Z.eqb_neq _ _) Hu). destruct (_ || _) eqn:E; [|done]. intros Hs. split; [|done].
    rewrite !orb_true_iff, !Z.eqb_eq in E. rewrite !elem_of_cons. tauto.
Qed.

Lemma hex_copied c r : is_hex (byte_val c) = true → craw 0 (String c r) = String c (craw 0 r).
Proof.
  intros Hh. cbn [craw]. assert (H : byte_val c ≠ 60 ∧ byte_val c ≠ 62 ∧ byte_val c ≠ 38 ∧ byte_val c ≠ 226)
    by (repeat split; intros Hv; rewrite Hv in Hh; done).
  destruct H as (H1 & H2 & H3 & H4). apply Z.eqb_neq in H1, H2, H3, H4. by rewrite H1, H2, H3, H4.
Qed.

Lemma plain_copied c r : byte_val c ≠ 60 → byte_val c ≠ 62 → byte_val c ≠ 38 → byte_val c ≠ 226 →
  craw 0 (String c r) = String c (craw 0 r).
Proof. intros H1 H2 H3 H4. cbn [craw]. apply Z.eqb_neq in H1, H2, H3, H4. by rewrite H1, H2, H3, H4. Qed.

Lemma getu4_plain c r : byte_val c ≠ 92 → getu4 (String c r) = None.
Proof.
  intros Hc. apply Z.eqb_neq in Hc. unfold getu4. destruct r as [|d [|h3 [|h2 [|h1 [|h0 r]]]]]; try done. by rewrite Hc.
Qed.

Lemma getu4_hex h3 h2 h1 h0 : is_hex (byte_val h3) = true → is_hex (byte_val h2) = true →
  is_hex (byte_val h1) = true → is_hex (byte_val h0) = true →
  ∃ z, 0 <= z < 65536 ∧ ∀ r', getu4 (String backslash (String "u" (String h3 (String h2 (String h1 (String h0 r')))))) = Some z.
Proof.
  intros H3 H2 H1 H0. assert (Hr : ∀ h, is_hex (byte_val h) = true → 0 <= hex_val (byte_val h) < 16).
  { intros h. unfold is_hex, hex_val, is_digit. rewrite !orb_true_iff, !andb_true_iff, !Z.leb_le.
    intros Hh. destruct (_ && _) eqn:Hd; [apply andb_true_iff in Hd as [?%Z.leb_le ?%Z.leb_le]; lia|].
    apply andb_false_iff in Hd. rewrite !Z.leb_gt in Hd. destruct (Z.leb_spec (byte_val h) 70); lia. }
  apply Hr in H3 as R3, H2 as R2, H1 as R1, H0 as R0.
  exists (((hex_val (byte_val h3) * 16 + hex_val (byte_val h2)) * 16 + hex_val (byte_val h1)) * 16 + hex_val (byte_val h0)).
  split; [lia|]. intros r'. unfold getu4. rewrite H3, H2, H1, H0. done.
Qed.

Definition html (z : Z) : Prop := z = 60 ∨ z = 62 ∨ z = 38 ∨ z = 8232 ∨ z = 8233.

(** The compaction of the next character: copied, or a character that becomes an escape. *)
Lemma craw_cases c r :
  (craw 0 (String c r) = String c (craw 0 r)) ∨
  (∃ z, html z ∧ byte_val c < 128 ∧ byte_val c = z ∧ craw 0 (String c r) = escape_u z +:+ craw 0 r) ∨
  (∃ d e r', r = String d (String e r') ∧ byte_val c = 226 ∧ byte_val d = 128 ∧ (byte_val e = 168 ∨ byte_val e = 169) ∧
     craw 0 (String c r) = escape_u (8064 + byte_val e) +:+ craw 0 r').
Proof.
  cbn [craw]. destruct (_ || _) eqn:E.
  { right. left. rewrite !orb_true_iff, !Z.eqb_eq in E. exists (byte_val c). unfold html. split_and!; try done; lia. }
  destruct (_ && _) eqn:E2; [|by left]. right. right.
  rewrite !andb_true_iff, orb_true_iff in E2. destruct E2 as [[Hc Hd] He]. apply Z.eqb_eq in Hc, Hd.
  destruct r as [|d [|e r]]; simpl in *; [done|by destruct He|]. exists d, e, r. split_and!; try done.
  destruct He as [He|He]; apply Z.eqb_eq in He; auto.
Qed.

(** The second half of a surrogate pair is seen, and nothing else becomes one. *)
Lemma getu4_craw r : inside r →
  (∃ z h3 h2 h1 h0 r', let s r := String backslash (String "u" (String h3 (String h2 (String h1 (String h0 r))))) in
     r = s r' ∧ craw 0 r = s (craw 0 r') ∧ inside r' ∧ ∀ t, getu4 (s t) = Some z) ∨
  (getu4 r = None ∧ (getu4 (craw 0 r) = None ∨ ∃ z, html z ∧ getu4 (craw 0 r) = Some z)).
Proof.
  destruct r as [|c r]; intros Hin; [by right; split; [|left]|].
  destruct (Z.eqb_spec (byte_val c) 92) as [Hc|Hc].
  - assert (c = backslash) as -> by by apply byte_val_inj.
    destruct (inside_escape r Hin) as [(d & r' & -> & Hu & _ & _)|(h3 & h2 & h1 & h0 & r' & -> & H3 & H2 & H1 & H0 & Hin')].
    + right. assert (Hno : ∀ t, getu4 (String backslash (String d t)) = None).
      { intros t. unfold getu4. destruct t as [|a [|b [|e [|f t]]]]; try done.
        apply Z.eqb_neq in Hu. by rewrite Hu, andb_false_r. }
      rewrite Hno. split; [done|]. rewrite plain_copied by done.
      destruct (craw_cases d r') as [->|[(z & Hz & _ & _ & ->)|(x & y & r1 & _ & _ & _ & _ & ->)]]; left; [apply Hno|..].
      * unfold getu4. simpl. by destruct (craw 0 r').
      * unfold getu4. simpl. by destruct (craw 0 r1).
    + left. destruct (getu4_hex h3 h2 h1 h0 H3 H2 H1 H0) as (z & _ & Hz).
      exists z, h3, h2, h1, h0, r'. split_and!; [done| |done|done].
      rewrite plain_copied by done. f_equal. rewrite plain_copied by done. f_equal. by rewrite !hex_copied by done.
  - right. split; [by apply getu4_plain|].
    destruct (craw_cases c r) as [->|[(z & Hz & _ & _ & ->)|(x & y & r1 & _ & _ & _ & Hy & ->)]].
    + left. by apply getu4_plain.
    + right. exists z. split; [done|by apply getu4_escape].
    + right. exists (8064 + byte_val y). split; [unfold html; lia|]. apply getu4_escape. lia.
Qed.


(** ** The compaction of a string reads back as the string *)

Lemma inside_plain c r : byte_val c ≠ 92 → inside (String c r) ↔ 32 <= byte_val c ∧ byte_val c ≠ 34 ∧ inside r.
Proof.
  intros Hb. rewrite inside_cons. cbn [scan_step]. destruct (Z.eqb_spec (byte_val c) 34) as [Hq|Hq].
  { split; [|naive_solver]. intros Hs%ended_scan; [done|auto]. }
  rewrite (proj2 (Z.eqb_neq _ _) Hb). destruct (Z.ltb_spec (byte_val c) 32); [split; [done|lia]|].
  split; [intros Hs; split_and!; done|by intros (_ & _ & Hs)].
Qed.

Lemma inside_escape_u z r : html z → inside (escape_u z +:+ r) ↔ inside r.
Proof. intros [->|[->|[->|[->| ->]]]]; done. Qed.

Lemma html_not_low z : html z → ∀ z1, decode_surrogates z1 z = RuneError.
Proof.
  intros Hz z1. unfold decode_surrogates. assert (Hl : z < 56320) by (unfold html in Hz; lia).
  by rewrite (proj2 (Z.leb_gt _ _) Hl), !andb_false_r.
Qed.

Lemma html_escape z r : html z → unquote_from 0 (escape_u z +:+ r) = encode_rune z +:+ unquote_from 0 r.
Proof.
  intros Hz. apply unquote_escape_u; [|by apply getu4_escape]. by destruct Hz as [->|[->|[->|[->| ->]]]].
Qed.

Lemma unquote_plain c r : byte_val c ≠ 92 → unquote_from 0 (String c r) =
  if byte_val c <? 128 then String c (unquote_from 0 r)
  else let '(rune, w) := decode_rune (String c r) in encode_rune rune +:+ unquote_from (w - 1) r.
Proof. intros Hb. cbn [unquote_from]. by rewrite (proj2 (Z.eqb_neq _ _) Hb). Qed.

Lemma drop_bytes_zero s : drop_bytes 0 s = s.
Proof. by destruct s. Qed.

Lemma unquote_simple d r : byte_val d ≠ 117 → unquote_from 0 (String backslash (String d r)) =
  String (byte_of (default 0 (escaped (byte_val d)))) (unquote_from 0 r).
Proof.
  intros Hd. cbn [unquote_from]. change (byte_val backslash =? 92) with true. cbv iota.
  assert (getu4 (String backslash (String d r)) = None) as ->; [|done].
  unfold getu4. apply Z.eqb_neq in Hd. destruct r as [|a [|b [|e [|f t]]]]; try done. by rewrite Hd, andb_false_r.
Qed.

Local Abbreviation size := String.length.

(** A simple escape, or a \u escape with the one that may complete it. *)
Lemma unquote_craw_escape r :
  (∀ r', (size r' < size r)%nat → inside r' → unquote_from 0 (craw 0 r') = unquote_from 0 r' ∧ inside (craw 0 r')) →
  inside (String backslash r) →
  unquote_from 0 (craw 0 (String backslash r)) = unquote_from 0 (String backslash r) ∧
    inside (craw 0 (String backslash r)).
Proof.
  intros IH Hin. rewrite (plain_copied backslash) by done.
  destruct (inside_escape r Hin) as [(d & r' & -> & Hu & Hd & Hin')|(h3 & h2 & h1 & h0 & r' & -> & H3 & H2 & H1 & H0 & Hin')].
  - destruct (IH r' ltac:(simpl; lia) Hin') as [Hun Hok].
    assert (Hcopy : craw 0 (String d r') = String d (craw 0 r')).
    { apply plain_copied; intros Hv; rewrite Hv in Hd; by apply (bool_decide_pack _) in Hd. }
    rewrite Hcopy, !unquote_simple, Hun by done. split; [done|].
    rewrite inside_cons in Hin |- *. change (scan_step InString [] (byte_val backslash)) with (Some (InStringEsc, @nil parse_state, false)) in *.
    cbn [scan scan_step] in *. rewrite (proj2 (Z.eqb_neq _ _) Hu) in *. by destruct (_ || _).
  - destruct (IH r' ltac:(simpl; lia) Hin') as [Hun Hok].
    assert (Hcopy : craw 0 (String "u" (String h3 (String h2 (String h1 (String h0 r'))))) =
      String "u" (String h3 (String h2 (String h1 (String h0 (craw 0 r')))))).
    { rewrite plain_copied by done. f_equal. by rewrite !hex_copied by done. }
    rewrite Hcopy. destruct (getu4_hex h3 h2 h1 h0 H3 H2 H1 H0) as (z & _ & Hz).
    rewrite !(unquote_hex h3 h2 h1 h0 z), Hun by apply Hz. split.
    2: { rewrite inside_cons. cbn [scan scan_step]. change (scan_step InString [] (byte_val backslash)) with (Some (InStringEsc, @nil parse_state, false)).
         cbn [scan scan_step]. change (byte_val "u" =? 117) with true. simpl. rewrite H3. simpl. rewrite H2. simpl. rewrite H1. simpl. by rewrite H0. }
    destruct (is_surrogate z); [|done].
    destruct (getu4_craw r' Hin') as [(z2 & g3 & g2 & g1 & g0 & r2 & -> & -> & Hin2 & Hz2)|[-> Hnone]].
    + rewrite !Hz2. cbn [from_option id]. destruct (_ =? RuneError); [done|]. simpl unquote_from.
      destruct (IH r2 ltac:(simpl; lia) Hin2) as [-> _]. done.
    + assert (∀ z', z' = -1 ∨ html z' → decode_surrogates z z' = RuneError) as Herr.
      { intros z' [->|Hh]; [|by apply html_not_low]. unfold decode_surrogates. by rewrite !andb_false_r. }
      cbn [from_option id]. rewrite (Herr (-1)) by auto.
      destruct Hnone as [->|(z' & Hh & ->)]; cbn [from_option id]; [rewrite (Herr (-1)) by auto|rewrite (Herr z') by auto]; done.
Qed.

Lemma inside_conts n r : conts n r → inside (craw 0 (drop_bytes n r)) → inside (craw 0 r).
Proof.
  revert r. induction n as [|n IH]; intros [|c r]; [done..|]. intros [Hc Hn]. simpl drop_bytes. intros Hin.
  rewrite craw_cont by done. unfold is_cont in Hc. apply andb_true_iff in Hc as [Hc1%Z.leb_le Hc2%Z.leb_le].
  apply inside_plain; [lia|]. split_and!; [lia..|]. by apply IH.
Qed.

Lemma unquote_craw_plain c r : byte_val c ≠ 92 → craw 0 (String c r) = String c (craw 0 r) →
  (∀ r', (size r' <= size r)%nat → inside r' → unquote_from 0 (craw 0 r') = unquote_from 0 r' ∧ inside (craw 0 r')) →
  inside (String c r) →
  unquote_from 0 (craw 0 (String c r)) = unquote_from 0 (String c r) ∧ inside (craw 0 (String c r)).
Proof.
  intros Hb Hcopy IH Hin. rewrite Hcopy, inside_plain, !unquote_plain by done. apply inside_plain in Hin as (H32 & Hq & Hin); [|done].
  destruct (Z.ltb_spec (byte_val c) 128) as [Hc|Hc]; [destruct (IH r) as [-> ?]; [done..|by split_and!]|].
  rewrite decode_rune_craw. destruct (decode_rune (String c r)) as [rune w] eqn:Hd.
  destruct (decode_width c r rune w Hd) as [_ Hconts]. destruct (unquote_conts _ r Hconts) as [-> ->].
  destruct (IH (drop_bytes (w - 1) r)) as [-> Hok]; [by apply drop_bytes_len|by apply inside_high|].
  split; [done|]. split_and!; [done..|]. by eapply inside_conts.
Qed.

Lemma unquote_craw_upto n : ∀ raw, (size raw <= n)%nat → inside raw →
  unquote_from 0 (craw 0 raw) = unquote_from 0 raw ∧ inside (craw 0 raw).
Proof.
  induction n as [|n IH]; intros [|c r] Hn Hin; try done; simpl in Hn; [lia|].
  destruct (Z.eqb_spec (byte_val c) 92) as [Hb|Hb].
  { assert (c = backslash) as -> by by apply byte_val_inj. apply unquote_craw_escape; [|done]. intros r' Hr'. apply IH. lia. }
  destruct (craw_cases c r) as [Hcopy|[(z & Hz & Hc & Hv & ->)|(d & e & r' & -> & Hc & Hd & He & ->)]].
  - apply unquote_craw_plain; try done. intros r' Hr'. apply IH. lia.
  - rewrite inside_escape_u, html_escape, unquote_plain by done.
    apply inside_plain in Hin as (_ & _ & Hin); [|done]. destruct (IH r ltac:(lia) Hin) as [-> Hok]. split; [|done].
    assert (c = byte_of z) as -> by by rewrite <- Hv, byte_of_byte_val.
    destruct Hz as [->|[->|[->|Hz]]]; [reflexivity..|lia].
  - assert (Hz : html (8064 + byte_val e)) by (unfold html; lia).
    assert (c = byte_of 226) as -> by by apply byte_val_inj. assert (d = byte_of 128) as -> by by apply byte_val_inj.
    rewrite inside_escape_u, html_escape, unquote_plain by done.
    rewrite !inside_plain in Hin by (done || lia). destruct Hin as (_ & _ & _ & _ & _ & _ & Hin).
    destruct (IH r' ltac:(simpl in Hn; lia) Hin) as [-> Hok]. split; [|done].
    assert (e = byte_of 168 ∨ e = byte_of 169) as [->| ->]; [|done..].
    destruct He as [He|He]; [left|right]; by apply byte_val_inj.
Qed.

Lemma unquote_craw raw : inside raw → unquote (craw 0 raw) = unquote raw ∧ inside (craw 0 raw).
Proof. apply (unquote_craw_upto (size raw)). done. Qed.

(** ** A quoted text reads back as the text *)

Lemma encode_ascii c : byte_val c < 128 → encode_rune (byte_val c) = String c "".
Proof.
  intros Hc. pose proof (byte_val_range c). unfold encode_rune.
  rewrite (proj2 (Z.ltb_ge (byte_val c) 0)), (proj2 (Z.ltb_ge 1114111 (byte_val c))),
    (proj2 (Z.leb_gt 55296 (byte_val c))), (proj2 (Z.ltb_lt (byte_val c) 128)) by lia.
  simpl. by rewrite byte_of_byte_val.
Qed.

Lemma unquote_escape_byte c r : byte_val c < 128 →
  unquote_from 0 (escape_byte c +:+ r) = String c (unquote_from 0 r).
Proof.
  intros H. destruct c as [[] [] [] [] [] [] [] []];
    try (by vm_compute in H); try reflexivity.
  all: match goal with |- context [escape_byte ?c] => let e := eval vm_compute in (escape_byte c) in change (escape_byte c) with e end.
  all: etransitivity; [by apply (unquote_simple _ r)|reflexivity].
Qed.

(** The bytes of a rune past the first are enough to decide it. *)
Lemma decode_conts_prefix b0 b1 b2 b3 b1' b2' b3' rune w : decode_conts b0 b1 b2 b3 = (rune, w) →
  w ≠ 1%nat → b1' = b1 → ((3 <= w)%nat → b2' = b2) → ((4 <= w)%nat → b3' = b3) →
  decode_conts b0 b1' b2' b3' = (rune, w).
Proof.
  unfold decode_conts. intros Hd Hw -> H2 H3.
  destruct (b0 <? 128); [done|]. destruct (cont 194 223 b0); [done|]. destruct (cont 224 239 b0).
  { destruct (cont _ _ b1 && cont 128 191 b2) eqn:E; injection Hd as <- <-; [|done]. by rewrite H2, E by lia. }
  destruct (cont 240 244 b0); [|done].
  destruct (cont _ _ b1 && _ && _) eqn:E; injection Hd as <- <-; [|done]. by rewrite H2, H3, E by lia.
Qed.

Lemma nth_cont_copy n : ∀ s i, conts n s → (i < n)%nat → nth_cont i (escape_from (Copy n) s) = nth_cont i s.
Proof.
  induction n as [|n IH]; intros [|c s] i; simpl; [lia|lia|done|]. intros [Hc Hn] Hi.
  rewrite Hc. destruct i as [|i]; [done|]. apply IH; [done|lia].
Qed.

Lemma decode_rune_copy c s rune w : decode_rune (String c s) = (rune, w) → w ≠ 1%nat →
  decode_rune (String c (escape_from (Copy (w - 1)) s)) = (rune, w).
Proof.
  intros Hd Hw. destruct (decode_width c s rune w Hd) as [H1 Hc]. rewrite decode_by_conts in Hd |- *.
  eapply decode_conts_prefix; [exact Hd|done|..]; intros; apply nth_cont_copy; (done || lia).
Qed.

Lemma unquote_copy n : ∀ s, conts n s →
  unquote_from n (escape_from (Copy n) s) = unquote_from 0 (escape_from (Copy 0) (drop_bytes n s)).
Proof. induction n as [|n IH]; intros [|c s]; simpl drop_bytes; try done. intros [_ Hn]. simpl. by apply IH. Qed.

Lemma escape_drop n : ∀ s, escape_from (Drop n) s = escape_from (Copy 0) (drop_bytes n s).
Proof. induction n as [|n IH]; intros [|c s]; try done. simpl. apply IH. Qed.

Lemma coerced_drop n : ∀ s, coerced_from n s = coerced_from 0 (drop_bytes n s).
Proof. induction n as [|n IH]; intros [|c s]; try done. simpl. apply IH. Qed.

Lemma decode_width_one c r rune : 128 <= byte_val c → decode_rune (String c r) = (rune, 1%nat) → rune = RuneError.
Proof.
  rewrite decode_by_conts. unfold decode_conts. intros Hc. rewrite (proj2 (Z.ltb_ge _ _) Hc).
  repeat case_match; by intros [=].
Qed.

Lemma unquote_escape_upto n : ∀ s, (size s <= n)%nat → unquote_from 0 (escape_from (Copy 0) s) = coerced_from 0 s.
Proof.
  induction n as [|n IH]; intros [|c s] Hn; try done; simpl in Hn; [lia|]. cbn [escape_from coerced_from].
  destruct (Z.ltb_spec (byte_val c) 128) as [Hc|Hc].
  { rewrite unquote_escape_byte, IH, decode_rune_ascii, encode_ascii by (done || lia). done. }
  destruct (decode_rune (String c s)) as [rune w] eqn:Hd. destruct (decode_width c s rune w Hd) as [H1 Hconts].
  assert (Hlen : (size (drop_bytes (w - 1) s) <= n)%nat) by (pose proof (drop_bytes_len (w - 1) s); lia).
  destruct (decide (w = 1%nat)) as [->|Hw].
  { rewrite (decode_width_one c s rune Hc Hd). change (RuneError =? RuneError) with true. cbn [andb Nat.eqb].
    rewrite unquote_escape_u by done. by rewrite IH by lia. }
  rewrite (proj2 (Nat.eqb_neq _ _) Hw), andb_false_r. destruct (_ || _) eqn:E.
  - assert (Hz : html rune) by (unfold html; rewrite orb_true_iff, !Z.eqb_eq in E; lia).
    rewrite html_escape, escape_drop, IH by done. by rewrite (coerced_drop (w - 1)).
  - rewrite unquote_plain by lia. rewrite (proj2 (Z.ltb_ge _ _) Hc), (decode_rune_copy c s rune w) by done.
    by rewrite unquote_copy, IH, (coerced_drop (w - 1)) by done.
Qed.

Lemma unquote_escape s : unquote (escape s) = coerced s.
Proof. by apply (unquote_escape_upto (size s)). Qed.

Lemma inside_escape_text s : inside (escape s).
Proof. unfold inside. rewrite <- (append_nil_r (escape s)). unfold escape. by rewrite scan_escape_from. Qed.

(** Texts of ASCII are their own coercion. *)
Fixpoint is_ascii (s : string) : bool :=
  match s with EmptyString => true | String c r => (byte_val c <? 128) && is_ascii r end.

Lemma coerced_ascii s : is_ascii s = true → coerced s = s.
Proof.
  unfold coerced. induction s as [|c s IH]; [done|]. cbn [is_ascii coerced_from]. rewrite andb_true_iff, Z.ltb_lt. intros [Hc Hs].
  rewrite decode_rune_ascii, encode_ascii by done. change (1 - 1)%nat with 0%nat. by rewrite IH.
Qed.

(** ** Reading on *)

(** From a state the text is well formed to its end. *)
Definition valid_from (s : scan_state) (st : list parse_state) (text : string) : bool :=
  match scan s st text with Some (s', st') => at_end s' st' | None => false end.

(** The compaction goes from one place in a text to a later one, writing [out] on the way. *)
Definition reads (s0 : scan_state) (st0 : list parse_state) (text0 : string)
    (s1 : scan_state) (st1 : list parse_state) (text1 out : string) : Prop :=
  compact_from 0 s0 st0 text0 = out +:+ compact_from 0 s1 st1 text1 ∧
  valid_from s0 st0 text0 = valid_from s1 st1 text1.

Lemma reads_trans s0 st0 t0 s1 st1 t1 s2 st2 t2 a b :
  reads s0 st0 t0 s1 st1 t1 a → reads s1 st1 t1 s2 st2 t2 b → reads s0 st0 t0 s2 st2 t2 (a +:+ b).
Proof. unfold reads. intros [-> ->] [-> ->]. split; [|done]. by rewrite append_assoc. Qed.

Lemma reads_blank s0 st0 t0 s1 st1 t1 s2 st2 t2 b :
  reads s0 st0 t0 s1 st1 t1 "" → reads s1 st1 t1 s2 st2 t2 b → reads s0 st0 t0 s2 st2 t2 b.
Proof. apply reads_trans. Qed.

(** Two states that treat the head of the text alike. *)
Lemma reads_as s s' st text : scan_step s st (match text with String c _ => byte_val c | EmptyString => 32 end) =
    scan_step s' st (match text with String c _ => byte_val c | EmptyString => 32 end) →
  s ≠ EndTop → s' ≠ EndTop → reads s st text s' st text "".
Proof.
  intros Hs H1 H2. unfold reads, valid_from. destruct text as [|c r]; simpl.
  - split; [done|]. unfold at_end. rewrite Hs. by destruct s, s'.
  - by rewrite Hs.
Qed.

Lemma reads_top text : reads EndTop [] text EndValue [] text "".
Proof. by destruct text. Qed.

(** Bytes the compaction never escapes. *)
Definition copied (v : Z) : Prop := v ≠ 60 ∧ v ≠ 62 ∧ v ≠ 38 ∧ v ≠ 226.

Lemma reads_step s st c r s' st' : copied (byte_val c) → scan_step s st (byte_val c) = Some (s', st', false) →
  reads s st (String c r) s' st' r (String c "").
Proof.
  intros Hc Hs. destruct Hc as (H1 & H2 & H3 & H4). apply Z.eqb_neq in H1, H2, H3, H4.
  unfold reads, valid_from. cbn [compact_from scan]. by rewrite Hs, H1, H2, H3, H4.
Qed.

Definition waits (s : scan_state) : bool :=
  match s with BeginValue | BeginValueOrEmpty | BeginString | BeginStringOrEmpty | EndValue => true | _ => false end.

Lemma reads_space s st text : waits s = true → reads s st text s st (skip_space text) "".
Proof.
  intros Hs. induction text as [|c r IH]; simpl; [done|]. destruct (is_space (byte_val c)) eqn:Hc; [|done].
  assert (Hno : (byte_val c =? 60) = false ∧ (byte_val c =? 62) = false ∧ (byte_val c =? 38) = false ∧ (byte_val c =? 226) = false).
  { unfold is_space in Hc. rewrite !orb_true_iff, !Z.eqb_eq in Hc. rewrite !Z.eqb_neq. lia. }
  destruct Hno as (H1 & H2 & H3 & H4).
  assert (Hgo : ∀ s' st', scan_step s st (byte_val c) = Some (s', st', true) → reads s st (String c r) s' st' r "").
  { intros s' st' Hstep. unfold reads, valid_from. cbn [compact_from scan]. by rewrite Hstep, H1, H2, H3, H4. }
  assert (Hor : s = EndValue ∧ st = [] ∨ ¬ (s = EndValue ∧ st = [])) by (destruct s, st; naive_solver).
  destruct Hor as [[-> ->]|Hn].
  - eapply reads_blank; [apply (Hgo EndTop [])|]; [by simpl; unfold stateEndTop; rewrite Hc|].
    eapply reads_blank; [apply reads_top|exact IH].
  - eapply reads_blank; [apply (Hgo s st)|exact IH].
    destruct s; try done; simpl; unfold stateBeginValue, stateBeginString, stateEndValue; rewrite ?Hc; try done.
    by destruct st; [naive_solver|].
Qed.

(** Blank space is all a finished text may end with. *)
Lemma valid_blank text : valid_from EndValue [] text = true → skip_space text = "".
Proof.
  induction text as [|c r IH]; [done|]. unfold valid_from. simpl. unfold stateEndTop.
  destruct (is_space (byte_val c)); [|done]. intros Hv. apply IH. rewrite <- Hv. symmetry. apply (reads_top r).
Qed.

(** ** Tokens *)

Lemma valid_string raw : ∀ s st rest, in_string s = true → scan s [] raw = Some (InString, []) →
  valid_from s st (raw +:+ String quote_char rest) = valid_from EndValue st rest.
Proof.
  induction raw as [|c raw IH]; intros s st rest Hs; [by intros [= ->]|].
  cbn [scan]. destruct (scan_step s [] (byte_val c)) as [[[next st'] b]|] eqn:E; [|done].
  destruct (in_string_step _ _ _ _ _ Hs E) as (-> & -> & [Hn|(-> & Hv & ->)]); [|by intros Hbad%ended_scan; [|auto]].
  intros Hscan. rewrite <- (IH next st rest Hn Hscan). unfold valid_from. simpl.
  by rewrite in_string_stack, E by done.
Qed.

(** The lookahead past the end of the string sees the quote. *)
Lemma lookahead_same raw rest e1 e2 :
  let b s i := match String.get i s with Some d => byte_val d | None => -1 end in
  let look s := (b s 0%nat =? 128) && ((b s 1%nat =? e1) || (b s 1%nat =? e2)) in
  128 <= e1 → 128 <= e2 →
  look (raw +:+ String quote_char rest) = look raw ∧
    (look raw = true → (2 <= size raw)%nat ∧ b (raw +:+ String quote_char rest) 1%nat = b raw 1%nat).
Proof.
  intros b look He1 He2. unfold look, b. destruct raw as [|c [|d raw]]; cbn [String.get String.append size].
  - by split.
  - change (byte_val quote_char) with 34. rewrite !(proj2 (Z.eqb_neq 34 e1)), !(proj2 (Z.eqb_neq 34 e2)) by lia.
    rewrite !(proj2 (Z.eqb_neq (-1) e1)), !(proj2 (Z.eqb_neq (-1) e2)) by lia. by rewrite andb_false_r.
  - split; [done|]. intros _. split; [lia|done].
Qed.

Lemma compact_string raw : ∀ skip s st rest, in_string s = true → scan s [] raw = Some (InString, []) → (skip <= size raw)%nat →
  compact_from skip s st (raw +:+ String quote_char rest) = craw skip raw +:+ String quote_char (compact_from 0 EndValue st rest).
Proof.
  induction raw as [|c raw IH]; intros skip s st rest Hs.
  { intros [= ->] Hk. simpl in Hk. assert (skip = 0%nat) as -> by lia. done. }
  cbn [scan]. destruct (scan_step s [] (byte_val c)) as [[[next st'] b]|] eqn:E; [|done].
  destruct (in_string_step _ _ _ _ _ Hs E) as (-> & -> & [Hn|(-> & Hv & ->)]); [|by intros Hbad%ended_scan; [|auto]].
  intros Hscan Hk. simpl in Hk. cbn [String.append compact_from craw]. rewrite in_string_stack, E by done.
  destruct skip as [|skip]; [|by apply IH; [..|lia]].
  destruct (_ || _ || _); [by rewrite append_assoc, IH by (done || lia)|].
  destruct (lookahead_same raw rest 168 169) as [Hl Hb]; [lia..|].
  rewrite <- !andb_assoc, Hl. destruct (byte_val c =? 226); [|by rewrite andb_false_l, (IH 0%nat) by (done || lia)].
  rewrite !andb_true_l. match type of Hl with _ = ?look => destruct look eqn:Hlook end; [|by rewrite (IH 0%nat) by (done || lia)].
  destruct (Hb eq_refl) as [Hsz ->]. by rewrite append_assoc, IH.
Qed.

Lemma reads_string st s raw rest : string_token InString s = Some (raw, rest) →
  reads InString st s EndValue st rest (craw 0 raw +:+ String quote_char "") ∧ inside raw.
Proof.
  intros [-> Hin]%token_scan; [|done]. split; [|done]. split; [|by apply valid_string].
  rewrite compact_string by (done || lia). by rewrite append_assoc.
Qed.

(** What is written of a string is read as the string. *)
Lemma token_craw raw rest : inside raw →
  string_token InString (craw 0 raw +:+ String quote_char rest) = Some (craw 0 raw, rest).
Proof. intros Hin. apply token_of_scan; [done|]. by apply unquote_craw. Qed.

(** What may follow a value. *)
Definition stops (t : string) : Prop :=
  match t with EmptyString => True | String c _ => byte_val c = 44 ∨ byte_val c = 93 ∨ byte_val c = 125 end.

Lemma number_step s st v next st' b : in_number s = true → scan_step s [ParseArrayValue] v = Some (next, st', b) →
  in_number next = true → scan_step s st v = Some (next, st, false) ∧ copied v.
Proof.
  assert (Hend : ∀ next st' b, stateEndValue [ParseArrayValue] v = Some (next, st', b) → in_number next = false).
  { intros next' st0 b'. unfold stateEndValue. repeat case_match; try done; by intros [= <- _ _]. }
  unfold copied. destruct s; try done; intros _; simpl; unfold state0, stateESign, is_digit;
    repeat match goal with |- context [if ?c then Some _ else _] => destruct c eqn:? end;
    try done; try (by intros ->%Hend); try (by intros [= <- _ _]); intros [= <- _ _] _; (split; [done|lia]).
Qed.

Lemma number_begin st v next st' b : scan_step BeginValue [ParseArrayValue] v = Some (next, st', b) →
  in_number next = true → scan_step BeginValue st v = Some (next, st, false) ∧ copied v.
Proof.
  assert (Hpush : ∀ p state, push p [ParseArrayValue] state = Some (next, st', b) → in_number state = false → in_number next = false)
    by by intros p state [= <- _ _].
  unfold copied. simpl. unfold stateBeginValue, is_space.
  destruct (_ || _) eqn:?; [by intros [= <- _ _]|].
  repeat match goal with |- context [if ?c then _ else _] => destruct c eqn:? end; try done;
    try (by intros ->%Hpush); try (by intros [= <- _ _]); intros [= <- _ _] _; (split; [done|lia]).
Qed.

Lemma number_stop s st v : number_complete s = true →
  match scan_step s [ParseArrayValue] v with Some (next, _, _) => in_number next = false | None => True end →
  scan_step s st v = stateEndValue st v.
Proof.
  destruct s; try done; intros _; simpl; unfold state0;
    repeat match goal with |- context [if ?c then Some _ else _] => destruct c end; done.
Qed.

Lemma number_stops s t : number_complete s = true → stops t → number_token s t = Some (EmptyString, t).
Proof.
  intros Hc Ht. destruct t as [|c t]; cbn [number_token]; rewrite Hc; [done|].
  destruct Ht as [->|[->| ->]]; by destruct s.
Qed.

Lemma reads_number st text : ∀ s lit rest, in_number s = true → number_token s text = Some (lit, rest) →
  reads s st text EndValue st rest lit ∧ ∀ t, stops t → number_token s (lit +:+ t) = Some (lit, t).
Proof.
  induction text as [|c text IH]; intros s lit rest Hs.
  - cbn [number_token]. destruct (number_complete s) eqn:Hc; [|done]. intros [= <- <-].
    split; [|by intros t; apply number_stops]. apply reads_as; [|by destruct s..].
    apply number_stop; [done|]. by destruct s.
  - cbn [number_token].
    assert (Hstop : match scan_step s [ParseArrayValue] (byte_val c) with Some (next, _, _) => in_number next = false | None => True end →
      (if number_complete s then Some (EmptyString, String c text) else None) = Some (lit, rest) →
      reads s st (String c text) EndValue st rest lit ∧ ∀ t, stops t → number_token s (lit +:+ t) = Some (lit, t)).
    { intros Hstep. destruct (number_complete s) eqn:Hc; [|done]. intros [= <- <-].
      split; [|by intros t; apply number_stops]. apply reads_as; [by apply number_stop|by destruct s..]. }
    destruct (scan_step s [ParseArrayValue] (byte_val c)) as [[[next st'] b]|] eqn:E; [|by apply Hstop].
    destruct (in_number next) eqn:Hn; [|by apply Hstop]. clear Hstop.
    destruct (number_token next text) as [[lit' rest']|] eqn:Et; [|done]. intros [= <- <-].
    destruct (IH _ _ _ Hn Et) as [Hread Hback]. destruct (number_step s st _ next st' b Hs E Hn) as [Hstep Hc].
    split; [by eapply (reads_trans _ _ _ _ _ _ _ _ _ (String c "")); [apply reads_step|]|].
    intros t Ht. cbn [String.append number_token]. by rewrite E, Hn, (Hback t Ht).
Qed.

Lemma HasPrefix_drop s w : HasPrefix s w = true → s = w +:+ drop_bytes (size w) s.
Proof.
  revert s. induction w as [|c w IH]; intros s; [by destruct s|]. destruct s as [|d s]; [done|]. simpl.
  rewrite andb_true_iff, Ascii.eqb_eq. intros [-> Hw]. f_equal. by apply IH.
Qed.

Lemma drop_append w t : drop_bytes (size w) (w +:+ t) = t.
Proof. induction w; simpl; [by destruct t|done]. Qed.

Lemma prefix_append w t : HasPrefix (w +:+ t) w = true.
Proof. apply HasPrefix_spec. by exists t. Qed.

Lemma reads_word st s w x v rest : w ∈ ["true"; "false"; "null"] → word w x s = Some (v, rest) →
  v = x ∧ reads BeginValue st s EndValue st rest w ∧ ∀ t, word w x (w +:+ t) = Some (x, t).
Proof.
  intros Hw. unfold word. destruct (HasPrefix s w) eqn:Hp; [|done]. apply HasPrefix_drop in Hp. intros [= -> <-].
  split; [done|]. split; [|intros t; by rewrite prefix_append, drop_append].
  rewrite Hp at 1. rewrite !elem_of_cons, elem_of_nil in Hw. by destruct Hw as [->|[->|[->|[]]]].
Qed.

(** ** Values *)

Lemma head_is_cons v s : head_is v s = true → s = String (byte_of v) (drop_bytes 1 s).
Proof.
  destruct s as [|c r]; [done|]. simpl. intros <-%Z.eqb_eq. by rewrite byte_of_byte_val.
Qed.

(** A text a value may start: no blank space, no closing bracket. *)
Definition starts (s : string) : Prop := skip_space s = s ∧ head_is 93 s = false.

Lemma starts_value f d s x : parse_value f d s = Some x → starts s.
Proof.
  destruct f as [|f]; [done|]. destruct s as [|c r]; [done|]. unfold starts. simpl.
  destruct (is_space (byte_val c)) eqn:Hc; [|destruct (Z.eqb_spec (byte_val c) 93) as [->|]; [done|by split]].
  unfold is_space in Hc. rewrite !orb_true_iff, !Z.eqb_eq in Hc. by destruct Hc as [[[->| ->]| ->]| ->].
Qed.

Lemma starts_elements f d l s x : parse_elements f d l s = Some x → starts s.
Proof.
  destruct f as [|f]; [done|]. simpl. destruct (parse_value f d s) eqn:E; [|done]. intros _. by eapply starts_value.
Qed.

Lemma starts_members f d l s x : parse_members f d l s = Some x → skip_space s = s ∧ head_is 125 s = false ∧ head_is 34 s = true.
Proof.
  destruct f as [|f]; [done|]. simpl. destruct (head_is 34 s) eqn:E; [|done]. apply head_is_cons in E as ->. done.
Qed.

(** What a parser reads, the compaction writes again, and the parser reads it as the same value. *)
Definition reparsed (parse : string → option (value * string)) (s0 : scan_state) (st0 st1 : list parse_state) (s : string) : Prop :=
  ∀ v rest, parse s = Some (v, rest) →
    ∃ out, reads s0 st0 s EndValue st1 rest out ∧ ∀ t, stops t → parse (out +:+ t) = Some (v, t).

(** A bracket or comma. *)
Lemma reads_mark v s st r s' st' : copied (byte_val (byte_of v)) →
  scan_step s st (byte_val (byte_of v)) = Some (s', st', false) →
  reads s st (String (byte_of v) r) s' st' r (String (byte_of v) "").
Proof. apply reads_step. Qed.

Lemma reads_close s st0 p st v r : copied (byte_val (byte_of v)) → scan_step s st0 (byte_val (byte_of v)) = pop (p :: st) →
  reads s st0 (String (byte_of v) r) EndValue st r (String (byte_of v) "").
Proof.
  intros Hc Hstep. destruct st as [|q st]; [|by apply reads_mark].
  change (String (byte_of v) "") with (String (byte_of v) "" +:+ "").
  eapply (reads_trans _ _ _ EndTop []); [by apply reads_mark|apply reads_top].
Qed.

Section Fuel.
Variable f : nat.
Hypothesis values : ∀ d st s, Z.of_nat (length st) <= d → reparsed (parse_value f d) BeginValue st st s.
Hypothesis elements : ∀ d st l s, Z.of_nat (length st) < d →
  reparsed (parse_elements f d l) BeginValue (ParseArrayValue :: st) st s.
Hypothesis members : ∀ d st l s, Z.of_nat (length st) < d →
  reparsed (parse_members f d l) BeginString (ParseObjectKey :: st) st s.

(** The end of a value, or a comma and the text after it. *)
Lemma reparsed_elements d st l s : Z.of_nat (length st) < d →
  reparsed (parse_elements (S f) d l) BeginValue (ParseArrayValue :: st) st s.
Proof.
  intros Hd v rest. cbn [parse_elements]. destruct (parse_value f d s) as [[x r1]|] eqn:Ex; [|done]. cbn [mbind option_bind].
  apply (values d (ParseArrayValue :: st)) in Ex as (ox & Hrx & Hbx); [|simpl; lia].
  assert (Hrx' : reads BeginValue (ParseArrayValue :: st) s EndValue (ParseArrayValue :: st) (skip_space r1) ox).
  { rewrite <- (append_nil_r ox). eapply reads_trans; [exact Hrx|by apply reads_space]. }
  destruct (head_is 93 (skip_space r1)) eqn:H93.
  - intros [= <- <-]. rewrite (head_is_cons _ _ H93) in Hrx'. exists (ox +:+ String (byte_of 93) "").
    split; [eapply reads_trans; [exact Hrx'|]; by apply (reads_close _ _ ParseArrayValue)|].
    intros t _. rewrite append_assoc, (Hbx _) by (simpl; auto). simpl. by rewrite ?drop_bytes_zero.
  - destruct (head_is 44 (skip_space r1)) eqn:H44; [|done]. intros Ee.
    apply (elements d st) in Ee as (oe & Hre & Hbe); [|done]. rewrite (head_is_cons _ _ H44) in Hrx'.
    exists (ox +:+ String (byte_of 44) oe). split.
    + eapply reads_trans; [exact Hrx'|]. eapply (reads_trans _ _ _ _ _ _ _ _ _ (String (byte_of 44) "")); [by apply reads_mark|].
      eapply reads_blank; [by apply reads_space|exact Hre].
    + intros t Ht. rewrite append_assoc, (Hbx _) by (simpl; auto). simpl. unfold after. simpl. rewrite ?drop_bytes_zero.
      destruct (starts_elements _ _ _ _ _ (Hbe t Ht)) as [-> _]. by apply Hbe.
Qed.

Lemma reparsed_members d st l s : Z.of_nat (length st) < d →
  reparsed (parse_members (S f) d l) BeginString (ParseObjectKey :: st) st s.
Proof.
  intros Hd v rest. cbn [parse_members]. destruct (head_is 34 s) eqn:H34; [|done].
  destruct (string_token InString (drop_bytes 1 s)) as [[raw r0]|] eqn:Ek; [|done]. cbn [mbind option_bind].
  apply (reads_string (ParseObjectKey :: st)) in Ek as [Hrk Hin]. destruct (head_is 58 (skip_space r0)) eqn:H58; [|done].
  destruct (parse_value f d (after 1 (skip_space r0))) as [[x r1]|] eqn:Ex; [|done]. cbn [mbind option_bind].
  apply (values d (ParseObjectValue :: st)) in Ex as (ox & Hrx & Hbx); [|simpl; lia].
  set (key := String quote_char (craw 0 raw +:+ String quote_char (String (byte_of 58) ox))).
  assert (Hr : reads BeginString (ParseObjectKey :: st) s EndValue (ParseObjectValue :: st) (skip_space r1) key).
  { rewrite (head_is_cons _ _ H34). eapply (reads_trans _ _ _ _ _ _ _ _ _ (String (byte_of 34) "")); [by apply reads_mark|].
    replace (craw 0 raw +:+ _) with ((craw 0 raw +:+ String quote_char "") +:+ (String (byte_of 58) "" +:+ (ox +:+ "")))
      by (rewrite append_assoc, (append_nil_r ox); done).
    eapply reads_trans; [exact Hrk|]. eapply reads_blank; [by apply reads_space|].
    rewrite (head_is_cons _ _ H58). eapply reads_trans; [by apply reads_mark|].
    eapply reads_blank; [by apply reads_space|]. eapply reads_trans; [exact Hrx|by apply reads_space]. }
  assert (Hb : ∀ t, stops t → string_token InString (drop_bytes 1 (key +:+ t)) = Some (craw 0 raw, String (byte_of 58) (ox +:+ t)) ∧
    parse_value f d (after 1 (String (byte_of 58) (ox +:+ t))) = Some (x, t)).
  { intros t Ht. split.
    - unfold key. cbn [String.append drop_bytes]. rewrite ?drop_bytes_zero, append_assoc. by apply token_craw.
    - unfold after. cbn [drop_bytes]. rewrite ?drop_bytes_zero. destruct (starts_value _ _ _ _ (Hbx t Ht)) as [-> _]. by apply Hbx. }
  assert (Hkey : ∀ t, head_is 34 (key +:+ t) = true) by done. clearbody key.
  destruct (unquote_craw raw Hin) as [Hun _].
  destruct (head_is 125 (skip_space r1)) eqn:H125.
  - intros [= <- <-]. rewrite (head_is_cons _ _ H125) in Hr. exists (key +:+ String (byte_of 125) "").
    split; [eapply reads_trans; [exact Hr|]; by apply (reads_close _ _ ParseObjectValue)|].
    intros t _. rewrite append_assoc, Hkey. cbn [String.append].
    destruct (Hb (String (byte_of 125) t)) as [-> Hv]; [simpl; auto|].
    cbn [mbind option_bind]. change (skip_space (String (byte_of 58) ?r)) with (String (byte_of 58) r).
    change (head_is 58 (String (byte_of 58) ?r)) with true. cbv iota. by rewrite Hv, Hun.
  - destruct (head_is 44 (skip_space r1)) eqn:H44; [|done]. intros Em.
    apply (members d st) in Em as (om & Hrm & Hbm); [|done]. rewrite (head_is_cons _ _ H44) in Hr.
    exists (key +:+ String (byte_of 44) om). split.
    + eapply reads_trans; [exact Hr|]. eapply (reads_trans _ _ _ _ _ _ _ _ _ (String (byte_of 44) "")); [by apply reads_mark|].
      eapply reads_blank; [by apply reads_space|exact Hrm].
    + intros t Ht. rewrite append_assoc, Hkey. cbn [String.append].
      destruct (Hb (String (byte_of 44) (om +:+ t))) as [-> Hv]; [simpl; auto|].
      cbn [mbind option_bind]. change (skip_space (String (byte_of 58) ?r)) with (String (byte_of 58) r).
      change (head_is 58 (String (byte_of 58) ?r)) with true. cbv iota. rewrite Hv, Hun. simpl. unfold after. simpl. rewrite ?drop_bytes_zero.
      destruct (starts_members _ _ _ _ _ (Hbm t Ht)) as [-> _]. by apply Hbm.
Qed.

(** An opening bracket, within the nesting limit. *)
Lemma reads_open p v next st d : (p = ParseArrayValue ∧ v = 91 ∧ next = BeginValueOrEmpty) ∨
    (p = ParseObjectKey ∧ v = 123 ∧ next = BeginStringOrEmpty) →
  Z.of_nat (length st) <= d → (maxNestingDepth <=? d) = false → ∀ r,
  reads BeginValue st (String (byte_of v) r) next (p :: st) (skip_space r) (String (byte_of v) "").
Proof.
  intros Hp Hd Hm r. apply Z.leb_gt in Hm.
  change (String (byte_of v) "") with (String (byte_of v) "" +:+ "").
  eapply reads_trans; [|apply reads_space; by destruct Hp as [(_ & _ & ->)|(_ & _ & ->)]].
  assert (Hpush : push p st next = Some (next, p :: st, false)) by (unfold push; by rewrite (proj2 (Z.ltb_lt _ _)) by lia).
  destruct Hp as [(-> & -> & ->)|(-> & -> & ->)]; by apply reads_mark.
Qed.

Lemma reparsed_array d st r : Z.of_nat (length st) <= d →
  reparsed (parse_value (S f) d) BeginValue st st (String (byte_of 91) r).
Proof.
  intros Hd v rest. simpl. destruct (maxNestingDepth <=? d) eqn:Hm; [done|].
  pose proof (reads_open ParseArrayValue 91 BeginValueOrEmpty st d ltac:(auto) Hd Hm r) as Hopen.
  destruct (head_is 93 (skip_space r)) eqn:H93.
  - intros [= <- <-]. exists (String (byte_of 91) (String (byte_of 93) "")). split; [|by intros t _].
    change (String (byte_of 91) ?x) with (String (byte_of 91) "" +:+ x). rewrite (head_is_cons _ _ H93) in Hopen.
    eapply reads_trans; [exact Hopen|by apply (reads_close _ _ ParseArrayValue)].
  - intros Ee. pose proof (starts_elements _ _ _ _ _ Ee) as [Hsk _].
    pose proof Ee as (oe & Hre & Hbe)%(elements _ st); [|lia].
    exists (String (byte_of 91) oe). split.
    + change (String (byte_of 91) oe) with (String (byte_of 91) "" +:+ oe). eapply reads_trans; [exact Hopen|].
      eapply reads_blank; [|exact Hre]. apply reads_as; [|done..].
      destruct (skip_space r) as [|c r']; [by destruct f as [|[|f']]|]. simpl in H93 |- *. rewrite H93.
      unfold stateBeginValue. destruct (is_space (byte_val c)) eqn:Hc; [|done]. simpl in Hsk. rewrite Hc in Hsk.
      pose proof (skip_space_len r'). apply (f_equal size) in Hsk. simpl in Hsk. lia.
    + intros t Ht. simpl. destruct (starts_elements _ _ _ _ _ (Hbe t Ht)) as [-> ->]. by apply Hbe.
Qed.

Lemma reparsed_object d st r : Z.of_nat (length st) <= d →
  reparsed (parse_value (S f) d) BeginValue st st (String (byte_of 123) r).
Proof.
  intros Hd v rest. simpl. destruct (maxNestingDepth <=? d) eqn:Hm; [done|].
  pose proof (reads_open ParseObjectKey 123 BeginStringOrEmpty st d ltac:(auto) Hd Hm r) as Hopen.
  destruct (head_is 125 (skip_space r)) eqn:H125.
  - intros [= <- <-]. exists (String (byte_of 123) (String (byte_of 125) "")). split; [|by intros t _].
    change (String (byte_of 123) ?x) with (String (byte_of 123) "" +:+ x). rewrite (head_is_cons _ _ H125) in Hopen.
    eapply reads_trans; [exact Hopen|by apply (reads_close _ _ ParseObjectValue)].
  - intros Em. pose proof (starts_members _ _ _ _ _ Em) as (Hsk & _ & H34).
    pose proof Em as (om & Hrm & Hbm)%(members _ st); [|lia].
    exists (String (byte_of 123) om). split.
    + change (String (byte_of 123) om) with (String (byte_of 123) "" +:+ om). eapply reads_trans; [exact Hopen|].
      eapply reads_blank; [|exact Hrm]. apply reads_as; [|done..]. by rewrite (head_is_cons _ _ H34).
    + intros t Ht. simpl. destruct (starts_members _ _ _ _ _ (Hbm t Ht)) as (-> & -> & _). by apply Hbm.
Qed.

Lemma reparsed_value d st s : Z.of_nat (length st) <= d → reparsed (parse_value (S f) d) BeginValue st st s.
Proof.
  intros Hd. destruct s as [|c r]; [by intros v rest|].
  assert (Hch : c = byte_of (byte_val c)) by by rewrite byte_of_byte_val.
  destruct (Z.eqb_spec (byte_val c) 34) as [Hv|H34].
  { rewrite Hch, Hv. intros v rest. simpl. destruct (string_token InString r) as [[raw r1]|] eqn:Ek; [|done]. intros [= <- <-].
    apply (reads_string st) in Ek as [Hrk Hin]. exists (String quote_char (craw 0 raw +:+ String quote_char "")). split.
    - change (String quote_char ?x) with (String (byte_of 34) "" +:+ x). eapply reads_trans; [by apply reads_mark|exact Hrk].
    - intros t _. simpl. rewrite append_assoc. cbn [String.append]. rewrite token_craw by done. simpl. by destruct (unquote_craw raw Hin) as [-> _]. }
  destruct (Z.eqb_spec (byte_val c) 91) as [Hv|H91]; [rewrite Hch, Hv; by apply reparsed_array|].
  destruct (Z.eqb_spec (byte_val c) 123) as [Hv|H123]; [rewrite Hch, Hv; by apply reparsed_object|].
  apply Z.eqb_neq in H34 as E34, H91 as E91, H123 as E123.
  intros v rest. cbn [parse_value]. rewrite E34, E91, E123.
  destruct (Z.eqb_spec (byte_val c) 116) as [Hv|H116].
  { intros (-> & Hr & Hb)%(reads_word st); [|set_solver]. exists "true". split; [done|]. intros t _. exact (Hb t). }
  destruct (Z.eqb_spec (byte_val c) 102) as [Hv|H102].
  { intros (-> & Hr & Hb)%(reads_word st); [|set_solver]. exists "false". split; [done|]. intros t _. exact (Hb t). }
  destruct (Z.eqb_spec (byte_val c) 110) as [Hv|H110].
  { intros (-> & Hr & Hb)%(reads_word st); [|set_solver]. exists "null". split; [done|]. intros t _. exact (Hb t). }
  destruct (scan_step BeginValue [ParseArrayValue] (byte_val c)) as [[[state st'] b]|] eqn:E; [|done].
  destruct (in_number state) eqn:Hn; [|done]. destruct (number_token state r) as [[lit r1]|] eqn:El; [|done]. intros [= <- <-].
  destruct (reads_number st r state lit r1 Hn El) as [Hrl Hbl].
  destruct (number_begin st (byte_val c) state st' b E Hn) as [Hstep Hc].
  exists (String c lit). split.
  - change (String c lit) with (String c "" +:+ lit). eapply reads_trans; [|exact Hrl]. by apply reads_step.
  - intros t Ht. cbn [String.append parse_value]. rewrite E34, E91, E123.
    apply Z.eqb_neq in H116, H102, H110. rewrite H116, H102, H110, E, Hn, (Hbl t Ht). done.
Qed.
End Fuel.

Lemma reparsed_all f :
  (∀ d st s, Z.of_nat (length st) <= d → reparsed (parse_value f d) BeginValue st st s) ∧
  (∀ d st l s, Z.of_nat (length st) < d → reparsed (parse_elements f d l) BeginValue (ParseArrayValue :: st) st s) ∧
  (∀ d st l s, Z.of_nat (length st) < d → reparsed (parse_members f d l) BeginString (ParseObjectKey :: st) st s).
Proof.
  induction f as [|f (IHv & IHe & IHm)]; [by split_and!|].
  split_and!; [by apply reparsed_value|by apply reparsed_elements|by apply reparsed_members].
Qed.

(** The compaction of a valid text holds the value the text holds, whatever follows it. *)
Lemma decode_compact text v fuel : Decode text = Some v → Valid text = true → (S (2 * size text) <= fuel)%nat →
  (∀ t, stops t → parse_value fuel 0 (compact text +:+ t) = Some (v, t)) ∧ starts (compact text).
Proof.
  intros Hd Hv Hf. rewrite <- (Decode_fuel text fuel) in Hd by done.
  destruct (parse_value fuel 0 (skip_space text)) as [[v' rest]|] eqn:E; [|done]. injection Hd as ->.
  destruct (proj1 (reparsed_all fuel) 0 [] (skip_space text) ltac:(done) v rest E) as (out & Hr & Hb).
  assert (Hall : reads BeginValue [] text EndValue [] rest out).
  { eapply reads_blank; [by apply reads_space|exact Hr]. }
  destruct Hall as [Hc Hok]. change (valid_from BeginValue [] text) with (Valid text) in Hok. rewrite Hv in Hok.
  destruct (reads_space EndValue [] rest) as [Hblank _]; [done|].
  rewrite (valid_blank rest) in Hblank by done. unfold compact. rewrite Hc, Hblank, append_nil_r.
  split; [exact Hb|]. eapply starts_value. rewrite <- (append_nil_r out). by apply (Hb "").
Qed.

(** ** UTF-8 *)

(** The ranges the next bytes must be in, as [utf8.ValidString] checks them. *)
Definition utf8_step (pending : list (Z * Z)) (b : Z) : option (list (Z * Z)) :=
  match pending with
  | (lo, hi) :: rest => if cont lo hi b then Some rest else None
  | [] =>
      if b <? 128 then Some []
      else if cont 194 223 b then Some [(128, 191)]
      else if cont 224 239 b then Some [(if b =? 224 then 160 else 128, if b =? 237 then 159 else 191); (128, 191)]
      else if cont 240 244 b then
        Some [(if b =? 240 then 144 else 128, if b =? 244 then 143 else 191); (128, 191); (128, 191)]
      else None
  end.

Fixpoint utf8_from (pending : list (Z * Z)) (s : string) : option (list (Z * Z)) :=
  match s with
  | EmptyString => Some pending
  | String c r => pending' ← utf8_step pending (byte_val c); utf8_from pending' r
  end.

(** [utf8.ValidString]. *)
Definition ValidString (s : string) : bool := match utf8_from [] s with Some [] => true | _ => false end.

Lemma ValidString_spec s : ValidString s = true ↔ utf8_from [] s = Some [].
Proof. unfold ValidString. destruct (utf8_from [] s) as [[|]|]; naive_solver. Qed.

Lemma utf8_app pending a b : utf8_from pending (a +:+ b) = utf8_from pending a ≫= λ q, utf8_from q b.
Proof.
  revert pending. induction a as [|c a IH]; intros pending; [done|]. cbn [String.append utf8_from].
  destruct (utf8_step pending (byte_val c)); [apply IH|done].
Qed.

Lemma ValidString_app a b : ValidString a = true → ValidString b = true → ValidString (a +:+ b) = true.
Proof. rewrite !ValidString_spec, utf8_app. intros -> Hb. exact Hb. Qed.

(** A byte inside a rune is a continuation byte. *)
Definition pending_ok (pending : list (Z * Z)) : Prop := Forall (λ '(lo, hi), 128 <= lo ∧ hi <= 191) pending.

Lemma utf8_step_ok pending b pending' : pending_ok pending → utf8_step pending b = Some pending' →
  pending_ok pending' ∧ (b < 128 ∨ 191 < b → pending = []).
Proof.
  intros Hok. destruct pending as [|[lo hi] rest]; simpl.
  - intros Hs. split; [|done]. revert Hs. unfold pending_ok.
    repeat case_match; intros [= <-]; repeat constructor; lia.
  - apply Forall_cons in Hok as [[Hlo Hhi] Hrest]. unfold cont. destruct (_ && _) eqn:E; [|done]. intros [= <-]. split; [done|lia].
Qed.

(** Only blank space is skipped. *)
Lemma scan_blank s st v s' st' : scan_step s st v = Some (s', st', true) → is_space v = true.
Proof.
  destruct s; simpl; unfold stateBeginValue, stateBeginString, state0, stateESign, stateEndValue, stateEndTop, push, pop;
    repeat match goal with |- context [if ?c then _ else _] => destruct c eqn:? end; try done;
    repeat case_match; by try intros [=].
Qed.

Lemma utf8_compact n : ∀ text s st pending, (size text <= n)%nat → pending_ok pending → valid_from s st text = true →
  utf8_from pending text = Some [] → utf8_from pending (compact_from 0 s st text) = Some [].
Proof.
  induction n as [|n IH]; intros [|c r] s st pending Hn Hok Hv Hu; try done; simpl in Hn; [lia|].
  unfold valid_from in Hv. cbn [compact_from scan utf8_from] in *.
  destruct (scan_step s st (byte_val c)) as [[[s' st'] blank]|] eqn:Hstep; [|done].
  destruct (utf8_step pending (byte_val c)) as [pending'|] eqn:Hp; [|done]. cbn [mbind option_bind] in Hu.
  destruct (utf8_step_ok _ _ _ Hok Hp) as [Hok' Hascii].
  pose proof (IH r s' st' pending' ltac:(lia) Hok' Hv Hu) as Hrec.
  destruct (_ || _ || _) eqn:Hhtml.
  { assert (pending = []) as -> by (apply Hascii; lia). simpl in Hp. rewrite (proj2 (Z.ltb_lt _ _)) in Hp by lia.
    injection Hp as <-. rewrite utf8_app. assert (byte_val c = 60 ∨ byte_val c = 62 ∨ byte_val c = 38) as [->|[->| ->]] by lia; exact Hrec. }
  destruct (_ && _ && _) eqn:Hsep.
  { clear Hrec. assert (pending = []) as -> by (apply Hascii; lia).
    destruct r as [|d [|e r]]; cbn [String.get] in Hsep |- *; [lia..|]. simpl in Hn.
    assert (Hbytes : byte_val c = 226 ∧ byte_val d = 128 ∧ (byte_val e = 168 ∨ byte_val e = 169)) by lia.
    destruct Hbytes as (Hc & Hd & He). rewrite Hc in Hp. injection Hp as <-. cbn [utf8_from scan compact_from] in *. rewrite Hd in *.
    destruct (scan_step s' st' 128) as [[[s2 st2] b2]|]; [|done]. destruct (scan_step s2 st2 (byte_val e)) as [[[s3 st3] b3]|]; [|done].
    rewrite utf8_app. assert (Hr : utf8_from [] (compact_from 0 s3 st3 r) = Some []).
    { apply IH; [lia|constructor|exact Hv|]. by destruct He as [He|He]; rewrite He in Hu. }
    by destruct He as [->| ->]. }
  destruct blank; [|cbn [utf8_from]; by rewrite Hp].
  assert (Hlow : byte_val c < 128).
  { apply scan_blank in Hstep. unfold is_space in Hstep. lia. }
  assert (pending = []) as -> by (apply Hascii; lia). simpl in Hp. rewrite (proj2 (Z.ltb_lt _ _) Hlow) in Hp.
  by injection Hp as <-.
Qed.

Lemma compact_utf8 text : Valid text = true → ValidString text = true → ValidString (compact text) = true.
Proof. rewrite !ValidString_spec. intros Hv. apply (utf8_compact (size text)); [done|constructor|exact Hv]. Qed.

Lemma utf8_copy c s rune w : 128 <= byte_val c → decode_rune (String c s) = (rune, w) → w ≠ 1%nat →
  utf8_from [] (String c (escape_from (Copy (w - 1)) s)) = utf8_from [] (escape_from (Copy 0) (drop_bytes (w - 1) s)).
Proof.
  intros Hc. unfold decode_rune. cbn [utf8_from utf8_step]. rewrite (proj2 (Z.ltb_ge _ _) Hc).
  assert (Hnone : ∀ lo hi, 128 <= lo → cont lo hi (-1) = false) by (intros; unfold cont; lia).
  destruct (cont 194 223 (byte_val c)).
  { destruct s as [|d s]; cbn [String.get]; [by rewrite Hnone by lia; intros [= _ <-]|].
    destruct (cont 128 191 (byte_val d)) eqn:H1; intros [= _ <-]; [|done]. intros _. simpl. by rewrite H1. }
  destruct (cont 224 239 (byte_val c)).
  { set (lo := if byte_val c =? 224 then 160 else 128). set (hi := if byte_val c =? 237 then 159 else 191).
    assert (128 <= lo) by (unfold lo; destruct (_ =? _); lia).
    destruct s as [|d [|e s]]; cbn [String.get]; [rewrite !Hnone by lia; by intros [= _ <-]|rewrite (Hnone 128), andb_false_r by lia; by intros [= _ <-]|].
    destruct (cont lo hi (byte_val d) && cont 128 191 (byte_val e)) eqn:H1; intros [= _ <-]; [|done]. intros _.
    apply andb_true_iff in H1 as [H1 H2]. simpl. rewrite H1. simpl. by rewrite H2. }
  destruct (cont 240 244 (byte_val c)); [|by intros [= _ <-]].
  set (lo := if byte_val c =? 240 then 144 else 128). set (hi := if byte_val c =? 244 then 143 else 191).
  assert (128 <= lo) by (unfold lo; destruct (_ =? _); lia).
  destruct s as [|d [|e [|g s]]]; cbn [String.get]; try (rewrite ?(Hnone lo), ?(Hnone 128), ?andb_false_r by lia; by intros [= _ <-]).
  destruct (cont lo hi (byte_val d) && cont 128 191 (byte_val e) && cont 128 191 (byte_val g)) eqn:H1; intros [= _ <-]; [|done]. intros _.
  apply andb_true_iff in H1 as [[H1 H2]%andb_true_iff H3]. simpl. rewrite H1. simpl. rewrite H2. simpl. by rewrite H3.
Qed.

Lemma utf8_escape_byte c r : byte_val c < 128 → utf8_from [] (escape_byte c +:+ r) = utf8_from [] r.
Proof. intros H. destruct c as [[] [] [] [] [] [] [] []]; first [reflexivity|by vm_compute in H]. Qed.

Lemma utf8_escape_upto n : ∀ s, (size s <= n)%nat → utf8_from [] (escape_from (Copy 0) s) = Some [].
Proof.
  induction n as [|n IH]; intros [|c s] Hn; try done; simpl in Hn; [lia|]. cbn [escape_from].
  destruct (Z.ltb_spec (byte_val c) 128) as [Hc|Hc]; [rewrite utf8_escape_byte by done; apply IH; lia|].
  destruct (decode_rune (String c s)) as [rune w] eqn:Hd.
  assert (Hlen : (size (drop_bytes (w - 1) s) <= n)%nat) by (pose proof (drop_bytes_len (w - 1) s); lia).
  destruct (decide (w = 1%nat)) as [->|Hw].
  { rewrite (decode_width_one c s rune Hc Hd). change (RuneError =? RuneError) with true. cbn [andb Nat.eqb]. apply IH. lia. }
  rewrite (proj2 (Nat.eqb_neq _ _) Hw), andb_false_r. destruct (_ || _) eqn:E.
  - rewrite escape_drop. apply orb_true_iff in E as [->%Z.eqb_eq| ->%Z.eqb_eq]; by apply IH.
  - rewrite (utf8_copy c s rune w) by done. by apply IH.
Qed.

Lemma quoted_utf8 s : ValidString (quoted s) = true.
Proof.
  unfold quoted, escape. change (String quote_char ?x) with (String quote_char "" +:+ x).
  apply ValidString_app; [done|]. apply ValidString_app; [|done]. apply ValidString_spec. by apply (utf8_escape_upto (size s)).
Qed.

(** ** Objects *)

(** A text that parses as a value wherever a value is followed by a comma or a bracket. *)
Definition holds (fuel : nat) (depth : Z) (text : string) (v : value) : Prop :=
  starts text ∧ ∀ t, stops t → parse_value fuel depth (text +:+ t) = Some (v, t).

Lemma token_quoted s rest : string_token InString (escape s +:+ String quote_char rest) = Some (escape s, rest).
Proof. apply token_of_scan; [done|apply inside_escape_text]. Qed.

Lemma holds_quoted fuel depth s : holds (S fuel) depth (quoted s) (VString (coerced s)).
Proof.
  split; [done|]. intros t _. unfold quoted. simpl. rewrite append_assoc. cbn [String.append]. rewrite token_quoted. simpl.
  by rewrite unquote_escape.
Qed.

(** The members of an object, as [json.Marshal] joins them. *)
Definition member_texts (l : list (string * string)) : string := Join ((λ '(k, text), quoted k +:+ ":" +:+ text) <$> l) ",".

Lemma member_texts_utf8 l : Forall (λ e, ValidString e.2 = true) l → ValidString (member_texts l) = true.
Proof.
  induction l as [|[k text] l IH]; [done|]. intros [Ht Hl]%Forall_cons.
  assert (Hone : ValidString (quoted k +:+ ":" +:+ text) = true).
  { apply ValidString_app; [apply quoted_utf8|]. by apply ValidString_app. }
  destruct l as [|e l]; [done|].
  change (member_texts _) with ((quoted k +:+ ":" +:+ text) +:+ ("," +:+ member_texts (e :: l))).
  apply ValidString_app; [done|]. apply ValidString_app; [done|auto].
Qed.

Lemma parse_member fuel depth acc k text v t : holds fuel depth text v → stops t →
  parse_members (S fuel) depth acc ((quoted k +:+ ":" +:+ text) +:+ t) =
    let members := set_member (coerced k) v acc in
    if head_is 125 (skip_space t) then Some (VObject members, drop_bytes 1 (skip_space t))
    else if head_is 44 (skip_space t) then parse_members fuel depth members (after 1 (skip_space t)) else None.
Proof.
  intros [[Hsp _] Hb] Ht. unfold quoted. cbn [parse_members String.append].
  change (head_is 34 (String quote_char ?x)) with true. cbv iota.
  change (drop_bytes 1 (String quote_char ?x)) with x. rewrite !append_assoc. cbn [String.append].
  rewrite token_quoted. cbn [mbind option_bind]. change (skip_space (String ":" ?x)) with (String ":" x).
  change (head_is 58 (String ":" ?x)) with true. cbv iota.
  change (after 1 (String ":" ?x)) with (skip_space x).
  assert (skip_space (text +:+ t) = text +:+ t) as ->.
  { eapply starts_value. by apply Hb. }
  rewrite (Hb t Ht). cbn [mbind option_bind]. by rewrite unquote_escape.
Qed.

Definition add_member (m : list (string * value)) (e : string * string * value) : list (string * value) :=
  set_member (coerced e.1.1) e.2 m.

Lemma parse_member_texts fuel depth : ∀ l acc t, l ≠ [] →
  Forall (λ e, ∀ g, (fuel <= g)%nat → holds g depth e.1.2 e.2) l →
  parse_members (length l + fuel) depth acc (member_texts (fst <$> l) +:+ String (byte_of 125) t) =
    Some (VObject (fold_left add_member l acc), t).
Proof.
  induction l as [|[[k text] v] l IH]; [done|]. intros acc t _ [Hh Hl]%Forall_cons. simpl in Hh.
  destruct l as [|e l].
  - change (member_texts _) with (quoted k +:+ ":" +:+ text). cbn [length Nat.add].
    rewrite (parse_member fuel depth acc k text v) by (auto; simpl; auto). done.
  - change (member_texts (fst <$> (k, text, v) :: e :: l)) with
      ((quoted k +:+ ":" +:+ text) +:+ String (byte_of 44) (member_texts (fst <$> e :: l))).
    rewrite append_assoc. cbn [String.append]. cbn [length Nat.add].
    rewrite (parse_member (S (length l + fuel)) depth acc k text v) by (try (apply Hh; lia); simpl; auto).
    change (skip_space (String (byte_of 44) ?x)) with (String (byte_of 44) x). cbv zeta.
    change (head_is 125 (String (byte_of 44) ?x)) with false. change (head_is 44 (String (byte_of 44) ?x)) with true. cbv iota.
    change (after 1 (String (byte_of 44) ?x)) with (skip_space x).
    assert (Hrest := IH (set_member (coerced k) v acc) t ltac:(done) Hl).
    destruct (starts_members _ _ _ _ _ Hrest) as [-> _]. exact Hrest.
Qed.

(** An object of such members is read as their map. *)
Lemma holds_object fuel depth l : (maxNestingDepth <=? depth) = false → l ≠ [] →
  Forall (λ e, ∀ g, (fuel <= g)%nat → holds g (depth + 1) e.1.2 e.2) l →
  ∀ g, (S (length l + fuel) <= g)%nat →
  holds g depth (String (byte_of 123) (member_texts (fst <$> l) +:+ String (byte_of 125) "")) (VObject (fold_left add_member l [])).
Proof.
  intros Hd Hl Hall g Hg. split; [done|]. intros t _. cbn [String.append]. rewrite append_assoc. cbn [String.append].
  destruct g as [|g]; [lia|]. assert (Hg' : ∃ fuel', (fuel <= fuel')%nat ∧ g = (length l + fuel')%nat) by (exists (g - length l)%nat; lia).
  destruct Hg' as (fuel' & Hf & ->).
  assert (Hm := parse_member_texts fuel' (depth + 1) l [] t Hl ltac:(eapply Forall_impl; [exact Hall|]; intros e He g Hle; apply He; lia)).
  destruct (starts_members _ _ _ _ _ Hm) as (Hsk & H125 & _). simpl. by rewrite Hd, Hsk, H125.
Qed.
