(* ===== verification/JsonMarshal.v ===== *)
(** * JsonMarshal: json.Decoder reads what json.Marshal wrote

    [marshal_reads]: every document of Json.v without raw messages, nested within the decoder's
    limit, is read back as the value it was written from, by the round trips of JsonRound.v; and
    the way encoding/json stores such a value in a struct ([field], [as_string], [as_int],
    [as_list], [as_bool]). *)

From S2P Require Import Prelude GoString Json JsonDecode JsonRound.

#[local] Arguments String.append !_ _ /.

(** ** Sorting by a key *)

Section MergeMap.
Context {A B : Type} (R : A → A → Prop) (S : B → B → Prop) `{!∀ x y, Decision (R x y)} `{!∀ x y, Decision (S x y)}.
Context (f : A → B) (Hf : ∀ x y, R x y ↔ S (f x) (f y)).

Lemma list_merge_fmap l1 : ∀ l2, f <$> list_merge R l1 l2 = list_merge S (f <$> l1) (f <$> l2).
Proof.
  induction l1 as [|x1 l1 IH1]; intros l2; [by destruct l2|]. induction l2 as [|x2 l2 IH2]; [done|]. simpl.
  rewrite (decide_ext _ _ _ _ (Hf x1 x2)). case_decide; rewrite fmap_cons; [by rewrite IH1|]. f_equal. apply IH2.
Qed.

Definition map_stack (st : list (option (list A))) : list (option (list B)) :=
  (λ o : option (list A), match o with Some l => Some (f <$> l) | None => None end) <$> st.

Lemma merge_sort_fmap l : f <$> merge_sort R l = merge_sort S (f <$> l).
Proof.
  assert (Hstack : ∀ st x, map_stack (merge_list_to_stack R st x) = merge_list_to_stack S (map_stack st) (f <$> x)).
  { induction st as [|[y|] st IH]; intros x; [done| |done]. simpl. rewrite <- list_merge_fmap, <- IH. done. }
  assert (Hmerge : ∀ st, f <$> merge_stack R st = merge_stack S (map_stack st)).
  { induction st as [|[y|] st IH]; [done| |done]. simpl. rewrite list_merge_fmap, IH. done. }
  assert (Haux : ∀ l st, f <$> merge_sort_aux R st l = merge_sort_aux S (map_stack st) (f <$> l)).
  { intros l0. induction l0 as [|x l0 IH]; intros st; simpl; [apply Hmerge|]. rewrite IH. f_equal. apply Hstack. }
  apply (Haux l []).
Qed.
End MergeMap.

(** ** The value a document is written from *)

(** An object keeps the last of the members of one name; a map is written in the order of its keys. *)
Fixpoint read_back (j : json) : value :=
  match j with
  | JStr s => VString (coerced s)
  | JInt z => VNumber (Itoa z)
  | JBool b => VBool b
  | JRaw _ | JNull => VNull
  | JList items => VArray (read_back <$> items)
  | JStruct fields => VObject (fold_left (λ m '(k, v), set_member (coerced k) v m) ((λ '(k, j), (k, read_back j)) <$> fields) [])
  | JObj fields =>
      VObject (fold_left (λ m '(k, v), set_member (coerced k) v m)
        (merge_sort field_le ((fix go (l : list (string * json)) : list (string * value) :=
           match l with [] => [] | (k, j) :: r => (k, read_back j) :: go r end) fields)) [])
  end.

(** How deep brackets are nested; [None] when there is a raw message. *)
Fixpoint nesting (j : json) : option Z :=
  let deepest := fold_right (λ d acc, match d, acc with Some x, Some y => Some (Z.max x y) | _, _ => None end) (Some 0) in
  match j with
  | JStr _ | JInt _ | JBool _ | JNull => Some 0
  | JRaw _ => None
  | JList items => Z.succ <$> deepest (nesting <$> items)
  | JStruct fields => Z.succ <$> deepest ((λ '(_, v), nesting v) <$> fields)
  | JObj fields => Z.succ <$> deepest ((fix go (l : list (string * json)) : list (option Z) :=
      match l with [] => [] | (_, v) :: r => nesting v :: go r end) fields)
  end.

(** ** Numbers *)

Fixpoint digits (s : string) : Prop :=
  match s with EmptyString => True | String c r => is_digit (byte_val c) = true ∧ digits r end.

Lemma digit_char d : (d < 10)%N → is_digit (byte_val (pretty_N_char d)) = true ∧
  (d ≠ 0%N → 49 <= byte_val (pretty_N_char d) <= 57).
Proof.
  intros Hd. assert (d = 0 ∨ d = 1 ∨ d = 2 ∨ d = 3 ∨ d = 4 ∨ d = 5 ∨ d = 6 ∨ d = 7 ∨ d = 8 ∨ d = 9)%N as Hc by lia.
  repeat destruct Hc as [->|Hc]; try subst d; by (split; [vm_compute|intros; split; vm_compute]).
Qed.

Lemma digits_snoc r c : digits r → is_digit (byte_val c) = true → digits (r +:+ String c "").
Proof. induction r as [|d r IH]; [done|]. intros [Hd Hr] Hc. simpl. auto. Qed.

Lemma pretty_digits x : ∀ s, (0 < x)%N → ∃ c r, pretty_N_go x s = String c (r +:+ s) ∧ 49 <= byte_val c <= 57 ∧ digits r.
Proof.
  induction (N.lt_wf_0 x) as [x _ IH]; intros s Hx. rewrite pretty_N_go_step by done.
  destruct (digit_char (x mod 10)) as [Hd Hne]; [by apply N.mod_lt|].
  destruct (decide (x < 10)%N) as [Hlt|Hge].
  - rewrite N.div_small by done. exists (pretty_N_char (x mod 10)), "". rewrite pretty_N_go_0. split; [done|split; [|done]].
    apply Hne. rewrite N.mod_small by done. lia.
  - destruct (IH (x / 10)%N ltac:(apply N.div_lt; lia) (String (pretty_N_char (x mod 10)) s)) as (c & r & -> & Hc & Hr).
    { apply N.div_str_pos. lia. }
    exists c, (r +:+ String (pretty_N_char (x mod 10)) ""). rewrite append_assoc. split; [done|split; [done|]]. by apply digits_snoc.
Qed.

Lemma number_token_stops state t : number_complete state = true → state = S0 ∨ state = S1 → stops t →
  number_token state t = Some (EmptyString, t).
Proof.
  intros _ Hs Ht. destruct t as [|c t]; [by destruct Hs as [->| ->]|]. simpl in *.
  destruct Ht as [->|[->| ->]]; by destruct Hs as [->| ->].
Qed.

Lemma number_token_digits r t : digits r → stops t → number_token S1 (r +:+ t) = Some (r, t).
Proof.
  intros Hr Ht. induction r as [|c r IH]; [apply (number_token_stops S1); auto|]. destruct Hr as [Hc Hr].
  simpl. rewrite Hc. simpl. by rewrite IH.
Qed.

(** An integer is read as its own text. *)
Lemma holds_int fuel depth z : holds (S fuel) depth (Itoa z) (VNumber (Itoa z)).
Proof.
  assert (Hpos : ∀ x t, (0 < x)%N → stops t → ∃ c r, pretty x = String c r ∧ 49 <= byte_val c <= 57 ∧
    number_token S1 (r +:+ t) = Some (r, t)).
  { intros x t Hx Ht. destruct (pretty_digits x "" Hx) as (c & r & Hp & Hc & Hr). exists c, r.
    split; [|split; [exact Hc|by apply number_token_digits]]. unfold pretty, pretty_N. rewrite decide_False by lia.
    by rewrite Hp, append_nil_r. }
  assert (Hfirst : ∀ v, 49 <= v <= 57 → scan_step BeginValue [ParseArrayValue] v = Some (S1, [ParseArrayValue], false) ∧
    scan_step Neg [ParseArrayValue] v = Some (S1, [ParseArrayValue], false) ∧ is_space v = false ∧
    (v =? 34) = false ∧ (v =? 91) = false ∧ (v =? 123) = false ∧ (v =? 116) = false ∧ (v =? 102) = false ∧ (v =? 110) = false ∧ (v =? 93) = false).
  { intros v Hv. assert (v = 49 ∨ v = 50 ∨ v = 51 ∨ v = 52 ∨ v = 53 ∨ v = 54 ∨ v = 55 ∨ v = 56 ∨ v = 57) as Hc by lia.
    by repeat destruct Hc as [->|Hc]; [..|subst v]. }
  unfold Itoa. destruct z as [|x|x]; [|change (pretty (Z.pos x)) with (pretty (N.pos x))|change (pretty (Z.neg x)) with (String "-" (pretty (N.pos x)))].
  - split; [done|]. intros t Ht. cbn [String.append parse_value]. cbv zeta. simpl.
    by rewrite (number_token_stops S0) by auto.
  - split.
    + destruct (Hpos (N.pos x) "" ltac:(done) I) as (c & r & -> & Hc & _). destruct (Hfirst _ Hc) as (_ & _ & Hsp & _ & _ & _ & _ & _ & _ & H93).
      unfold starts. simpl. by rewrite Hsp, H93.
    + intros t Ht. destruct (Hpos (N.pos x) t ltac:(done) Ht) as (c & r & -> & Hc & Hn).
      destruct (Hfirst _ Hc) as (Hs & _ & _ & H34 & H91 & H123 & H116 & H102 & H110 & _).
      cbn [String.append parse_value]. cbv zeta. rewrite H34, H91, H123, H116, H102, H110, Hs. cbn [in_number]. by rewrite Hn.
  - split; [done|]. intros t Ht. destruct (Hpos (N.pos x) t ltac:(done) Ht) as (c & r & -> & Hc & Hn).
    destruct (Hfirst _ Hc) as (_ & Hs & _). cbn [String.append].
    change (parse_value (S fuel) depth (String "-" ?s)) with
      ('(lit, rest) ← number_token Neg s; Some (VNumber (String "-" lit), rest)).
    cbn [number_token]. rewrite Hs. cbn [in_number]. by rewrite Hn.
Qed.

(** ** Words and arrays *)

Lemma holds_null fuel depth : holds (S fuel) depth "null" VNull.
Proof. split; [done|]. intros t _. simpl. by unfold word. Qed.

Lemma holds_bool fuel depth b : holds (S fuel) depth (if b : bool then "true" else "false") (VBool b).
Proof. destruct b; (split; [done|]; intros t _; simpl; by unfold word). Qed.

Lemma parse_element_texts fuel depth : ∀ (l : list (string * value)) acc t, l ≠ [] →
  Forall (λ e, ∀ g, (fuel <= g)%nat → holds g depth e.1 e.2) l →
  parse_elements (length l + fuel) depth acc (Join (fst <$> l) "," +:+ String (byte_of 93) t) = Some (VArray (acc ++ (snd <$> l)), t).
Proof.
  induction l as [|[text v] l IH]; [done|]. intros acc t _ [Hh Hl]%Forall_cons. simpl in Hh.
  destruct l as [|e l].
  - change (Join _ ",") with text. cbn [length Nat.add parse_elements].
    destruct (Hh fuel) as [_ Hb]; [lia|]. rewrite Hb by (simpl; auto). done.
  - change (Join _ ",") with (text +:+ ("," +:+ Join (fst <$> e :: l) ",")). rewrite append_assoc. cbn [length Nat.add String.append].
    destruct (Hh (S (length l + fuel))%nat) as [_ Hb]; [lia|].
    cbn [parse_elements]. cbn [String.append]. rewrite Hb by (simpl; auto). cbn [mbind option_bind].
    assert (Hrest := IH (acc ++ [v]) t ltac:(done) Hl).
    change (String "," ?x) with (String (byte_of 44) x).
    change (skip_space (String (byte_of 44) ?x)) with (String (byte_of 44) x). cbv zeta.
    change (head_is 93 (String (byte_of 44) ?x)) with false. change (head_is 44 (String (byte_of 44) ?x)) with true. cbv iota.
    change (after 1 (String (byte_of 44) ?x)) with (skip_space x).
    destruct (starts_elements _ _ _ _ _ Hrest) as [-> _].
    etransitivity; [exact Hrest|]. by rewrite <- (assoc_L (++)).
Qed.

Lemma holds_array fuel depth (l : list (string * value)) : (maxNestingDepth <=? depth) = false →
  Forall (λ e, ∀ g, (fuel <= g)%nat → holds g (depth + 1) e.1 e.2) l →
  ∀ g, (S (length l + fuel) <= g)%nat →
  holds g depth (String (byte_of 91) (Join (fst <$> l) "," +:+ String (byte_of 93) "")) (VArray (snd <$> l)).
Proof.
  intros Hd Hall g Hg. split; [done|]. intros t _. cbn [String.append]. rewrite append_assoc. cbn [String.append].
  destruct g as [|g]; [lia|]. destruct (decide (l = [])) as [->|Hl]; [simpl; by rewrite Hd|].
  assert (Hg' : ∃ fuel', (fuel <= fuel')%nat ∧ g = (length l + fuel')%nat) by (exists (g - length l)%nat; lia).
  destruct Hg' as (fuel' & Hf & ->).
  assert (Hm := parse_element_texts fuel' (depth + 1) l [] t Hl ltac:(eapply Forall_impl; [exact Hall|]; intros e He g Hle; apply He; lia)).
  destruct (starts_elements _ _ _ _ _ Hm) as (Hsk & H93). simpl. by rewrite Hd, Hsk, H93.
Qed.

(** ** The round trip *)

(** Induction with the parts of lists and members. *)
Lemma json_nested_ind (P : json → Prop) :
  (∀ s, P (JStr s)) → (∀ z, P (JInt z)) → (∀ b, P (JBool b)) → (∀ raw, P (JRaw raw)) → P JNull →
  (∀ items, Forall P items → P (JList items)) →
  (∀ fields, Forall (λ e, P e.2) fields → P (JStruct fields)) →
  (∀ fields, Forall (λ e, P e.2) fields → P (JObj fields)) → ∀ j, P j.
Proof.
  intros Hs Hi Hb Hr Hn Hl Hst Ho. fix IH 1. intros [s|z|b|raw| |items|fields|fields]; [apply Hs|apply Hi|apply Hb|apply Hr|apply Hn|..].
  - apply Hl. induction items as [|x items IHl]; constructor; [apply IH|exact IHl].
  - apply Hst. induction fields as [|[k x] fields IHl]; constructor; [apply IH|exact IHl].
  - apply Ho. induction fields as [|[k x] fields IHl]; constructor; [apply IH|exact IHl].
Qed.

Definition deepest (l : list (option Z)) : option Z :=
  fold_right (λ d acc, match d, acc with Some x, Some y => Some (Z.max x y) | _, _ => None end) (Some 0) l.

Lemma deepest_each l n : deepest l = Some n → 0 <= n ∧ ∀ d, d ∈ l → ∃ m, d = Some m ∧ m <= n.
Proof.
  revert n. induction l as [|d l IH]; intros n; simpl; [intros [= <-]; split; [done|by intros d ?%not_elem_of_nil]|].
  destruct d as [x|]; [|done]. destruct (deepest l) as [y|] eqn:E; [|done]. intros [= <-].
  destruct (IH y eq_refl) as [Hy Hall]. split; [lia|]. intros d [->|Hd]%elem_of_cons; [exists x; split; [done|lia]|].
  destruct (Hall d Hd) as (m & -> & Hm). exists m. split; [done|lia].
Qed.

(** What each member must be to be read back, at its depth and with fuel enough. *)
Definition readable (depth : Z) (j : json) : Prop := ∃ fuel, ∀ g, (fuel <= g)%nat → holds g depth (marshal j) (read_back j).

Lemma readable_all {A} (f : A → json) depth (l : list A) : Forall (λ x, readable depth (f x)) l →
  ∃ fuel, Forall (λ x, ∀ g, (fuel <= g)%nat → holds g depth (marshal (f x)) (read_back (f x))) l.
Proof.
  induction 1 as [|x l [f1 H1] _ [f2 H2]]; [by exists 0%nat|]. exists (Nat.max f1 f2). constructor.
  - intros g Hg. apply H1. lia.
  - eapply Forall_impl; [exact H2|]. intros y Hy g Hg. apply Hy. lia.
Qed.

Definition members_read (fields : list (string * json)) : list (string * string * value) :=
  (λ e, (e.1, marshal e.2, read_back e.2)) <$> fields.

Lemma readable_members depth (fields : list (string * json)) : (maxNestingDepth <=? depth) = false →
  Forall (λ e, readable (depth + 1) e.2) fields →
  ∃ fuel, ∀ g, (fuel <= g)%nat →
    holds g depth ("{" +:+ Join ((λ '(k, v), quoted k +:+ ":" +:+ marshal v) <$> fields) "," +:+ "}")
      (VObject (fold_left (λ m '(k, v), set_member (coerced k) v m) ((λ '(k, j), (k, read_back j)) <$> fields) [])).
Proof.
  intros Hd [fuel Hall]%readable_all.
  assert (Htext : Join ((λ '(k, v), quoted k +:+ ":" +:+ marshal v) <$> fields) "," = member_texts (fst <$> members_read fields)).
  { unfold member_texts, members_read. f_equal. rewrite <- !list_fmap_compose. apply list_fmap_ext. by intros i [k v] _. }
  assert (Hfold : ∀ acc, fold_left (λ m '(k, v), set_member (coerced k) v m) ((λ '(k, j), (k, read_back j)) <$> fields) acc =
    fold_left add_member (members_read fields) acc).
  { clear. induction fields as [|[k j] fields IH]; intros acc; [done|]. simpl. by rewrite IH. }
  rewrite Htext, Hfold. destruct (decide (fields = [])) as [->|Hne].
  - exists 1%nat. intros [|g] Hg; [lia|]. split; [done|]. intros t _. simpl. by rewrite Hd.
  - exists (S (length (members_read fields) + fuel)). intros g Hg.
    apply (holds_object fuel depth (members_read fields)); [done|by destruct fields| |done].
    unfold members_read. apply Forall_fmap. exact Hall.
Qed.

(** A map is written as the struct of its members in the order of their keys. *)
Lemma sorted_members {B} (f : string → json → B) (fields : list (string * json)) :
  merge_sort field_le ((λ e : string * json, (e.1, f e.1 e.2)) <$> fields) =
  (λ e : string * json, (e.1, f e.1 e.2)) <$> merge_sort field_le fields.
Proof. symmetry. by apply (merge_sort_fmap field_le field_le). Qed.

Lemma marshal_obj fields : marshal (JObj fields) = marshal (JStruct (merge_sort field_le fields)).
Proof.
  change (marshal (JStruct ?l)) with ("{" +:+ Join ((λ '(k, v), quoted k +:+ ":" +:+ marshal v) <$> l) "," +:+ "}").
  set (go := fix go (l : list (string * json)) : list (string * string) :=
    match l with [] => [] | (k, v) :: r => (k, quoted k +:+ ":" +:+ marshal v) :: go r end).
  change (marshal (JObj fields)) with ("{" +:+ Join (snd <$> merge_sort field_le (go fields)) "," +:+ "}").
  assert (Hgo : ∀ l, go l = (λ e : string * json, (e.1, quoted e.1 +:+ ":" +:+ marshal e.2)) <$> l).
  { induction l as [|[k v] l IH]; [done|]. simpl. by rewrite IH. }
  rewrite Hgo, (sorted_members (λ k v, quoted k +:+ ":" +:+ marshal v)), <- list_fmap_compose.
  do 3 f_equal. apply list_fmap_ext. by intros i [k v] _.
Qed.

Lemma read_back_obj fields : read_back (JObj fields) = read_back (JStruct (merge_sort field_le fields)).
Proof.
  simpl. set (go := fix go (l : list (string * json)) : list (string * value) :=
    match l with [] => [] | (k, j) :: r => (k, read_back j) :: go r end).
  assert (Hgo : ∀ l, go l = (λ e : string * json, (e.1, read_back e.2)) <$> l).
  { induction l as [|[k v] l IH]; [done|]. simpl. by rewrite IH. }
  rewrite Hgo, (sorted_members (λ _, read_back)). do 2 f_equal. apply list_fmap_ext. by intros i [k v] _.
Qed.

Lemma nesting_obj fields : nesting (JObj fields) = Z.succ <$> deepest ((λ e, nesting e.2) <$> fields).
Proof.
  simpl. do 2 f_equal. induction fields as [|[k v] fields IH]; [done|]. simpl. by rewrite IH.
Qed.

Lemma marshal_readable j : ∀ depth n, nesting j = Some n → depth + n <= maxNestingDepth → readable depth j.
Proof.
  assert (Hin : ∀ depth d n, Z.succ <$> d = Some n → depth + n <= maxNestingDepth →
    (∀ m, d = Some m → 0 <= m) → (maxNestingDepth <=? depth) = false ∧ ∃ m, d = Some m ∧ (depth + 1) + m <= maxNestingDepth).
  { intros depth [m|] n; [|done]. intros [= <-] Hle Hm. specialize (Hm m eq_refl). split; [lia|]. exists m. split; [done|lia]. }
  assert (Hdeep : ∀ (l : list (option Z)) m, deepest l = Some m → 0 <= m) by (intros l m Hm; by apply deepest_each in Hm as [? _]).
  induction j as [s|z|b|raw| |items IH|fields IH|fields IH] using json_nested_ind; intros depth n Hn Hle.
  - exists 1%nat. intros [|g] Hg; [lia|]. apply holds_quoted.
  - exists 1%nat. intros [|g] Hg; [lia|]. apply holds_int.
  - exists 1%nat. intros [|g] Hg; [lia|]. apply holds_bool.
  - done.
  - exists 1%nat. intros [|g] Hg; [lia|]. apply holds_null.
  - destruct (Hin depth (deepest (nesting <$> items)) n Hn Hle (Hdeep _)) as (Hd & m & Hm & Hle').
    destruct (deepest_each _ _ Hm) as [_ Hall].
    destruct (readable_all (λ x, x) (depth + 1) items) as [fuel Hf].
    { rewrite Forall_forall in *. intros x Hx. destruct (Hall (nesting x)) as (k & Hk & Hkm); [by apply list_elem_of_fmap_2|].
      apply (IH x Hx _ k Hk). lia. }
    set (l := (λ x, (marshal x, read_back x)) <$> items).
    exists (S (length l + fuel)). intros g Hg.
    assert (Hh := holds_array fuel depth l Hd ltac:(by apply Forall_fmap) g Hg).
    unfold l in Hh. rewrite <- !list_fmap_compose in Hh. exact Hh.
  - change (nesting (JStruct fields)) with (Z.succ <$> deepest ((λ '(_, v), nesting v) <$> fields)) in Hn.
    destruct (Hin depth _ n Hn Hle (Hdeep _)) as (Hd & m & Hm & Hle'). destruct (deepest_each _ _ Hm) as [_ Hall].
    apply (readable_members depth fields Hd). rewrite Forall_forall in *. intros [k x] Hx.
    destruct (Hall (nesting x)) as (d & Hk & Hkm); [by apply (list_elem_of_fmap_2 (λ '(_, v), nesting v) _ (k, x))|].
    apply (IH (k, x) Hx _ d Hk). lia.
  - rewrite nesting_obj in Hn.
    destruct (Hin depth _ n Hn Hle (Hdeep _)) as (Hd & m & Hm & Hle'). destruct (deepest_each _ _ Hm) as [_ Hall].
    unfold readable. rewrite marshal_obj, read_back_obj.
    apply (readable_members depth (merge_sort field_le fields) Hd). rewrite Forall_forall in *. intros [k x] Hx.
    rewrite merge_sort_Permutation in Hx.
    destruct (Hall (nesting x)) as (d & Hk & Hkm); [by apply (list_elem_of_fmap_2 (λ e : string * json, nesting e.2) _ (k, x))|].
    apply (IH (k, x) Hx _ d Hk). lia.
Qed.

(** [json.Decoder] reads what [json.Marshal] wrote. *)
Lemma marshal_reads j n : nesting j = Some n → n <= maxNestingDepth → Decode (marshal j) = Some (read_back j).
Proof.
  intros Hn Hle. destruct (marshal_readable j 0 n Hn ltac:(lia)) as [fuel Hf].
  set (enough := (S (2 * String.length (marshal j)) + fuel)%nat). destruct (Hf enough ltac:(unfold enough; lia)) as [[Hsk _] Hb].
  specialize (Hb "" I). rewrite append_nil_r in Hb. rewrite <- (Decode_fuel _ enough) by (unfold enough; lia). by rewrite Hsk, Hb.
Qed.

(** ** A value in a struct *)

Definition as_object (v : value) : option (list (string * value)) :=
  match v with VObject m => Some m | VNull => Some [] | _ => None end.

(** The member a field is read from: an exact name, or else one that differs in case.  A text that
    spells a field twice is read spelling by spelling in its order; such texts are not modelled. *)
Definition field (name : string) (m : list (string * value)) : value :=
  match filter (λ e, e.1 = name) m, filter (λ e, ToLower e.1 = ToLower name) (reverse m) with
  | e :: _, _ => e.2
  | [], e :: _ => e.2
  | [], [] => VNull
  end.

(** [null], or no member, leaves the field as it is. *)
Definition as_string (v : value) : option string :=
  match v with VString s => Some s | VNull => Some EmptyString | _ => None end.
Definition as_bool (v : value) : option bool :=
  match v with VBool b => Some b | VNull => Some false | _ => None end.
Definition as_list {A} (f : value → option A) (v : value) : option (list A) :=
  match v with VArray items => mapM f items | VNull => Some [] | _ => None end.

Lemma mapM_as_string l : mapM as_string (read_back <$> (JStr <$> l)) = Some (coerced <$> l).
Proof. induction l as [|s l IH]; [done|]. rewrite !fmap_cons. cbn [mapM]. by rewrite IH. Qed.
