(* ===== verification/Canonical.v ===== *)
(** * Canonical: internal/canonical

    The hash that tells a retry from another request under the same key.  Numbers that a double
    does not hold are refused first, so that what is hashed determines the numbers.  The JCS
    transform is third-party code and a parameter. *)

From S2P Require Import Prelude GoString GoFloat GoTime Sha256 Manifest Conflict World Json Claim Config Downstream.
From S2P Require Import ResultStore Api JsonDecode JsonRound.

Definition Prefix : string := "sha256-jcs-v1:".

Record hRequest := mkHRequest {
  q_AgentID : string;
  q_Operation : string;
  q_Payload : string;
  q_ResourceID : string;
  q_ResourceType : string;
}.

(** ** Numbers *)

(** The exponent digits, as [strconv] reads them: past 10000 more digits are dropped. *)
Definition exponent_value (l : list Z) : Z := fold_left (λ e d, if e <? 10000 then 10 * e + d else e) l 0.

Definition read_exponent (s : string) : Z :=
  match s with
  | EmptyString => 0
  | String c r =>
      if (byte_val c =? 101) || (byte_val c =? 69) then
        match r with
        | String d r' =>
            if byte_val d =? 45 then - exponent_value (leading_digits r').1
            else if byte_val d =? 43 then exponent_value (leading_digits r').1
            else exponent_value (leading_digits r).1
        | EmptyString => 0
        end
      else 0
  end.

(** A literal of the JSON grammar as sign, decimal digits and power of ten. *)
Definition read_literal (lit : string) : bool * list Z * Z :=
  let neg := head_is 45 lit in
  let '(whole, s) := leading_digits (if neg then drop_bytes 1 lit else lit) in
  let '(fraction, s) := if head_is 46 s then leading_digits (drop_bytes 1 s) else ([], s) in
  (neg, whole ++ fraction, read_exponent s - Z.of_nat (length fraction)).

(** [strconv.ParseFloat(lit, 64)] but for its range error: the nearest double. *)
Definition ParseFloat (lit : string) : spec_float :=
  let '(neg, digits, e) := read_literal lit in
  let signed z := if neg : bool then - z else z in
  if 0 <=? e then binary_normalize 53 1024 (signed (decimal_value digits * 10 ^ e)) 0 neg
  else
    match decimal_value digits with
    | Z.pos m => float64_div (S754_finite neg m 0) (S754_finite false (10 ^ Z.to_pos (- e)) 0)
    | _ => S754_zero neg
    end.

Definition is_finite (f : spec_float) : bool :=
  match f with S754_zero _ | S754_finite _ _ _ => true | _ => false end.

(** [strings.ContainsAny(text, ".eE")]. *)
Fixpoint isIntegerLiteral (text : string) : bool :=
  match text with
  | EmptyString => true
  | String c r => negb ((byte_val c =? 46) || (byte_val c =? 101) || (byte_val c =? 69)) && isIntegerLiteral r
  end.

Definition checkNumber (number : string) : option goerr :=
  let asFloat := ParseFloat number in
  if negb (is_finite asFloat)
  then Some (wrap ("number " +:+ number +:+ " is not representable as a double")
              (errorf ("strconv.ParseFloat: parsing " +:+ String quote_char (number +:+ String quote_char "") +:+
                       ": value out of range")))
  else if isIntegerLiteral number && SFltb (float64_of_int maxSafeInteger) (SFabs asFloat)
  then Some (errorf ("integer " +:+ number +:+ " is outside the exactly representable range"))
  else None.

(** The first error; of several errors in one object the program reports any. *)
Fixpoint walk (v : value) : option goerr :=
  match v with
  | VObject members =>
      (fix go (l : list (string * value)) : option goerr :=
         match l with
         | [] => None
         | (_, x) :: r => match walk x with Some e => Some e | None => go r end
         end) members
  | VArray items =>
      (fix go (l : list value) : option goerr :=
         match l with
         | [] => None
         | x :: r => match walk x with Some e => Some e | None => go r end
         end) items
  | VNumber number => checkNumber number
  | _ => None
  end.

Definition validateNumbers (payload : string) : option goerr :=
  match Decode payload with
  | None => Some (errorf "payload is not valid JSON")
  | Some v => walk v
  end.

(** ** The hash *)

Section Hash.
(** [jcs.Transform]. *)
Context (Transform : string → goerr + string).

Definition Canonicalize (document : string) : goerr + string :=
  match Transform document with
  | inl e => inl (wrap "canonicalize" e)
  | inr canonical => inr canonical
  end.

Definition payload_of (r : hRequest) : string := if String.eqb (q_Payload r) "" then "null" else q_Payload r.

Definition request_json (r : hRequest) : json :=
  JObj [("agent_id", JStr (q_AgentID r)); ("operation", JStr (q_Operation r)); ("payload", JRaw (payload_of r));
        ("resource_id", JStr (q_ResourceID r)); ("resource_type", JStr (q_ResourceType r))].

Definition Hash (r : hRequest) : goerr + string :=
  match validateNumbers (payload_of r) with
  | Some e => inl e
  | None =>
      match Marshal (request_json r) with
      | inl e => inl (wrap "encode request" e)
      | inr document =>
          match Canonicalize document with
          | inl e => inl e
          | inr canonical => inr (Prefix +:+ EncodeToString (Sum256 canonical))
          end
      end
  end.

(** The hash of a write, as [handleWrite] asks for it. *)
Definition hash_of (req : writeRequest) : goerr + string :=
  Hash (mkHRequest (wr_AgentID req) (wr_Operation req) (wr_Payload req) (wr_ResourceID req) (wr_ResourceType req)).
End Hash.

(** ** Lemmas *)

(** The number literals of a value. *)
Fixpoint numbers (v : value) : list string :=
  match v with
  | VObject members => mjoin ((λ '(_, x), numbers x) <$> members)
  | VArray items => mjoin (numbers <$> items)
  | VNumber number => [number]
  | _ => []
  end.

Definition accepted (number : string) : Prop := checkNumber number = None.

Lemma walk_accepts : ∀ v, walk v = None ↔ Forall accepted (numbers v).
Proof.
  fix IH 1. intros [ |b|number|s|items|members]; simpl; [by split..| | | |]; [|by split| |].
  - rewrite Forall_singleton. done.
  - induction items as [|x items IHl]; csimpl; [by split|]. rewrite Forall_app, <- IHl, <- (IH x). clear IH IHl.
    destruct (walk x); naive_solver.
  - induction members as [|[k x] members IHl]; csimpl; [by split|]. rewrite Forall_app, <- IHl, <- (IH x). clear IH IHl.
    destruct (walk x); naive_solver.
Qed.

(** An integer literal: a sign and digits. *)
Definition integer_literal (neg : bool) (l : list Z) : string :=
  if neg then String "-" (digits_text l) else digits_text l.

Definition literal_value (neg : bool) (l : list Z) : Z := if neg then - decimal_value l else decimal_value l.

Lemma digit_text_cases d : 0 <= d <= 9 → byte_val (byte_of (48 + d)) = 48 + d.
Proof. intros Hd. apply byte_of_val. lia. Qed.

Lemma digits_head l r : is_digits l → head_is 45 (digits_text l +:+ r) = head_is 45 r ∨ head_is 45 (digits_text l +:+ r) = false.
Proof.
  intros Hl. destruct Hl as [|d l Hd _]; [by left|right]. simpl. rewrite digit_text_cases by done.
  apply Z.eqb_neq. lia.
Qed.

Lemma read_integer neg l : is_digits l → read_literal (integer_literal neg l) = (neg, l, 0).
Proof.
  intros Hl. unfold read_literal, integer_literal.
  assert (Hread : leading_digits (digits_text l) = (l, EmptyString)).
  { rewrite <- (append_nil_r (digits_text l)). by apply leading_digits_text. }
  destruct neg.
  - change (head_is 45 (String "-" (digits_text l))) with true. cbn [drop_bytes]. 
    replace (drop_bytes 0 (digits_text l)) with (digits_text l) by (by destruct (digits_text l)).
    rewrite Hread. simpl. by rewrite app_nil_r.
  - assert (Hh : head_is 45 (digits_text l) = false).
    { rewrite <- (append_nil_r (digits_text l)). by destruct (digits_head l "" Hl). }
    rewrite Hh, Hread. simpl. by rewrite app_nil_r.
Qed.

Lemma integer_is_literal neg l : is_digits l → isIntegerLiteral (integer_literal neg l) = true.
Proof.
  intros Hl. assert (H : isIntegerLiteral (digits_text l) = true).
  { induction Hl as [|d l Hd _ IH]; [done|]. simpl. rewrite digit_text_cases by done.
    change (bytes_of_codes (list_fmap Z Z (λ d, 48 + d) l)) with (digits_text l). rewrite IH, andb_true_r.
    apply negb_true_iff. repeat (apply orb_false_iff; split); apply Z.eqb_neq; lia. }
  by destruct neg.
Qed.

(** The double of an integer literal is the double of the integer, up to the sign of zero. *)
Lemma ParseFloat_integer neg l :
  is_digits l →
  ParseFloat (integer_literal neg l) = binary_normalize 53 1024 (literal_value neg l) 0 neg.
Proof. intros Hl. unfold ParseFloat. rewrite read_integer by done. simpl. by rewrite Z.mul_1_r. Qed.

Lemma normalize_sign n szero :
  is_finite (binary_normalize 53 1024 n 0 szero) = is_finite (float64_of_int n) ∧
  SFabs (binary_normalize 53 1024 n 0 szero) = SFabs (float64_of_int n) ∧
  int_of_float64 (binary_normalize 53 1024 n 0 szero) = int_of_float64 (float64_of_int n).
Proof. by destruct n. Qed.

Lemma finite_small n : Z.abs n <= maxSafeInteger → is_finite (float64_of_int n) = true.
Proof.
  assert (Hpos : ∀ sx p, Z.pos p <= maxSafeInteger → is_finite (binary_round 53 1024 sx p 0) = true).
  { intros sx p (m & e & -> & _)%digits2_small%(binary_round_small sx). done. }
  destruct n as [|p|p]; [done|exact (Hpos false p)|exact (Hpos true p)].
Qed.

Lemma checkNumber_integer neg l :
  is_digits l →
  let n := literal_value neg l in
  (accepted (integer_literal neg l) ↔ Z.abs n <= maxSafeInteger) ∧
  (accepted (integer_literal neg l) → int_of_float64 (ParseFloat (integer_literal neg l)) = n).
Proof.
  intros Hl n. unfold accepted, checkNumber. rewrite integer_is_literal, ParseFloat_integer by done. fold n.
  destruct (normalize_sign n neg) as (-> & -> & ->). destruct (safe_integer n) as [-> Hexact]. simpl.
  assert (Hiff : (if negb (is_finite (float64_of_int n)) then false else if maxSafeInteger <? Z.abs n then false else true) = true
    ↔ Z.abs n <= maxSafeInteger).
  { destruct (Z.ltb_spec maxSafeInteger (Z.abs n)); [destruct (is_finite _); simpl; split; [done|lia|done|lia]|].
    rewrite finite_small by done. done. }
  split; [|intros Ha; apply Hexact; apply Hiff]; destruct (negb _), (maxSafeInteger <? Z.abs n); naive_solver.
Qed.

Lemma payload_nonempty r : String.eqb (payload_of r) "" = false.
Proof. unfold payload_of. destruct (String.eqb_spec (q_Payload r) ""); [done|]. by apply String.eqb_neq. Qed.

Lemma Marshal_request r :
  Marshal (request_json r) =
    if Valid (payload_of r) then inr (marshal (request_json r)) else inl (errorf "json: error calling MarshalJSON").
Proof. unfold Marshal. simpl raws_valid. rewrite payload_nonempty. simpl. by rewrite andb_true_r. Qed.

Lemma Hash_exact Transform r h :
  Hash Transform r = inr h ↔
  ∃ v canonical, Decode (payload_of r) = Some v ∧ Forall accepted (numbers v) ∧ Valid (payload_of r) = true ∧
    Transform (marshal (request_json r)) = inr canonical ∧ h = Prefix +:+ EncodeToString (Sum256 canonical).
Proof.
  unfold Hash, validateNumbers, Canonicalize. rewrite Marshal_request. split.
  - destruct (Decode (payload_of r)) as [v|]; [|done]. destruct (walk v) eqn:Hw; [done|].
    apply walk_accepts in Hw. destruct (Valid (payload_of r)) eqn:Hv; [|done].
    destruct (Transform _) as [|canonical] eqn:Ht; [done|]. intros [= <-]. by exists v, canonical.
  - intros (v & canonical & -> & Hn & -> & -> & ->). apply walk_accepts in Hn. by rewrite Hn.
Qed.

(** ** Theorem *)

(** C29: [canonical.Hash] succeeds exactly when the payload is valid JSON, every number in it is
    accepted and the JCS transform of the request's document succeeds, and the hash is then the
    prefix and the SHA-256 of the transformed document.  In a payload that is hashed every
    integer literal is below 2^53 in size and is the double it is read as, so no two integers
    are taken for one; a payload with a larger one is refused. *)
Theorem hash_exact (Transform : string → goerr + string) (r : hRequest) :
  (∀ h, Hash Transform r = inr h ↔
     ∃ v canonical, Decode (payload_of r) = Some v ∧ Forall accepted (numbers v) ∧ Valid (payload_of r) = true ∧
       Transform (marshal (request_json r)) = inr canonical ∧ h = Prefix +:+ EncodeToString (Sum256 canonical)) ∧
  (∀ v neg l, Decode (payload_of r) = Some v → is_digits l → integer_literal neg l ∈ numbers v →
     (Z.abs (literal_value neg l) <= maxSafeInteger ∧
        int_of_float64 (ParseFloat (integer_literal neg l)) = literal_value neg l) ∨
     ∃ e, Hash Transform r = inl e).
Proof.
  split; [intros h; apply Hash_exact|]. intros v neg l Hv Hl Hin.
  destruct (Hash Transform r) as [e|h] eqn:Hh; [right; by exists e|left].
  apply Hash_exact in Hh as (v' & canonical & Hv' & Hn & _). rewrite Hv in Hv'. injection Hv' as <-.
  rewrite Forall_forall in Hn. specialize (Hn _ Hin). destruct (checkNumber_integer neg l Hl) as [Hiff Hval].
  split; [by apply Hiff|by apply Hval].
Qed.

Example check_examples :
  ((λ n, match checkNumber n with None => true | Some _ => false end) <$>
    ["0"; "-0"; "9007199254740991"; "9007199254740992"; "-9007199254740993"; "9007199254740993.0"; "1e400"; "1e308"; "0.1"]) =
  [true; true; true; false; false; true; false; true; true].
Proof. by vm_compute. Qed.

(** 2^53 + 1 is refused and 42 is not. *)
Definition array_request (payload : string) : hRequest := mkHRequest "a" "close" payload "7" "ticket".

Lemma hash_exact_witness :
  (∃ e, Hash inr (array_request "[9007199254740993]") = inl e) ∧
  (∃ h, Hash inr (array_request "[42]") = inr h ∧ Valid "[42]" = true).
Proof.
  split.
  - destruct (hash_exact inr (array_request "[9007199254740993]")) as [_ Hint].
    destruct (Hint (VArray [VNumber "9007199254740993"]) false [9;0;0;7;1;9;9;2;5;4;7;4;0;9;9;3]) as [[Hle _]|He].
    + vm_compute. reflexivity.
    + repeat (apply Forall_cons; split; [lia|]). apply Forall_nil. exact I.
    + left.
    + exfalso. revert Hle. vm_compute. intros Hle. exact (Hle eq_refl).
    + exact He.
  - destruct (hash_exact inr (array_request "[42]")) as [Hiff _].
    destruct (Hash inr (array_request "[42]")) as [e|h] eqn:Hh; [exfalso; vm_compute in Hh; discriminate Hh|].
    exists h. split; [reflexivity|]. destruct (proj1 (Hiff h) eq_refl) as (v & c & _ & _ & Hv & _). exact Hv.
Defined.

(** ** What a hash stands for *)

Fixpoint member (k : string) (m : list (string * value)) : option value :=
  match m with
  | [] => None
  | (k', x) :: rest => if String.eqb k' k then Some x else member k rest
  end.

(** The same value: numbers are the same double, the order of the members is left out. *)
Fixpoint same_value (v w : value) {struct v} : bool :=
  match v, w with
  | VNull, VNull => true
  | VBool a, VBool b => Bool.eqb a b
  | VNumber m, VNumber n => SFeqb (ParseFloat m) (ParseFloat n)
  | VString a, VString b => String.eqb a b
  | VArray xs, VArray ys =>
      (fix go (xs ys : list value) : bool :=
         match xs, ys with
         | [], [] => true
         | x :: xs, y :: ys => same_value x y && go xs ys
         | _, _ => false
         end) xs ys
  | VObject ms, VObject ns =>
      (length ms =? length ns)%nat &&
      (fix go (ms : list (string * value)) : bool :=
         match ms with
         | [] => true
         | (k, x) :: ms => match member k ns with Some y => same_value x y | None => false end && go ms
         end) ms
  | _, _ => false
  end.

(** The value a document holds.  The document nests one level deeper than its payload, and the
    transform has no nesting limit, so the limit is one more than [Decode]'s. *)
Definition document_value (text : string) : option value :=
  fst <$> parse_value (S (2 * String.length text)) (-1) (skip_space text).

(** RFC 8785: two documents of UTF-8 have one canonical form exactly when they hold the same value. *)
Definition canonicalizes (Transform : string → goerr + string) : Prop :=
  ∀ d1 d2 c1 c2 v1 v2,
    Transform d1 = inr c1 → Transform d2 = inr c2 → ValidString d1 = true → ValidString d2 = true →
    document_value d1 = Some v1 → document_value d2 = Some v2 → (c1 = c2 ↔ same_value v1 v2 = true).

(** The members of the document and their texts and values. *)
Definition request_members (r : hRequest) (v : value) : list (string * string * value) :=
  [("agent_id", quoted (q_AgentID r), VString (coerced (q_AgentID r)));
   ("operation", quoted (q_Operation r), VString (coerced (q_Operation r)));
   ("payload", compact (payload_of r), v);
   ("resource_id", quoted (q_ResourceID r), VString (coerced (q_ResourceID r)));
   ("resource_type", quoted (q_ResourceType r), VString (coerced (q_ResourceType r)))].

Definition request_value (r : hRequest) (v : value) : value := VObject (fold_left add_member (request_members r v) []).

Lemma marshal_request r v : marshal (request_json r) =
  String (byte_of 123) (member_texts (fst <$> request_members r v) +:+ String (byte_of 125) "").
Proof.
  assert (Hp : marshal (JRaw (payload_of r)) = compact (payload_of r)).
  { pose proof (payload_nonempty r) as Hne. unfold marshal. by rewrite Hne. }
  unfold request_members. rewrite <- Hp. reflexivity.
Qed.

(** The document is read as the request's parts, the payload as what the decoder read. *)
Lemma document_request r v : Decode (payload_of r) = Some v → Valid (payload_of r) = true →
  document_value (marshal (request_json r)) = Some (request_value r v).
Proof.
  intros Hd Hv. set (fuel := S (2 * String.length (payload_of r))). set (doc := marshal (request_json r)).
  assert (Hobj : ∀ g, (S (5 + fuel) <= g)%nat → holds g (-1) doc (request_value r v)).
  { unfold doc. rewrite (marshal_request r v). apply (holds_object fuel (-1) (request_members r v)); [done|done|].
    repeat (apply Forall_cons; split; [intros g Hg|]); try apply Forall_nil; try done;
      try (destruct g; [lia|]; apply holds_quoted).
    destruct (decode_compact (payload_of r) v g Hd Hv Hg) as [Hb Hst]. by split. }
  unfold document_value. set (enough := S (2 * String.length doc)).
  destruct (Hobj (enough + S (5 + fuel))%nat ltac:(lia)) as [[Hsk _] Hb]. specialize (Hb "" I). rewrite append_nil_r in Hb.
  rewrite Hsk. destruct (parse_enough enough (enough + S (5 + fuel)) ltac:(lia)) as (He & _).
  rewrite He in Hb by lia. by rewrite Hb.
Qed.

Lemma document_utf8 r : Valid (payload_of r) = true → ValidString (payload_of r) = true →
  ValidString (marshal (request_json r)) = true.
Proof.
  intros Hv Hu. rewrite (marshal_request r VNull). pose proof (compact_utf8 _ Hv Hu) as Hc.
  change (String (byte_of 123) ?x) with (String (byte_of 123) "" +:+ x).
  apply (ValidString_app (String (byte_of 123) "")); [done|]. apply ValidString_app; [|done].
  apply member_texts_utf8. repeat (apply Forall_cons; split; [try apply quoted_utf8; exact Hc|]). by apply Forall_nil.
Qed.

(** The requests are the same: the same fields, and payloads that hold the same value. *)
Definition same_request (r1 r2 : hRequest) : Prop :=
  coerced (q_AgentID r1) = coerced (q_AgentID r2) ∧ coerced (q_Operation r1) = coerced (q_Operation r2) ∧
  coerced (q_ResourceID r1) = coerced (q_ResourceID r2) ∧ coerced (q_ResourceType r1) = coerced (q_ResourceType r2) ∧
  ∃ v1 v2, Decode (payload_of r1) = Some v1 ∧ Decode (payload_of r2) = Some v2 ∧ same_value v1 v2 = true.

Lemma request_value_members r v : request_value r v =
  VObject [("agent_id", VString (coerced (q_AgentID r))); ("operation", VString (coerced (q_Operation r))); ("payload", v);
           ("resource_id", VString (coerced (q_ResourceID r))); ("resource_type", VString (coerced (q_ResourceType r)))].
Proof. reflexivity. Qed.

Lemma same_request_value r1 r2 v1 v2 : Decode (payload_of r1) = Some v1 → Decode (payload_of r2) = Some v2 →
  same_value (request_value r1 v1) (request_value r2 v2) = true ↔ same_request r1 r2.
Proof.
  intros H1 H2. unfold same_request. rewrite H1, H2, !request_value_members.
  change (same_value (VObject _) (VObject _)) with
    (String.eqb (coerced (q_AgentID r1)) (coerced (q_AgentID r2)) &&
     (String.eqb (coerced (q_Operation r1)) (coerced (q_Operation r2)) &&
      (same_value v1 v2 &&
       (String.eqb (coerced (q_ResourceID r1)) (coerced (q_ResourceID r2)) &&
        (String.eqb (coerced (q_ResourceType r1)) (coerced (q_ResourceType r2)) && true))))).
  rewrite !andb_true_iff, !String.eqb_eq. naive_solver.
Qed.

(** C28: under the RFC's law for the JCS transform, and for payloads that are UTF-8, two hashed
    requests have the same hash exactly when they are the same request: the same agent,
    operation, resource and type, and payloads that hold the same value whatever their spelling,
    spacing and member order.  The only other way to one hash is a SHA-256 collision between
    the two canonical documents, which the theorem then exhibits. *)
Theorem hash_identifies (Transform : string → goerr + string) (r1 r2 : hRequest) (h1 h2 : string) :
  canonicalizes Transform →
  ValidString (payload_of r1) = true → ValidString (payload_of r2) = true →
  Hash Transform r1 = inr h1 → Hash Transform r2 = inr h2 →
  (same_request r1 r2 → h1 = h2) ∧
  (h1 = h2 → same_request r1 r2 ∨
     ∃ c1 c2, Transform (marshal (request_json r1)) = inr c1 ∧ Transform (marshal (request_json r2)) = inr c2 ∧
       c1 ≠ c2 ∧ Sum256 c1 = Sum256 c2).
Proof.
  intros Hlaw Hu1 Hu2 (v1 & c1 & Hd1 & _ & Hv1 & Ht1 & ->)%Hash_exact (v2 & c2 & Hd2 & _ & Hv2 & Ht2 & ->)%Hash_exact.
  pose proof (Hlaw _ _ _ _ _ _ Ht1 Ht2 (document_utf8 _ Hv1 Hu1) (document_utf8 _ Hv2 Hu2)
    (document_request _ _ Hd1 Hv1) (document_request _ _ Hd2 Hv2)) as Hiff.
  rewrite same_request_value in Hiff by done. split.
  - intros ->%Hiff. done.
  - intros Hsum%(inj (String.append Prefix))%EncodeToString_inj; [|apply Sum256_bytes..]. destruct (String.eqb_spec c1 c2) as [He|He].
    + left. by apply Hiff.
    + right. by exists c1, c2.
Qed.

(** A transform that knows three documents, two of them spellings of one request. *)
Definition request_one : hRequest := array_request "[1, {}]".
Definition request_one_again : hRequest := array_request " [ 1.0, { } ] ".
Definition request_two : hRequest := array_request "[2, {}]".

Definition document_one : string := Eval vm_compute in marshal (request_json request_one).
Definition document_one_again : string := Eval vm_compute in marshal (request_json request_one_again).
Definition document_two : string := Eval vm_compute in marshal (request_json request_two).

Definition known_transform (d : string) : goerr + string :=
  if String.eqb d document_one || String.eqb d document_one_again then inr document_one
  else if String.eqb d document_two then inr document_two
  else inl (errorf "unknown document").

Lemma known_transform_canonicalizes : canonicalizes known_transform.
Proof.
  assert (Hknown : ∀ d c, known_transform d = inr c →
    (d = document_one ∨ d = document_one_again) ∧ c = document_one ∨ d = document_two ∧ c = document_two).
  { intros d c. unfold known_transform. destruct (String.eqb_spec d document_one); simpl; [intros [= <-]; auto|].
    destruct (String.eqb_spec d document_one_again); [intros [= <-]; auto|].
    destruct (String.eqb_spec d document_two); [intros [= <-]; auto|done]. }
  intros d1 d2 c1 c2 v1 v2 H1%Hknown H2%Hknown _ _ Hv1 Hv2.
  destruct H1 as [[[->| ->] ->]|[-> ->]], H2 as [[[->| ->] ->]|[-> ->]];
    vm_compute in Hv1; vm_compute in Hv2; injection Hv1 as <-; injection Hv2 as <-; vm_compute; split; intros; (reflexivity || discriminate).
Qed.

Lemma hash_identifies_witness :
  (∃ h, Hash known_transform request_one = inr h ∧ Hash known_transform request_one_again = inr h) ∧
  same_request request_one request_one_again ∧ ¬ same_request request_one request_two.
Proof.
  assert (Hsame : same_request request_one request_one_again).
  { unfold same_request. split_and!; try reflexivity.
    exists (VArray [VNumber "1"; VObject []]), (VArray [VNumber "1.0"; VObject []]). split_and!; vm_compute; reflexivity. }
  split; [|split; [exact Hsame|]].
  - destruct (Hash known_transform request_one) as [e|h1] eqn:H1; [exfalso; vm_compute in H1; discriminate H1|].
    destruct (Hash known_transform request_one_again) as [e|h2] eqn:H2; [exfalso; vm_compute in H2; discriminate H2|].
    exists h1. split; [reflexivity|]. f_equal. symmetry.
    apply (hash_identifies known_transform request_one request_one_again h1 h2);
      [exact known_transform_canonicalizes|vm_compute; reflexivity|vm_compute; reflexivity|exact H1|exact H2|exact Hsame].
  - intros (_ & _ & _ & _ & v1 & v2 & Hv1 & Hv2 & Hs). vm_compute in Hv1, Hv2. injection Hv1 as <-. injection Hv2 as <-.
    vm_compute in Hs. discriminate Hs.
Defined.
