(* ===== verification/Reads.v ===== *)
(** * Reads: internal/api (reads.go, audit.go)

    The list endpoints: the bounded window, the cursor, keyset pagination, and the redaction of
    payloads.  A payload leaves only for an investigator with a stated reason, in the
    transaction that records the access.  The process runs in UTC. *)

From S2P Require Import Prelude GoString GoTime Sha256 Base64 Manifest Conflict World Json Claim Config.
From S2P Require Import Downstream ResultStore Api.

(** ** Cursors *)

Record cursor := mkCursor { At : Z; ID : string }.

Definition encodeCursor (at_ : Z) (id : string) : string :=
  EncodeToString (FormatRFC3339Nano at_ +:+ "|" +:+ id).

(** [strings.Cut(s, "|")]. *)
Fixpoint cut_bar (s : string) : option (string * string) :=
  match s with
  | EmptyString => None
  | String c r =>
      if byte_val c =? 124 then Some (EmptyString, r)
      else '(a, b) ← cut_bar r; Some (String c a, b)
  end.

Definition decodeCursor (raw : string) : goerr + cursor :=
  match DecodeString raw with
  | None => inl (errorf "cursor is not valid base64url")
  | Some decoded =>
      match cut_bar decoded with
      | None => inl (errorf "cursor is malformed")
      | Some (at_, id) =>
          match ParseRFC3339 at_ with
          | None => inl (errorf "cursor carries no timestamp")
          | Some parsed =>
              if negb (isUUID (ToLower id)) then inl (errorf "cursor carries no identifier")
              else inr (mkCursor parsed id)
          end
      end
  end.

(** ** Requests *)

(** [url.Values] and its [Get]. *)
Abbreviation Values := (gmap string (list string)).
Definition Get_value (v : Values) (key : string) : string := default "" (v !! key ≫= head).

Record read_request := mkReadRequest {
  rq_http : http_request;
  rq_reason : string;
  rq_query : Values;
  rq_path : string;
  rq_resource_type : string;
  rq_resource_id : string;
}.

Record window := mkWindow {
  since : Z;
  until : Z;
  limit : Z;
  w_cursor : option cursor;
}.

Definition defaultLimit : Z := 100.
Definition maxLimit : Z := 1000.
Definition headerReason : string := "X-Idemio-Reason".
Definition RoleOperator : string := "operator".
Definition RoleInvestigator : string := "investigator".

Section Window.
Context (s : Server) (r : read_request).

Definition Get_query (key : string) : string := Get_value (rq_query r) key.

(** The limit: its default, or the number given if it is in range. *)
Definition readLimit : string + Z :=
  let raw := Get_query "limit" in
  if String.eqb raw "" then inr defaultLimit
  else
    match ParseInt raw with
    | inr n => if (n <? 1) || (maxLimit <? n)
               then inl ("limit must be between 1 and " +:+ Itoa maxLimit) else inr n
    | inl _ => inl ("limit must be between 1 and " +:+ Itoa maxLimit)
    end.

Definition readCursor : string + option cursor :=
  let raw := Get_query "cursor" in
  if String.eqb raw "" then inr None
  else match decodeCursor raw with inl e => inl (e_text e) | inr c => inr (Some c) end.

(** The end of the range: the current time unless one is given. *)
Definition readUntil (current : Z) : string + Z :=
  let raw := Get_query "until" in
  if String.eqb raw "" then inr current
  else match ParseRFC3339 raw with
       | None => inl "until must be an RFC 3339 timestamp"
       | Some t => inr t
       end.

Definition readWindow : M (string + window) :=
  let raw := Get_query "since" in
  if String.eqb raw "" then
    mret (inl "since is required; an unbounded read scans every retained partition")
  else
    match ParseRFC3339 raw with
    | None => mret (inl "since must be an RFC 3339 timestamp")
    | Some since =>
        current ← now;
        mret (match readUntil current with
              | inl problem => inl problem
              | inr until =>
                  if negb (since <? until) then inl "until must be after since"
                  else if ReadMaxSpan (cfg s) <? Sub until since then
                    inl ("the range spans " +:+ Duration_String (Round Hour (Sub until since)) +:+
                         "; the maximum is " +:+ Duration_String (ReadMaxSpan (cfg s)) +:+
                         ". Page with cursor rather than widening the window")
                  else
                    match readLimit with
                    | inl problem => inl problem
                    | inr limit =>
                        match readCursor with
                        | inl problem => inl problem
                        | inr c => inr (mkWindow since until limit c)
                        end
                    end
              end)
    end.

Definition readerIdentity : response + identity :=
  match readIdentity (rq_http r) with
  | None => inl (writeProblem 401 "" "missing_identity" "")
  | Some caller =>
      if negb (String.eqb (id_Role caller) RoleOperator) && negb (String.eqb (id_Role caller) RoleInvestigator)
      then inl (writeProblem 403 "" "role_insufficient" "Read endpoints require operator or investigator.")
      else inr caller
  end.

(** Whether payloads are wanted and the reason stated for it, or the refusal. *)
Definition payloadRequest (caller : identity) : response + (bool * string) :=
  if negb (String.eqb (Get_query "include") "payload") then inr (false, "")
  else if negb (String.eqb (id_Role caller) RoleInvestigator)
  then inl (writeProblem 403 "" "role_insufficient" "Unredacted payloads require the investigator role.")
  else
    let reason := TrimSpace (rq_reason r) in
    if String.eqb reason "" then
      inl (writeProblem 400 "" "reason_required"
        ("Reading payloads requires " +:+ headerReason +:+ ". An audit trail of unexplained " +:+
         "accesses records that a payload was read but not why."))
    else inr (true, reason).
End Window.

(** ** Keyset selection

    Rows are ordered by a timestamp and then by an identifier, whose text sorts as the uuid
    does. *)

Definition key_lt (a b : Z * string) : Prop := a.1 < b.1 ∨ a.1 = b.1 ∧ ¬ str_le b.2 a.2.
#[export] Instance key_lt_dec a b : Decision (key_lt a b).
Proof. unfold key_lt. apply _. Defined.

Section Keyset.
Context {T : Type} (key : T → Z * string).

(** [ORDER BY at DESC, id DESC]. *)
Definition newest_first (a b : T) : Prop := ¬ key_lt (key a) (key b).
#[export] Instance newest_first_dec a b : Decision (newest_first a b).
Proof. unfold newest_first. apply _. Defined.

(** [$5 IS NULL OR (at, id) < ($5, $6)]. *)
Definition before (c : option (Z * string)) (x : T) : Prop :=
  match c with None => True | Some c => key_lt (key x) c end.
#[export] Instance before_dec c x : Decision (before c x).
Proof. destruct c; simpl; apply _. Defined.

Definition keyset (P : T → Prop) `{!∀ x, Decision (P x)} (c : option (Z * string)) (n : nat)
    (rows : list T) : list T :=
  take n (merge_sort newest_first (filter (before c) (filter P rows))).
End Keyset.

(** A timestamp parameter has microseconds; a uuid parameter is read in any case. *)
Definition cursor_key (c : cursor) : Z * string := (At c / 1000, ToLower (ID c)).

Definition paginate {T} (rows : list T) (limit : Z) (key : T → string) : list T * bool * string :=
  if Z.of_nat (length rows) <=? limit then (rows, false, "")
  else
    let page := take (Z.to_nat limit) rows in
    (page, true, match last page with Some x => key x | None => "" end).

Definition optional (value : string) : option string :=
  if String.eqb value "" then None else Some value.

(** ** Intents *)

Record intentRow := mkIntentRow {
  ir_IntentID : string;
  ir_AgentID : string;
  ir_IdempotencyKey : string;
  ir_Operation : string;
  ir_OperationClass : string;
  ir_ScopeSelector : option (list string);
  ir_EmittedAt : Z;
  ir_Voided : bool;
  ir_Payload : string;
  ir_Redacted : bool;
}.

(** A slice that was never appended to is nil, and nil is null. *)
Definition json_slice {A} (f : A → json) (l : list A) : json :=
  match l with [] => JNull | _ => JList (f <$> l) end.

(** Any slice: nil is null, and an empty one is []. *)
Definition json_array {A} (f : A → json) (l : option (list A)) : json :=
  match l with None => JNull | Some l => JList (f <$> l) end.

Definition intentRow_json (x : intentRow) : json :=
  JStruct [("intent_id", JStr (ir_IntentID x)); ("agent_id", JStr (ir_AgentID x));
    ("idempotency_key", JStr (ir_IdempotencyKey x)); ("operation", JStr (ir_Operation x));
    ("operation_class", JStr (ir_OperationClass x)); ("scope_selector", json_array JStr (ir_ScopeSelector x));
    ("emitted_at", JStr (FormatRFC3339Nano (ir_EmittedAt x))); ("voided", JBool (ir_Voided x));
    ("payload", JRaw (ir_Payload x)); ("payload_redacted", JBool (ir_Redacted x))].

Definition intent_key (i : intent_row) : Z * string := (i_emitted i, i_id i).

Definition in_range_of (rtype rid : string) (since until : Z) (i : intent_row) : Prop :=
  i_rtype i = rtype ∧ i_rid i = rid ∧ since / 1000 <= i_emitted i ∧ i_emitted i <= until / 1000.
#[export] Instance in_range_of_dec rtype rid since until i : Decision (in_range_of rtype rid since until i).
Proof. unfold in_range_of. apply _. Defined.

(** [selectIntentsRedacted] and [selectIntentsWithPayload]: the second reads the payload. *)
Definition selectIntents (payload : bool) (rtype rid : string) (since until : Z) (c : option cursor)
    (n : nat) : stmt (list (intent_row * option string)) := λ d,
  inr ((λ i, (i, if payload then Some (i_payload i) else None)) <$>
         keyset intent_key (in_range_of rtype rid since until) (cursor_key <$> c) n (db_intents d), d).

Definition scan_intent (unredacted : bool) (x : intent_row * option string) : intentRow :=
  let '(i, payload) := x in
  mkIntentRow (i_id i) (i_agent i) (i_key i) (i_op i) (Class (i_declared i)) (Scope_ (i_declared i))
    (i_emitted i * 1000) (bool_decide (is_Some (i_voided i))) (default "" payload) (negb unredacted).

Definition scanIntents (unredacted : bool) (rtype rid : string) (bounds : window) : M (list intentRow) :=
  rows ← wrapping "query intents" (exec (selectIntents unredacted rtype rid (since bounds) (until bounds)
    (w_cursor bounds) (Z.to_nat (limit bounds + 1))));
  mret (scan_intent unredacted <$> rows).

(** ** audit.go *)

Record auditEntry := mkAuditEntry {
  ae_principal : string;
  ae_role : string;
  ae_endpoint : string;
  ae_params : Values;
  ae_ids : list string;
  ae_reason : string;
}.

Section Reads.
Context `{!Pg} (s : Server).

Definition insertAudit (principal role endpoint params : string) (count : Z) (ids : list string)
    (reason : string) : stmt unit := λ d,
  match jsonb_in params with
  | None => inl (pg_error "22P02" "invalid input syntax for type json")
  | Some stored =>
      inr (tt, bump_next (set_audit (λ l, l ++ [mkAudit (uuidv7 (db_next d)) principal role endpoint
        stored count (Some ids) (Some reason) (db_now d)]) d))
  end.

(** The first value of each parameter. *)
Definition audit_params (params : Values) : string :=
  marshal (JObj ((λ '(k, v), (k, JStr (default "" (head v)))) <$> map_to_list params)).

Definition recordPayloadAccess (entry : auditEntry) : M unit :=
  wrapping "record payload access" (exec (insertAudit (ae_principal entry) (ae_role entry)
    (ae_endpoint entry) (audit_params (ae_params entry)) (Z.of_nat (length (ae_ids entry)))
    (ae_ids entry) (ae_reason entry))).

Definition read_failed : response := writeProblem 500 "" "read_failed" "".

Definition intents_response (r : read_request) (page : list intentRow) (hasMore : bool) (next : string) :
    response :=
  writeJSON 200 (JObj ([("resource_type", JStr (rq_resource_type r));
    ("resource_id", JStr (rq_resource_id r)); ("intents", json_slice intentRow_json page);
    ("has_more", JBool hasMore)] ++
    (if hasMore then [("next_cursor", JStr next)] else []))).

Definition intent_cursor (x : intentRow) : string := encodeCursor (ir_EmittedAt x) (ir_IntentID x).

Definition audit_unavailable : response :=
  writeProblem 503 "" "audit_unavailable" "Payloads are not returned when the access cannot be audited.".

(** The audit of a page with payloads, the commit, the answer. *)
Definition answer_page (r : read_request) (caller : identity) (unredacted : bool) (reason : string)
    (page : list intentRow) (hasMore : bool) (next : string) : M response :=
  audited ← (if unredacted
    then try (recordPayloadAccess (mkAuditEntry (id_AgentID caller) (id_Role caller) (rq_path r)
           (rq_query r) (ir_IntentID <$> page) reason))
    else mret (inr tt));
  match audited with
  | inl _ => mret audit_unavailable
  | inr _ =>
      committed ← try commit;
      match committed with
      | inl _ => mret read_failed
      | inr _ => mret (intents_response r page hasMore next)
      end
  end.

(** The part of [handleIntents] from [Begin] on. *)
Definition read_intents (r : read_request) (caller : identity) (bounds : window)
    (unredacted : bool) (reason : string) : M response :=
  finally (
    begun ← try begin_tx;
    match begun with
    | inl _ => mret read_failed
    | inr _ =>
        scanned ← try (scanIntents unredacted (rq_resource_type r) (rq_resource_id r) bounds);
        match scanned with
        | inl _ => mret read_failed
        | inr rows =>
            let '(page, hasMore, next) := paginate rows (limit bounds) intent_cursor in
            answer_page r caller unredacted reason page hasMore next
        end
    end) rollback.

Definition handleIntents (r : read_request) : M response :=
  match readerIdentity r with
  | inl refused => mret refused
  | inr caller =>
      bounds ← readWindow s r;
      match bounds with
      | inl problem => mret (writeProblem 400 "" "invalid_range" problem)
      | inr bounds =>
          match payloadRequest r caller with
          | inl refused => mret refused
          | inr (unredacted, reason) => read_intents r caller bounds unredacted reason
          end
      end
  end.

(** ** Conflicts *)

Definition conflict_key (c : conflict_row) : Z * string := (c_detected c, c_id c).

Definition matches (wanted : option string) (P : string → Prop) : Prop :=
  match wanted with None => True | Some v => P v end.
#[export] Instance matches_dec wanted (P : string → Prop) `{!∀ v, Decision (P v)} : Decision (matches wanted P).
Proof. destruct wanted; simpl; apply _. Defined.

Definition conflict_in (since until : Z) (agent rtype resolution : option string) (c : conflict_row) : Prop :=
  since / 1000 <= c_detected c ∧ c_detected c <= until / 1000 ∧
  matches agent (λ v, c_agent_a c = v ∨ c_agent_b c = v) ∧ matches rtype (λ v, c_rtype c = v) ∧
  matches resolution (λ v, resolution_text (c_resolution c) = v).
#[export] Instance conflict_in_dec since until agent rtype resolution c :
  Decision (conflict_in since until agent rtype resolution c).
Proof. unfold conflict_in. apply _. Defined.

Definition selectConflicts (since until : Z) (agent rtype resolution : option string) (c : option cursor)
    (n : nat) : stmt (list conflict_row) := λ d,
  inr (keyset conflict_key (conflict_in since until agent rtype resolution) (cursor_key <$> c) n
         (db_conflicts d), d).

Definition conflictRow_json (c : conflict_row) : json :=
  JStruct [("conflict_id", JStr (c_id c)); ("intent_id_a", JStr (c_intent_a c));
    ("intent_id_b", JStr (c_intent_b c)); ("agent_id_a", JStr (c_agent_a c)); ("agent_id_b", JStr (c_agent_b c));
    ("resource_type", JStr (c_rtype c)); ("resource_id", JStr (c_rid c)); ("reason", JStr (c_reason c));
    ("resolution", JStr (resolution_text (c_resolution c))); ("manifest_version", JStr (default "" (c_version c)));
    ("detected_at", JStr (FormatRFC3339Nano (c_detected c * 1000)))].

Definition conflict_cursor (c : conflict_row) : string := encodeCursor (c_detected c * 1000) (c_id c).

Definition handleConflicts (r : read_request) : M response :=
  match readerIdentity r with
  | inl refused => mret refused
  | inr _ =>
      bounds ← readWindow s r;
      match bounds with
      | inl problem => mret (writeProblem 400 "" "invalid_range" problem)
      | inr bounds =>
          if negb (String.eqb (Get_query r "include") "") then
            mret (writeProblem 400 "" "nothing_to_include"
              "Conflict records carry no payload; read the intents endpoint for request bodies.")
          else
            found ← try (query (selectConflicts (since bounds) (until bounds)
              (optional (Get_query r "agent_id")) (optional (Get_query r "resource_type"))
              (optional (Get_query r "resolution")) (w_cursor bounds) (Z.to_nat (limit bounds + 1))));
            match found with
            | inl _ => mret read_failed
            | inr found =>
                let '(page, hasMore, next) := paginate found (limit bounds) conflict_cursor in
                mret (writeJSON 200 (JObj ([("conflicts", json_slice conflictRow_json page);
                  ("has_more", JBool hasMore)] ++ (if hasMore then [("next_cursor", JStr next)] else []))))
            end
      end
  end.
End Reads.
