(* ===== verification/ReadsProps.v ===== *)
(** * ReadsProps: the theorems on the list endpoints

    Cursors decode to what they encode, following them reads every matching row once and in
    order, and a payload leaves only with its audit row. *)

From S2P Require Import Prelude GoString GoTime Sha256 Base64 Manifest Conflict World Json Claim Config.
From S2P Require Import Downstream ResultStore Api Reads.

(** ** Cursors *)

#[local] Arguments String.append !_ _ /.

(** No byte of the text is a bar. *)
Fixpoint no_bar (s : string) : Prop :=
  match s with
  | EmptyString => True
  | String c r => byte_val c ≠ 124 ∧ no_bar r
  end.

Lemma no_bar_app a b : no_bar a → no_bar b → no_bar (a +:+ b).
Proof. induction a as [|c a IH]; simpl; [done|]. intros [? ?] ?. auto. Qed.

Lemma no_bar_digits l : is_digits l → no_bar (digits_text l).
Proof.
  induction 1 as [|d l Hd _ IH]; [done|]. split; [|done]. rewrite byte_of_val by lia. lia.
Qed.

Lemma cut_bar_app a b : no_bar a → cut_bar (a +:+ "|" +:+ b) = Some (a, b).
Proof.
  induction a as [|c a IH]; [done|]. intros [Hc Ha]. simpl.
  rewrite (proj2 (Z.eqb_neq _ _)) by done. specialize (IH Ha). simpl in IH. by rewrite IH.
Qed.

Lemma no_bar_two n : no_bar (two_text n).
Proof. apply no_bar_digits, fixed_digits_ok. Qed.

Lemma no_bar_fraction n : no_bar (fraction_text n).
Proof.
  unfold fraction_text. destruct (trim_zeros_spec (fixed_digits 9 n)) as [j Hj].
  pose proof (fixed_digits_ok 9 n) as Hok. rewrite Hj in Hok. apply Forall_app in Hok as [Hok _].
  destruct (trim_zeros _) as [|x l]; [done|]. apply no_bar_app; [done|by apply no_bar_digits].
Qed.

Lemma no_bar_format t y m d : date t = (y, m, d) → 0 <= y < 10000 → no_bar (FormatRFC3339Nano t).
Proof.
  intros Hd Hy. unfold FormatRFC3339Nano, seconds_text. rewrite Hd. destruct (clock_of t) as [[h mi] s].
  unfold year_text. rewrite (proj2 (Z.ltb_ge y 0)), (proj2 (Z.ltb_lt y 10000)) by lia.
  repeat apply no_bar_app; try apply no_bar_two; try apply no_bar_fraction; try done.
  apply no_bar_digits, fixed_digits_ok.
Qed.

Definition printable_year (t : Z) : Prop := 0 <= (date t).1.1 < 10000.

Lemma decode_encode_cursor at_ id :
  printable_year at_ → isUUID (ToLower id) = true → decodeCursor (encodeCursor at_ id) = inr (mkCursor at_ id).
Proof.
  unfold printable_year. destruct (date at_) as [[y m] d] eqn:Hd. simpl. intros Hy Hid.
  unfold decodeCursor, encodeCursor. rewrite decode_encode, cut_bar_app by (by eapply no_bar_format).
  rewrite (parse_format at_ y m d) by done. by rewrite Hid.
Qed.

(** ** Keyset pagination *)

Lemma key_lt_irrefl a : ¬ key_lt a a.
Proof. intros [?|[_ Hn]]; [lia|]. apply Hn. by destruct (total str_le a.2 a.2). Qed.

Lemma key_lt_total a b : key_lt a b ∨ a = b ∨ key_lt b a.
Proof.
  destruct a as [t i], b as [u j]. unfold key_lt. simpl.
  destruct (Z.lt_trichotomy t u) as [?|[->|?]]; [auto| |auto].
  destruct (decide (str_le j i)), (decide (str_le i j)); auto.
  right. left. f_equal. by apply (anti_symm str_le).
Qed.

Lemma key_lt_trans a b c : key_lt a b → key_lt b c → key_lt a c.
Proof.
  unfold key_lt. intros [?|[-> H1]] [?|[E H2]]; [left; lia|left; lia|by left|]. right. split; [done|].
  intros H3. destruct (total str_le a.2 b.2); [|done]. by apply H2; etrans.
Qed.

Section Keyset.
Context {T U : Type} (key : T → Z * string) (P : T → Prop) `{!∀ x, Decision (P x)}.
Context (f : T → U) (enc : U → string) (rows : list T).
Implicit Types (l : list T) (x y : T).

#[local] Instance newest_trans : Transitive (newest_first key).
Proof.
  intros x y z. unfold newest_first. intros H1 H2 H3.
  destruct (key_lt_total (key y) (key z)) as [?|[He|?]]; [done|rewrite He in H1; done|].
  apply H1. by eapply key_lt_trans.
Qed.
#[local] Instance newest_total : Total (newest_first key).
Proof.
  intros x y. unfold newest_first. destruct (decide (key_lt (key x) (key y))); [right|by left].
  intros H2. by apply (key_lt_irrefl (key x)); eapply key_lt_trans.
Qed.

(** The rows a reader without a cursor and without a limit would get. *)
Definition all_rows : list T := merge_sort (newest_first key) (filter P rows).

Context (distinct : NoDup (key <$> filter P rows)).

(** The rows before the one at a position are the rows that follow it. *)
Lemma rows_before l1 x l2 :
  all_rows = l1 ++ x :: l2 →
  merge_sort (newest_first key) (filter (before key (Some (key x))) (filter P rows)) = l2.
Proof.
  intros HL. pose proof (StronglySorted_merge_sort (newest_first key) (filter P rows)) as Hs.
  pose proof (merge_sort_Permutation (newest_first key) (filter P rows)) as Hp.
  fold all_rows in Hs, Hp. rewrite HL in Hs, Hp.
  apply StronglySorted_app in Hs as (H1 & _ & Hs). inversion Hs as [|? ? Hs2 H2]; subst.
  rewrite Forall_forall in H2.
  assert (Hmem : ∀ y, y ∈ l1 ++ x :: l2 → y ∈ filter P rows) by (intros y; by rewrite Hp).
  assert (Hnd : NoDup (key <$> l1 ++ x :: l2)) by (by rewrite Hp).
  assert (Hfilter : filter (before key (Some (key x))) (l1 ++ x :: l2) = l2).
  { rewrite filter_app, (filter_drops _ l1) by (intros y Hy; apply (H1 y x); [done|by left]).
    rewrite filter_cons_False by apply key_lt_irrefl. apply filter_keeps. intros y Hy. simpl.
    destruct (key_lt_total (key y) (key x)) as [?|[He|?]]; [done| |by destruct (H2 y Hy)].
    exfalso. rewrite fmap_app, fmap_cons in Hnd. apply NoDup_app in Hnd as (_ & _ & Hnd).
    apply NoDup_cons in Hnd as [Hni _]. apply Hni. rewrite <- He. by apply list_elem_of_fmap_2. }
  apply (StronglySorted_unique_strong (newest_first key)).
  - intros a b Ha Hb Hab Hba. rewrite merge_sort_Permutation in Ha. apply list_elem_of_filter in Ha as [_ Ha].
    apply (image_once key (filter P rows)); [done|done|apply Hmem, elem_of_app; right; by right|].
    destruct (key_lt_total (key a) (key b)) as [?|[?|?]]; done.
  - apply StronglySorted_merge_sort; apply _.
  - done.
  - rewrite merge_sort_Permutation, <- Hp. by rewrite Hfilter.
Qed.

(** A reader that follows the cursors, page after page. *)
Fixpoint walk (fuel : nat) (limit : Z) (c : option cursor) : list U :=
  match fuel with
  | O => []
  | S n =>
      let '(page, more, next) :=
        paginate (f <$> keyset key P (cursor_key <$> c) (Z.to_nat (limit + 1)) rows) limit enc in
      page ++ (if more then
                 match decodeCursor next with inr c' => walk n limit (Some c') | inl _ => [] end
               else [])
  end.

Context (enc_ok : ∀ x, x ∈ filter P rows → ∃ c, decodeCursor (enc (f x)) = inr c ∧ cursor_key c = key x).

Lemma walk_rest limit : 1 <= limit → ∀ fuel c l0 l,
  merge_sort (newest_first key) (filter (before key (cursor_key <$> c)) (filter P rows)) = l →
  all_rows = l0 ++ l → (length l < fuel)%nat → walk fuel limit c = f <$> l.
Proof.
  intros Hlim. induction fuel as [|n IH]; intros c l0 l Hl Hall Hfuel; [lia|].
  cbn [walk]. unfold keyset, paginate. rewrite Hl, length_fmap, length_take.
  destruct (Z.leb_spec (Z.of_nat (Z.to_nat (limit + 1) `min` length l)) limit) as [Hle|Hgt].
  { rewrite take_ge by lia. apply app_nil_r. }
  set (k := Z.to_nat limit).
  destruct (lookup_lt_is_Some_2 l (k - 1)%nat ltac:(lia)) as [x Hx].
  assert (Hsplit : l = take (k - 1) l ++ x :: drop k l).
  { rewrite <- (take_drop_middle l (k - 1) x Hx) at 1. do 2 f_equal. f_equal. lia. }
  assert (Htake : take k l = take (k - 1) l ++ [x]).
  { replace k with (S (k - 1)) at 1 by lia. by apply take_S_r. }
  rewrite <- fmap_take, take_take, Nat.min_l by lia. rewrite Htake, fmap_app. change (f <$> [x]) with [f x]. rewrite last_snoc.
  assert (Hin : x ∈ filter P rows).
  { rewrite <- (merge_sort_Permutation (newest_first key)). fold all_rows. rewrite Hall.
    apply elem_of_app. right. by eapply list_elem_of_lookup_2. }
  destruct (enc_ok x Hin) as (c' & Hdec & Hkey). rewrite Hdec.
  rewrite (IH (Some c') (l0 ++ take (k - 1) l ++ [x]) (drop k l)).
  - rewrite Hsplit at 3. by rewrite fmap_app, fmap_cons, <- app_assoc.
  - simpl. rewrite Hkey. apply (rows_before (l0 ++ take (k - 1) l) x).
    by rewrite Hall, Hsplit, <- app_assoc at 1.
  - rewrite Hall, Hsplit at 1. by rewrite <- !app_assoc.
  - rewrite length_drop. lia.
Qed.

Lemma walk_all fuel limit :
  1 <= limit → (length (filter P rows) < fuel)%nat → walk fuel limit None = f <$> all_rows.
Proof.
  intros Hlim Hfuel. apply (walk_rest limit Hlim fuel None []); [|done|].
  - unfold all_rows. f_equal. by apply filter_keeps.
  - unfold all_rows. by rewrite merge_sort_Permutation.
Qed.
End Keyset.

(** ** Payloads and their audit *)

Section Audit.
Context `{!Pg} (s : Server).
Implicit Types (w : world) (d : DB) (r : read_request).

Lemma readerIdentity_spec r :
  match readerIdentity r with
  | inl refused => resp_status refused ≠ 200
  | inr caller => readIdentity (rq_http r) = Some caller
  end.
Proof. unfold readerIdentity. destruct (readIdentity (rq_http r)) as [c|]; [|done]. by destruct (_ && _). Qed.

Lemma payloadRequest_spec r caller :
  match payloadRequest r caller with
  | inl refused => resp_status refused ≠ 200
  | inr (unredacted, reason) => unredacted = true →
      id_Role caller = RoleInvestigator ∧ reason = TrimSpace (rq_reason r) ∧ reason ≠ ""
  end.
Proof.
  unfold payloadRequest. destruct (negb (String.eqb (Get_query r "include") "payload")); [done|].
  destruct (String.eqb_spec (id_Role caller) RoleInvestigator); [|done]. simpl negb. cbv iota.
  by destruct (String.eqb_spec (TrimSpace (rq_reason r)) "").
Qed.

Lemma readWindow_reads r w :
  ∃ b, (readWindow s r w).1 = inr b ∧
    ((readWindow s r w).2 = w ∨ (readWindow s r w).2 = (now w).2).
Proof.
  unfold readWindow. destruct (String.eqb _ ""); [eauto|]. destruct (ParseRFC3339 _) as [t|]; [|eauto].
  erewrite bind_inr by done. eexists. split; [done|]. by right.
Qed.

(** The rows a request reads, as a page. *)
Definition page_of (unredacted : bool) r (bounds : window) d : list intentRow * bool * string :=
  paginate (scan_intent unredacted <$> ((λ i, (i, if unredacted then Some (i_payload i) else None)) <$>
    keyset intent_key (in_range_of (rq_resource_type r) (rq_resource_id r) (since bounds) (until bounds))
      (cursor_key <$> w_cursor bounds) (Z.to_nat (limit bounds + 1)) (db_intents d)))
    (limit bounds) intent_cursor.

(** The tables with the row that records who read which payloads, and why. *)
Definition with_audit r (caller : identity) (reason : string) (page : list intentRow) (params : string) d : DB :=
  bump_next (set_audit (λ l, l ++ [mkAudit (uuidv7 (db_next d)) (id_AgentID caller) (id_Role caller)
    (rq_path r) params (Z.of_nat (length page)) (Some (ir_IntentID <$> page)) (Some reason) (db_now d)]) d).

Lemma audit_exec entry (v : DB) w res w' :
  w_tx w = Some v → try (recordPayloadAccess entry) w = (inr res, w') →
  w_db w' = w_db w ∧ (res = inr tt → ∃ params, w_tx w' =
    Some (bump_next (set_audit (λ l, l ++ [mkAudit (uuidv7 (db_next v)) (ae_principal entry) (ae_role entry)
      (ae_endpoint entry) params (Z.of_nat (length (ae_ids entry))) (Some (ae_ids entry)) (Some (ae_reason entry)) (db_now v)]) v))).
Proof.
  intros Htx. unfold recordPayloadAccess, try, wrapping, exec, insertAudit. rewrite Htx.
  destruct (default Fine (head (w_faults w))); [|by intros [= <- <-]..].
  destruct (jsonb_in _) as [params|]; intros [= <- <-]; simpl; [|done]. eauto.
Qed.

Lemma commit_cases v w res w' :
  w_tx w = Some v → try commit w = (inr res, w') →
  (w_db w' = w_db w ∧ (∃ e, res = inl e)) ∨ w_db w' = v.
Proof.
  intros Htx. unfold try, commit. rewrite Htx.
  destruct (default Fine (head (w_faults w))); intros [= <- <-]; simpl; eauto.
Qed.

(** The tables after the audit and the commit, and the answer. *)
Definition page_outcome (unredacted : bool) r caller reason page more next (resp : response) d (d' : DB) : Prop :=
  d' = d ∧ (resp_status resp ≠ 200 ∨ unredacted = false ∧ resp = intents_response r page more next) ∨
  unredacted = true ∧ (∃ params, d' = with_audit r caller reason page params d) ∧
    (resp_status resp ≠ 200 ∨ resp = intents_response r page more next).

Lemma answer_page_spec r caller unredacted reason page more next d w :
  w_db w = d → w_tx w = Some d →
  ∃ resp, (answer_page r caller unredacted reason page more next w).1 = inr resp ∧
    page_outcome unredacted r caller reason page more next resp d
      (w_db (answer_page r caller unredacted reason page more next w).2).
Proof.
  intros Hd Ht. unfold answer_page, page_outcome. destruct unredacted.
  - set (entry := mkAuditEntry _ _ _ _ _ _).
    destruct (try (recordPayloadAccess entry) w) as [res w1] eqn:Ha.
    destruct res as [|res]; [by unfold try in Ha; destruct (recordPayloadAccess entry w)|].
    destruct (audit_exec entry d w res w1 Ht Ha) as [Hd1 Hres]. erewrite bind_inr by done.
    destruct res as [e|[]]; [eexists; split; [done|]; left; split; [simpl; congruence|by left]|].
    destruct (Hres eq_refl) as [params Ht1]. destruct (try commit w1) as [res w2] eqn:Hc.
    destruct res as [|res]; [by unfold try in Hc; destruct (commit w1)|]. erewrite bind_inr by done.
    destruct (commit_cases _ _ _ _ Ht1 Hc) as [[Hd2 [e ->]]|Hd2].
    + eexists. split; [done|]. left. split; [simpl; congruence|by left].
    + destruct res as [e|u]; (eexists; split; [done|]); right; simpl; rewrite Hd2; split_and!; auto;
        exists params; unfold with_audit; simpl; by rewrite length_fmap.
  - erewrite bind_inr by done. destruct (try commit w) as [res w2] eqn:Hc.
    destruct res as [|res]; [by unfold try in Hc; destruct (commit w)|]. erewrite bind_inr by done.
    assert (Hd2 : w_db w2 = d) by (destruct (commit_cases _ _ _ _ Ht Hc) as [[-> _]| ->]; done).
    destruct res as [e|u]; (eexists; split; [done|]); left; simpl; auto.
Qed.

Lemma scanIntents_spec unredacted r bounds d w :
  w_db w = d → w_tx w = Some d →
  let run := scanIntents unredacted (rq_resource_type r) (rq_resource_id r) bounds w in
  w_db run.2 = d ∧ ∀ rows, run.1 = inr rows → w_tx run.2 = Some d ∧
    paginate rows (limit bounds) intent_cursor = page_of unredacted r bounds d.
Proof.
  intros Hd Ht. unfold scanIntents, mbind, St_bind, wrapping, exec. rewrite Ht.
  destruct (default Fine (head (w_faults w))); simpl; (split; [done|]); [|done..].
  intros rows [= <-]. done.
Qed.

Lemma read_intents_spec r caller bounds unredacted reason w :
  let '(page, more, next) := page_of unredacted r bounds (w_db w) in
  ∃ resp, (read_intents r caller bounds unredacted reason w).1 = inr resp ∧
    w_tx (read_intents r caller bounds unredacted reason w).2 = None ∧
    page_outcome unredacted r caller reason page more next resp (w_db w)
      (w_db (read_intents r caller bounds unredacted reason w).2).
Proof.
  destruct (page_of unredacted r bounds (w_db w)) as [[page more] next] eqn:Hpage.
  unfold read_intents, finally. set (d := w_db w) in *.
  destruct (begin_tx w) as [begun w1] eqn:Hb. erewrite bind_inr by (by apply try_eq).
  assert (Hw1 : w_db w1 = d ∧ (begun = inr tt → w_tx w1 = Some d)).
  { unfold begin_tx in Hb. destruct (default Fine (head (w_faults w))); injection Hb as <- <-; done. }
  destruct Hw1 as [Hd1 Ht1]. destruct begun as [e|[]].
  { eexists. split_and!; [done|done|]. left. split; [done|by left]. }
  pose proof (scanIntents_spec unredacted r bounds d w1 Hd1 (Ht1 eq_refl)) as Hscan. simpl in Hscan.
  destruct (scanIntents unredacted (rq_resource_type r) (rq_resource_id r) bounds w1) as [scanned w2] eqn:Hs.
  erewrite bind_inr by (by apply try_eq). simpl in Hscan. destruct Hscan as [Hd2 Hrows].
  destruct scanned as [e|rows].
  { eexists. split_and!; [done|done|]. left. split; [done|by left]. }
  destruct (Hrows rows eq_refl) as [Ht2 Hpg]. rewrite Hpg, Hpage.
  destruct (answer_page_spec r caller unredacted reason page more next d w2 Hd2 Ht2) as (resp & Hr & Hout).
  destruct (answer_page r caller unredacted reason page more next w2) as [res w3]. simpl in *.
  exists resp. done.
Qed.
End Audit.

(** ** Following the cursors *)

(** Rows a cursor can point at: their own lower-case uuid, a printable time. *)
Definition listable (key : Z * string) : Prop :=
  isUUID key.2 = true ∧ ToLower key.2 = key.2 ∧ printable_year (key.1 * 1000).

Lemma cursor_of_key t id :
  listable (t, id) → ∃ c, decodeCursor (encodeCursor (t * 1000) id) = inr c ∧ cursor_key c = (t, id).
Proof.
  intros (Hu & Hl & Hy). simpl in *. exists (mkCursor (t * 1000) id). split.
  - apply decode_encode_cursor; [done|by rewrite Hl].
  - unfold cursor_key. simpl. by rewrite Hl, Z.div_mul.
Qed.

Lemma filter_distinct {A B} (f : A → B) (P : A → Prop) `{!∀ x, Decision (P x)} l :
  NoDup (f <$> l) → NoDup (f <$> filter P l).
Proof. intros Hnd. eapply sublist_NoDup; [exact Hnd|]. apply fmap_sublist, sublist_filter. Qed.

(** A client of the intents endpoint that follows [next_cursor] while there is more. *)
Fixpoint follow_intents (fuel : nat) (unredacted : bool) (r : read_request) (bounds : window) (d : DB) :
    list intentRow :=
  match fuel with
  | O => []
  | S n =>
      let '(page, more, next) := page_of unredacted r bounds d in
      page ++ (if more then
                 match decodeCursor next with
                 | inr c => follow_intents n unredacted r (mkWindow (since bounds) (until bounds) (limit bounds) (Some c)) d
                 | inl _ => []
                 end
               else [])
  end.

Lemma follow_walk unredacted r lo hi lim d fuel c :
  follow_intents fuel unredacted r (mkWindow lo hi lim c) d =
  walk intent_key (in_range_of (rq_resource_type r) (rq_resource_id r) lo hi)
    (λ i, scan_intent unredacted (i, if unredacted then Some (i_payload i) else None))
    intent_cursor (db_intents d) fuel lim c.
Proof.
  revert c. induction fuel as [|n IH]; intros c; [done|]. cbn [follow_intents walk]. unfold page_of.
  rewrite <- list_fmap_compose. simpl. destruct (paginate _ lim intent_cursor) as [[page more] next].
  destruct more; [|done]. destruct (decodeCursor next) as [e|c']; [done|]. by rewrite IH.
Qed.

Definition read_fields (unredacted : bool) (i : intent_row) : intentRow :=
  scan_intent unredacted (i, if unredacted then Some (i_payload i) else None).

(** ** Theorems *)

(** A cursor decodes to the time and the identifier it was made of, for every instant of the
    years 0 to 9999 and every uuid, so [next_cursor] is accepted and means the row it names. *)
Theorem cursor_round_trip (at_ : Z) (id : string) :
  printable_year at_ → isUUID (ToLower id) = true →
  decodeCursor (encodeCursor at_ id) = inr (mkCursor at_ id).
Proof. apply decode_encode_cursor. Qed.

Lemma cursor_round_trip_witness :
  let id := "0189B7A0-0000-7000-8000-00000000000a" in
  decodeCursor (encodeCursor 1700000000123456000 id) = inr (mkCursor 1700000000123456000 id).
Proof. apply (cursor_round_trip 1700000000123456000); vm_compute; [split; discriminate || reflexivity|reflexivity]. Defined.

(** C20: following the cursors of the intents endpoint from the first page reads every intent of
    the resource in the range exactly once, newest first, whatever the page size; enough pages
    are one more than there are rows. *)
Theorem pages_complete (unredacted : bool) (r : read_request) (lo hi lim : Z) (d : DB) (fuel : nat) :
  let P := in_range_of (rq_resource_type r) (rq_resource_id r) lo hi in
  NoDup (i_id <$> db_intents d) → Forall (λ i, listable (intent_key i)) (filter P (db_intents d)) →
  1 <= lim → (length (filter P (db_intents d)) < fuel)%nat →
  ∃ l, follow_intents fuel unredacted r (mkWindow lo hi lim None) d = read_fields unredacted <$> l ∧
    l ≡ₚ filter P (db_intents d) ∧ StronglySorted (newest_first intent_key) l.
Proof.
  intros P Hnd Hall Hlim Hfuel. exists (all_rows intent_key P (db_intents d)). split_and!.
  - rewrite follow_walk. apply (walk_all intent_key P); [| |done|done].
    + apply (NoDup_fmap_1 snd). rewrite <- list_fmap_compose. by apply (filter_distinct i_id).
    + intros i Hi. rewrite Forall_forall in Hall.
      change (intent_cursor _) with (encodeCursor (i_emitted i * 1000) (i_id i)).
      exact (cursor_of_key (i_emitted i) (i_id i) (Hall i Hi)).
  - apply merge_sort_Permutation.
  - apply StronglySorted_merge_sort; [apply newest_trans|apply newest_total].
Qed.

(** C21: whatever fails, the intents endpoint answers, leaves no transaction open and changes no
    table but the audit, and that only for payloads.  A page with payloads goes to an
    investigator who stated a reason, and then the committed audit row names the caller, the
    role, the endpoint, the reason and exactly the intents of the page; any other page has no
    payload in it. *)
Theorem payload_audited `{!Pg} (s : Server) (r : read_request) (w : world) :
  w_tx w = None →
  let w' := (handleIntents s r w).2 in
  ∃ resp, (handleIntents s r w).1 = inr resp ∧ w_tx w' = None ∧
    (w_db w' = w_db w ∧
       (resp_status resp ≠ 200 ∨ ∃ page more next, resp = intents_response r page more next ∧
          Forall (λ x, ir_Payload x = "" ∧ ir_Redacted x = true) page) ∨
     ∃ caller page more next params, readIdentity (rq_http r) = Some caller ∧
       id_Role caller = RoleInvestigator ∧ TrimSpace (rq_reason r) ≠ "" ∧
       w_db w' = with_audit r caller (TrimSpace (rq_reason r)) page params (w_db w) ∧
       (resp_status resp ≠ 200 ∨ resp = intents_response r page more next)).
Proof.
  intros Htx w'. subst w'. unfold handleIntents.
  pose proof (readerIdentity_spec r) as Hid. destruct (readerIdentity r) as [refused|caller].
  { exists refused. split_and!; [done|done|]. left. split; [done|by left]. }
  destruct (readWindow_reads s r w) as (bounds & Hb & Hw1).
  destruct (readWindow s r w) as [b w1] eqn:Hrun. simpl in Hb, Hw1. subst b. rewrite (bind_inr _ _ _ _ _ Hrun).
  assert (Hsame : w_db w1 = w_db w ∧ w_tx w1 = None) by (by destruct Hw1 as [->| ->]).
  destruct Hsame as [Hd1 Ht1]. destruct bounds as [problem|bounds].
  { eexists. split_and!; [done|done|]. left. split; [done|by left]. }
  pose proof (payloadRequest_spec r caller) as Hp.
  destruct (payloadRequest r caller) as [refused|[unredacted reason]].
  { exists refused. split_and!; [done|done|]. left. split; [done|by left]. }
  pose proof (read_intents_spec r caller bounds unredacted reason w1) as Hread.
  destruct (page_of unredacted r bounds (w_db w1)) as [[page more] next] eqn:Hpage.
  destruct Hread as (resp & Hr & Ht & Hout). exists resp. split_and!; [done|done|]. rewrite Hd1 in Hout.
  destruct Hout as [[Hd [Hs|[-> ->]]]|(-> & [params Hd] & Hs)].
  - left. auto.
  - left. split; [done|]. right. exists page, more, next. split; [done|].
    unfold page_of, paginate in Hpage. apply Forall_forall. intros x Hx.
    assert (Hin : ∃ y, x = scan_intent false y ∧ y.2 = None).
    { destruct (_ <=? _) in Hpage; injection Hpage as <- _ _;
        [|apply elem_of_take in Hx as (i & Hi & _); apply list_elem_of_lookup_2 in Hi; revert Hi; intros Hx];
        apply list_elem_of_fmap in Hx as (y & -> & (i' & -> & _)%list_elem_of_fmap); by eexists. }
    destruct Hin as ([i p] & -> & Hnone). simpl in Hnone. by rewrite Hnone.
  - right. destruct (Hp eq_refl) as (Hrole & -> & Hreason). exists caller, page, more, next, params. done.
Qed.

(** ** Concrete reads *)

Section Witnesses.
#[local] Existing Instance demo_pg.

(** Three intents on ticket 7, two of them at the same time. *)
Definition uuid_a : string := "0189b7a0-0000-7000-8000-00000000000a".
Definition uuid_b : string := "0189b7a0-0000-7000-8000-00000000000b".
Definition uuid_c : string := "0189b7a0-0000-7000-8000-00000000000c".
Definition ticket_intent (id : string) (at_ : Z) : intent_row :=
  mkIntent id "a" id "ticket" "7" "close" (mkOperation ClassReplace None) "{}" at_ None None.
Definition three_intents : DB :=
  mkDB 1700000003000000 3 ∅ [ticket_intent uuid_b 1700000001000000; ticket_intent uuid_a 1700000001000000;
    ticket_intent uuid_c 1700000002000000] [] [] [].

Definition ticket_read : read_request :=
  mkReadRequest (mkHttp "ivy" RoleInvestigator "" BodyTooLarge) "ticket 7 was closed twice"
    {["since" := ["2023-11-14T00:00:00Z"]; "until" := ["2023-11-15T00:00:00Z"]; "include" := ["payload"]]}
    "/v1/resources/ticket/7/intents" "ticket" "7".

(** A server whose reads span at most a week. *)
Definition read_server : Server :=
  mkServer (mkConfig "" "" "" "" 0 "" 0 0 (168 * Hour) 0 0 "" 0 0 0 0 0 0 0 0 0 0 0 "" "" 0 0 "" "" "" "")
    (mkClient "http://d" None) (mkResultStore false 65536).

Lemma pages_complete_witness :
  ∃ l, follow_intents 4 false ticket_read (mkWindow 0 (2 * 10 ^ 18) 1 None) three_intents =
         read_fields false <$> l ∧
    l ≡ₚ filter (in_range_of "ticket" "7" 0 (2 * 10 ^ 18)) (db_intents three_intents) ∧
    StronglySorted (newest_first intent_key) l.
Proof.
  apply (pages_complete false ticket_read 0 (2 * 10 ^ 18) 1 three_intents 4).
  - apply (bool_decide_unpack _). vm_compute. exact I.
  - apply Forall_forall. intros i [_ Hi]%list_elem_of_filter.
    assert (Hid : i = ticket_intent uuid_b 1700000001000000 ∨ i = ticket_intent uuid_a 1700000001000000 ∨
      i = ticket_intent uuid_c 1700000002000000) by (unfold three_intents in Hi; simpl in Hi; set_solver).
    destruct Hid as [->|[->| ->]]; (split; [vm_compute; reflexivity|]);
      (split; [vm_compute; reflexivity|]); vm_compute; split; discriminate || reflexivity.
  - lia.
  - vm_compute. lia.
Defined.

Lemma payload_audited_witness :
  ∃ resp, (handleIntents read_server ticket_read (world_of three_intents)).1 = inr resp ∧
    resp_status resp = 200 ∧
    ((λ row, (u_principal row, u_intents row)) <$>
       db_audit (w_db (handleIntents read_server ticket_read (world_of three_intents)).2)) =
      [("ivy", Some [uuid_c; uuid_b; uuid_a])].
Proof.
  destruct (payload_audited read_server ticket_read (world_of three_intents) eq_refl) as (resp & Hr & _).
  assert (Hst : match (handleIntents read_server ticket_read (world_of three_intents)).1 with
                | inr resp => resp_status resp | inl _ => 0 end = 200) by (vm_compute; reflexivity).
  rewrite Hr in Hst. exists resp. split; [exact Hr|]. split; [exact Hst|].
  vm_compute. reflexivity.
Defined.
End Witnesses.
