(* ===== verification/Relay.v ===== *)
(** * Relay: internal/relay

    The outbox: intents not yet published are read oldest first, handed to the publisher and
    only then marked.  The topic and the script of the publisher stand beside the world. *)

From S2P Require Import Prelude GoString GoTime Sha256 Manifest Conflict World Json ResultStore Retention Reads.

(** ** Data *)

Record message := mkMessage {
  m_IntentID : string;
  m_AgentID : string;
  m_IdempotencyKey : string;
  m_ResourceType : string;
  m_ResourceID : string;
  m_Operation : string;
  m_OperationClass : string;
  m_ScopeSelector : option (list string);
  m_Payload : string;
  m_Voided : bool;
  m_EmittedAt : Z;
}.

Definition message_json (m : message) : json :=
  JStruct [("intent_id", JStr (m_IntentID m)); ("agent_id", JStr (m_AgentID m));
    ("idempotency_key", JStr (m_IdempotencyKey m)); ("resource_type", JStr (m_ResourceType m));
    ("resource_id", JStr (m_ResourceID m)); ("operation", JStr (m_Operation m));
    ("operation_class", JStr (m_OperationClass m)); ("scope_selector", json_array JStr (m_ScopeSelector m));
    ("payload", JRaw (m_Payload m)); ("voided", JBool (m_Voided m));
    ("emitted_at", JStr (FormatRFC3339Nano (m_EmittedAt m)))].

(** [kafka.Message]: its key and its value. *)
Record kmessage := mkKMessage { km_Key : string; km_Value : string }.

#[export] Instance kmessage_eq_dec : EqDecision kmessage.
Proof. solve_decision. Defined.

(** What [WriteMessages] does with a batch: all of it is written, or an error is returned and
    the messages for which the list says so were written all the same. *)
Inductive delivery :=
| Delivered
| NotDelivered (e : goerr) (written : list bool).

Record rworld := mkRWorld { r_world : world; r_topic : list kmessage; r_script : list delivery }.

Abbreviation MR := (St rworld).

Definition on_world {A} (m : M A) : MR A := λ s,
  let '(r, w) := m (r_world s) in (r, mkRWorld w (r_topic s) (r_script s)).

(** The messages of a batch that were written. *)
Fixpoint written_of (l : list kmessage) (mask : list bool) : list kmessage :=
  match l, mask with
  | x :: l, true :: mask => x :: written_of l mask
  | _ :: l, false :: mask => written_of l mask
  | _, _ => []
  end.

Definition WriteMessages (l : list kmessage) : MR unit := λ s,
  let rest := tail (r_script s) in
  match default Delivered (head (r_script s)) with
  | Delivered => (inr tt, mkRWorld (r_world s) (r_topic s ++ l) rest)
  | NotDelivered e mask => (inl e, mkRWorld (r_world s) (r_topic s ++ written_of l mask) rest)
  end.

(** ** Statements *)

Definition unpublished_row (i : intent_row) : Prop := i_published i = None.
#[export] Instance unpublished_row_dec i : Decision (unpublished_row i).
Proof. unfold unpublished_row. apply _. Defined.

Definition emitted_before (a b : intent_row) : Prop := i_emitted a <= i_emitted b.
#[export] Instance emitted_before_dec a b : Decision (emitted_before a b).
Proof. unfold emitted_before. apply _. Defined.

Definition selectUnpublished (batch : nat) : stmt (list intent_row) := λ d,
  inr (take batch (merge_sort emitted_before (filter unpublished_row (db_intents d))), d).

Definition mark_row (t : Z) (i : intent_row) : intent_row :=
  mkIntent (i_id i) (i_agent i) (i_key i) (i_rtype i) (i_rid i) (i_op i) (i_declared i) (i_payload i)
    (i_emitted i) (Some t) (i_voided i).

(** Times are compared as the microseconds the database keeps. *)
Definition markPublished (ids : list string) (times : list Z) : stmt unit := λ d,
  inr (tt, set_intents (fmap (λ i,
    if decide (i_id i ∈ ids ∧ i_emitted i * 1000 ∈ times) then mark_row (db_now d) i else i)) d).

(** ** The relay *)

Definition scan_message (i : intent_row) : message :=
  mkMessage (i_id i) (i_agent i) (i_key i) (i_rtype i) (i_rid i) (i_op i) (Class (i_declared i))
    (Scope_ (i_declared i)) (i_payload i) (bool_decide (is_Some (i_voided i))) (i_emitted i * 1000).

Section Relay.
Context (batch : nat).

Definition unpublished : M (list message) :=
  rows ← wrapping "read outbox" (query (selectUnpublished batch));
  mret (scan_message <$> rows).

(** The loop that encodes the batch. *)
Fixpoint encode_all (pending : list message) : goerr + list kmessage :=
  match pending with
  | [] => inr []
  | intent :: rest =>
      match Marshal (message_json intent) with
      | inl e => inl (wrap ("encode intent " +:+ m_IntentID intent) e)
      | inr body =>
          match encode_all rest with
          | inl e => inl e
          | inr l => inr (mkKMessage (m_IntentID intent) body :: l)
          end
      end
  end.

Definition Publish : MR Z :=
  pending ← on_world unpublished;
  if (length pending =? 0)%nat then mret 0
  else
    match encode_all pending with
    | inl e => throw e
    | inr messages =>
        _ ← wrapping "publish intents" (WriteMessages messages);
        _ ← on_world interleave;
        _ ← wrapping "mark intents published" (on_world (query
              (markPublished (m_IntentID <$> pending) (m_EmittedAt <$> pending))));
        mret (Z.of_nat (length messages))
    end.

(** [Run], cancelled after so many ticks; [published] and [failed] are the counters that
    cmd/relay passes. *)
Fixpoint Run (ticks : nat) : MR unit :=
  match ticks with
  | O => throw ctx_canceled
  | S rest =>
      cycle ← try Publish;
      _ ← (match cycle with
           | inl _ => on_world (emit (Inc "relay_failures" []))
           | inr count => if 0 <? count then on_world (emit (Add "relay_published" [] count)) else mret tt
           end);
      Run rest
  end.
End Relay.

(** ** Lemmas *)

(** The message that carries an intent. *)
Definition carried (i : intent_row) : kmessage :=
  mkKMessage (i_id i) (marshal (message_json (scan_message i))).

(** The batch the relay reads. *)
Definition batch_of (batch : nat) (d : DB) : list intent_row :=
  take batch (merge_sort emitted_before (filter unpublished_row (db_intents d))).

Lemma encode_all_spec rows ms :
  encode_all (scan_message <$> rows) = inr ms → ms = carried <$> rows.
Proof.
  revert ms. induction rows as [|i rows IH]; intros ms; simpl; [by intros [= <-]|].
  unfold Marshal. destruct (raws_valid _); [|done]. destruct (encode_all _) as [e|l]; [done|].
  intros [= <-]. by rewrite (IH l eq_refl).
Qed.

Lemma encode_all_valid rows :
  Forall (λ i, Valid (i_payload i) = true) rows → encode_all (scan_message <$> rows) = inr (carried <$> rows).
Proof.
  induction 1 as [|i rows Hi _ IH]; [done|]. csimpl. unfold Marshal.
  assert (Hv : raws_valid (message_json (scan_message i)) = true).
  { simpl. rewrite Hi. rewrite orb_true_r. unfold json_array. destruct (Scope_ (i_declared i)) as [l|]; [|done].
    simpl. by induction l. }
  rewrite Hv, IH. done.
Qed.

Lemma written_of_sub l mask : ∀ m, m ∈ written_of l mask → m ∈ l.
Proof.
  revert mask. induction l as [|x l IH]; intros [|[|] mask] m; simpl; try (by intros ?%not_elem_of_nil).
  - intros [->|?]%elem_of_cons; [by left|right; by eapply IH].
  - intros ?. right. by eapply IH.
Qed.

Definition published_ids (rows : list intent_row) : list string := m_IntentID <$> (scan_message <$> rows).
Definition published_times (rows : list intent_row) : list Z := m_EmittedAt <$> (scan_message <$> rows).

Definition marked (rows : list intent_row) (d : DB) : DB :=
  set_intents (fmap (λ i, if decide (i_id i ∈ published_ids rows ∧ i_emitted i * 1000 ∈ published_times rows)
    then mark_row (db_now d) i else i)) d.

(** The tables once the other connections had their turn. *)
Definition after_others (w : world) : DB := w_db (interleave w).2.

Lemma unpublished_run batch s :
  ∃ res w, on_world (unpublished batch) s = (res, mkRWorld w (r_topic s) (r_script s)) ∧
    w_db w = w_db (r_world s) ∧ w_env w = w_env (r_world s) ∧ w_faults w = tail (w_faults (r_world s)) ∧
    (res = inr (scan_message <$> batch_of batch (w_db (r_world s))) ∨ ∃ e, res = inl e).
Proof.
  unfold on_world, unpublished, mbind, St_bind, wrapping, query. simpl.
  destruct (default Fine (head (w_faults (r_world s)))); simpl; eexists _, _; (split; [done|]); split_and!; eauto.
Qed.

Lemma mark_run rows s :
  let run := on_world (query (markPublished (published_ids rows) (published_times rows))) s in
  r_topic run.2 = r_topic s ∧
  (w_db (r_world run.2) = marked rows (w_db (r_world s)) ∨
   w_db (r_world run.2) = w_db (r_world s) ∧ ∃ e, run.1 = inl e).
Proof.
  unfold on_world, query. simpl.
  destruct (default Fine (head (w_faults (r_world s)))); simpl; (split; [done|]); eauto.
Qed.

(** What is known of a cycle that read [rows] from tables [d]: the messages written carry rows
    of the batch, and the batch is marked only when all of them were. *)
Definition cycle (rows : list intent_row) (d : DB) (env : list (DB → DB)) (s s' : rworld) (res : goerr + Z) : Prop :=
  ∃ new, r_topic s' = r_topic s ++ new ∧ (∀ m, m ∈ new → m ∈ carried <$> rows) ∧
    (w_db (r_world s') = d ∨ new = carried <$> rows ∧
       let d1 := match env with f :: _ => f d | [] => d end in
       (w_db (r_world s') = d1 ∨ w_db (r_world s') = marked rows d1)) ∧
    (∀ n, res = inr n → n = Z.of_nat (length rows) ∧ new = carried <$> rows ∧
       (rows ≠ [] → w_db (r_world s') = marked rows match env with f :: _ => f d | [] => d end)).

Lemma Publish_cycle batch s :
  cycle (batch_of batch (w_db (r_world s))) (w_db (r_world s)) (w_env (r_world s)) s
    (Publish batch s).2 (Publish batch s).1.
Proof.
  destruct (unpublished_run batch s) as (res & w & Hread & Hd & He & _ & Hres).
  set (rows := batch_of batch (w_db (r_world s))) in *. unfold Publish, cycle. rewrite <- Hd, <- He.
  destruct Hres as [->|[e ->]]; [|rewrite (bind_inl _ _ _ _ _ Hread); exists []; simpl; rewrite app_nil_r;
    by split_and!; [done|by intros m ?%not_elem_of_nil|left|]].
  rewrite (bind_inr _ _ _ _ _ Hread). rewrite length_fmap.
  destruct (Nat.eqb_spec (length rows) 0) as [Hz|Hz].
  { apply nil_length_inv in Hz. rewrite Hz. exists []. simpl. rewrite app_nil_r.
    split_and!; [done|by intros m ?%not_elem_of_nil|by left|]. intros n [= <-]. done. }
  destruct (encode_all (scan_message <$> rows)) as [e|ms] eqn:Henc.
  { exists []. simpl. rewrite app_nil_r. by split_and!; [done|by intros m ?%not_elem_of_nil|left|]. }
  apply encode_all_spec in Henc as ->.
  destruct (WriteMessages (carried <$> rows) (mkRWorld w (r_topic s) (r_script s))) as [res s1] eqn:HW.
  unfold WriteMessages in HW. simpl in HW.
  destruct (default Delivered (head (r_script s))) as [|e mask] eqn:Hdel; injection HW as <- Hs1.
  2: { erewrite bind_inl by (unfold wrapping, WriteMessages; simpl; by rewrite Hdel).
    eexists. simpl. split_and!; [done|apply written_of_sub|by left|done]. }
  erewrite bind_inr by (unfold wrapping, WriteMessages; simpl; by rewrite Hdel).
  set (d1 := match w_env w with f :: _ => f (w_db w) | [] => w_db w end).
  rewrite Hs1.
  assert (Hi : ∃ w2, on_world interleave s1 = (inr tt, mkRWorld w2 (r_topic s1) (r_script s1)) ∧ w_db w2 = d1).
  { rewrite <- Hs1. unfold on_world, interleave, d1. simpl. destruct (w_env w); eauto. }
  destruct Hi as (w2 & Hi & Hd2). rewrite (bind_inr _ _ _ _ _ Hi).
  pose proof (mark_run rows (mkRWorld w2 (r_topic s1) (r_script s1))) as [Ht Hm]. simpl in Ht, Hm.
  unfold published_ids, published_times in *.
  destruct (on_world (query _) _) as [res s3] eqn:Hq. simpl in Ht, Hm. rewrite Hd2 in Hm.
  rewrite <- Hs1 in Ht. exists (carried <$> rows). unfold wrapping.
  destruct res as [e|[]]; [erewrite bind_inl by (by rewrite Hq)|erewrite bind_inr by (by rewrite Hq)]; simpl.
  - split_and!; [done|done|right; split; [done|]; naive_solver|done].
  - destruct Hm as [Hm|[_ [? ?]]]; [|done]. split_and!; [done|done|by right; auto|].
    intros n [= <-]. by rewrite length_fmap.
Qed.

(** ** Draining *)

#[export] Instance Operation_eq_dec : EqDecision Operation.
Proof. solve_decision. Defined.
#[export] Instance intent_row_eq_dec : EqDecision intent_row.
Proof. solve_decision. Defined.

Definition outbox (d : DB) : list intent_row := filter unpublished_row (db_intents d).

Lemma batch_sub batch d i : i ∈ batch_of batch d → i ∈ outbox d.
Proof.
  unfold batch_of. intros (n & Hi & _)%elem_of_take. apply list_elem_of_lookup_2 in Hi.
  by rewrite merge_sort_Permutation in Hi.
Qed.

Lemma marked_iff batch d i :
  NoDup (i_id <$> db_intents d) → i ∈ outbox d →
  (i_id i ∈ published_ids (batch_of batch d) ∧ i_emitted i * 1000 ∈ published_times (batch_of batch d)) ↔
  i ∈ batch_of batch d.
Proof.
  intros Hnd Hi. unfold published_ids, published_times. rewrite <- !list_fmap_compose. split.
  - intros [Hid _]. apply list_elem_of_fmap in Hid as (j & Hj & Hin).
    assert (i = j) as ->; [|done]. apply (image_once i_id (db_intents d)); [done|..|done];
      [|apply batch_sub in Hin]; by eapply list_elem_of_filter.
  - intros Hin. split; apply list_elem_of_fmap; by exists i.
Qed.

(** Marking the batch leaves the rest of the outbox. *)
Lemma outbox_marked batch d :
  NoDup (i_id <$> db_intents d) →
  outbox (marked (batch_of batch d) d) ≡ₚ drop batch (merge_sort emitted_before (outbox d)) ∧
  i_id <$> db_intents (marked (batch_of batch d) d) = i_id <$> db_intents d.
Proof.
  intros Hnd. set (rows := batch_of batch d). split.
  - assert (Hfilter : ∀ l : list intent_row, (∀ i, i ∈ l → i ∈ db_intents d) → filter unpublished_row
      ((λ i, if decide (i_id i ∈ published_ids rows ∧ i_emitted i * 1000 ∈ published_times rows)
             then mark_row (db_now d) i else i) <$> l) = filter (λ i, i ∉ rows) (filter unpublished_row l)).
    { induction l as [|i l IH]; intros Hl; [done|]. csimpl. rewrite !filter_cons, IH by (intros; apply Hl; by right).
      destruct (decide (unpublished_row i)) as [Hu|Hu].
      - assert (Hin : i ∈ outbox d) by (apply list_elem_of_filter; split; [done|apply Hl; by left]).
        pose proof (marked_iff batch d i Hnd Hin) as Hiff. fold rows in Hiff. rewrite filter_cons.
        destruct (decide (i_id i ∈ _ ∧ _)) as [Hm|Hm]; destruct (decide (i ∉ rows)) as [Hr|Hr]; try tauto.
        by rewrite decide_True.
      - destruct (decide (i_id i ∈ _ ∧ _)); by rewrite decide_False by (unfold unpublished_row in *; done). }
    unfold outbox at 1, marked. simpl db_intents. rewrite Hfilter by done. fold (outbox d).
    assert (Hperm : outbox d ≡ₚ rows ++ drop batch (merge_sort emitted_before (outbox d))).
    { unfold rows, batch_of. fold (outbox d). rewrite take_drop. by rewrite merge_sort_Permutation. }
    assert (Hnd2 : NoDup (outbox d)).
    { apply NoDup_filter. by apply (NoDup_fmap_1 i_id). }
    rewrite Hperm at 1. rewrite Hperm in Hnd2. apply NoDup_app in Hnd2 as (_ & Hdis & _).
    rewrite filter_app, filter_drops, filter_keeps; [done|..].
    + intros i Hi Hr. by apply (Hdis i).
    + intros i Hi Hn. done.
  - unfold marked. simpl. rewrite <- list_fmap_compose. apply list_fmap_ext. intros n i _. simpl. by case_decide.
Qed.

(** Nothing fails and nobody interferes. *)
Definition calm_relay (s : rworld) : Prop :=
  w_faults (r_world s) = [] ∧ w_env (r_world s) = [] ∧ r_script s = [].

Lemma query_calm {X} (st : stmt X) topic w x d :
  w_faults w = [] → st (w_db w) = inr (x, d) →
  on_world (query st) (mkRWorld w topic []) = (inr x, mkRWorld (set_db d w) topic []).
Proof. intros Hf Hs. unfold on_world, query. simpl. rewrite Hf, Hs. simpl. destruct w; simpl in *. by subst. Qed.

Lemma Publish_calm batch s :
  calm_relay s → Forall (λ i, Valid (i_payload i) = true) (outbox (w_db (r_world s))) →
  let rows := batch_of batch (w_db (r_world s)) in
  calm_relay (Publish batch s).2 ∧ r_topic (Publish batch s).2 = r_topic s ++ (carried <$> rows) ∧
  w_db (r_world (Publish batch s).2) = marked rows (w_db (r_world s)).
Proof.
  intros (Hf & He & Hs) Hv rows.
  assert (Hvr : Forall (λ i, Valid (i_payload i) = true) rows).
  { apply Forall_forall. intros i Hi. rewrite Forall_forall in Hv. by eapply Hv, batch_sub. }
  destruct s as [w topic script]. simpl in *. subst script.
  assert (Hread : on_world (unpublished batch) (mkRWorld w topic []) =
    (inr (scan_message <$> rows), mkRWorld w topic [])).
  { unfold unpublished, on_world, mbind, St_bind, wrapping, query. simpl. rewrite Hf. simpl.
    destruct w; simpl in *. by subst. }
  assert (Hrun : ∃ n w', Publish batch (mkRWorld w topic []) = (inr n, mkRWorld w' (topic ++ (carried <$> rows)) []) ∧
    w_faults w' = [] ∧ w_env w' = [] ∧ w_db w' = marked rows (w_db w)).
  2: { destruct Hrun as (n & w' & -> & ? & ? & ?). by split_and!. }
  unfold Publish. rewrite (bind_inr _ _ _ _ _ Hread), length_fmap.
  destruct (Nat.eqb_spec (length rows) 0) as [Hz|Hz].
  { apply nil_length_inv in Hz. rewrite Hz. exists 0, w. simpl. rewrite app_nil_r. split_and!; try done.
    unfold marked, set_intents. destruct (w_db w). simpl. f_equal. symmetry. apply list_fmap_id. }
  rewrite encode_all_valid by done. erewrite bind_inr by done. simpl r_world. simpl r_topic. simpl r_script.
  assert (Hi : on_world interleave (mkRWorld w (topic ++ (carried <$> rows)) []) =
    (inr tt, mkRWorld w (topic ++ (carried <$> rows)) [])) by (unfold on_world, interleave; simpl; by rewrite He).
  rewrite (bind_inr _ _ _ _ _ Hi). unfold wrapping.
  pose proof (query_calm (markPublished (published_ids rows) (published_times rows))
    (topic ++ (carried <$> rows)) w tt (marked rows (w_db w)) Hf eq_refl) as Hq.
  unfold published_ids, published_times in Hq. erewrite bind_inr by (by rewrite Hq).
  eexists _, _. by split_and!.
Qed.

(** What a tick leaves besides counters is what the cycle leaves. *)
Lemma Run_tick batch n s :
  ∃ s1, (Run batch (S n) s).2 = (Run batch n s1).2 ∧ r_topic s1 = r_topic (Publish batch s).2 ∧
    w_db (r_world s1) = w_db (r_world (Publish batch s).2) ∧
    (calm_relay (Publish batch s).2 → calm_relay s1).
Proof.
  cbn [Run]. destruct (Publish batch s) as [r s'] eqn:E. erewrite bind_inr by (by apply try_eq). simpl.
  destruct r as [e|count]; [|destruct (0 <? count)]; (erewrite bind_inr by done); by eexists.
Qed.

Lemma Run_drains batch : ∀ n s,
  calm_relay s → NoDup (i_id <$> db_intents (w_db (r_world s))) →
  Forall (λ i, Valid (i_payload i) = true) (outbox (w_db (r_world s))) →
  (length (outbox (w_db (r_world s))) <= n * batch)%nat →
  ∃ l, l ≡ₚ outbox (w_db (r_world s)) ∧ r_topic (Run batch n s).2 = r_topic s ++ (carried <$> l) ∧
    outbox (w_db (r_world (Run batch n s).2)) = [].
Proof.
  induction n as [|n IH]; intros s Hcalm Hnd Hv Hlen.
  { exists []. simpl. rewrite app_nil_r. simpl in Hlen.
    assert (outbox (w_db (r_world s)) = []) as -> by (apply nil_length_inv; lia). done. }
  destruct (Run_tick batch n s) as (s1 & -> & Ht1 & Hd1 & Hc1).
  destruct (Publish_calm batch s Hcalm Hv) as (Hc & Ht & Hd). set (d := w_db (r_world s)) in *.
  destruct (outbox_marked batch d Hnd) as [Hout Hids].
  rewrite <- Hd1 in Hd. rewrite <- Ht1 in Ht.
  destruct (IH s1 (Hc1 Hc)) as (l & Hl & Htopic & Hnone); rewrite ?Hd.
  - by rewrite Hids.
  - rewrite Hout. apply Forall_drop. by rewrite merge_sort_Permutation.
  - rewrite Hout, length_drop, merge_sort_Permutation. simpl in Hlen. lia.
  - exists (batch_of batch d ++ l). split_and!; [| |done].
    + rewrite Hl, Hd, Hout. unfold batch_of. fold (outbox d). rewrite take_drop. apply merge_sort_Permutation.
    + by rewrite Htopic, Ht, fmap_app, app_assoc.
Qed.

(** ** Theorems *)

(** C22: publication is at least once: whatever statement, delivery or acknowledgement fails and
    whatever other connections commit, a cycle writes only messages that carry rows it read from
    the outbox, each with the row's identifier as key, and an intent that is published after
    the cycle was already so or is one whose message was written in it; a cycle that reports a
    count wrote that many messages, all of the oldest unpublished intents up to the batch
    size. *)
Theorem publish_before_mark (batch : nat) (s : rworld) :
  let d := w_db (r_world s) in
  let s' := (Publish batch s).2 in
  ∃ new d1, r_topic s' = r_topic s ++ new ∧ (∀ m, m ∈ new → m ∈ carried <$> batch_of batch d) ∧
    (d1 = d ∨ d1 = match w_env (r_world s) with f :: _ => f d | [] => d end) ∧
    (∀ i, i ∈ db_intents (w_db (r_world s')) → i_published i ≠ None →
       i ∈ db_intents d1 ∨ ∃ row, row ∈ batch_of batch d ∧ i_id row = i_id i ∧ carried row ∈ new) ∧
    (∀ n, (Publish batch s).1 = inr n → n = Z.of_nat (length new) ∧ new = carried <$> batch_of batch d).
Proof.
  intros d s'. destruct (Publish_cycle batch s) as (new & Ht & Hsub & Hdb & Hn). fold d s' in Ht, Hsub, Hdb, Hn.
  set (d2 := match w_env (r_world s) with f :: _ => f d | [] => d end) in *.
  assert (Hcount : ∀ n, (Publish batch s).1 = inr n → n = Z.of_nat (length new) ∧ new = carried <$> batch_of batch d).
  { intros n Hres. destruct (Hn n Hres) as (-> & -> & _). by rewrite length_fmap. }
  destruct Hdb as [Hd|[Hnew [Hd|Hd]]]; [exists new, d|exists new, d2..]; split_and!; auto; rewrite Hd; auto.
  intros i Hi Hp. simpl in Hi. apply list_elem_of_fmap in Hi as (j & -> & Hj).
  destruct (decide _) as [[Hid _]|_]; [|by left]. right. simpl.
  unfold published_ids in Hid. rewrite <- list_fmap_compose in Hid. apply list_elem_of_fmap in Hid as (row & Hr & Hrow).
  exists row. split_and!; [done|by rewrite Hr|]. rewrite Hnew. by apply list_elem_of_fmap_2.
Qed.

(** C23: the outbox drains: when nothing fails, [Run] with as many ticks as batches are needed
    leaves no unpublished intent, and its cycles together write exactly one message for each intent that was
    unpublished. *)
Theorem outbox_drains (n batch : nat) (s : rworld) :
  calm_relay s → NoDup (i_id <$> db_intents (w_db (r_world s))) →
  Forall (λ i, Valid (i_payload i) = true) (outbox (w_db (r_world s))) →
  (length (outbox (w_db (r_world s))) <= n * batch)%nat →
  ∃ l, l ≡ₚ outbox (w_db (r_world s)) ∧ r_topic (Run batch n s).2 = r_topic s ++ (carried <$> l) ∧
    outbox (w_db (r_world (Run batch n s).2)) = [].
Proof. apply Run_drains. Qed.

(** Three intents and batches of two. *)
Definition relay_intent (id : string) (at_ : Z) : intent_row :=
  mkIntent id "a" "k" "ticket" "7" "close" (mkOperation ClassReplace None) "{}" at_ None None.
Definition full_outbox : rworld :=
  mkRWorld (world_of (mkDB 9 3 ∅ [relay_intent "i2" 2; relay_intent "i1" 1; relay_intent "i3" 3] [] [] [])) [] [].

Lemma outbox_drains_witness :
  ∃ l, l ≡ₚ outbox (w_db (r_world full_outbox)) ∧
    r_topic (Run 2 2 full_outbox).2 = [] ++ (carried <$> l) ∧
    outbox (w_db (r_world (Run 2 2 full_outbox).2)) = [] ∧
    (km_Key <$> r_topic (Run 2 2 full_outbox).2) = ["i1"; "i2"; "i3"].
Proof.
  destruct (outbox_drains 2 2 full_outbox) as (l & Hl & Ht & Ho).
  - split; [reflexivity|]. split; reflexivity.
  - apply (bool_decide_unpack _). vm_compute. exact I.
  - apply Forall_forall. intros i [_ Hi]%list_elem_of_filter.
    assert (Hp : i_payload i = "{}") by (simpl in Hi; set_solver). rewrite Hp. vm_compute. reflexivity.
  - vm_compute. lia.
  - exists l. split; [exact Hl|]. split; [exact Ht|]. split; [exact Ho|]. vm_compute. reflexivity.
Defined.
