(* ===== verification/Telemetry.v ===== *)
(** * Telemetry: internal/telemetry

    The series a process registers, and the gauges that every scrape reads from the database.
    The Prometheus registry is a list of names in which a name registers once; a second
    registration panics, which is an error here.  Gauges in seconds are kept in nanoseconds:
    the conversion to a double is not modelled. *)

From S2P Require Import Prelude GoString GoTime Sha256 Manifest Conflict World Json Claim Config ResultStore.
From S2P Require Import Retention Partitions Store Reconcile Relay.

(** ** Registration *)

Inductive kind := Counter | Gauge | Histogram.

Record desc := mkDesc { d_kind : kind; d_name : string; d_labels : list string; d_buckets : list Z }.

(** The registry, the names kept for [Names], and the cap of an inline result. *)
Record Metrics := mkMetrics { registry : list desc; names : list string; resultInlineBytes : Z }.

(** [MustRegister]. *)
Definition MustRegister (d : desc) (m : Metrics) : goerr + Metrics :=
  if existsb (λ x, String.eqb (d_name x) (d_name d)) (registry m)
  then inl (errorf "duplicate metrics collector registration attempted")
  else inr (mkMetrics (registry m ++ [d]) (names m) (resultInlineBytes m)).

(** The constructors: each registers and notes the name. *)
Definition register (d : desc) (m : Metrics) : goerr + Metrics :=
  match MustRegister d m with
  | inl e => inl e
  | inr m => inr (mkMetrics (registry m) (names m ++ [d_name d]) (resultInlineBytes m))
  end.

(** Buckets in ten-thousandths; [DefBuckets] are the library's. *)
Definition DefBuckets : list Z := [50; 100; 250; 500; 1000; 2500; 5000; 10000; 25000; 50000; 100000].
Definition counter (name : string) : desc := mkDesc Counter name [] [].
Definition gauge (name : string) : desc := mkDesc Gauge name [] [].
Definition histogram (name : string) (buckets : list Z) : desc := mkDesc Histogram name [] buckets.
Definition counterVec (name : string) (labels : list string) : desc := mkDesc Counter name labels [].
Definition gaugeVec (name : string) (labels : list string) : desc := mkDesc Gauge name labels [].
Definition histogramVecWith (name : string) (buckets : list Z) (labels : list string) : desc :=
  mkDesc Histogram name labels buckets.
Definition histogramVec (name : string) (labels : list string) : desc := histogramVecWith name DefBuckets labels.

Definition indeterminateKeysName : string := "idemio_indeterminate_keys".
Definition pendingKeysName : string := "idemio_pending_keys".
Definition oldestPendingAgeName : string := "idemio_oldest_pending_age_seconds".
Definition partitionHeadroomName : string := "idemio_partition_headroom_seconds".
Definition unpublishedIntentsName : string := "idemio_unpublished_intents".
Definition relayLagName : string := "idemio_relay_lag_seconds".
Definition retentionLagName : string := "idemio_retention_lag_seconds".

(** The series of [New], in its order. *)
Definition series_of_New : list desc :=
  [counterVec "idemio_writes_total" ["status"]; counterVec "idemio_responses_total" ["code"];
   counter "idemio_replays_total"; counter "idemio_claim_collisions_total";
   histogram "idemio_reclaim_attempts" [10000; 20000; 30000; 50000; 80000; 130000; 210000; 340000];
   counterVec "idemio_hash_mismatches_total" ["resource_type"]; counter "idemio_oversized_results_total";
   counterVec "idemio_probe_failures_total" ["resource_type"]; counterVec "idemio_reconciled_total" ["outcome"];
   histogramVec "idemio_downstream_duration_seconds" ["disposition"];
   histogramVec "idemio_request_duration_seconds" ["route"];
   counterVec "idemio_conflicts_total" ["resource_type"; "resolution"];
   counterVec "idemio_lock_timeouts_total" ["resource_type"];
   counterVec "idemio_serialization_waits_total" ["outcome"];
   histogramVecWith "idemio_lock_wait_seconds" [5; 10; 25; 50; 100; 250; 500; 1000; 2500; 5000; 10000; 25000]
     ["resource_type"];
   counter "idemio_manifest_reload_failures_total"; gaugeVec "idemio_manifest_info" ["version"];
   counter "idemio_results_offloaded_total"; counter "idemio_offload_fallbacks_total";
   counter "idemio_result_fetch_failures_total"; counter "idemio_relay_published_total";
   counter "idemio_relay_failures_total"; counterVec "idemio_partitions_created_total" ["table"];
   counterVec "idemio_retention_deleted_total" ["table"]; counterVec "idemio_archived_partitions_total" ["table"];
   gauge "idemio_reconcile_stale_after_seconds"].

(** What the collector describes. *)
Definition Describe : list desc :=
  [gauge indeterminateKeysName; gauge pendingKeysName; gauge oldestPendingAgeName;
   gaugeVec partitionHeadroomName ["table"]; gauge unpublishedIntentsName; gauge relayLagName;
   gaugeVec retentionLagName ["table"]].

Fixpoint register_all (l : list desc) (m : Metrics) : goerr + Metrics :=
  match l with
  | [] => inr m
  | d :: rest => match register d m with inl e => inl e | inr m => register_all rest m end
  end.

Fixpoint must_register_all (l : list desc) (m : Metrics) : goerr + Metrics :=
  match l with
  | [] => inr m
  | d :: rest => match MustRegister d m with inl e => inl e | inr m => must_register_all rest m end
  end.

(** [New]. *)
Definition New (cfg : Config) : goerr + Metrics :=
  match register_all series_of_New (mkMetrics [] [] (ResultInlineBytes cfg)) with
  | inl e => inl e
  | inr m =>
      match must_register_all Describe m with
      | inl e => inl e
      | inr m => inr (mkMetrics (registry m) (merge_sort str_le (names m ++ (d_name <$> Describe)))
                        (resultInlineBytes m))
      end
  end.

Definition Names (m : Metrics) : list string := names m.

Definition ObserveResultSize (m : Metrics) (size : Z) : M unit :=
  if resultInlineBytes m <? size then emit (Inc "oversized_results" []) else mret tt.

(** ** The gauges of a scrape *)

Inductive gauge_value := Count (n : Z) | Seconds (ns : Z).

Record sample := mkSample { s_name : string; s_labels : list string; s_value : gauge_value }.

(** [min] of a column. *)
Definition oldest (l : list Z) : option Z :=
  match l with [] => None | x :: rest => Some (foldr Z.min x rest) end.

(** [coalesce(extract(epoch FROM now() - since), 0)], in microseconds. *)
Definition age_us (current : Z) (since : option Z) : Z := match since with None => 0 | Some t => current - t end.

Definition with_status (st : Status) (d : DB) : list key_row :=
  filter (λ r, k_status r = st) (snd <$> map_to_list (db_keys d)).

Definition select_counts : stmt (Z * Z * Z) := λ d,
  inr (Z.of_nat (length (with_status StatusIndeterminate d)), Z.of_nat (length (with_status StatusPending d)),
       age_us (db_now d) (oldest (k_claimed <$> with_status StatusPending d)), d).

Definition collect_counts : M (list sample) :=
  r ← try (query select_counts);
  match r with
  | inl _ => mret []
  | inr (indeterminate, pending, oldest) =>
      mret [mkSample indeterminateKeysName [] (Count indeterminate); mkSample pendingKeysName [] (Count pending);
            mkSample oldestPendingAgeName [] (Seconds (oldest * 1000))]
  end.

(** One table's headroom; a NULL bound does not scan. *)
Definition collect_headroom (table : string) : MM (list sample) :=
  r ← try (ddl (λ c, match latestPartitionBound table c with
                     | None => inl (errorf "cannot scan NULL into *time.Time")
                     | Some us => inr (us, c)
                     end));
  match r with
  | inl _ => mret []
  | inr us =>
      current ← lift now;
      mret [mkSample partitionHeadroomName [table] (Seconds (Sub (us * 1000) current))]
  end.

Fixpoint collect_headrooms (tables : list string) : MM (list sample) :=
  match tables with
  | [] => mret []
  | t :: rest => a ← collect_headroom t; b ← collect_headrooms rest; mret (a ++ b)
  end.

Definition select_outbox : stmt (Z * Z) := λ d,
  let outbox := filter unpublished_row (db_intents d) in
  inr (Z.of_nat (length outbox), age_us (db_now d) (oldest (i_emitted <$> outbox)), d).

Definition collectOutbox : M (list sample) :=
  r ← try (query select_outbox);
  match r with
  | inl _ => mret []
  | inr (backlog, lag) =>
      mret [mkSample unpublishedIntentsName [] (Count backlog); mkSample relayLagName [] (Seconds (lag * 1000))]
  end.

(** The column of a table that its retention goes by. *)
Definition time_column (table : string) (d : DB) : list Z :=
  if String.eqb table "idempotency_keys" then k_created <$> (snd <$> map_to_list (db_keys d))
  else if String.eqb table "write_intents" then i_emitted <$> db_intents d
  else if String.eqb table "conflicts" then c_detected <$> db_conflicts d
  else u_at <$> db_audit d.

Definition windows (cfg : Config) : list (string * Z) :=
  [("idempotency_keys", RetentionKeys cfg); ("write_intents", RetentionIntents cfg);
   ("conflicts", RetentionConflicts cfg); ("payload_access_audit", RetentionAudit cfg)].

Definition select_lag (table : string) (hot : Z) : stmt Z := λ d,
  inr (match oldest (time_column table d) with
       | None => 0
       | Some t => db_now d - interval_us hot - t
       end, d).

Definition collect_lag (table : string) (hot : Z) : M (list sample) :=
  r ← try (query (select_lag table hot));
  match r with
  | inl _ => mret []
  | inr lag =>
      let lag := if lag <? 0 then 0 else lag in
      mret [mkSample retentionLagName [table] (Seconds (lag * 1000))]
  end.

(** The [range] over a map: [order] lists the tables as it goes over them. *)
Fixpoint collectRetentionLag (order : list (string * Z)) : M (list sample) :=
  match order with
  | [] => mret []
  | (table, hot) :: rest => a ← collect_lag table hot; b ← collectRetentionLag rest; mret (a ++ b)
  end.

(** [Collect]. *)
Definition Collect (order : list (string * Z)) : MM (list sample) :=
  a ← lift collect_counts;
  b ← collect_headrooms headroom_tables;
  c ← lift collectOutbox;
  d ← lift (collectRetentionLag order);
  mret (a ++ b ++ c ++ d).


(** ** What a gauge may say *)

Definition keys_in (st : Status) (d : DB) : gmap (string * string) key_row :=
  filter (λ x, k_status x.2 = st) (db_keys d).

(** [t] is in the column and nothing in it is earlier. *)
Definition earliest (t : Z) (l : list Z) : Prop := t ∈ l ∧ ∀ u, u ∈ l → t <= u.

(** Some partition of the table ends at [us], and none ends later. *)
Definition latest_end (table : string) (c : catalog) (us : Z) : Prop :=
  (∃ p, p ∈ attached c ∧ pt_table p = table ∧ pt_upper p = Some us) ∧
  ∀ p u, p ∈ attached c → pt_table p = table → pt_upper p = Some u → u <= us.

(** [clock] are the readings of the clock from the start of the scrape on. *)
Inductive truthful (cfg : Config) (d : DB) (c : catalog) (clock : nat → Z) : sample → Prop :=
| truthful_indeterminate :
    truthful cfg d c clock (mkSample indeterminateKeysName [] (Count (Z.of_nat (size (keys_in StatusIndeterminate d)))))
| truthful_pending :
    truthful cfg d c clock (mkSample pendingKeysName [] (Count (Z.of_nat (size (keys_in StatusPending d)))))
| truthful_no_age :
    keys_in StatusPending d = ∅ → truthful cfg d c clock (mkSample oldestPendingAgeName [] (Seconds 0))
| truthful_age key r :
    keys_in StatusPending d !! key = Some r →
    (∀ key' r', keys_in StatusPending d !! key' = Some r' → k_claimed r <= k_claimed r') →
    truthful cfg d c clock (mkSample oldestPendingAgeName [] (Seconds ((db_now d - k_claimed r) * 1000)))
| truthful_headroom t us j :
    t ∈ Tables → latest_end (Name t) c us → (j < length Tables)%nat →
    truthful cfg d c clock (mkSample partitionHeadroomName [Name t] (Seconds (Sub (us * 1000) (clock j))))
| truthful_backlog :
    truthful cfg d c clock (mkSample unpublishedIntentsName [] (Count (Z.of_nat (length (outbox d)))))
| truthful_no_lag : outbox d = [] → truthful cfg d c clock (mkSample relayLagName [] (Seconds 0))
| truthful_lag t :
    earliest t (i_emitted <$> outbox d) →
    truthful cfg d c clock (mkSample relayLagName [] (Seconds ((db_now d - t) * 1000)))
| truthful_empty table hot :
    (table, hot) ∈ windows cfg → time_column table d = [] →
    truthful cfg d c clock (mkSample retentionLagName [table] (Seconds 0))
| truthful_retention table hot t :
    (table, hot) ∈ windows cfg → earliest t (time_column table d) →
    truthful cfg d c clock (mkSample retentionLagName [table]
      (Seconds (Z.max 0 (db_now d - interval_us hot - t) * 1000))).

(** A series is a name and its labels. *)
Definition sample_series (x : sample) : string * list string := (s_name x, s_labels x).

Definition correctness : list (string * list string) :=
  [(indeterminateKeysName, []); (pendingKeysName, []); (oldestPendingAgeName, [])].

(** The tables that have a bounded partition. *)
Definition bounded (c : catalog) (tables : list string) : list string :=
  filter (λ t, is_Some (latestPartitionBound t c)) tables.

Definition later_series (c : catalog) (order : list (string * Z)) : list (string * list string) :=
  ((λ t, (partitionHeadroomName, [t])) <$> bounded c headroom_tables) ++
  [(unpublishedIntentsName, []); (relayLagName, [])] ++
  ((λ x, (retentionLagName, [x.1])) <$> order).

(** ** Lemmas *)

Lemma oldest_earliest l : match oldest l with None => l = [] | Some t => earliest t l end.
Proof.
  destruct l as [|x l]; [done|]. simpl. induction l as [|y l [Hin Hle]]; simpl.
  { split; [by left|]. intros u ->%list_elem_of_singleton. done. }
  split.
  - destruct (Z.min_spec y (foldr Z.min x l)) as [[_ ->]|[_ ->]]; [by right; left|].
    apply elem_of_cons in Hin as [->|?]; [by left|]. right. by right.
  - intros u [->|[->|Hu]%elem_of_cons]%elem_of_cons; [|lia|].
    + specialize (Hle x ltac:(by left)). lia.
    + specialize (Hle u ltac:(by right)). lia.
Qed.

Lemma with_status_elem st d r : r ∈ with_status st d ↔ ∃ key, keys_in st d !! key = Some r.
Proof.
  unfold with_status, keys_in. rewrite list_elem_of_filter, list_elem_of_fmap.
  setoid_rewrite map_lookup_filter_Some. simpl. split.
  - intros (Hs & [key x] & -> & Hx%elem_of_map_to_list). eauto.
  - intros (key & Hr & Hs). split; [done|]. exists (key, r). split; [done|]. by apply elem_of_map_to_list.
Qed.

Lemma with_status_keys st d :
  with_status st d = snd <$> filter (λ x, k_status x.2 = st) (map_to_list (db_keys d)).
Proof.
  unfold with_status. induction (map_to_list (db_keys d)) as [|x l IH]; [done|]. csimpl.
  rewrite !filter_cons, IH. by destruct (decide _).
Qed.

Lemma with_status_count st d : length (with_status st d) = size (keys_in st d).
Proof.
  rewrite <- length_map_to_list, with_status_keys, length_fmap. apply Permutation_length.
  apply NoDup_Permutation; [apply NoDup_filter, NoDup_map_to_list|apply NoDup_map_to_list|].
  intros [k x]. rewrite list_elem_of_filter, !elem_of_map_to_list. unfold keys_in.
  rewrite map_lookup_filter_Some. simpl. tauto.
Qed.

(** What a scrape leaves alone. *)
Definition scraped (s s' : mworld) : Prop :=
  w_db (m_world s') = w_db (m_world s) ∧ m_cat s' = m_cat s ∧
  w_metrics (m_world s') = w_metrics (m_world s) ∧ w_sent (m_world s') = w_sent (m_world s) ∧
  w_objects (m_world s') = w_objects (m_world s) ∧ (World.quiet (m_world s) → World.quiet (m_world s')).

#[export] Instance scraped_preorder : PreOrder scraped.
Proof.
  split; [by intros s|]. unfold scraped. intros s1 s2 s3 (?&?&?&?&?&?) (?&?&?&?&?&?).
  split_and!; try congruence. auto.
Qed.

Section Scrape.
Context (cfg : Config) (d : DB) (c : catalog) (clock : nat → Z).

(** The state of a scrape that has read the clock [i] times. *)
Definition at_reading (i : nat) (s : mworld) : Prop :=
  w_db (m_world s) = d ∧ m_cat s = c ∧ ∀ n, w_clock (m_world s) n = clock (i + n)%nat.

(** A part of the scrape that reads the clock at most [k] times: it returns samples of the series
    [all], each true of the database; without a fault it returns all of them. *)
Definition reads (k : nat) (all : list (string * list string)) (m : MM (list sample)) : Prop :=
  ∀ s i, at_reading i s → (i + k <= length Tables)%nat →
    ∃ l s' i', m s = (inr l, s') ∧ scraped s s' ∧ at_reading i' s' ∧ (i' <= i + k)%nat ∧
      Forall (truthful cfg d c clock) l ∧
      sample_series <$> l `sublist_of` all ∧ (World.quiet (m_world s) → sample_series <$> l = all).

(** One that does not read it, and returns all or nothing. *)
Definition reads_whole (all : list (string * list string)) (m : MM (list sample)) : Prop :=
  ∀ s i, at_reading i s →
    ∃ l s', m s = (inr l, s') ∧ scraped s s' ∧ at_reading i s' ∧ Forall (truthful cfg d c clock) l ∧
      (sample_series <$> l = [] ∨ sample_series <$> l = all) ∧ (World.quiet (m_world s) → sample_series <$> l = all).

Lemma reads_whole_reads all m : reads_whole all m → reads 0 all m.
Proof.
  intros Hm s i Hs _. destruct (Hm s i Hs) as (l & s' & ? & ? & ? & ? & [Hl|Hl] & ?); exists l, s', i;
    split_and!; try done; try lia; rewrite Hl; [apply sublist_nil_l|done].
Qed.

Lemma reads_nil : reads 0 [] (mret []).
Proof. intros s i Hs _. exists [], s, i. split_and!; try done; lia. Qed.

Lemma reads_app k1 k2 all1 all2 m1 m2 :
  reads k1 all1 m1 → reads k2 all2 m2 →
  reads (k1 + k2) (all1 ++ all2) (a ← m1; b ← m2; mret (a ++ b)).
Proof.
  intros H1 H2 s i Hs Hk. destruct (H1 s i Hs ltac:(lia)) as (l1 & s1 & i1 & E1 & S1 & R1 & L1 & T1 & B1 & Q1).
  destruct (H2 s1 i1 R1 ltac:(lia)) as (l2 & s2 & i2 & E2 & S2 & R2 & L2 & T2 & B2 & Q2).
  exists (l1 ++ l2), s2, i2. rewrite (bind_inr _ _ _ _ _ E1), (bind_inr _ _ _ _ _ E2).
  split_and!; [done|by trans s1|apply R2..|lia| | |].
  - by apply Forall_app.
  - rewrite fmap_app. by apply sublist_app.
  - intros Hq. rewrite fmap_app, Q1, Q2; [done| |done]. by apply S1.
Qed.

(** A statement that reads. *)
Lemma reads_query {X} (q : stmt X) (k : X → list sample) all :
  (∃ x, q d = inr (x, d) ∧ Forall (truthful cfg d c clock) (k x) ∧ sample_series <$> k x = all) →
  reads_whole all (lift (r ← try (query q); match r with inl _ => mret [] | inr x => mret (k x) end)).
Proof.
  intros (x & Hq & Ht & Hall) s i (Hd & Hc & Hr).
  assert (Htail : World.quiet (m_world s) → World.quiet (set_faults (tail (w_faults (m_world s))) (m_world s))) by apply quiet_tail.
  pose proof (quiet_head (m_world s)) as Hhead.
  unfold lift, mbind, St_bind, try, query. rewrite Hd.
  destruct (default Fine (head (w_faults (m_world s)))) as [|e|e]; [rewrite Hq| |rewrite Hq]; simpl;
    eexists _, _; (split; [done|]);
    (split; [by split_and!; simpl; rewrite ?Hd|]); (split; [by split_and!|]); split_and!; try done; auto.
  all: intros Hquiet; by specialize (Hhead Hquiet).
Qed.

Lemma reads_whole_ext all m m' : (∀ s, m s = m' s) → reads_whole all m → reads_whole all m'.
Proof. intros Heq Hm s i Hs. rewrite <- Heq. by apply Hm. Qed.

Lemma reads_counts : reads_whole correctness (lift collect_counts).
Proof.
  eapply reads_whole_ext; [|apply (reads_query select_counts
    (λ '(i, p, o), [mkSample indeterminateKeysName [] (Count i); mkSample pendingKeysName [] (Count p);
       mkSample oldestPendingAgeName [] (Seconds (o * 1000))]))].
  { intros s. unfold lift, collect_counts, mbind, St_bind.
    destruct (try _ _) as [[e|[e|[[i p] o]]] w']; reflexivity. }
  eexists. split; [reflexivity|]. split; [|reflexivity].
  rewrite !with_status_count. pose proof (oldest_earliest (k_claimed <$> with_status StatusPending d)) as Hold.
  repeat apply Forall_cons_2; [apply truthful_indeterminate|apply truthful_pending| |by apply Forall_nil].
  destruct (oldest _) as [t|]; cbn [age_us].
  - destruct Hold as [(r & -> & (key & Hr)%with_status_elem)%list_elem_of_fmap Hle].
    apply (truthful_age cfg d c clock key r Hr). intros key' r' Hr'. apply Hle, list_elem_of_fmap.
    exists r'. split; [done|]. apply with_status_elem. eauto.
  - apply truthful_no_age. apply fmap_nil_inv in Hold. apply map_size_empty_iff.
    by rewrite <- with_status_count, Hold.
Qed.

Lemma latest_is_end table us : latestPartitionBound table c = Some us → latest_end table c us.
Proof.
  intros Hus. split; [by apply latest_reached|]. intros p u Hp <- Hu.
  destruct (latest_ge c p u Hp Hu) as (us' & Hus' & Hle). congruence.
Qed.

Lemma reads_headroom t : t ∈ Tables →
  reads 1 ((λ t, (partitionHeadroomName, [t])) <$> bounded c [Name t]) (collect_headroom (Name t)).
Proof.
  intros Ht s i (Hd & Hc & Hr) Hk.
  assert (Htail : World.quiet (m_world s) → World.quiet (set_faults (tail (w_faults (m_world s))) (m_world s))) by apply quiet_tail.
  pose proof (quiet_head (m_world s)) as Hhead.
  unfold collect_headroom, bounded. rewrite filter_cons, filter_nil. unfold mbind, St_bind, try, ddl. rewrite Hc.
  destruct (latestPartitionBound (Name t) c) as [us|] eqn:Hus.
  - rewrite decide_True by eauto.
    destruct (default Fine (head (w_faults (m_world s)))) as [|e|e]; simpl; rewrite ?Hus; eexists _, _;
      [exists (S i)|exists i|exists i];
      (split; [done|]); (split; [by split_and!; simpl; rewrite ?Hc|]);
      (split; [split_and!; simpl; try done; intros n; rewrite Hr; f_equal; lia|]); (split; [lia|]);
      (split; [|split; [try apply sublist_nil_l; try done|]]).
    all: try by apply Forall_nil.
    all: try (intros Hquiet; by specialize (Hhead Hquiet)).
    apply Forall_singleton. rewrite Hr, Nat.add_0_r. apply truthful_headroom; [done|by apply latest_is_end|lia].
  - rewrite decide_False by (by intros [? ?]).
    destruct (default Fine (head (w_faults (m_world s)))) as [|e|e]; simpl; rewrite ?Hus; eexists _, _, i;
      (split; [done|]); (split; [by split_and!; simpl; rewrite ?Hc|]); (split; [by split_and!|]); split_and!; try done; lia.
Qed.

Lemma reads_headrooms ts : (∀ t, t ∈ ts → t ∈ Tables) →
  reads (length ts) ((λ t, (partitionHeadroomName, [t])) <$> bounded c (Name <$> ts)) (collect_headrooms (Name <$> ts)).
Proof.
  induction ts as [|t ts IH]; intros Hts; csimpl; [apply reads_nil|].
  replace (bounded c (Name t :: (Name <$> ts))) with (bounded c [Name t] ++ bounded c (Name <$> ts))
    by (unfold bounded; by rewrite <- filter_app).
  rewrite fmap_app. change (S (length ts)) with (1 + length ts)%nat.
  apply reads_app; [apply reads_headroom, Hts; by left|apply IH]. intros x Hx. apply Hts. by right.
Qed.

Lemma reads_outbox : reads_whole [(unpublishedIntentsName, []); (relayLagName, [])] (lift collectOutbox).
Proof.
  eapply reads_whole_ext; [|apply (reads_query select_outbox
    (λ '(n, lag), [mkSample unpublishedIntentsName [] (Count n); mkSample relayLagName [] (Seconds (lag * 1000))]))].
  { intros s. unfold lift, collectOutbox, mbind, St_bind. by destruct (try _ _) as [[e|[e|[n lag]]] w']. }
  eexists. split; [reflexivity|]. split; [|reflexivity]. fold (outbox d).
  pose proof (oldest_earliest (i_emitted <$> outbox d)) as Hold.
  repeat apply Forall_cons_2; [apply truthful_backlog| |by apply Forall_nil].
  destruct (oldest _) as [t|]; cbn [age_us]; [by apply truthful_lag|]. apply fmap_nil_inv in Hold. by apply truthful_no_lag.
Qed.

Lemma reads_lag table hot : (table, hot) ∈ windows cfg →
  reads_whole [(retentionLagName, [table])] (lift (collect_lag table hot)).
Proof.
  intros Hin. eapply reads_whole_ext; [|apply (reads_query (select_lag table hot)
    (λ lag, [mkSample retentionLagName [table] (Seconds ((if lag <? 0 then 0 else lag) * 1000))]))].
  { intros s. unfold lift, collect_lag, mbind, St_bind. by destruct (try _ _) as [[e|[e|lag]] w']. }
  eexists. split; [reflexivity|]. split; [|reflexivity]. apply Forall_singleton.
  pose proof (oldest_earliest (time_column table d)) as Hold. destruct (oldest _) as [t|].
  - replace (if _ <? 0 then _ else _) with (Z.max 0 (db_now d - interval_us hot - t))
      by (destruct (Z.ltb_spec (db_now d - interval_us hot - t) 0); lia).
    by eapply truthful_retention.
  - by eapply truthful_empty.
Qed.

Lemma reads_retention order : (∀ x, x ∈ order → x ∈ windows cfg) →
  reads 0 ((λ x, (retentionLagName, [x.1])) <$> order) (lift (collectRetentionLag order)).
Proof.
  induction order as [|[table hot] order IH]; intros Hin.
  { intros s i Hs Hk. exists [], s, i. destruct s; split_and!; try done; try apply Hs; lia. }
  assert (H : reads (0 + 0) ([(retentionLagName, [table])] ++ ((λ x, (retentionLagName, [x.1])) <$> order))
    (a ← lift (collect_lag table hot); b ← lift (collectRetentionLag order); mret (a ++ b))).
  { apply reads_app; [|apply IH; intros x Hx; apply Hin; by right].
    apply reads_whole_reads, reads_lag, Hin. by left. }
  intros s i Hs Hk. destruct (H s i Hs Hk) as (l & s' & i' & Hrun & Hrest). exists l, s', i'. split; [|exact Hrest].
  rewrite <- Hrun. cbn [collectRetentionLag]. unfold lift, mbind, St_bind.
  destruct (collect_lag _ _ _) as [[e|a] w1]; [done|]. simpl. by destruct (collectRetentionLag _ _) as [[e|b] w2].
Qed.
End Scrape.

(** The scrape after the counts. *)
Definition collect_rest (order : list (string * Z)) : MM (list sample) :=
  b ← collect_headrooms headroom_tables;
  x ← (c ← lift collectOutbox; e ← lift (collectRetentionLag order); mret (c ++ e));
  mret (b ++ x).

Lemma Collect_split order s :
  Collect order s = (a ← lift collect_counts; l ← collect_rest order; mret (a ++ l)) s.
Proof.
  unfold Collect, collect_rest, mbind, St_bind.
  destruct (lift collect_counts s) as [[e|a] s1]; [done|]. destruct (collect_headrooms _ s1) as [[e|b] s2]; [done|].
  destruct (lift collectOutbox s2) as [[e|x] s3]; [done|]. by destruct (lift (collectRetentionLag order) s3) as [[e|y] s4].
Qed.

(** The whole scrape. *)
Lemma reads_Collect cfg order s : order ≡ₚ windows cfg →
  let d := w_db (m_world s) in let c := m_cat s in let clock := w_clock (m_world s) in
  ∃ a l s', Collect order s = (inr (a ++ l), s') ∧ scraped s s' ∧ Forall (truthful cfg d c clock) (a ++ l) ∧
    (sample_series <$> a = [] ∨ sample_series <$> a = correctness) ∧ sample_series <$> l `sublist_of` later_series c order ∧
    (World.quiet (m_world s) → sample_series <$> (a ++ l) = correctness ++ later_series c order).
Proof.
  intros Horder d c clock.
  destruct (reads_counts cfg d c clock s 0%nat) as (a & s1 & E1 & S1 & R1 & T1 & B1 & Q1); [done|].
  assert (Hrest : reads cfg d c clock (length Tables + (0 + 0)) (later_series c order) (collect_rest order)).
  { apply reads_app; [rewrite headroom_tables_all; by apply reads_headrooms|].
    apply reads_app; [apply reads_whole_reads, reads_outbox|]. apply reads_retention. intros x. by rewrite Horder. }
  destruct (Hrest s1 0%nat R1 ltac:(simpl; lia)) as (l & s2 & i & E2 & S2 & _ & _ & T2 & B2 & Q2).
  exists a, l, s2. split_and!; [|by trans s1|by apply Forall_app|done|done|].
  - rewrite Collect_split, (bind_inr _ _ _ _ _ E1). by rewrite (bind_inr _ _ _ _ _ E2).
  - intros Hq. rewrite fmap_app, Q1, Q2; [done| |done]. by apply S1.
Qed.

(** Headroom that is used up is an outage: nothing of the table ends after the reading. *)
Lemma truthful_outage cfg d c clock table ns :
  truthful cfg d c clock (mkSample partitionHeadroomName [table] (Seconds ns)) →
  ∃ j, (j < length Tables)%nat ∧
    (ns <= 0 ↔ ∀ p u, p ∈ attached c → pt_table p = table → pt_upper p = Some u → u * 1000 <= clock j).
Proof.
  inversion 1 as [| | | |t us j Ht [(q & Hq & Hqt & Hqu) Hmax] Hj| | | | | ]; subst. exists j. split; [done|].
  unfold Sub, int64_min, int64_max. split.
  - intros Hle p u Hp Hpt Hu. specialize (Hmax p u Hp Hpt Hu). lia.
  - intros Hall. specialize (Hall q us Hq Hqt Hqu). lia.
Qed.

(** An age past the threshold is a key that the sweep takes. *)
Lemma truthful_stale cfg d c clock ns sa : truthful cfg d c clock (mkSample oldestPendingAgeName [] (Seconds ns)) → 0 <= sa →
  interval_us sa * 1000 < ns ↔ ∃ key r, db_keys d !! key = Some r ∧ is_stale sa d r.
Proof.
  intros Ht Hsa. assert (Hin : ∀ key r, keys_in StatusPending d !! key = Some r ↔
    db_keys d !! key = Some r ∧ k_status r = StatusPending) by (intros; apply map_lookup_filter_Some).
  assert (Hi : 0 <= interval_us sa) by (unfold interval_us; apply Z.div_pos; lia).
  inversion Ht as [| |He|key r Hr Hmin| | | | | | ]; subst; unfold is_stale; split.
  - lia.
  - intros (key & r & Hr & Hp & _). assert (Hx : keys_in StatusPending d !! key = Some r) by by apply Hin.
    by rewrite He in Hx.
  - intros Hlt. exists key, r. apply Hin in Hr as [? ?]. split_and!; [done|done|lia].
  - intros (key' & r' & Hr' & Hp & Hc). specialize (Hmin key' r'). rewrite Hin in Hmin. specialize (Hmin (conj Hr' Hp)). lia.
Qed.

Lemma windows_table cfg table hot hot' :
  (table, hot) ∈ windows cfg → (table, hot') ∈ windows cfg → hot = hot'.
Proof. unfold windows. rewrite !elem_of_cons, !elem_of_nil. naive_solver. Qed.

(** A lag is a key that the retention takes. *)
Lemma truthful_expired cfg d c clock ns : truthful cfg d c clock (mkSample retentionLagName ["idempotency_keys"] (Seconds ns)) →
  0 < ns ↔ ∃ key r, db_keys d !! key = Some r ∧ key_expired (RetentionKeys cfg) d r.
Proof.
  intros Ht. assert (Hcol : ∀ t, t ∈ time_column "idempotency_keys" d ↔ ∃ key r, db_keys d !! key = Some r ∧ k_created r = t).
  { intros t. unfold time_column. simpl. rewrite list_elem_of_fmap. setoid_rewrite list_elem_of_fmap. split.
    - intros (r & -> & [key x] & -> & Hx%elem_of_map_to_list). eauto.
    - intros (key & r & Hr & <-). exists r. split; [done|]. exists (key, r). split; [done|]. by apply elem_of_map_to_list. }
  inversion Ht as [| | | | | | | |table hot Hw He|table hot t Hw [Hin Hmin]]; subst; unfold key_expired; split.
  - lia.
  - intros (key & r & Hr & _). assert (Hx : k_created r ∈ time_column "idempotency_keys" d) by (apply Hcol; eauto).
    rewrite He in Hx. by apply not_elem_of_nil in Hx.
  - intros Hlt. apply Hcol in Hin as (key & r & Hr & <-). exists key, r. split; [done|].
    rewrite (windows_table cfg "idempotency_keys" (RetentionKeys cfg) hot) by (by try left). lia.
  - intros (key & r & Hr & Hlt). specialize (Hmin (k_created r)). rewrite Hcol in Hmin.
    specialize (Hmin ltac:(eauto)). rewrite (windows_table cfg "idempotency_keys" hot (RetentionKeys cfg)) by (by try left). lia.
Qed.

Lemma registered_false (name : string) (l : list desc) :
  name ∉ d_name <$> l → existsb (λ x, String.eqb (d_name x) name) l = false.
Proof.
  intros Hn. apply not_true_iff_false. intros (x & Hx & He)%existsb_exists. apply Hn.
  apply String.eqb_eq in He as <-. by apply list_elem_of_fmap_2, list_elem_of_In.
Qed.

(** Series of new names register, in any number. *)
Lemma must_register_all_fresh l : ∀ m, NoDup (d_name <$> (registry m ++ l)) →
  must_register_all l m = inr (mkMetrics (registry m ++ l) (names m) (resultInlineBytes m)).
Proof.
  induction l as [|d l IH]; intros m Hnd; simpl; [rewrite app_nil_r; by destruct m|].
  unfold MustRegister. rewrite registered_false.
  - rewrite IH; simpl; rewrite <- app_assoc; done.
  - rewrite fmap_app in Hnd. apply NoDup_app in Hnd as (_ & Hd & _). intros Hin. by apply (Hd _ Hin); left.
Qed.

Lemma register_all_fresh l : ∀ m, NoDup (d_name <$> (registry m ++ l)) →
  register_all l m = inr (mkMetrics (registry m ++ l) (names m ++ (d_name <$> l)) (resultInlineBytes m)).
Proof.
  induction l as [|d l IH]; intros m Hnd; simpl; [rewrite !app_nil_r; by destruct m|].
  unfold register, MustRegister. rewrite registered_false.
  - rewrite IH; simpl; rewrite <- !app_assoc; done.
  - rewrite fmap_app in Hnd. apply NoDup_app in Hnd as (_ & Hd & _). intros Hin. by apply (Hd _ Hin); left.
Qed.

Lemma series_fresh : NoDup (d_name <$> (series_of_New ++ Describe)).
Proof. apply (bool_decide_unpack _). by vm_compute. Qed.

Lemma series_NoDup cfg c order : order ≡ₚ windows cfg → NoDup (correctness ++ later_series c order).
Proof.
  intros Horder. unfold later_series. rewrite Horder. unfold bounded, headroom_tables. rewrite !filter_cons, filter_nil.
  repeat destruct (decide _); apply (bool_decide_unpack _); by vm_compute.
Qed.

(** ** Theorems *)

(** [New] never panics: the series it registers and those its collector describes have
    different names; the names it reports are exactly those of the registry, each once and
    sorted. *)
Theorem series_registered (cfg : Config) :
  ∃ m, New cfg = inr m ∧ StronglySorted str_le (Names m) ∧ NoDup (Names m) ∧
    Names m ≡ₚ (d_name <$> registry m) ∧ registry m = series_of_New ++ Describe ∧
    resultInlineBytes m = ResultInlineBytes cfg.
Proof.
  unfold New. rewrite register_all_fresh.
  2: { pose proof series_fresh as H. rewrite fmap_app in H. by apply NoDup_app in H as [? _]. }
  rewrite must_register_all_fresh by exact series_fresh.
  exists (mkMetrics (series_of_New ++ Describe) (merge_sort str_le (d_name <$> (series_of_New ++ Describe)))
    (ResultInlineBytes cfg)).
  split; [by rewrite fmap_app|]. unfold Names. cbn [names registry resultInlineBytes]. split_and!; try done.
  - apply StronglySorted_merge_sort; apply _.
  - rewrite merge_sort_Permutation. exact series_fresh.
  - by rewrite merge_sort_Permutation.
Qed.

(** C31: a scrape never lies and changes nothing: under any faults it returns gauges that are each
    true of the database (counts, ages, headroom against the clock as the scrape read it, lags
    that are never negative), no series twice, the three correctness gauges together or not at
    all; without a fault every series is there, the headroom of a table without a bounded
    partition apart.  The age of the oldest pending key is past a threshold exactly when the
    reconciler with that threshold has a key to sweep, the retention lag of the keys is
    positive exactly when the retention has one to delete, and the headroom of a table is used
    up exactly when no attached partition of it ends after the moment the clock was read. *)
Theorem gauges_truthful (cfg : Config) (order : list (string * Z)) (s : mworld) (staleAfter : Z) :
  order ≡ₚ windows cfg → 0 <= staleAfter →
  let d := w_db (m_world s) in let clock := w_clock (m_world s) in
  ∃ l s', Collect order s = (inr l, s') ∧ scraped s s' ∧ Forall (truthful cfg d (m_cat s) clock) l ∧
    NoDup (sample_series <$> l) ∧
    (∀ x y, x ∈ correctness → y ∈ correctness → x ∈ sample_series <$> l → y ∈ sample_series <$> l) ∧
    (World.quiet (m_world s) → sample_series <$> l = correctness ++ later_series (m_cat s) order) ∧
    (∀ ns, mkSample oldestPendingAgeName [] (Seconds ns) ∈ l →
       interval_us staleAfter * 1000 < ns ↔ ∃ key r, db_keys d !! key = Some r ∧ is_stale staleAfter d r) ∧
    (∀ ns, mkSample retentionLagName ["idempotency_keys"] (Seconds ns) ∈ l →
       0 < ns ↔ ∃ key r, db_keys d !! key = Some r ∧ key_expired (RetentionKeys cfg) d r) ∧
    (∀ table ns, mkSample partitionHeadroomName [table] (Seconds ns) ∈ l →
       ∃ j, (j < length Tables)%nat ∧
         (ns <= 0 ↔ ∀ p u, p ∈ attached (m_cat s) → pt_table p = table → pt_upper p = Some u → u * 1000 <= clock j)).
Proof.
  intros Horder Hsa d clock. destruct (reads_Collect cfg order s Horder) as (a & l & s' & Hrun & Hs & Ht & Ha & Hl & Hq).
  exists (a ++ l), s'. assert (Hnd : NoDup (correctness ++ later_series (m_cat s) order)) by by apply (series_NoDup cfg).
  assert (Hsub : sample_series <$> (a ++ l) `sublist_of` correctness ++ later_series (m_cat s) order).
  { rewrite fmap_app. apply sublist_app; [|done]. destruct Ha as [->| ->]; [apply sublist_nil_l|done]. }
  pose proof (proj1 (Forall_forall _ _) Ht) as Hall.
  split_and!; try done.
  - by eapply sublist_NoDup.
  - intros x y Hx Hy. rewrite fmap_app, !elem_of_app. destruct Ha as [->| ->]; [|auto].
    intros [?%not_elem_of_nil|Hin]; [done|]. apply NoDup_app in Hnd as (_ & Hd & _).
    destruct (Hd x Hx). by eapply elem_of_sublist.
  - intros ns Hin. eapply truthful_stale; [by apply Hall|done].
  - intros ns Hin. by eapply truthful_expired, Hall.
  - intros table ns Hin. by eapply truthful_outage, Hall.
Qed.

(** ** Witness *)

Section Witness.
Definition gauged_row : key_row := mkKey "h" StatusPending "ticket" "t" "create" None None None 1 0 0 None.
Definition gauged_db : DB := set_now 10000000 (set_keys (λ _, {[ ("a", "k") := gauged_row ]}) empty_db).
Definition gauged : mworld := mkMWorld (world_of gauged_db) (mkCatalog [] [] [] []).

Lemma gauges_truthful_witness :
  ∃ cfg l s', Load demo_env = inr cfg ∧ Collect (windows cfg) gauged = (inr l, s') ∧
    mkSample oldestPendingAgeName [] (Seconds 10000000000) ∈ l ∧
    ∃ key r, db_keys gauged_db !! key = Some r ∧ is_stale (5 * Second) gauged_db r.
Proof.
  destruct (Load demo_env) as [ps|cfg] eqn:Hl; [by vm_compute in Hl|].
  destruct (gauges_truthful cfg (windows cfg) gauged (5 * Second) (reflexivity _) ltac:(by vm_compute))
    as (l & s' & Hrun & _ & _ & _ & _ & _ & Hstale & _ & _).
  exists cfg, l, s'. assert (Hin : mkSample oldestPendingAgeName [] (Seconds 10000000000) ∈ l).
  { vm_compute in Hl. injection Hl as <-. vm_compute in Hrun. injection Hrun as <- _. right. right. left. }
  split_and!; [done|done|done|]. apply (Hstale 10000000000); [done|by vm_compute].
Defined.
End Witness.
