(* ===== verification/ApiProps.v ===== *)
(** * ApiProps: the theorems on the handlers

    A write sends at most one call and only for a claim this request has just committed; its
    response says the truth about that call; every loop ends once the clock passes its
    deadline; an outcome is recorded as it is answered. *)

From S2P Require Import Prelude GoString Sha256 Manifest Conflict Latency World Json Claim ClaimSpec.
From S2P Require Import ClaimInv ClaimSafety Config Downstream ResultStore Api.

(** ** Calm computations *)

(** No call leaves, no reply is consumed, the clock only moves on. *)
Definition calm (w w' : world) : Prop :=
  w_sent w' = w_sent w ∧ w_replies w' = w_replies w ∧ later w w'.

#[export] Instance calm_preorder : PreOrder calm.
Proof.
  split.
  - intros w. split_and!; [done..|by apply later_same].
  - intros w1 w2 w3 (Hs1 & Hr1 & Hl1) (Hs2 & Hr2 & Hl2).
    split_and!; [congruence..|by eapply later_trans].
Qed.

Lemma calm_same w w' :
  w_sent w' = w_sent w → w_replies w' = w_replies w → w_clock w' = w_clock w → calm w w'.
Proof. intros Hs Hr Hc. split_and!; [done..|by apply later_same]. Qed.

Lemma call_frame_calm w w' : call_frame w w' → calm w w'.
Proof.
  intros Hf. pose proof (call_frame_env _ _ Hf) as (_ & Hs & Hr & _). destruct Hf as [_ Hl]. done.
Qed.

Lemma obj_frame_calm w w' : obj_frame w w' → calm w w'.
Proof. intros Hf. apply calm_same; by rewrite Hf. Qed.

Section Calm.
Context `{!Pg, !Objects}.

Lemma calm_Claim req : frames calm (Claim req).
Proof.
  intros w. apply call_frame_calm. pose proof (Claim_refines req w) as Hr. simpl in Hr.
  by destruct (Claim req w) as [[e|res] w']; destruct Hr as [? _].
Qed.

Lemma calm_Complete agent k status result ref detail :
  frames calm (Complete agent k status result ref detail).
Proof.
  intros w. apply call_frame_calm.
  pose proof (Complete_refines agent k status result ref detail w) as Hr. simpl in Hr.
  by destruct (Complete agent k status result ref detail w) as [[e|res] w']; destruct Hr as [? _].
Qed.

Lemma calm_query {X} (q : stmt X) : frames calm (query q).
Proof.
  intros w. unfold query. destruct (default Fine (head (w_faults w)));
    try destruct (q (w_db w)) as [?|[x d]]; by apply calm_same.
Qed.

Lemma calm_Lookup agent k : frames calm (Lookup agent k).
Proof. unfold Lookup, readRecord. pose proof @calm_query. frames_auto. Qed.

Lemma calm_Place s agent k result : frames calm (Place s agent k result).
Proof.
  intros w. apply obj_frame_calm. by destruct (Place_spec s agent k result w) as (p & _ & ? & _).
Qed.

Lemma calm_Resolve s inline ref : frames calm (Resolve s inline ref).
Proof.
  intros w. unfold Resolve. destruct (String.eqb ref ""); [reflexivity|].
  destruct (configured s); simpl; [|reflexivity]. apply obj_frame_calm, Get_frame.
Qed.

Lemma calm_now : frames calm now.
Proof. intros w. split_and!; [done..|by exists 1%nat]. Qed.
Lemma calm_emit m : frames calm (emit m).
Proof. intros w. by apply calm_same. Qed.
Lemma calm_interleave : frames calm interleave.
Proof. intros w. unfold interleave. destruct (w_env w); by apply calm_same. Qed.
Lemma calm_ctx_done : frames calm ctx_done.
Proof. intros w. by apply calm_same. Qed.
Lemma calm_latency f : frames calm (modify (λ w, set_latency (f w) w)).
Proof. intros w. by apply calm_same. Qed.
End Calm.

#[export] Hint Resolve calm_Claim calm_Complete calm_Lookup calm_Place calm_Resolve calm_now
  calm_emit calm_interleave calm_ctx_done calm_latency : frames.

Section CalmParts.
Context `{!Pg, !Objects} (s : Server).

Lemma calm_wait : frames calm wait.
Proof. unfold wait. frames_auto. Qed.
#[local] Hint Resolve calm_wait : frames.

Lemma calm_waitForTerminal fuel blocking deadline : frames calm (waitForTerminal fuel blocking deadline).
Proof. induction fuel as [|f IH]; simpl; frames_auto. Qed.
#[local] Hint Resolve calm_waitForTerminal : frames.

Lemma calm_or_fuel {A B} (m : M (option A)) (k : A → M (option B)) :
  frames calm m → (∀ x, frames calm (k x)) → frames calm (or_fuel m k).
Proof. intros Hm Hk. unfold or_fuel. frames_auto. Qed.
#[local] Hint Resolve calm_or_fuel : frames.

Lemma calm_claim_loop fuel turns req deadline : frames calm (claim_loop fuel turns req deadline).
Proof.
  induction turns as [|n IH]; simpl; [frames_auto|]. apply frames_bind; [apply _|apply calm_Claim|].
  intros x. destruct (Verdict_ x); try apply frames_ret, _. destruct (Blocking x); [|apply frames_ret, _].
  apply calm_or_fuel; [apply calm_waitForTerminal|]. frames_auto.
Qed.
#[local] Hint Resolve calm_claim_loop : frames.

Lemma calm_claimWithSerialization fuel req : frames calm (claimWithSerialization s fuel req).
Proof. unfold claimWithSerialization. frames_auto. Qed.

Lemma calm_persist_loop n agent k status p detail : frames calm (persist_loop n agent k status p detail).
Proof. induction n as [|n IH]; simpl; frames_auto. Qed.
#[local] Hint Resolve calm_persist_loop : frames.

Lemma calm_persistOutcome agent k status o : frames calm (persistOutcome s agent k status o).
Proof. unfold persistOutcome. frames_auto. Qed.

Lemma calm_await_loop fuel record deadline : frames calm (await_loop fuel record deadline).
Proof. induction fuel as [|f IH]; simpl; frames_auto. Qed.
#[local] Hint Resolve calm_await_loop : frames.

Lemma calm_awaitCompletion fuel record : frames calm (awaitCompletion s fuel record).
Proof. unfold awaitCompletion. frames_auto. Qed.

Lemma calm_writeExisting k rt record : frames calm (writeExisting s k rt record).
Proof. unfold writeExisting, resolveResult. frames_auto. Qed.

Lemma calm_observe_claim req result : frames calm (observe_claim req result).
Proof. unfold observe_claim. frames_auto. Qed.

Lemma calm_handleRead r : frames calm (handleRead s r).
Proof. unfold handleRead, resolveResult. frames_auto. Qed.
End CalmParts.

#[export] Hint Resolve calm_wait calm_waitForTerminal calm_or_fuel calm_claim_loop
  calm_claimWithSerialization calm_persist_loop calm_persistOutcome calm_await_loop
  calm_awaitCompletion calm_writeExisting calm_observe_claim calm_handleRead : frames.

(** ** Computations that do not fail *)

Section ReturningParts.
Context `{!Pg, !Objects} (s : Server).

Lemma returns_now : returns now.
Proof. intros w. by eexists. Qed.
Lemma returns_emit m : returns (emit m).
Proof. apply returns_modify. Qed.
Lemma returns_interleave : returns interleave.
Proof. intros w. unfold interleave. destruct (w_env w); by eexists. Qed.
Lemma returns_ctx_done : returns ctx_done.
Proof. intros w. by eexists. Qed.
Lemma returns_Place rs agent k result : returns (Place rs agent k result).
Proof. intros w. destruct (Place_spec rs agent k result w) as (p & ? & _). by exists p. Qed.
Lemma returns_Execute c req : returns (Execute c req).
Proof. intros w. destruct (Execute_spec c req w) as (o & calls & ? & _). by exists o. Qed.
#[local] Hint Resolve returns_now returns_emit returns_interleave returns_ctx_done returns_Place
  returns_Execute : returns.

Lemma returns_wait : returns wait.
Proof. unfold wait. returns_auto. Qed.
#[local] Hint Resolve returns_wait : returns.

Lemma returns_waitForTerminal fuel blocking deadline : returns (waitForTerminal fuel blocking deadline).
Proof. induction fuel as [|f IH]; simpl; returns_auto. Qed.

Lemma returns_persistOutcome agent k status o : returns (persistOutcome s agent k status o).
Proof.
  assert (∀ n p detail, returns (persist_loop n agent k status p detail)).
  { intros n p detail. induction n as [|n IH]; simpl; returns_auto. }
  unfold persistOutcome. returns_auto.
Qed.
#[local] Hint Resolve returns_persistOutcome : returns.

Lemma returns_execute k req def claimed : returns (execute s k req def claimed).
Proof. unfold execute. returns_auto. Qed.

Lemma returns_await_loop fuel record deadline : returns (await_loop fuel record deadline).
Proof. induction fuel as [|f IH]; simpl; returns_auto. Qed.
#[local] Hint Resolve returns_await_loop : returns.

Lemma returns_awaitCompletion fuel record : returns (awaitCompletion s fuel record).
Proof. unfold awaitCompletion. returns_auto. Qed.

Lemma returns_writeExisting k rt record : returns (writeExisting s k rt record).
Proof. unfold writeExisting, resolveResult. returns_auto. Qed.

Lemma returns_observe_claim req result : returns (observe_claim req result).
Proof. unfold observe_claim. returns_auto. Qed.

Lemma returns_handleRead r : returns (handleRead s r).
Proof. unfold handleRead, resolveResult. returns_auto. Qed.
End ReturningParts.

#[export] Hint Resolve returns_now returns_emit returns_interleave returns_ctx_done returns_Place
  returns_Execute returns_wait returns_waitForTerminal returns_persistOutcome returns_execute
  returns_await_loop returns_awaitCompletion returns_writeExisting returns_observe_claim
  returns_handleRead : returns.

(** ** The parts of a write *)

Section Parts.
Context `{!Pg, !Objects} (canonical_Hash : writeRequest → goerr + string) (s : Server).

(** A result of the serialization loop is the result of one claim, or the wait expired. *)
Lemma claim_loop_result fuel turns req deadline : ∀ w res w',
  claim_loop fuel turns req deadline w = (inr (Some res), w') →
  Verdict_ res = VerdictSerializeTimeout ∨
  Verdict_ res ≠ VerdictSerialize ∧ ∃ w0, calm w w0 ∧ Claim req w0 = (inr res, w').
Proof.
  induction turns as [|n IH]; intros w res w'; simpl; [done|].
  destruct (Claim req w) as [[e|x] w1] eqn:Hc.
  { by rewrite (bind_inl _ _ _ _ _ Hc). }
  rewrite (bind_inr _ _ _ _ _ Hc).
  assert (Hdone : Verdict_ x ≠ VerdictSerialize → (inr (Some x), w1) = (inr (Some res) : goerr + option Result, w') →
    Verdict_ res ≠ VerdictSerialize ∧ ∃ w0, calm w w0 ∧ Claim req w0 = (inr res, w')).
  { intros Hv [= <- <-]. split; [done|]. exists w. split; [reflexivity|done]. }
  destruct (Verdict_ x) eqn:Hv; try (intros Heq; right; by apply Hdone).
  assert (is_Some (Blocking x)) as [blocking Hb].
  { pose proof (Claim_refines req w) as Hr. simpl in Hr. rewrite Hc in Hr.
    destruct Hr as (_ & _ & _ & [(? & _)|[lw Hs]]); [congruence|].
    by eapply claim_step_blocking. }
  rewrite Hb. unfold or_fuel.
  destruct (returns_waitForTerminal fuel blocking deadline w1) as [t Ht].
  pose proof (calm_waitForTerminal fuel blocking deadline w1) as Hcalm.
  destruct (waitForTerminal fuel blocking deadline w1) as [r w2] eqn:Hw. simpl in *. subst r.
  rewrite (bind_inr _ _ _ _ _ Hw). destruct t as [[]|]; simpl; [| |done].
  - intros Hl. apply IH in Hl as [?|(? & w0 & Hw0 & ?)]; [by left|right]. split; [done|].
    exists w0. split; [|done]. etransitivity; [apply (calm_Claim req w)|]. rewrite Hc.
    etransitivity; [exact Hcalm|]. etransitivity; [|exact Hw0]. by apply calm_same.
  - intros [= <- _]. by left.
Qed.

(** [execute] makes the one call of a write and answers what became of it. *)
Lemma execute_spec k req def claimed w :
  let run := execute s k req def claimed w in
  ∃ o calls, run.1 = inr (outcome_response k (IntentID claimed) o) ∧
    w_sent run.2 = w_sent w ++ calls ∧
    executed (downstream_request k req def) (head (w_replies w)) calls o ∧
    (Execute (downstream s) (downstream_request k req def) (now w).2).1 = inr o.
Proof.
  intros run. unfold run, execute. set (w1 := set_clock (λ n, w_clock w (S n)) w).
  rewrite (bind_inr now _ w (w_clock w 0%nat) w1 eq_refl).
  destruct (Execute_spec (downstream s) (downstream_request k req def) w1) as (o & calls & Hr & Hf & He).
  destruct (Execute (downstream s) (downstream_request k req def) w1) as [x w2] eqn:Hx.
  simpl in Hr, Hf. subst x. rewrite (bind_inr _ _ _ _ _ Hx).
  match goal with |- context [?m w2] => set (rest := m) end.
  assert (Hcalm : frames calm rest) by (unfold rest; frames_auto).
  assert (Hres : (rest w2).1 = inr (outcome_response k (IntentID claimed) o)).
  { revert w2 Hx Hf. cut (yields rest (outcome_response k (IntentID claimed) o)); [auto|].
    unfold rest. repeat (apply yields_bind; [returns_auto|intros ?]). apply yields_ret. }
  exists o, calls. split_and!; [exact Hres| |exact He|].
  - destruct (Hcalm w2) as [-> _]. by rewrite Hf.
  - change (now w).2 with w1. by rewrite Hx.
Qed.

(** What a write did: it was refused or answered without a call, or it made its one call
    after a claim of its own. *)
Inductive write_did (snapshot : Snapshot) (r : http_request) (w w' : world) : option response → Prop :=
| did_nothing resp :
    w_sent w' = w_sent w →
    (∀ x, resp = Some x → resp_status x ≠ 201) → write_did snapshot r w w' resp
| did_call k req def creq res o calls w0 w1 :
    admission canonical_Hash s snapshot r = inr (k, req, def, creq) →
    calm w w0 → Claim creq w0 = (inr res, w1) → Verdict_ res = VerdictClaimed →
    w_sent w' = w_sent w ++ calls →
    executed (downstream_request k req def) (head (w_replies w)) calls o →
    write_did snapshot r w w' (Some (outcome_response k (IntentID res) o)).

Lemma writeProblem_status st k reason detail : resp_status (writeProblem st k reason detail) = st.
Proof. done. Qed.

Lemma admit_status snapshot r resp :
  admission canonical_Hash s snapshot r = inl resp →
  400 <= resp_status resp < 500.
Proof.
  unfold admission. repeat case_match; intros [= <-]; rewrite writeProblem_status; lia.
Qed.

(** Replays and refusals are never a 201. *)
Lemma writeExisting_status k rt record w x :
  (writeExisting s k rt record w).1 = inr x → resp_status x ≠ 201.
Proof.
  unfold writeExisting, resolveResult. destruct (Status_ record); try (by intros [= <-]).
  - unfold mbind, St_bind, try. destruct (Resolve _ _ _ w) as [[e|body] w']; by intros [= <-].
  - destruct (_ =? _)%nat; by intros [= <-].
Qed.

(** Every verdict but a win is answered without a call, and never with a 201. *)
Lemma answer_calm fuel k req def result w :
  Verdict_ result ≠ VerdictClaimed → Verdict_ result ≠ VerdictSerialize →
  (Verdict_ result = VerdictExisting ∨ Verdict_ result = VerdictRejected → is_Some (Record_of result)) →
  ∃ resp, (answer s fuel k req def result w).1 = inr resp ∧
    calm w (answer s fuel k req def result w).2 ∧ ∀ x, resp = Some x → resp_status x ≠ 201.
Proof.
  intros Hc Hs Hrec. unfold answer.
  assert (Hsimple : ∀ m x, returns m → frames calm m → resp_status x ≠ 201 →
    ∃ resp, ((m ≫= λ _ : unit, mret (Some x)) w).1 = inr resp ∧
      calm w ((m ≫= λ _ : unit, mret (Some x)) w).2 ∧ ∀ y, resp = Some y → resp_status y ≠ 201).
  { intros m x Hm Hf Hx. exists (Some x). split_and!.
    - by apply yields_bind.
    - apply frames_bind; [apply _|done|]. intros _. apply frames_ret, _.
    - by intros y [= <-]. }
  destruct (Verdict_ result) eqn:Hv; try done.
  - destruct Hrec as [record ->]; [by left|]. unfold or_fuel.
    destruct (returns_awaitCompletion s fuel record w) as [x Hx].
    pose proof (calm_awaitCompletion s fuel record w) as Hcalm.
    destruct (awaitCompletion s fuel record w) as [? w1] eqn:Hrun. simpl in *. subst.
    rewrite (bind_inr _ _ _ _ _ Hrun). destruct x as [current|]; [|by exists None].
    destruct (returns_writeExisting s k (wr_ResourceType req) current w1) as [y Hy].
    pose proof (calm_writeExisting s k (wr_ResourceType req) current w1) as Hcalm'.
    pose proof (writeExisting_status k (wr_ResourceType req) current w1 y Hy) as Hst.
    destruct (writeExisting s k (wr_ResourceType req) current w1) as [? w2] eqn:Hrun'. simpl in *. subst.
    unfold fmap, St_fmap. rewrite (bind_inr _ _ _ _ _ Hrun').
    exists (Some y). split_and!; [done|by etransitivity|by intros z [= <-]].
  - apply Hsimple; [returns_auto|frames_auto|done].
  - destruct Hrec as [record ->]; [by right|].
    exists (Some (writeRaw 409 (Result_ record))). split_and!; [done| |by intros y [= <-]].
    by apply calm_same.
  - apply Hsimple; [returns_auto|frames_auto|done].
  - eexists. split_and!; [done|by apply calm_same|by intros y [= <-]].
Qed.

Lemma handleWrite_did fuel snapshot r w :
  let run := handleWrite canonical_Hash s fuel snapshot r w in
  ∃ resp, run.1 = inr resp ∧ write_did snapshot r w run.2 resp.
Proof.
  intros run. unfold run, handleWrite.
  destruct (admission canonical_Hash s snapshot r) as [refused|[[[k req] def] creq]] eqn:Hadm.
  { exists (Some refused). split; [done|]. apply did_nothing; [done|].
    intros x [= <-]. apply admit_status in Hadm. lia. }
  pose proof (calm_claimWithSerialization s fuel creq w) as Hcalm.
  destruct (claimWithSerialization s fuel creq w) as [x w1] eqn:Hrun. simpl in Hcalm.
  rewrite (bind_inr _ _ _ _ _ (try_eq _ _ _ _ Hrun)).
  destruct x as [e|[result|]].
  { eexists. split; [done|]. apply did_nothing; [apply Hcalm|]. by intros y [= <-]. }
  2: { exists None. split; [done|]. apply did_nothing; [apply Hcalm|done]. }
  assert (Hloop : Verdict_ result = VerdictSerializeTimeout ∨
    Verdict_ result ≠ VerdictSerialize ∧ ∃ w0, calm w w0 ∧ Claim creq w0 = (inr result, w1)).
  { unfold claimWithSerialization in Hrun.
    rewrite (bind_inr now _ w (w_clock w 0%nat) (set_clock (λ n, w_clock w (S n)) w) eq_refl) in Hrun.
    apply claim_loop_result in Hrun as [?|(? & w0 & Hw0 & ?)]; [by left|right].
    split; [done|]. exists w0. split; [|done]. etransitivity; [apply (calm_now w)|exact Hw0]. }
  destruct (returns_observe_claim req result w1) as [u Hu].
  pose proof (calm_observe_claim req result w1) as Hcalm2.
  destruct (observe_claim req result w1) as [? w2] eqn:Hobs. simpl in *. subst.
  rewrite (bind_inr _ _ _ _ _ Hobs).
  destruct (decide (Verdict_ result = VerdictClaimed)) as [Hv|Hv].
  - destruct Hloop as [?|(_ & w0 & Hw0 & Hclaim)]; [congruence|].
    unfold answer. rewrite Hv.
    set (m := match Record_of result with Some rec => _ | None => _ end).
    assert (Hm : returns m) by (unfold m; returns_auto).
    assert (Hmc : frames calm m) by (unfold m; frames_auto).
    destruct (Hm w2) as [u' Hu']. specialize (Hmc w2).
    destruct (m w2) as [? w3] eqn:Hm3. simpl in *. subst. rewrite (bind_inr _ _ _ _ _ Hm3).
    destruct (execute_spec k req def result w3) as (o & calls & Hr & Hsent & He & _).
    destruct (execute s k req def result w3) as [? w4] eqn:Hex. simpl in *. subst.
    unfold fmap, St_fmap. rewrite (bind_inr _ _ _ _ _ Hex).
    assert (Hto : calm w w3) by (etransitivity; [exact Hcalm|]; by etransitivity).
    eexists. split; [done|]. destruct Hto as (Hs3 & Hr3 & _). rewrite Hr3 in He. rewrite Hs3 in Hsent.
    by eapply did_call.
  - destruct (answer_calm fuel k req def result w2) as (resp & Hr & Hc & Hst); [done| | |].
    + by destruct Hloop as [->|[? _]].
    + intros Hex. destruct Hloop as [Hl|(_ & w0 & _ & Hclaim)]; [rewrite Hl in Hex; by destruct Hex|].
      pose proof (Claim_refines creq w0) as Href. simpl in Href. rewrite Hclaim in Href.
      destruct Href as (_ & _ & _ & [(Hl & _)|[lw Hs]]); [rewrite Hl in Hex; by destruct Hex|].
      by eapply claim_step_record.
    + exists resp. split; [done|]. apply did_nothing; [|done].
      assert (Hto : calm w (answer s fuel k req def result w2).2).
      { etransitivity; [exact Hcalm|]. by etransitivity. }
      apply Hto.
Qed.
End Parts.

(** ** The loops end *)

(** From reading [n] on the clock has passed [deadline]. *)
Definition past (n : nat) (deadline : Z) (w : world) : Prop :=
  ∀ m, (n <= m)%nat → deadline <= w_clock w m.

(** Time passes every deadline. *)
Definition time_passes (w : world) : Prop := ∀ deadline, ∃ n, past n deadline w.

Lemma past_later n deadline w w' : later w w' → past n deadline w → past n deadline w'.
Proof. intros [j Hj] Hp m Hm. rewrite Hj. apply Hp. lia. Qed.

Lemma past_mono n n' deadline w : (n <= n')%nat → past n deadline w → past n' deadline w.
Proof. intros Hn Hp m Hm. apply Hp. lia. Qed.

Lemma past_now n deadline w :
  past (S n) deadline w → past n deadline (set_clock (λ m, w_clock w (S m)) w).
Proof. intros Hp m Hm. simpl. apply Hp. lia. Qed.

Lemma time_passes_later w w' : later w w' → time_passes w → time_passes w'.
Proof. intros Hl Ht deadline. destruct (Ht deadline) as [n Hn]. exists n. by eapply past_later. Qed.

Section Ending.
Context `{!Pg, !Objects} (canonical_Hash : writeRequest → goerr + string) (s : Server).

Lemma run_now {A} (k : Z → M A) w :
  (now ≫= k) w = k (w_clock w 0%nat) (set_clock (λ n, w_clock w (S n)) w).
Proof. done. Qed.

(** A poll loop ends within as many turns as readings before the deadline, and a turn uses up
    a reading. *)
Lemma waitForTerminal_ends blocking deadline : ∀ fuel n w,
  (n < fuel)%nat → past n deadline w →
  ∃ b w', waitForTerminal fuel blocking deadline w = (inr (Some b), w') ∧
    (b = true → (0 < n)%nat ∧ past (n - 1) deadline w').
Proof.
  induction fuel as [|f IH]; intros n w Hn Hp; [lia|]. simpl. rewrite run_now.
  destruct (Z.ltb_spec (w_clock w 0%nat) deadline) as [Hlt|Hge]; simpl; [|by eexists false, _].
  destruct n as [|n]; [specialize (Hp 0%nat ltac:(lia)); lia|]. apply past_now in Hp.
  set (w1 := set_clock _ w) in *.
  pose proof (calm_Lookup (b_AgentID blocking) (b_Key blocking) w1) as (_ & _ & Hl).
  destruct (Lookup (b_AgentID blocking) (b_Key blocking) w1) as [x w2] eqn:Hx. simpl in Hl.
  rewrite (bind_inr _ _ _ _ _ (try_eq _ _ _ _ Hx)).
  pose proof (past_later _ _ _ _ Hl Hp) as Hp2.
  assert (Hn' : (S n - 1)%nat = n) by lia. rewrite Hn'.
  destruct x as [e|[record|]]; [by eexists false, _| |].
  2: { exists true, w2. split; [done|]. intros _. split; [lia|done]. }
  case_bool_decide; simpl.
  2: { exists true, w2. split; [done|]. intros _. split; [lia|done]. }
  destruct (returns_wait w2) as [b Hb]. pose proof (calm_wait w2) as (_ & _ & Hlw).
  destruct (wait w2) as [? w3] eqn:Hw. simpl in *. subst. rewrite (bind_inr _ _ _ _ _ Hw).
  destruct b; [by eexists false, _|].
  destruct (IH n w3) as (b & w' & Hrun & Hb); [lia|by eapply past_later|].
  exists b, w'. split; [done|]. intros ->. destruct (Hb eq_refl) as [_ Hpast].
  split; [lia|]. eapply past_mono; [|done]. lia.
Qed.

Lemma await_loop_ends record deadline : ∀ fuel n w,
  (n < fuel)%nat → past n deadline w →
  ∃ current, (await_loop fuel record deadline w).1 = inr (Some current).
Proof.
  induction fuel as [|f IH]; intros n w Hn Hp; [lia|]. simpl. rewrite run_now.
  destruct (Z.ltb_spec (w_clock w 0%nat) deadline) as [Hlt|Hge]; simpl; [|by eexists].
  destruct n as [|n]; [specialize (Hp 0%nat ltac:(lia)); lia|]. apply past_now in Hp.
  set (w1 := set_clock _ w) in *.
  destruct (returns_wait w1) as [b Hb]. pose proof (calm_wait w1) as (_ & _ & Hlw).
  destruct (wait w1) as [? w2] eqn:Hw. simpl in *. subst. rewrite (bind_inr _ _ _ _ _ Hw).
  destruct b; [by eexists|].
  pose proof (calm_Lookup (AgentID record) (Key record) w2) as (_ & _ & Hl).
  destruct (Lookup (AgentID record) (Key record) w2) as [x w3] eqn:Hx. simpl in Hl.
  rewrite (bind_inr _ _ _ _ _ (try_eq _ _ _ _ Hx)).
  destruct x as [e|[current|]]; [by eexists| |by eexists].
  case_bool_decide; simpl; [|by eexists].
  apply (IH n); [lia|]. eapply past_later; [|exact Hp]. by eapply later_trans.
Qed.

Lemma claim_loop_ends fuel req deadline : ∀ turns n w,
  (n < turns)%nat → (n < fuel)%nat → past n deadline w →
  (claim_loop fuel turns req deadline w).1 ≠ inr None.
Proof.
  induction turns as [|turns IH]; intros n w Hn Hf Hp; [lia|]. simpl.
  pose proof (calm_Claim req w) as (_ & _ & Hl).
  destruct (Claim req w) as [[e|x] w1] eqn:Hc; [by rewrite (bind_inl _ _ _ _ _ Hc)|].
  rewrite (bind_inr _ _ _ _ _ Hc). simpl in Hl. pose proof (past_later _ _ _ _ Hl Hp) as Hp1.
  destruct (Verdict_ x); try done. destruct (Blocking x) as [blocking|]; [|done].
  destruct (waitForTerminal_ends blocking deadline fuel n w1 Hf Hp1) as (b & w2 & Hw & Hb).
  unfold or_fuel. rewrite (bind_inr _ _ _ _ _ Hw). destruct b; simpl; [|done].
  destruct (Hb eq_refl) as [Hpos Hp2]. apply (IH (n - 1)%nat); [lia|lia|].
  eapply past_later; [|exact Hp2]. by apply later_same.
Qed.

(** More fuel changes nothing. *)
Lemma waitForTerminal_mono blocking deadline : ∀ fuel fuel' w b w',
  (fuel <= fuel')%nat → waitForTerminal fuel blocking deadline w = (inr (Some b), w') →
  waitForTerminal fuel' blocking deadline w = (inr (Some b), w').
Proof.
  induction fuel as [|f IH]; intros [|f'] w b w' Hle; simpl; try done; [lia|]. rewrite !run_now.
  destruct (negb _); [done|]. set (w1 := set_clock _ w).
  destruct (Lookup (b_AgentID blocking) (b_Key blocking) w1) as [x w2] eqn:Hx.
  rewrite !(bind_inr _ _ _ _ _ (try_eq _ _ _ _ Hx)).
  destruct x as [e|[record|]]; [done| |done]. destruct (negb _); [done|].
  destruct (returns_wait w2) as [c Hc]. destruct (wait w2) as [? w3] eqn:Hw. simpl in Hc. subst.
  rewrite !(bind_inr _ _ _ _ _ Hw). destruct c; [done|]. apply IH. lia.
Qed.

Lemma claim_loop_mono req deadline fuel fuel' : ∀ turns turns' w x w',
  (fuel <= fuel')%nat → (turns <= turns')%nat →
  claim_loop fuel turns req deadline w = (x, w') → x ≠ inr None →
  claim_loop fuel' turns' req deadline w = (x, w').
Proof.
  induction turns as [|n IH]; intros [|n'] w x w' Hf Hle; simpl; try (by intros [= <- <-]); [lia|].
  destruct (Claim req w) as [[e|r] w1] eqn:Hc; [by rewrite !(bind_inl _ _ _ _ _ Hc)|].
  rewrite !(bind_inr _ _ _ _ _ Hc).
  destruct (Verdict_ r); try done. destruct (Blocking r) as [blocking|]; [|done]. unfold or_fuel.
  destruct (returns_waitForTerminal fuel blocking deadline w1) as [t Ht].
  destruct (waitForTerminal fuel blocking deadline w1) as [? w2] eqn:Hw. simpl in Ht. subst.
  rewrite (bind_inr _ _ _ _ _ Hw). destruct t as [b|]; [|by intros [= <- <-]].
  rewrite (bind_inr _ _ _ _ _ (waitForTerminal_mono _ _ _ _ _ _ _ Hf Hw)).
  destruct b; simpl; [|done]. apply IH; [done|lia].
Qed.

Lemma awaitCompletion_ends record w :
  time_passes w → ∃ n, ∀ fuel, (n <= fuel)%nat →
    ∃ current, (awaitCompletion s fuel record w).1 = inr (Some current).
Proof.
  intros Ht. destruct (Ht (w_clock w 0%nat + ClaimPendingWait (cfg s))) as [n Hn].
  exists (S n). intros fuel Hf. unfold awaitCompletion. destruct (_ || _); [by eexists|].
  rewrite run_now. apply (await_loop_ends _ _ _ n); [lia|].
  eapply past_later; [|exact Hn]. by exists 1%nat.
Qed.

Lemma answer_ends k req def result w :
  time_passes w → ∃ n, ∀ fuel, (n <= fuel)%nat →
    ∃ resp, (answer s fuel k req def result w).1 = inr (Some resp).
Proof.
  intros Ht.
  assert (Hexec : ∀ m : M unit, returns m → ∃ resp,
    ((m ≫= λ _, Some <$> execute s k req def result) w).1 = inr (Some resp)).
  { intros m Hm. destruct (Hm w) as [u Hu]. destruct (m w) as [? w1] eqn:Hrun. simpl in Hu. subst.
    rewrite (bind_inr _ _ _ _ _ Hrun). destruct (returns_execute s k req def result w1) as [y Hy].
    unfold fmap, St_fmap, mbind, St_bind. destruct (execute s k req def result w1) as [? w2].
    simpl in Hy. subst. by eexists. }
  unfold answer. destruct (Verdict_ result).
  2: { destruct (Record_of result) as [record|]; [|exists 0%nat; intros; apply Hexec; returns_auto].
       destruct (awaitCompletion_ends record w Ht) as [n Hn]. exists n. intros fuel Hf.
       destruct (Hn fuel Hf) as [current Hc]. unfold or_fuel.
       destruct (awaitCompletion s fuel record w) as [? w1] eqn:Hrun. simpl in Hc. subst.
       rewrite (bind_inr _ _ _ _ _ Hrun).
       destruct (returns_writeExisting s k (wr_ResourceType req) current w1) as [y Hy].
       unfold fmap, St_fmap, mbind, St_bind. destruct (writeExisting _ _ _ _ w1) as [? w2].
       simpl in Hy. subst. by eexists. }
  all: exists 0%nat; intros fuel _.
  all: try (by eexists).
  all: try (destruct (Record_of result); first [by eexists|apply Hexec; returns_auto]).
  all: apply Hexec; destruct (Record_of result); returns_auto.
Qed.

Lemma handleWrite_ends snapshot r w :
  time_passes w → ∃ n, ∀ fuel, (n <= fuel)%nat →
    ∃ resp, (handleWrite canonical_Hash s fuel snapshot r w).1 = inr (Some resp).
Proof.
  intros Ht. unfold handleWrite.
  destruct (admission canonical_Hash s snapshot r) as [refused|[[[k req] def] creq]].
  { exists 0%nat. intros. by eexists. }
  set (deadline := w_clock w 0%nat + SerializeWait (cfg s)).
  set (w1 := set_clock (λ n, w_clock w (S n)) w).
  assert (Hl1 : later w w1) by (by exists 1%nat).
  destruct (Ht deadline) as [n1 Hn1]. pose proof (past_later _ _ _ _ Hl1 Hn1) as Hp1.
  destruct (claim_loop (S n1) (S n1) creq deadline w1) as [x w2] eqn:Hloop.
  assert (Hx : x ≠ inr None).
  { pose proof (claim_loop_ends (S n1) creq deadline (S n1) n1 w1) as He.
    rewrite Hloop in He. apply He; [lia|lia|done]. }
  assert (Hmono : ∀ fuel, (S n1 <= fuel)%nat → claimWithSerialization s fuel creq w = (x, w2)).
  { intros fuel Hf. unfold claimWithSerialization. rewrite run_now.
    by eapply claim_loop_mono. }
  assert (Hl2 : later w w2).
  { pose proof (calm_claimWithSerialization s (S n1) creq w) as (_ & _ & Hl).
    by rewrite (Hmono (S n1)) in Hl by lia. }
  destruct x as [e|[result|]]; [| |done].
  { exists (S n1). intros fuel Hf.
    rewrite (bind_inr _ _ _ _ _ (try_eq _ _ _ _ (Hmono fuel Hf))). by eexists. }
  destruct (returns_observe_claim req result w2) as [u Hu].
  pose proof (calm_observe_claim req result w2) as (_ & _ & Hl3).
  destruct (observe_claim req result w2) as [? w3] eqn:Hobs. simpl in *. subst.
  destruct (answer_ends k req def result w3) as [n2 Hn2].
  { apply (time_passes_later w); [by eapply later_trans|done]. }
  exists (Nat.max (S n1) n2). intros fuel Hf.
  rewrite (bind_inr _ _ _ _ _ (try_eq _ _ _ _ (Hmono fuel ltac:(lia)))).
  rewrite (bind_inr _ _ _ _ _ Hobs). apply Hn2. lia.
Qed.
End Ending.

(** ** Recording the outcome *)

(** The tables, the script and the other connections are as they were. *)
Definition tables_same (w w' : world) : Prop :=
  w_db w' = w_db w ∧ w_faults w' = w_faults w ∧ w_env w' = w_env w.

#[export] Instance tables_same_preorder : PreOrder tables_same.
Proof.
  split; [done|]. intros w1 w2 w3 (? & ? & ?) (? & ? & ?). split_and!; congruence.
Qed.

Section Recording.
Context `{!Pg, !Objects} (s : Server).

Lemma same_now : frames tables_same now.
Proof. done. Qed.
Lemma same_emit m : frames tables_same (emit m).
Proof. done. Qed.
Lemma same_latency f : frames tables_same (modify (λ w, set_latency (f w) w)).
Proof. done. Qed.
Lemma same_Place rs agent k result : frames tables_same (Place rs agent k result).
Proof.
  intros w. destruct (Place_spec rs agent k result w) as (p & _ & Hf & _).
  rewrite Hf. done.
Qed.
#[local] Hint Resolve same_now same_emit same_latency same_Place : frames.

(** Run the next part, which leaves the tables alone. *)
Lemma bind_same {A B} (m : M A) (k : A → M B) (P : (goerr + B) * world → Prop) w :
  returns m → frames tables_same m → (∀ x w', tables_same w w' → P (k x w')) → P ((m ≫= k) w).
Proof.
  intros Hm Hf Hk. destruct (Hm w) as [x Hx]. specialize (Hf w).
  destruct (m w) as [? w'] eqn:Hrun. simpl in *. subst. rewrite (bind_inr _ _ _ _ _ Hrun). auto.
Qed.

(** The row of the key once it is ended. *)
Definition ended_row (d : DB) (agent k : string) (status : Status) (row : key_row) : Prop :=
  ∃ row', db_keys d !! (agent, k) = Some row' ∧ k_status row' = status ∧
    k_hash row' = k_hash row ∧ k_attempt row' = k_attempt row.

Lemma complete_step_ended agent k status result ref detail d b d' row :
  complete_step agent k status result ref detail d b d' →
  db_keys d !! (agent, k) = Some row → k_status row = StatusPending →
  b = true ∧ ended_row d' agent k status row.
Proof.
  intros [Hno|r stored Hr Hp Hj Hx] Hrow Hpend; [by destruct (Hno row)|]. split; [done|].
  rewrite Hrow in Hr. injection Hr as <-.
  exists (completed_row d row status stored (nullable ref) (nullable detail)). split; [|done].
  case_decide; [unfold void_latest; destruct (head _)|]; apply lookup_insert_eq.
Qed.

Lemma persistOutcome_ends agent k status o w row :
  quiet w → 1 <= OutcomeWriteAttempts (cfg s) →
  (out_Result o = EmptyString ∨ is_Some (jsonb_in (out_Result o))) →
  db_keys (w_db w) !! (agent, k) = Some row → k_status row = StatusPending →
  (persistOutcome s agent k status o w).1 = inr true ∧
  ended_row (w_db (persistOutcome s agent k status o w).2) agent k status row.
Proof.
  intros Hq Hn Hres Hrow Hp. unfold persistOutcome.
  destruct (Place_spec (srv_results s) agent k (out_Result o) w) as (p & Hpl & _ & Hc).
  pose proof (same_Place (srv_results s) agent k (out_Result o) w) as Hsame.
  destruct (Place _ agent k (out_Result o) w) as [? w1] eqn:Hrun. simpl in Hpl, Hsame. subst.
  rewrite (bind_inr _ _ _ _ _ Hrun).
  assert (Hst : storable (Inline p) (p_Ref p)).
  { unfold storable. destruct Hc as [[-> ->]|(-> & _)]; auto. }
  apply bind_same; [returns_auto|frames_auto|]. intros _ w2 Hsame2.
  pose proof (transitivity Hsame Hsame2) as (Hd & Hf & _).
  destruct (Z.to_nat (OutcomeWriteAttempts (cfg s))) as [|n] eqn:Hatt; [lia|]. simpl.
  pose proof (Complete_refines agent k status (Inline p) (p_Ref p) (out_Detail o) w2) as Href.
  simpl in Href. assert (Hok : quiet w2 ∧ storable (Inline p) (p_Ref p)).
  { split; [|done]. unfold quiet. by rewrite Hf. }
  destruct (Complete agent k status (Inline p) (p_Ref p) (out_Detail o) w2) as [[e|b] w3] eqn:Hcmp.
  { by destruct Href as (_ & _ & [] & _). }
  rewrite (bind_inr _ _ _ _ _ (try_eq _ _ _ _ Hcmp)). destruct Href as (_ & _ & _ & Hs).
  rewrite Hd in Hs. destruct (complete_step_ended _ _ _ _ _ _ _ _ _ row Hs Hrow Hp) as [-> He].
  done.
Qed.

(** The outcome that [execute] records is the one that [Execute] gave it. *)
Lemma execute_ends k req def claimed w row o :
  quiet w → w_env w = [] → 1 <= OutcomeWriteAttempts (cfg s) →
  (∀ status payload, head (w_replies w) = Some (Response status payload) →
     is_Some (jsonb_in (asJSON payload))) →
  db_keys (w_db w) !! (wr_AgentID req, k) = Some row → k_status row = StatusPending →
  (Execute (downstream s) (downstream_request k req def) (now w).2).1 = inr o →
  ended_row (w_db (execute s k req def claimed w).2) (wr_AgentID req) k (statusFor (Disposition_ o)) row.
Proof.
  intros Hq Henv Hn Hj Hrow Hp. unfold execute. rewrite run_now.
  change (now w).2 with (set_clock (λ n, w_clock w (S n)) w). set (w1 := set_clock _ w).
  destruct (Execute_spec (downstream s) (downstream_request k req def) w1) as (o' & calls & Hr & Hf & He).
  destruct (Execute (downstream s) (downstream_request k req def) w1) as [x w2] eqn:Hx.
  simpl in Hr, Hf. subst x. intros [= ->]. rewrite (bind_inr _ _ _ _ _ Hx).
  assert (Hres : out_Result o = EmptyString ∨ is_Some (jsonb_in (out_Result o))).
  { destruct He; simpl; eauto. }
  assert (Hw2 : tables_same w w2) by (by rewrite Hf).
  assert (Hint : interleave w2 = (inr tt, w2)).
  { unfold interleave. destruct Hw2 as (_ & _ & He2). by rewrite He2, Henv. }
  rewrite (bind_inr _ _ _ _ _ Hint).
  apply bind_same; [returns_auto|frames_auto|]. intros t w3 H3.
  apply bind_same; [returns_auto|frames_auto|]. intros _ w4 H4.
  apply bind_same; [returns_auto|frames_auto|]. intros _ w5 H5.
  apply bind_same; [returns_auto|frames_auto|]. intros _ w6 H6.
  apply bind_same; [returns_auto|frames_auto|]. intros _ w7 H7.
  assert (Hall : tables_same w w7) by (do 5 (etransitivity; [eassumption|]); done).
  destruct Hall as (Hd & Hfl & _).
  destruct (persistOutcome_ends (wr_AgentID req) k (statusFor (Disposition_ o)) o w7 row)
    as [Hb Hend]; try done.
  { unfold quiet. by rewrite Hfl. }
  { by rewrite Hd. }
  destruct (persistOutcome s (wr_AgentID req) k (statusFor (Disposition_ o)) o w7) as [? w8] eqn:Hper.
  simpl in *. subst. by rewrite (bind_inr _ _ _ _ _ Hper).
Qed.

Lemma execute_records k req def claimed w row :
  quiet w → w_env w = [] → 1 <= OutcomeWriteAttempts (cfg s) →
  (∀ status payload, head (w_replies w) = Some (Response status payload) →
     is_Some (jsonb_in (asJSON payload))) →
  db_keys (w_db w) !! (wr_AgentID req, k) = Some row → k_status row = StatusPending →
  ∃ o calls, (execute s k req def claimed w).1 = inr (outcome_response k (IntentID claimed) o) ∧
    w_sent (execute s k req def claimed w).2 = w_sent w ++ calls ∧
    executed (downstream_request k req def) (head (w_replies w)) calls o ∧
    (Execute (downstream s) (downstream_request k req def) (now w).2).1 = inr o ∧
    ended_row (w_db (execute s k req def claimed w).2) (wr_AgentID req) k
      (statusFor (Disposition_ o)) row.
Proof.
  intros Hq Henv Hn Hj Hrow Hp.
  destruct (execute_spec s k req def claimed w) as (o & calls & Hr & Hs & He & Hx).
  exists o, calls. split_and!; [done..|]. by apply execute_ends.
Qed.
End Recording.
