(* ===== verification/ApiSafety.v ===== *)
(** * ApiSafety: the theorems on writes and reads over HTTP

    The key check, the at-most-one call of a write, the honesty of its response, its
    termination, the recording of its outcome, and the read of a key. *)

From S2P Require Import Prelude GoString Sha256 Manifest Conflict Latency World Json Claim ClaimSpec.
From S2P Require Import ClaimInv ClaimSafety ClaimProps Config Downstream ResultStore Api ApiProps.

(** ** Keys *)

Section Keys.
(** The bytes from offset [i] on are those of a UUID. *)
Fixpoint uuid_bytes (i : nat) (s : string) : bool :=
  match s with
  | EmptyString => true
  | String c r => uuid_rune i (byte_val c) && uuid_bytes (S i) r
  end.

Lemma uuid_rune_ascii i c : uuid_rune i c = true → c < 128.
Proof.
  unfold uuid_rune. case_bool_decide.
  - intros ->%Z.eqb_eq. lia.
  - rewrite !orb_true_iff, !andb_true_iff, !Z.leb_le. lia.
Qed.

Lemma uuid_runes i s fuel : (String.length s <= fuel)%nat →
  forallb (λ '(j, c), uuid_rune j c) (range_runes fuel i s) = uuid_bytes i s.
Proof.
  revert i s. induction fuel as [|f IH]; intros i [|c r] Hl; [done|simpl in Hl; lia|done|].
  cbn [range_runes uuid_bytes]. simpl in Hl.
  destruct (Z.lt_ge_cases (byte_val c) 128) as [Hc|Hc].
  - rewrite decode_rune_ascii by done. cbn [forallb drop_bytes]. by rewrite Nat.add_1_r, IH by lia.
  - pose proof (decode_rune_not_ascii c r Hc) as Hr.
    destruct (decode_rune (String c r)) as [rune w]. cbn [forallb fst] in *.
    destruct (uuid_rune i rune) eqn:H1; [apply uuid_rune_ascii in H1; lia|].
    destruct (uuid_rune i (byte_val c)) eqn:H2; [apply uuid_rune_ascii in H2; lia|]. done.
Qed.

Lemma isUUID_bytes v : isUUID v = true ↔ String.length v = 36%nat ∧ uuid_bytes 0 v = true.
Proof.
  unfold isUUID, runes. rewrite uuid_runes by done.
  destruct (Nat.eqb_spec (String.length v) 36) as [->|Hne]; simpl; naive_solver.
Qed.

Lemma lower_idempotent s : ToLower (ToLower s) = ToLower s.
Proof.
  induction s as [|c s IH]; [done|]. simpl. rewrite IH. f_equal.
  by destruct c as [[] [] [] [] [] [] [] []].
Qed.

Lemma uuid_lower i s : uuid_bytes i s = true → uuid_bytes i (ToLower s) = true.
Proof.
  revert i. induction s as [|c s IH]; intros i; [done|]. simpl.
  rewrite !andb_true_iff. intros [Hc Hs]. split; [|by apply IH]. revert Hc. clear.
  unfold uuid_rune. case_bool_decide.
  - destruct c as [[] [] [] [] [] [] [] []]; by vm_compute.
  - destruct c as [[] [] [] [] [] [] [] []]; by vm_compute.
Qed.

Lemma lower_length s : String.length (ToLower s) = String.length s.
Proof. induction s as [|c s IH]; [done|]. simpl. by rewrite IH. Qed.
End Keys.

(** The check of the key is exact although it ranges over runes: it accepts precisely the
    strings of 36 bytes with hyphens at 8, 13, 18 and 23 and hexadecimal digits elsewhere, so no
    multi-byte rune slips through; and the lower-cased form the handlers use is accepted too and
    is one spelling per UUID. *)
Theorem key_check_exact v :
  (isUUID v = true ↔ String.length v = 36%nat ∧ uuid_bytes 0 v = true) ∧
  (isUUID v = true → isUUID (ToLower v) = true) ∧
  ToLower (ToLower v) = ToLower v.
Proof.
  split_and!; [apply isUUID_bytes| |apply lower_idempotent].
  rewrite !isUUID_bytes, lower_length. intros [? ?]. split; [done|]. by apply uuid_lower.
Qed.

Section Reading.
Context `{!Pg, !Objects} (s : Server).

Lemma Lookup_spec agent k w :
  w_db (Lookup agent k w).2 = w_db w ∧
  ∀ rec, (Lookup agent k w).1 = inr (Some rec) →
    ∃ row, db_keys (w_db w) !! (agent, k) = Some row ∧ rec = record_of (agent, k) row.
Proof.
  unfold Lookup, readRecord, try, wrapping, query, selectKey, mbind, St_bind.
  destruct (default Fine (head (w_faults w))) as [|e|e];
    destruct (db_keys (w_db w) !! (agent, k)) as [row|]; simpl;
    repeat (case_bool_decide; simpl); (split; [done|]); intros rec; try done;
    intros [= <-]; by exists row.
Qed.

Lemma resolveResult_spec k record w :
  w_db (resolveResult s k record w).2 = w_db w ∧
  ∀ resp, (resolveResult s k record w).1 = inr (inl resp) → resp_status resp = 500.
Proof.
  assert (Hd : w_db (Resolve (srv_results s) (Result_ record) (ResultRef record) w).2 = w_db w).
  { unfold Resolve. destruct (String.eqb _ _); [done|]. destruct (negb _); [done|].
    by rewrite (Get_frame (ResultRef record) w). }
  unfold resolveResult, try, mbind, St_bind. destruct (Resolve _ _ _ w) as [[e|body] w']; simpl in *.
  - split; [done|]. by intros resp [= <-].
  - by split.
Qed.
End Reading.

Section Theorems.
Context `{!Pg, !Objects} (canonical_Hash : writeRequest → goerr + string) (s : Server).

(** C5: a write sends at most one call downstream, and only after a claim of its own was
    committed: if a call left, the request was admitted, the call is that request's, no call
    had left before the claim, and at the claim's commit the key's row was pending for this
    very request. *)
Theorem write_calls_at_most_once fuel snapshot r w :
  let w' := (handleWrite canonical_Hash s fuel snapshot r w).2 in
  w_sent w' = w_sent w ∨
  ∃ k req def creq w0 res w1 row,
    admission canonical_Hash s snapshot r = inr (k, req, def, creq) ∧
    w_sent w' = w_sent w ++ [call_of (downstream_request k req def)] ∧
    w_sent w0 = w_sent w ∧ Claim creq w0 = (inr res, w1) ∧ Verdict_ res = VerdictClaimed ∧
    db_keys (w_db w1) !! req_key creq = Some row ∧ k_status row = StatusPending ∧
    k_hash row = r_RequestHash creq.
Proof.
  intros w'. destruct (handleWrite_did canonical_Hash s fuel snapshot r w) as (resp & Hr & Hd).
  fold w' in Hd. destruct Hd as [resp Hs _|k req def creq res o calls w0 w1 Ha Hc Hcl Hv Hs He];
    [by left|].
  assert (Hcalls : calls = [] ∨ calls = [call_of (downstream_request k req def)])
    by (destruct He; auto).
  destruct Hcalls as [->| ->]; [left; by rewrite Hs, app_nil_r|right].
  pose proof (Claim_refines creq w0) as Href. simpl in Href. rewrite Hcl in Href.
  destruct Href as (_ & _ & _ & [(? & _)|[lw Hst]]); [congruence|].
  destruct (claim_step_pending _ _ _ _ _ Hst Hv) as (row & Hrow & Hp & Hh & _).
  exists k, req, def, creq, w0, res, w1, row. split_and!; try done. apply Hc.
Qed.

(** C6: the response tells the truth about the call: 201 is sent only when the one call left
    and the client was left with a status the manifest declares definitive; 503, which
    invites a retry of the same key, only when no call left, when it was answered with a
    status declared not executed, or when it was answered by a redirect whose target could not
    be dialled; and a 4xx refusal, a replay or a wait never made a call. *)
Theorem write_response_honest fuel snapshot r w resp :
  (handleWrite canonical_Hash s fuel snapshot r w).1 = inr (Some resp) →
  let w' := (handleWrite canonical_Hash s fuel snapshot r w).2 in
  (resp_status resp = 201 → ∃ k req def creq status payload,
     admission canonical_Hash s snapshot r = inr (k, req, def, creq) ∧
     w_sent w' = w_sent w ++ [call_of (downstream_request k req def)] ∧
     head (w_replies w) = Some (Response status payload) ∧
     IsDefinitive (Errors def) status = true) ∧
  (resp_status resp = 503 → w_sent w' = w_sent w ∨
     ∃ k req def creq,
       admission canonical_Hash s snapshot r = inr (k, req, def, creq) ∧
       w_sent w' = w_sent w ++ [call_of (downstream_request k req def)] ∧
       ((∃ status payload, head (w_replies w) = Some (Response status payload) ∧
           IsDefinitive (Errors def) status = false ∧ IsNotExecuted (Errors def) status = true) ∨
        ∃ status text, head (w_replies w) = Some (RedirectDialError status text))) ∧
  (resp_status resp ≠ 201 → resp_status resp ≠ 502 → resp_status resp ≠ 503 →
     w_sent w' = w_sent w).
Proof.
  intros Hr w'. destruct (handleWrite_did canonical_Hash s fuel snapshot r w) as (x & Hx & Hd).
  fold w' in Hd. rewrite Hr in Hx. injection Hx as <-.
  inversion Hd as [x Hs Hn Heq|k req def creq res o calls w0 w1 Ha Hc Hcl Hv Hs He Heq]; subst.
  { split_and!; [|auto..]. intros H2. by destruct (Hn resp). }
  destruct He as [detail|status payload Hrep Hdef|status payload Hrep Hdef Hnot
    |status payload Hrep Hdef Hnot|status text Hrep|detail]; simpl; rewrite ?app_nil_r in Hs; split_and!; try done; intros;
    eauto 12; (right; exists k, req, def, creq; eauto 8).
Qed.

(** C15: a write always ends with a response: once the clock can pass every deadline, some fuel
    is enough for both polling loops whatever the database, the downstream and the other
    connections do, and the handler never ends in an error of its own. *)
Theorem write_answers snapshot r w :
  time_passes w → ∃ n, ∀ fuel, (n <= fuel)%nat →
    ∃ resp, (handleWrite canonical_Hash s fuel snapshot r w).1 = inr (Some resp).
Proof. apply handleWrite_ends. Qed.

(** C16: the outcome is recorded as it is answered: for a claimed key, with the database and no
    other connection in the way, what [Execute] made of the one call and its reply is what ends
    the row (done, failed or indeterminate, same hash and attempt) and what is answered: 201 and
    done for a definitive reply, 503 and failed when nothing left, the reply is declared not
    executed or a redirect could not be followed, 502 and indeterminate otherwise. *)
Theorem outcome_recorded k req def claimed w row :
  quiet w → w_env w = [] → 1 <= OutcomeWriteAttempts (cfg s) →
  (∀ status payload, head (w_replies w) = Some (Response status payload) →
     is_Some (jsonb_in (asJSON payload))) →
  db_keys (w_db w) !! (wr_AgentID req, k) = Some row → k_status row = StatusPending →
  ∃ o calls row', (Execute (downstream s) (downstream_request k req def) (now w).2).1 = inr o ∧
    (execute s k req def claimed w).1 = inr (outcome_response k (IntentID claimed) o) ∧
    w_sent (execute s k req def claimed w).2 = w_sent w ++ calls ∧
    executed (downstream_request k req def) (head (w_replies w)) calls o ∧
    db_keys (w_db (execute s k req def claimed w).2) !! (wr_AgentID req, k) = Some row' ∧
    k_status row' = statusFor (Disposition_ o) ∧ k_hash row' = k_hash row ∧
    k_attempt row' = k_attempt row ∧
    resp_status (outcome_response k (IntentID claimed) o) =
      match k_status row' with StatusDone => 201 | StatusFailed => 503 | _ => 502 end.
Proof.
  intros Hq He Hn Hj Hrow Hp.
  destruct (execute_records s k req def claimed w row Hq He Hn Hj Hrow Hp)
    as (o & calls & Hr & Hs & Hx & Ho & row' & Hrow' & Hst & Hh & Ha).
  exists o, calls, row'. split_and!; try done. rewrite Hst. unfold outcome_response.
  by destruct (Disposition_ o).
Qed.

(** A read changes nothing and shows the caller's own key: whatever the faults, no table,
    no call and no object changes, and a 200 describes the row stored under the caller's
    identity and the lower-cased key. *)
Theorem read_own_key r w resp :
  (handleRead s r w).1 = inr resp →
  w_db (handleRead s r w).2 = w_db w ∧ w_sent (handleRead s r w).2 = w_sent w ∧
  (resp_status resp = 200 → ∃ caller row rest, readIdentity r = Some caller ∧
     db_keys (w_db w) !! (id_AgentID caller, ToLower (h_Key r)) = Some row ∧
     resp_body resp = JObj ([("idempotency_key", JStr (ToLower (h_Key r)));
       ("status", JStr (status_text (k_status row))); ("attempt_count", JInt (k_attempt row))] ++ rest)).
Proof.
  pose proof (calm_handleRead s r w) as (Hsent & _ & _). unfold handleRead in *.
  destruct (readIdentity r) as [caller|]; [|by intros [= <-]].
  destruct (negb (isUUID (ToLower (h_Key r)))); [by intros [= <-]|].
  pose proof (Lookup_spec (id_AgentID caller) (ToLower (h_Key r)) w) as [Hd Hrow].
  destruct (Lookup (id_AgentID caller) (ToLower (h_Key r)) w) as [x w1] eqn:Hl. simpl in *.
  rewrite (bind_inr _ _ _ _ _ (try_eq _ _ _ _ Hl)) in *.
  destruct x as [e|[rec|]]; [by intros [= <-]| |by intros [= <-]].
  destruct (Hrow rec eq_refl) as (row & Hk & ->).
  pose proof (resolveResult_spec s (ToLower (h_Key r)) (record_of (id_AgentID caller, ToLower (h_Key r)) row) w1)
    as [Hd2 H500].
  destruct (resolveResult s _ _ w1) as [y w2] eqn:Hres. simpl in *.
  destruct y as [e|[problem|result]].
  - by rewrite (bind_inl _ _ _ _ _ Hres).
  - rewrite (bind_inr _ _ _ _ _ Hres) in *. intros [= <-].
    split_and!; [simpl; congruence|done|]. rewrite (H500 problem) by done. done.
  - rewrite (bind_inr _ _ _ _ _ Hres) in *. intros [= <-].
    split_and!; [simpl; congruence|done|]. intros _. eexists caller, row, _. done.
Qed.
End Theorems.

(** ** Witnesses *)

Section Witnesses.
#[local] Existing Instance demo_pg.

Definition demo_hash (req : writeRequest) : goerr + string := inr (wr_Payload req).
Definition demo_def : Definition_ :=
  mkDefinition "ticket" (5 * Second) true "/probe" {["close" := mkOperation ClassReplace None]}
    (mkErrors [mkRange 200 299] [mkRange 400 499]).
Definition demo_snap : Snapshot := mkSnapshot "v1" {["ticket" := demo_def]}.
Definition demo_cfg : Config :=
  match Load demo_env with
  | inr c => c
  | inl _ => mkConfig "" "" "" "" 0 "" 0 0 0 0 0 "" 0 0 0 0 0 0 0 0 0 0 0 "" "" 0 0 "" "" "" ""
  end.
Definition demo_server : Server :=
  mkServer demo_cfg (mkClient "http://d" None) (mkResultStore false 65536).
Definition demo_write : writeRequest := mkWrite "a" "ticket" "7" "close" "{}".
Definition demo_key : string := "0190a6d8-0000-7000-8000-00000000000A".
Definition demo_http : http_request := mkHttp "a" "agent" demo_key (BodyDecoded demo_write).

(** The downstream answers 200, and a second passes between readings of the clock. *)
Definition demo_world : world :=
  set_replies [Response 200 "{}"] (set_clock (λ n, Z.of_nat n * Second) (world_of empty_db)).

Lemma write_response_honest_witness :
  ∃ resp, (handleWrite demo_hash demo_server 20 demo_snap demo_http demo_world).1 = inr (Some resp) ∧
    resp_status resp = 201 ∧
    ∃ c, w_sent (handleWrite demo_hash demo_server 20 demo_snap demo_http demo_world).2 = [c].
Proof.
  pose proof (write_response_honest demo_hash demo_server 20 demo_snap demo_http demo_world) as Hh.
  assert (Hst : match (handleWrite demo_hash demo_server 20 demo_snap demo_http demo_world).1 with
                | inr (Some resp) => resp_status resp | _ => 0 end = 201) by (by vm_compute).
  revert Hh Hst. generalize (handleWrite demo_hash demo_server 20 demo_snap demo_http demo_world).
  intros [[e|[resp|]] w'] Hh Hst; [done| |done]. simpl in Hst.
  exists resp. split_and!; [done..|]. destruct (Hh resp eq_refl) as [H201 _].
  destruct (H201 Hst) as (k & req & def & creq & status & payload & _ & Hs & _). eexists. exact Hs.
Defined.

Lemma demo_time_passes : time_passes demo_world.
Proof.
  intros deadline. exists (Z.to_nat deadline). intros m Hm. simpl. unfold Second. lia.
Qed.

Lemma write_answers_witness :
  ∃ n, ∀ fuel, (n <= fuel)%nat →
    ∃ resp, (handleWrite demo_hash demo_server fuel demo_snap demo_http demo_world).1 = inr (Some resp).
Proof. exact (write_answers demo_hash demo_server demo_snap demo_http demo_world demo_time_passes). Defined.

Definition demo_pending : key_row :=
  mkKey "h" StatusPending "ticket" "7" "close" None None None 1 0 0 None.
Definition demo_claimed : world :=
  set_replies [Response 500 "oops"] (world_of (mkDB 0 0 {[("a", "k") := demo_pending]} [] [] [] [])).

Lemma outcome_recorded_witness :
  ∃ row', db_keys (w_db (execute demo_server "k" demo_write demo_def
      (mkResult VerdictClaimed None "i" false 0 None 0) demo_claimed).2) !! ("a", "k") = Some row' ∧
    k_status row' = StatusIndeterminate ∧ k_attempt row' = 1.
Proof.
  destruct (outcome_recorded demo_server "k" demo_write demo_def
    (mkResult VerdictClaimed None "i" false 0 None 0) demo_claimed demo_pending)
    as (o & calls & row' & Ho & _ & _ & _ & Hrow & Hst & _ & Ha & _).
  - by apply Forall_nil.
  - done.
  - by vm_compute.
  - intros status payload _. by eexists.
  - by vm_compute.
  - done.
  - exists row'. split; [exact Hrow|]. split; [|exact Ha].
    rewrite Hst. vm_compute in Ho. injection Ho as <-. reflexivity.
Defined.

Definition demo_read : http_request := mkHttp "a" "agent" demo_key (BodyMalformed "").
Definition demo_stored : world :=
  world_of (mkDB 0 0 {[("a", ToLower demo_key) := demo_pending]} [] [] [] []).

Lemma read_own_key_witness :
  ∃ resp, (handleRead demo_server demo_read demo_stored).1 = inr resp ∧ resp_status resp = 200 ∧
    w_db (handleRead demo_server demo_read demo_stored).2 = w_db demo_stored.
Proof.
  pose proof (read_own_key demo_server demo_read demo_stored) as Hh.
  assert (Hst : match (handleRead demo_server demo_read demo_stored).1 with
                | inr resp => resp_status resp | inl _ => 0 end = 200) by (by vm_compute).
  revert Hh Hst. generalize (handleRead demo_server demo_read demo_stored).
  intros [[e|resp] w'] Hh Hst; [done|]. exists resp. split_and!; [done..|].
  by destruct (Hh resp eq_refl) as [Hd _].
Defined.
End Witnesses.
