(* ===== verification/Metered.v ===== *)
(** * Metered: every metric a process moves is one of Telemetry.v

    A Prometheus vector panics when it is called with the wrong number of labels and a counter
    when it goes down, in the middle of a write.  [metered] says that a computation calls each
    series with its labels, never decreases a counter, and names as a resource type only what
    [declared] allows, so that the label sets are finite; the frames below show it of the
    handlers, the sweep, the relay and the housekeeping. *)

From S2P Require Import Prelude GoString GoTime Sha256 Manifest Conflict Latency World Json Claim ClaimSpec.
From S2P Require Import ClaimInv ClaimSafety Config Downstream ResultStore Retention Partitions Maintenance.
From S2P Require Import Reconcile ReconcileProps Api Reads Relay Telemetry ApiProps ApiSafety.

(** ** Well-formed metrics *)

Definition short_name (m : metric) : string :=
  match m with Inc name _ | Add name _ _ | Observe name _ _ => name end.

Definition labels_of (m : metric) : list string :=
  match m with Inc _ labels | Add _ labels _ | Observe _ labels _ => labels end.

(** The name that [New] gives the field. *)
Definition series_name (m : metric) : string :=
  match m with
  | Inc name _ | Add name _ _ => "idemio_" +:+ name +:+ "_total"
  | Observe name _ _ =>
      if String.eqb name "reclaim_attempts" then "idemio_" +:+ name else "idemio_" +:+ name +:+ "_seconds"
  end.

Definition kind_of (m : metric) : kind := match m with Observe _ _ _ => Histogram | _ => Counter end.

Definition increases (m : metric) : Prop := match m with Add _ _ n => 0 <= n | _ => True end.

(** The call does not panic, and its resource type is declared. *)
Definition typed (declared : string → Prop) (m : metric) : Prop :=
  match List.find (λ d, String.eqb (d_name d) (series_name m)) series_of_New with
  | None => False
  | Some d => d_kind d = kind_of m ∧ increases m ∧
      Forall2 (λ label v, label = "resource_type" → declared v) (d_labels d) (labels_of m)
  end.

(** The series of the wrapper around the handlers. *)
Definition of_requests (m : metric) : bool :=
  String.eqb (short_name m) "responses" || String.eqb (short_name m) "request_duration".

Definition inner (declared : string → Prop) (m : metric) : Prop := typed declared m ∧ of_requests m = false.

(** The metrics moved are well formed and not the wrapper's. *)
Definition metered (declared : string → Prop) (w w' : world) : Prop :=
  ∃ l, w_metrics w' = w_metrics w ++ l ∧ Forall (inner declared) l.

(** The resource types of a snapshot. *)
Definition served (snapshot : Snapshot) (resourceType : string) : Prop :=
  is_Some (Lookup_type snapshot resourceType).

(** A metric with a known name. *)
Ltac inner_typed :=
  unfold typed; cbn [series_name];
  match goal with |- match ?x with _ => _ end =>
    let y := eval vm_compute in x in change x with y; cbn [d_kind d_labels labels_of kind_of increases] end;
  split_and!; [reflexivity|first [done|assumption|lia]|
    repeat constructor; first [by intros [=]|by intros _]].

Ltac inner_auto := split; [inner_typed|reflexivity].

(** ** Frames *)

#[export] Instance metered_preorder declared : PreOrder (metered declared).
Proof.
  split.
  - intros w. exists []. rewrite app_nil_r. split; [done|by apply Forall_nil].
  - intros w1 w2 w3 (l1 & H1 & F1) (l2 & H2 & F2). exists (l1 ++ l2).
    rewrite H2, H1, app_assoc. split; [done|by apply Forall_app].
Qed.

Lemma metered_same declared w w' : w_metrics w' = w_metrics w → metered declared w w'.
Proof. intros H. exists []. rewrite app_nil_r. split; [done|by apply Forall_nil]. Qed.

Lemma call_frame_metered declared w w' : call_frame w w' → metered declared w w'.
Proof. intros [H _]. apply metered_same. by rewrite H. Qed.

Section Metered.
Context `{!Pg, !Objects} (declared : string → Prop).

Lemma metered_Claim req : frames (metered declared) (Claim req).
Proof.
  intros w. apply call_frame_metered. pose proof (Claim_refines req w) as Hr. simpl in Hr.
  by destruct (Claim req w) as [[e|res] w']; destruct Hr as [? _].
Qed.

Lemma metered_Complete agent k status result ref detail :
  frames (metered declared) (Complete agent k status result ref detail).
Proof.
  intros w. apply call_frame_metered.
  pose proof (Complete_refines agent k status result ref detail w) as Hr. simpl in Hr.
  by destruct (Complete agent k status result ref detail w) as [[e|res] w']; destruct Hr as [? _].
Qed.

Lemma metered_query {X} (q : stmt X) : frames (metered declared) (query q).
Proof.
  intros w. unfold query. destruct (default Fine (head (w_faults w)));
    try destruct (q (w_db w)) as [?|[x d]]; by apply metered_same.
Qed.

Lemma metered_exec {X} (q : stmt X) : frames (metered declared) (exec q).
Proof.
  intros w. unfold exec. destruct (default Fine (head (w_faults w))); try by apply metered_same.
  destruct (w_tx w) as [v|]; [destruct (q v) as [?|[x d]]|]; by apply metered_same.
Qed.

Lemma metered_begin : frames (metered declared) begin_tx.
Proof. intros w. unfold begin_tx. destruct (default Fine (head (w_faults w))); by apply metered_same. Qed.

Lemma metered_commit : frames (metered declared) commit.
Proof.
  intros w. unfold commit. destruct (w_tx w); [|by apply metered_same].
  destruct (default Fine (head (w_faults w))); by apply metered_same.
Qed.

Lemma metered_obj w w' : obj_frame w w' → metered declared w w'.
Proof. intros Hf. apply metered_same. by rewrite Hf. Qed.

Lemma metered_Place rs agent k result : frames (metered declared) (Place rs agent k result).
Proof. intros w. apply metered_obj. by destruct (Place_spec rs agent k result w) as (p & _ & ? & _). Qed.

Lemma metered_Resolve rs inline ref : frames (metered declared) (Resolve rs inline ref).
Proof.
  intros w. unfold Resolve. destruct (String.eqb ref ""); [reflexivity|].
  destruct (configured rs); simpl; [|reflexivity]. apply metered_obj, Get_frame.
Qed.

Lemma metered_Execute c req : frames (metered declared) (Execute c req).
Proof.
  intros w. apply metered_same. destruct (Execute_spec c req w) as (o & calls & _ & Hf & _). by rewrite Hf.
Qed.

Lemma metered_now : frames (metered declared) now.
Proof. intros w. by apply metered_same. Qed.
Lemma metered_interleave : frames (metered declared) interleave.
Proof. intros w. unfold interleave. destruct (w_env w); by apply metered_same. Qed.
Lemma metered_ctx_done : frames (metered declared) ctx_done.
Proof. intros w. by apply metered_same. Qed.
Lemma metered_latency f : frames (metered declared) (modify (λ w, set_latency (f w) w)).
Proof. intros w. by apply metered_same. Qed.

Lemma metered_emit m : inner declared m → frames (metered declared) (emit m).
Proof. intros Hm w. exists [m]. split; [done|]. by apply Forall_singleton. Qed.

Lemma metered_or_fuel {A B} (m : M (option A)) (k : A → M (option B)) :
  frames (metered declared) m → (∀ x, frames (metered declared) (k x)) → frames (metered declared) (or_fuel m k).
Proof. intros Hm Hk. unfold or_fuel. frames_auto. Qed.
End Metered.

#[export] Hint Resolve metered_Claim metered_Complete metered_query metered_exec metered_begin
  metered_commit metered_Place metered_Resolve metered_Execute metered_now metered_interleave
  metered_ctx_done metered_latency metered_or_fuel : frames.
#[export] Hint Extern 1 (frames (metered _) (emit _)) =>
  (apply metered_emit; inner_auto) : frames.

Section Handlers.
Context `{!Pg, !Objects} (declared : string → Prop) (canonical_Hash : writeRequest → goerr + string) (s : Server).

Lemma metered_wait : frames (metered declared) wait.
Proof. unfold wait. frames_auto. Qed.
#[local] Hint Resolve metered_wait : frames.

Lemma metered_Lookup agent k : frames (metered declared) (Lookup agent k).
Proof. unfold Lookup, readRecord. frames_auto. Qed.
#[local] Hint Resolve metered_Lookup : frames.

Lemma metered_waitForTerminal f blocking deadline : frames (metered declared) (waitForTerminal f blocking deadline).
Proof. induction f as [|f IH]; simpl; frames_auto. Qed.
#[local] Hint Resolve metered_waitForTerminal : frames.

Lemma metered_claim_loop f turns req deadline : frames (metered declared) (claim_loop f turns req deadline).
Proof. induction turns as [|n IH]; simpl; frames_auto. Qed.
#[local] Hint Resolve metered_claim_loop : frames.

Lemma metered_persist_loop n agent k status p detail : frames (metered declared) (persist_loop n agent k status p detail).
Proof. induction n as [|n IH]; simpl; frames_auto. Qed.
#[local] Hint Resolve metered_persist_loop : frames.

Lemma metered_await_loop f record deadline : frames (metered declared) (await_loop f record deadline).
Proof. induction f as [|f IH]; simpl; frames_auto. Qed.
#[local] Hint Resolve metered_await_loop : frames.

Lemma metered_resolveResult k record : frames (metered declared) (resolveResult s k record).
Proof. unfold resolveResult. frames_auto. Qed.
#[local] Hint Resolve metered_resolveResult : frames.

Lemma metered_execute k req def result : frames (metered declared) (execute s k req def result).
Proof. unfold execute, persistOutcome. frames_auto. Qed.
#[local] Hint Resolve metered_execute : frames.

Lemma metered_answer f k req def result : declared (wr_ResourceType req) →
  frames (metered declared) (answer s f k req def result).
Proof. intros Hreq. unfold answer, awaitCompletion, writeExisting. frames_auto. Qed.
#[local] Hint Resolve metered_answer : frames.

Lemma metered_observe req result : declared (wr_ResourceType req) →
  frames (metered declared) (observe_claim req result).
Proof.
  intros Hreq. unfold observe_claim. destruct (Z.ltb_spec 0 (Observed result)); frames_auto.
Qed.
#[local] Hint Resolve metered_observe : frames.

(** An admitted write is of a type the snapshot declares. *)
Lemma admitted_served snapshot r k req def creq :
  admission canonical_Hash s snapshot r = inr (k, req, def, creq) → served snapshot (wr_ResourceType req).
Proof.
  unfold admission. repeat (case_match; try done). intros [= <- <- <- <-].
  unfold served. unfold lookupOperation in *. by destruct (Lookup_type snapshot _).
Qed.

Lemma metered_handleWrite f snapshot r : (∀ ty, served snapshot ty → declared ty) →
  frames (metered declared) (handleWrite canonical_Hash s f snapshot r).
Proof.
  intros Hd. unfold handleWrite, claimWithSerialization.
  destruct (admission _ _ _ _) as [refused|[[[k req] def] creq]] eqn:Hadm; [frames_auto|].
  apply admitted_served, Hd in Hadm. frames_auto.
Qed.

Lemma metered_handleRead r : frames (metered declared) (handleRead s r).
Proof. unfold handleRead. frames_auto. Qed.

Lemma metered_readWindow r : frames (metered declared) (readWindow s r).
Proof. unfold readWindow. frames_auto. Qed.
#[local] Hint Resolve metered_readWindow : frames.

Lemma metered_handleIntents r : frames (metered declared) (handleIntents s r).
Proof.
  assert (Hread : ∀ caller bounds unredacted reason, frames (metered declared) (read_intents r caller bounds unredacted reason)).
  { intros caller bounds unredacted reason. unfold read_intents, answer_page, recordPayloadAccess, scanIntents.
    apply frames_finally; [apply _|frames_auto|intros w; by apply metered_same]. }
  unfold handleIntents. frames_auto.
Qed.

Lemma metered_handleConflicts r : frames (metered declared) (handleConflicts s r).
Proof. unfold handleConflicts. frames_auto. Qed.
End Handlers.

Section Background.
Context `{!Pg, !Objects}.

(** The sweep: a probe failure is counted for a type that was looked up. *)
Section Sweeping.
Context (declared : string → Prop) (decode : string → goerr + (Z * list string)) (r : Reconciler).

Lemma metered_Probe path agent k : frames (metered declared) (Probe.Probe decode (prober r) path agent k).
Proof.
  intros w. apply metered_same. unfold Probe.Probe, Probe.Executions, mbind, St_bind.
  destruct (Probe.pc_buildError (prober r)) as [text|]; [done|]. unfold Probe.fetch.
  destruct (head (w_replies w)) as [[text|code text|text|text|status payload]|]; simpl; try done.
  destruct (status =? 200); simpl; [|done]. destruct (decode payload) as [e|[count executions]]; simpl; [done|].
  by destruct (count =? 0).
Qed.
#[local] Hint Resolve metered_Probe : frames.

Lemma metered_complete candidate status result detail summary :
  frames (metered declared) (complete r candidate status result detail summary).
Proof. unfold complete. frames_auto. Qed.
#[local] Hint Resolve metered_complete : frames.

Lemma metered_escalate candidate detail summary :
  frames (metered declared) (escalate r candidate detail summary).
Proof. unfold escalate. frames_auto. Qed.
#[local] Hint Resolve metered_escalate : frames.

Lemma metered_resolve snapshot candidate summary : (∀ ty, served snapshot ty → declared ty) →
  frames (metered declared) (resolve decode r snapshot candidate summary).
Proof.
  intros Hd. unfold resolve. destruct (Lookup_type snapshot (st_resourceType candidate)) as [def|] eqn:Hl; [|frames_auto].
  assert (Hty : declared (st_resourceType candidate)) by (apply Hd; by eexists). frames_auto.
Qed.

Lemma metered_Sweep Current : (∀ n ty, served (Current n) ty → declared ty) →
  frames (metered declared) (Sweep decode r Current).
Proof.
  intros Hd. unfold Sweep, staleKeys. apply frames_bind; [apply _|frames_auto|]. intros candidates.
  generalize (mkSummary (Z.of_nat (length candidates)) 0 0 0 0). generalize (imap pair candidates).
  intros l. induction l as [|[n c] l IH]; intros summary; simpl; [frames_auto|].
  apply frames_bind; [apply _|by apply metered_resolve, Hd|done].
Qed.
End Sweeping.

(** The relay. *)
Section Relaying.
Context (declared : string → Prop).

Definition metered_relay (s s' : rworld) : Prop := metered declared (r_world s) (r_world s').

#[export] Instance metered_relay_preorder : PreOrder metered_relay.
Proof. split; [intros s; unfold metered_relay; reflexivity|]. intros s1 s2 s3. unfold metered_relay. by etrans. Qed.

Lemma on_world_metered {A} (m : M A) : frames (metered declared) m → frames metered_relay (on_world m).
Proof. intros Hm s. unfold metered_relay, on_world. specialize (Hm (r_world s)). by destruct (m (r_world s)). Qed.

Lemma WriteMessages_metered l : frames metered_relay (WriteMessages l).
Proof. intros s. unfold metered_relay, WriteMessages. destruct (default _ _); simpl; reflexivity. Qed.
#[local] Hint Resolve WriteMessages_metered : frames.
#[local] Hint Extern 2 (frames metered_relay (on_world _)) => (apply on_world_metered; frames_auto) : frames.

Lemma metered_Publish batch : frames metered_relay (Publish batch).
Proof. unfold Publish, unpublished. frames_auto. Qed.
#[local] Hint Resolve metered_Publish : frames.

Lemma metered_relay_Run batch ticks : frames metered_relay (Relay.Run batch ticks).
Proof.
  induction ticks as [|ticks IH]; simpl; [frames_auto|].
  apply frames_bind; [apply _|frames_auto|]. intros [e|count]; (apply frames_bind; [apply _| |done]); [frames_auto|].
  destruct (Z.ltb_spec 0 count); frames_auto.
Qed.
End Relaying.

(** The housekeeping. *)
Section Housekeeping.
Context (declared : string → Prop).

Definition metered_house (s s' : mworld) : Prop := metered declared (m_world s) (m_world s').

#[export] Instance metered_house_preorder : PreOrder metered_house.
Proof. split; [intros s; unfold metered_house; reflexivity|]. intros s1 s2 s3. unfold metered_house. by etrans. Qed.

Lemma lift_metered {A} (m : M A) : frames (metered declared) m → frames metered_house (lift m).
Proof. intros Hm s. unfold metered_house, lift. specialize (Hm (m_world s)). by destruct (m (m_world s)). Qed.

Lemma house_same {A} (m : MM A) :
  (∀ s, w_metrics (m_world (m s).2) = w_metrics (m_world s)) → frames metered_house m.
Proof. intros Hm s. by apply metered_same. Qed.

Lemma ddl_metered {A} (f : catalog → goerr + (A * catalog)) : frames metered_house (ddl f).
Proof. apply house_same. intros s. unfold ddl. by destruct (default Fine _), (f (m_cat s)) as [|[x c]]. Qed.
Lemma in_tx_metered {A} (f : catalog → goerr + (A * catalog)) c : frames metered_house (in_tx f c).
Proof. apply house_same. intros s. unfold in_tx. by destruct (default Fine _), (f c). Qed.
Lemma commit_catalog_metered c : frames metered_house (commit_catalog c).
Proof. apply house_same. intros s. unfold commit_catalog. by destruct (default Fine _). Qed.
Lemma begin_metered : frames metered_house begin_maintenance.
Proof. intros s. unfold begin_maintenance. apply frames_bind; [apply _|apply frames_wrapping, in_tx_metered|intros ?; frames_auto]. Qed.
Lemma acquire_metered others : frames metered_house (acquire_lock others).
Proof. apply house_same. intros s. unfold acquire_lock. by destruct (default Fine _). Qed.
Lemma Archive_metered table name : frames metered_house (Archive table name).
Proof. apply house_same. intros s. unfold Archive. by repeat case_match. Qed.
#[local] Hint Resolve ddl_metered in_tx_metered commit_catalog_metered begin_metered acquire_metered
  Archive_metered : frames.
#[local] Hint Extern 2 (frames metered_house (lift _)) => (apply lift_metered; frames_auto) : frames.

Lemma metered_EnsurePartitions others ahead : frames metered_house (EnsurePartitions others ahead).
Proof.
  assert (Hloop : ∀ f t h b c, frames metered_house (extend_loop f t h b c)).
  { induction f as [|f IH]; intros t h b c; simpl; [frames_auto|]. destruct (negb (b <? h)); frames_auto. }
  assert (Htables : ∀ ts h c, frames metered_house (extend_tables ts h c)).
  { induction ts as [|t ts IH]; intros h c; csimpl; unfold extend; frames_auto. }
  unfold EnsurePartitions. frames_auto.
Qed.

Lemma metered_Delete store refs : frames (metered declared) (Delete store refs).
Proof.
  intros w. unfold Delete. destruct (_ || _); [simpl; reflexivity|]. apply metered_obj, Delete_frame.
Qed.
#[local] Hint Resolve metered_Delete metered_EnsurePartitions : frames.

Lemma metered_ExpireKeys scan results fuel r budget :
  frames (metered declared) (ExpireKeys scan results fuel r budget).
Proof.
  assert (Hloop : ∀ f hot deadline deleted, frames (metered declared) (expire_loop scan results f hot deadline deleted)).
  { induction f as [|f IH]; intros hot deadline deleted; simpl; unfold expireBatch; frames_auto. }
  unfold ExpireKeys. frames_auto.
Qed.

Lemma metered_RetireExpired archiver r : frames metered_house (RetireExpired archiver r).
Proof.
  assert (Hparts : ∀ names table l, frames metered_house (retire_partitions archiver table names l)).
  { induction names as [|n names IH]; intros table l; simpl; frames_auto. }
  assert (Htables : ∀ ts l, frames metered_house (retire_tables archiver r ts l)).
  { induction ts as [|t ts IH]; intros l; simpl; unfold expired; frames_auto. }
  apply Htables.
Qed.

Lemma metered_count_retired l : frames (metered declared) (count_retired l).
Proof. induction l as [|p l IH]; simpl; frames_auto. Qed.
#[local] Hint Resolve metered_ExpireKeys metered_RetireExpired metered_count_retired : frames.

Lemma metered_panic_tables r tables : frames metered_house (panic_tables r tables).
Proof.
  induction tables as [|t tables IH]; simpl; unfold expired; frames_auto.
  unfold panic_partitions. frames_auto.
Qed.
#[local] Hint Resolve metered_panic_tables : frames.

Lemma metered_runMaintenance scan cfg archiver results others fuel :
  frames metered_house (runMaintenance scan cfg archiver results others fuel).
Proof.
  unfold runMaintenance. apply frames_bind; [apply _|frames_auto|]. intros _.
  apply frames_bind; [apply _|frames_auto|]. intros [[deleted err]|]; [|frames_auto].
  apply frames_bind; [apply _|destruct (Z.ltb_spec 0 deleted); frames_auto|]. intros _.
  unfold retire_pass. destruct archiver; frames_auto.
Qed.
End Housekeeping.
End Background.
