(* ===== verification/Routes.v ===== *)
(** * Routes: the router of internal/api and its counters

    [Routes] wires the handlers to their patterns and [countResponses] wraps them: every answer
    but those of the metrics endpoint is counted once, under its status, and timed under the
    pattern that matched, never the path. *)

From S2P Require Import Prelude GoString GoHttp Sha256 Manifest Conflict Latency World Json Claim ClaimSpec.
From S2P Require Import ClaimInv ClaimSafety Config Downstream ResultStore Retention Maintenance Reconcile ReconcileRun Api ApiProps ApiSafety Reads.
From S2P Require Import Relay Telemetry Metered.

(** ** Requests and answers *)

(** A request as the handlers see it; the path is its clean segments. *)
Record api_request := mkApiRequest {
  a_Method : string;
  a_Path : list string;
  a_Agent : string;
  a_Role : string;
  a_IdempotencyKey : string;
  a_Body : body_read;
  a_Reason : string;
  a_Query : Values;
}.

(** What goes out: a handler's response, a line of text of the library, or the metrics page. *)
Inductive answered :=
| Handled (r : response)
| PlainText (status : Z) (text : string)
| MetricsPage (text : string).

Definition answer_status (a : answered) : Z :=
  match a with Handled r => resp_status r | PlainText status _ => status | MetricsPage _ => 200 end.

Inductive endpoint := WriteEndpoint | ReadEndpoint | IntentsEndpoint | ConflictsEndpoint | HealthEndpoint | MetricsEndpoint.

(** The patterns of [Routes]. *)
Definition routes : list (pattern * endpoint) :=
  [(mkPattern "POST" [Literal "v1"; Literal "writes"], WriteEndpoint);
   (mkPattern "GET" [Literal "v1"; Literal "writes"; Wildcard "key"], ReadEndpoint);
   (mkPattern "GET" [Literal "v1"; Literal "resources"; Wildcard "resource_type"; Wildcard "resource_id";
                     Literal "intents"], IntentsEndpoint);
   (mkPattern "GET" [Literal "v1"; Literal "conflicts"], ConflictsEndpoint);
   (mkPattern "GET" [Literal "healthz"], HealthEndpoint);
   (mkPattern "GET" [Literal "metrics"], MetricsEndpoint)].

Definition path_text (path : list string) : string := "/" +:+ Join path "/".

(** ** The handlers behind the patterns *)

Section Routes.
Context `{!Pg, !Objects} (canonical_Hash : writeRequest → goerr + string) (s : Server).
(** The page of [promhttp], which reads the gauges of the database. *)
Context (metrics_page : M string).
Context (fuel : nat) (snapshot : Snapshot).

Definition write_http (r : api_request) : http_request :=
  mkHttp (a_Agent r) (a_Role r) (a_IdempotencyKey r) (a_Body r).

Definition read_http (r : api_request) (vars : list (string * string)) : http_request :=
  mkHttp (a_Agent r) (a_Role r) (PathValue "key" vars) (a_Body r).

Definition list_http (r : api_request) (vars : list (string * string)) : read_request :=
  mkReadRequest (write_http r) (a_Reason r) (a_Query r) (path_text (a_Path r))
    (PathValue "resource_type" vars) (PathValue "resource_id" vars).

Definition serve_endpoint (e : endpoint) (r : api_request) (vars : list (string * string)) : M (option answered) :=
  match e with
  | WriteEndpoint => fmap Handled <$> handleWrite canonical_Hash s fuel snapshot (write_http r)
  | ReadEndpoint => (Some ∘ Handled) <$> handleRead s (read_http r vars)
  | IntentsEndpoint => (Some ∘ Handled) <$> handleIntents s (list_http r vars)
  | ConflictsEndpoint => (Some ∘ Handled) <$> handleConflicts s (list_http r vars)
  | HealthEndpoint => mret (Some (Handled (mkResponse 200 [] (JRaw ""))))
  | MetricsEndpoint => (Some ∘ MetricsPage) <$> metrics_page
  end.

Definition plain (p : Z * string) : answered := PlainText p.1 p.2.

(** The mux: its answer, and the pattern it set on the request. *)
Definition serve_mux (r : api_request) : M (option answered * string) :=
  match dispatch routes (a_Method r) (a_Path r) with
  | Found p e vars => (λ a, (a, pattern_text p)) <$> serve_endpoint e r vars
  | MethodNotAllowed => mret (Some (plain method_not_allowed_text), "")
  | NotFound => mret (Some (plain not_found_text), "")
  end.

(** [route]. *)
Definition route (p : string) : string := if negb (String.eqb p "") then p else "unmatched".

(** [countResponses] around the mux: what [Routes] returns.  The recorder keeps the status that
    the one [WriteHeader] of a handler sets. *)
Definition countResponses (r : api_request) : M (option answered) :=
  if String.eqb (path_text (a_Path r)) "/metrics" then fst <$> serve_mux r
  else
    started ← now;
    '(answer, matched_pattern) ← serve_mux r;
    match answer with
    | None => mret None
    | Some a =>
        _ ← emit (Inc "responses" [Itoa (answer_status a)]);
        ended ← now;
        _ ← emit (Observe "request_duration" [route matched_pattern] (ended - started));
        mret (Some a)
    end.
End Routes.

(** ** Theorem *)

Definition route_labels : list string := "unmatched" :: (pattern_text <$> routes.*1).

Definition request_counts (w : world) : list metric := filter (λ m, of_requests m = true) (w_metrics w).

Lemma metered_counts declared w w' : metered declared w w' → request_counts w' = request_counts w.
Proof.
  intros (l & Hm & Hl). unfold request_counts. rewrite Hm, filter_app.
  replace (filter (λ m, of_requests m = true) l) with (@nil metric); [by rewrite app_nil_r|].
  clear Hm. induction Hl as [|m l Hm' _ IH]; [done|]. rewrite filter_cons, <- IH. destruct (decide _) as [Ht|]; [|done].
  destruct Hm' as [_ Hm']. by rewrite Hm' in Ht.
Qed.

(** The metrics moved are well formed. *)
Definition well_metered (declared : string → Prop) (w w' : world) : Prop :=
  ∃ l, w_metrics w' = w_metrics w ++ l ∧ Forall (typed declared) l.

#[export] Instance well_metered_preorder declared : PreOrder (well_metered declared).
Proof.
  split.
  - intros w. exists []. rewrite app_nil_r. split; [done|by apply Forall_nil].
  - intros w1 w2 w3 (l1 & H1 & F1) (l2 & H2 & F2). exists (l1 ++ l2).
    rewrite H2, H1, app_assoc. split; [done|by apply Forall_app].
Qed.

Lemma metered_well declared w w' : metered declared w w' → well_metered declared w w'.
Proof.
  intros (l & Hm & Hl). exists l. split; [done|]. eapply Forall_impl; [exact Hl|]. by intros m [? _].
Qed.

Lemma well_emit declared m : typed declared m → frames (well_metered declared) (emit m).
Proof. intros Hm w. exists [m]. split; [done|]. by apply Forall_singleton. Qed.

Section Counting.
Context `{!Pg, !Objects} (canonical_Hash : writeRequest → goerr + string) (s : Server).
Context (declared : string → Prop) (metrics_page : M string) (page_metered : frames (metered declared) metrics_page).
Context (fuel : nat) (snapshot : Snapshot) (snapshot_declared : ∀ ty, served snapshot ty → declared ty).

Lemma metered_serve_mux r :
  frames (metered declared) (serve_mux canonical_Hash s metrics_page fuel snapshot r).
Proof.
  unfold serve_mux. destruct (dispatch _ _ _) as [p e vars| |]; [|apply frames_ret; apply _|apply frames_ret; apply _].
  apply frames_fmap; [apply _|].
  destruct e; simpl; try (apply frames_fmap; [apply _|]).
  - by apply metered_handleWrite.
  - apply metered_handleRead.
  - apply metered_handleIntents.
  - apply metered_handleConflicts.
  - apply frames_ret; apply _.
  - exact page_metered.
Qed.

Lemma serve_mux_label r w a label w' :
  serve_mux canonical_Hash s metrics_page fuel snapshot r w = (inr (a, label), w') → route label ∈ route_labels.
Proof.
  unfold serve_mux. destruct (dispatch _ _ _) as [p e vars| |] eqn:Hd.
  - unfold fmap, St_fmap, mbind, St_bind. destruct (serve_endpoint _ _ _ _ _ _ _ _ w) as [[err|x] w1]; [done|].
    intros [= _ <- _]. unfold dispatch in Hd. destruct (find_route _ _ _) as [[[q h] vs]|] eqn:Hf.
    + injection Hd as -> -> ->. apply find_route_sound in Hf as (Hin & _).
      replace (route (pattern_text p)) with (pattern_text p).
      2: { unfold route. destruct (String.eqb_spec (pattern_text p) "") as [He|]; [|done].
           unfold pattern_text in He. by destruct (p_method p). }
      right. apply list_elem_of_fmap_2. by apply (list_elem_of_fmap_2 fst _ (p, e)).
    + by destruct (path_known _ _).
  - intros [= _ <- _]. by left.
  - intros [= _ <- _]. by left.
Qed.
End Counting.

(** Every answer is counted once: a request outside /metrics that is answered adds exactly one
    response count, under the status that went out, and one duration, under the pattern that
    matched or "unmatched", so that the label set is finite whatever paths are asked for; a
    request for /metrics adds none.  A request that matches a pattern is served by its handler
    whatever the order of registration, and one that matches none is answered 404 or 405
    without touching the database or the downstream. *)
Theorem responses_counted `{!Pg, !Objects} (canonical_Hash : writeRequest → goerr + string) (s : Server)
    (metrics_page : M string) (fuel : nat) (snapshot : Snapshot) (r : api_request) (w : world) :
  frames (metered (served snapshot)) metrics_page →
  let '(res, w') := countResponses canonical_Hash s metrics_page fuel snapshot r w in
  (if String.eqb (path_text (a_Path r)) "/metrics" then request_counts w' = request_counts w
   else match res with
        | inr (Some a) => ∃ label took, label ∈ route_labels ∧
            request_counts w' = request_counts w ++
              [Inc "responses" [Itoa (answer_status a)]; Observe "request_duration" [label] took]
        | _ => request_counts w' = request_counts w
        end) ∧
  (∀ p e, (p, e) ∈ routes → matched p (a_Method r) (a_Path r) →
     ∃ vars, dispatch routes (a_Method r) (a_Path r) = Found p e vars) ∧
  ((∀ p e, (p, e) ∈ routes → ¬ matched p (a_Method r) (a_Path r)) →
     (res = inr (Some (plain not_found_text)) ∨ res = inr (Some (plain method_not_allowed_text))) ∧
     w_db w' = w_db w ∧ w_sent w' = w_sent w).
Proof.
  intros Hpage. unfold countResponses.
  pose proof (metered_serve_mux canonical_Hash s _ metrics_page Hpage fuel snapshot (λ _, id) r) as Hmux.
  assert (Hserved : ∀ p e, (p, e) ∈ routes → matched p (a_Method r) (a_Path r) →
     ∃ vars, dispatch routes (a_Method r) (a_Path r) = Found p e vars).
  { intros p e Hin Hm. by destruct (dispatch_found routes _ _ p e eq_refl Hin Hm) as (vars & ? & _); eauto. }
  assert (Hnone : (∀ p e, (p, e) ∈ routes → ¬ matched p (a_Method r) (a_Path r)) →
    ∃ a, (a = plain not_found_text ∨ a = plain method_not_allowed_text) ∧
      ∀ w, serve_mux canonical_Hash s metrics_page fuel snapshot r w = (inr (Some a, ""), w)).
  { intros Hno. unfold serve_mux. destruct (dispatch_not_found routes (a_Method r) (a_Path r) Hno) as [->| ->]; eauto. }
  destruct (String.eqb (path_text (a_Path r)) "/metrics").
  - unfold fmap at 1, St_fmap, mbind, St_bind. specialize (Hmux w).
    destruct (serve_mux _ _ _ _ _ r w) as [[e|[a label]] w'] eqn:Hrun; (split; [by eapply metered_counts|]);
      (split; [done|]); intros Hno; destruct (Hnone Hno) as (b & Hb & Hrun'); rewrite Hrun' in Hrun; [done|].
    injection Hrun as <- <- <-. simpl. destruct Hb as [->| ->]; auto.
  - set (w1 := set_clock (λ n, w_clock w (S n)) w). rewrite (bind_inr now _ w (w_clock w 0%nat) w1 eq_refl).
    specialize (Hmux w1). assert (Hw1 : request_counts w1 = request_counts w) by done.
    destruct (serve_mux _ _ _ _ _ r w1) as [[e|[a label]] w2] eqn:Hrun; simpl in Hmux.
    { rewrite (bind_inl _ _ _ _ _ Hrun). rewrite (metered_counts _ _ _ Hmux), Hw1. split; [done|]. split; [done|].
      intros Hno. destruct (Hnone Hno) as (b & _ & Hrun'). by rewrite Hrun' in Hrun. }
    rewrite (bind_inr _ _ _ _ _ Hrun). destruct a as [a|].
    + simpl. split; [|split; [done|]].
      * eexists _, _. split; [by eapply serve_mux_label|].
        unfold request_counts at 1. cbn [w_metrics set_metrics set_clock]. rewrite !filter_app.
        fold (request_counts w2). rewrite (metered_counts _ _ _ Hmux), Hw1. by rewrite <- app_assoc.
      * intros Hno. destruct (Hnone Hno) as (b & Hb & Hrun'). rewrite Hrun' in Hrun. injection Hrun as <- _ <-.
        simpl. destruct Hb as [->| ->]; auto.
    + simpl. rewrite (metered_counts _ _ _ Hmux), Hw1. split; [done|]. split; [done|].
      intros Hno. destruct (Hnone Hno) as (b & _ & Hrun'). by rewrite Hrun' in Hrun.
Qed.

(** C30: no metric call of any process can panic, and no label is unbounded: whatever a request, the
    faults and the replies are, every metric the router, the reconciler's loop, the relay and
    the housekeeping pass move is a registered series of that kind, called with as many
    labels as it was registered with, a counter never decreases, and a resource type that
    labels one is declared by a snapshot that was served, never taken from a request as it is. *)
Theorem metrics_typed `{!Pg, !Objects} (canonical_Hash : writeRequest → goerr + string) (s : Server)
    (metrics_page : M string) (fuel : nat) (snapshot : Snapshot) (a : api_request) (declared : string → Prop)
    (decode : string → goerr + (Z * list string)) (r : Reconciler) (Current : nat → nat → Snapshot)
    (scan : DB → list ((string * string) * key_row)) (cfg : Config) (archiver : archiver_value)
    (others : catalog → catalog) (ticks batch : nat) (w : world) (rw : rworld) (mw : mworld) :
  (∀ ty, served snapshot ty → declared ty) →
  (∀ n k ty, served (Current n k) ty → declared ty) →
  frames (metered declared) metrics_page →
  well_metered declared w (countResponses canonical_Hash s metrics_page fuel snapshot a w).2 ∧
  well_metered declared w (ReconcileRun.Run decode r Current ticks w).2 ∧
  well_metered declared (r_world rw) (r_world (Relay.Run batch ticks rw).2) ∧
  well_metered declared (m_world mw)
    (m_world (runMaintenance scan cfg archiver (Some (Reconcile.results r)) others fuel mw).2).
Proof.
  intros Hsnap Hcur Hpage. split_and!.
  - assert (Hmux : ∀ x, frames (well_metered declared) (serve_mux canonical_Hash s metrics_page fuel snapshot x))
      by (intros x w0; by apply metered_well, metered_serve_mux).
    assert (Hnow : frames (well_metered declared) now) by (intros w0; apply metered_well, metered_now).
    revert w. change (frames (well_metered declared) (countResponses canonical_Hash s metrics_page fuel snapshot a)).
    unfold countResponses. destruct (String.eqb _ "/metrics"); [apply frames_fmap; [apply _|done]|].
    apply frames_bind; [apply _|done|]. intros t. apply frames_bind; [apply _|done|]. intros [[x|] label]; [|frames_auto].
    apply frames_bind; [apply _|apply well_emit; inner_typed|]. intros _.
    apply frames_bind; [apply _|done|]. intros t'.
    apply frames_bind; [apply _|apply well_emit; inner_typed|]. intros _. frames_auto.
  - apply metered_well. revert w. induction ticks as [|n IH]; intros w; [simpl; reflexivity|]. cbn [ReconcileRun.Run].
    revert w. apply frames_bind; [apply _| |intros _; exact IH]. apply frames_try. apply metered_Sweep. eauto.
  - apply metered_well, metered_relay_Run.
  - apply metered_well, metered_runMaintenance.
Qed.

(** ** Witness *)

Section Witness.
#[local] Existing Instance demo_pg.

Definition no_such_path : api_request := mkApiRequest "GET" ["v1"; "nothing"] "" "" "" (BodyMalformed "") "" ∅.
Definition wrong_method : api_request := mkApiRequest "DELETE" ["v1"; "conflicts"] "" "" "" (BodyMalformed "") "" ∅.

Definition served_demo (r : api_request) : (goerr + option answered) * world :=
  countResponses (λ _, inr "h") demo_server (mret "") 1 (mkSnapshot "v" ∅) r (world_of empty_db).

Lemma responses_counted_witness :
  (served_demo no_such_path).1 = inr (Some (PlainText 404 "404 page not found")) ∧
  (served_demo wrong_method).1 = inr (Some (PlainText 405 "Method Not Allowed")) ∧
  ∃ label took, label ∈ route_labels ∧
    request_counts (served_demo no_such_path).2 = [Inc "responses" ["404"]; Observe "request_duration" [label] took].
Proof.
  split; [vm_compute; reflexivity|]. split; [vm_compute; reflexivity|].
  pose proof (responses_counted (λ _, inr "h") demo_server (mret "") 1 (mkSnapshot "v" ∅) no_such_path
    (world_of empty_db) (frames_ret (metered _) "")) as Hc.
  change (countResponses _ _ _ _ _ _ _) with (served_demo no_such_path) in Hc.
  destruct (served_demo no_such_path) as [res w'] eqn:Hs.
  assert (Hres : res = inr (Some (PlainText 404 "404 page not found"))) by (vm_compute in Hs; by injection Hs).
  subst res. destruct Hc as [(label & took & Hin & Hcounts) _]. exists label, took. split; [exact Hin|exact Hcounts].
Defined.

(** A write through the router, a sweep, a relay tick and a pass. *)
Definition demo_post : api_request :=
  mkApiRequest "POST" ["v1"; "writes"] (h_AgentID demo_http) (h_Role demo_http) (h_Key demo_http) (h_Body demo_http) "" ∅.
Definition demo_declared (ty : string) : Prop := served demo_snap ty.
Definition demo_reconciler : Reconciler :=
  mkReconciler (Probe.mkProbeClient "http://d" None) (mkResultStore false 0) 0 10.
Definition posted : (goerr + option answered) * world :=
  countResponses demo_hash demo_server (mret "") 20 demo_snap demo_post demo_world.

Lemma metrics_typed_witness :
  (∃ r, posted.1 = inr (Some (Handled r)) ∧ resp_status r = 201) ∧
  ∃ l, w_metrics posted.2 = w_metrics demo_world ++ l ∧ Forall (typed demo_declared) l.
Proof.
  split; [vm_compute; eexists; split; reflexivity|].
  destruct (Load demo_env) as [ps|cfg] eqn:Hl; [by vm_compute in Hl|].
  destruct (metrics_typed demo_hash demo_server (mret "") 20 demo_snap demo_post demo_declared
    (λ _, inr (0, [])) demo_reconciler (λ _ _, demo_snap) (λ d, map_to_list (db_keys d)) cfg AnArchive (λ c, c) 1 1
    demo_world (mkRWorld demo_world [] []) (mkMWorld demo_world (mkCatalog [] [] [] []))
    (λ ty H, H) (λ n k ty H, H) (frames_ret (metered _) "")) as [Hm _].
  exact Hm.
Defined.
End Witness.
