(* ===== verification/System.v ===== *)
(** * System: executions at most once

    The write path as a whole: handlers claim keys, send their one call, and record what
    [Execute] made of it; the downstream executes calls and keeps a ledger by correlation
    identifier; the reconciler probes that ledger for stale keys and resolves them.  The tables
    move by whole calls of [Claim], [Complete] and [resolve], each in any world, so under any
    script of faults; handlers may stop anywhere.

    Four assumptions of the protocol, none of which the code checks.
    - Promptness, a guard of [call_run]: a call is executed, if at all, before the key it belongs
      to is stale; the configuration makes the threshold at least three call budgets.
    - The fence, a guard of the fenced system: an outcome is recorded only while the attempt it
      belongs to is the current one; the unfenced system shows what its absence costs.
    - The manifests, a hypothesis of the theorem: the classifications they declare are true of the
      downstream, in the sense of Contract.v; the run [mislabelled] shows what a manifest that
      is not costs, and the shipped invoice manifest is one.
    - The probe, a guard of [call_probe]: an answer that can be decoded carries the number of
      executions of the key.

    What a handler records is an outcome that [Execute] returned for the call of its attempt, and
    what the reconciler records is what [resolve] makes of the reply of its probe; that these
    are right follows from the assumptions. *)

From S2P Require Import Prelude GoString Sha256 Manifest Conflict World Json Claim ClaimSpec ClaimInv.
From S2P Require Import ClaimSafety ClaimProps Downstream Contract ResultStore Reconcile ReconcileProps Api.

(** ** State *)

Record attempt := mkAttempt { at_phase : phase; at_claimed : Z }.

(** A probe: the key, the attempt that was pending, what the prober was left with, and whether
    the ledger had an execution of the key. *)
Record probe_seen := mkSeen {
  ps_key : string * string;
  ps_attempt : Z;
  ps_reply : transport;
  ps_ran : bool;
}.

(** The world a deployment puts the program in: what the downstream answers, which
    classifications the served manifests declare, and how a probe's answer is decoded. *)
Record deployment := mkDeployment {
  answers : answering;
  declares : ErrorClassification → Prop;
  decode_probe : string → goerr + (Z * list string);
}.

(** The manifests are true of the downstream. *)
Definition true_manifests (dep : deployment) : Prop :=
  ∀ c, declares dep c → true_of (answers dep) c.

(** The count of an answer that can be decoded is [n]. *)
Definition counts_right (dep : deployment) (n : nat) (t : transport) : Prop :=
  ∀ payload count items,
    t = Response 200 payload → decode_probe dep payload = inr (count, items) → count = Z.of_nat n.

Record sys := mkSys {
  y_db : DB;
  y_attempts : gmap ((string * string) * Z) attempt;
  y_ledger : list ((string * string) * Z);
  y_probes : list probe_seen;
}.

Definition executions (key : string * string) (y : sys) : nat :=
  length (filter (λ e, e.1 = key) (y_ledger y)).

Section System.
Context `{!Pg, !Objects} (stale_us : Z) (fenced : bool) (dep : deployment).
Implicit Types (y : sys) (key : string * string).

Definition stale_at (claimed : Z) (d : DB) : Prop := claimed < db_now d - stale_us.

(** A handler starts an attempt when [Claim] tells it that it claimed the key; after an error
    it does not know, and sends nothing. *)
Definition started (req : Request) (t : Z) (claim : goerr + Result)
    (attempts : gmap ((string * string) * Z) attempt) : gmap ((string * string) * Z) attempt :=
  match claim with
  | inr res =>
      match Verdict_ res, Record_of res with
      | VerdictClaimed, Some rec => <[(req_key req, AttemptCount rec) := mkAttempt Unsent t]> attempts
      | _, _ => attempts
      end
  | inl _ => attempts
  end.

(** The attempt is the current one of its key. *)
Definition current (d : DB) key (n : Z) : Prop :=
  ∃ r, db_keys d !! key = Some r ∧ k_attempt r = n.

Definition fence (d : DB) key (n : Z) : Prop := fenced = true → current d key n.

Definition set_phase (p : phase) (a : attempt) : attempt := mkAttempt p (at_claimed a).

(** What happens to a call, and what a probe sees of it; the tables do not change. *)
Inductive call_step : sys → sys → Prop :=
(** The call leaves, or cannot be sent. *)
| call_send key n a y :
    y_attempts y !! (key, n) = Some a → at_phase a = Unsent →
    call_step y (mkSys (y_db y) (<[(key, n) := set_phase Sent a]> (y_attempts y)) (y_ledger y) (y_probes y))
| call_unsendable key n a y :
    y_attempts y !! (key, n) = Some a → at_phase a = Unsent →
    call_step y (mkSys (y_db y) (<[(key, n) := set_phase Never a]> (y_attempts y)) (y_ledger y) (y_probes y))
(** The downstream executes the call, in time, or refuses it. *)
| call_run key n a y :
    y_attempts y !! (key, n) = Some a → at_phase a = Sent → ¬ stale_at (at_claimed a) (y_db y) →
    call_step y (mkSys (y_db y) (<[(key, n) := set_phase Ran a]> (y_attempts y))
      (y_ledger y ++ [(key, n)]) (y_probes y))
| call_refuse key n a y :
    y_attempts y !! (key, n) = Some a → at_phase a = Sent →
    call_step y (mkSys (y_db y) (<[(key, n) := set_phase Never a]> (y_attempts y)) (y_ledger y) (y_probes y))
(** The reconciler probes a stale key. *)
| call_probe key r reply y :
    db_keys (y_db y) !! key = Some r → k_status r = StatusPending → stale_at (k_claimed r) (y_db y) →
    counts_right dep (executions key y) reply →
    call_step y (mkSys (y_db y) (y_attempts y) (y_ledger y)
      (mkSeen key (k_attempt r) reply (0 <? executions key y)%nat :: y_probes y)).

Definition with_db (d : DB) (y : sys) : sys := mkSys d (y_attempts y) (y_ledger y) (y_probes y).

Inductive sys_step : sys → sys → Prop :=
(** Time passes. *)
| sys_tick t y :
    db_now (y_db y) <= t → sys_step y (with_db (set_now t (y_db y)) y)
(** A claim; one that wins starts an attempt. *)
| sys_claim req w y :
    w_db w = y_db y →
    sys_step y (mkSys (w_db (Claim req w).2)
      (started req (db_now (y_db y)) (Claim req w).1 (y_attempts y)) (y_ledger y) (y_probes y))
| sys_calls y y' : call_step y y' → sys_step y y'
(** The handler of an attempt records what [Execute] returned for its call. *)
| sys_report key n a c req o result ref detail w y :
    y_attempts y !! (key, n) = Some a → (dr_AgentID req, dr_Key req) = key →
    declares dep (Classification req) → returned (answers dep) c req (at_phase a) o →
    fence (y_db y) key n → w_db w = y_db y →
    sys_step y (with_db
      (w_db (Complete key.1 key.2 (statusFor (Disposition_ o)) result ref detail w).2) y)
(** The reconciler resolves a key by the reply of a probe. *)
| sys_resolve p rec snapshot rtype summary w y :
    p ∈ y_probes y → fence (y_db y) (ps_key p) (ps_attempt p) →
    w_db w = y_db y → w_env w = [] → head (w_replies w) = Some (ps_reply p) →
    sys_step y (with_db (w_db (resolve (decode_probe dep) rec snapshot
      (mkStale (ps_key p).1 (ps_key p).2 rtype) summary w).2) y)
(** A key for which no manifest declares a probe is escalated. *)
| sys_escalate key rec snapshot rtype summary w y :
    Lookup_type snapshot rtype = None → w_db w = y_db y → w_env w = [] →
    sys_step y (with_db (w_db (resolve (decode_probe dep) rec snapshot
      (mkStale key.1 key.2 rtype) summary w).2) y).

Definition sys_init : sys := mkSys empty_db ∅ [] [].

Definition run := rtc sys_step sys_init.
End System.

(** ** The invariant *)

Section Invariant.
Context `{!Pg, !Objects} (stale_us : Z) (dep : deployment).
Implicit Types (y : sys) (key : string * string).

(** The call of this attempt did not run and never will. *)
Definition over (d : DB) (a : attempt) : Prop :=
  at_phase a = Never ∨ (at_phase a ≠ Ran ∧ stale_at stale_us (at_claimed a) d).

(** An attempt is the key's current one or is over, and it is over when the key is failed or
    rejected; the ledger lists the attempts that ran, once each; done means it ran; and what
    a probe saw still holds. *)
Record calls_ok y : Prop := {
  so_attempts key n a : y_attempts y !! (key, n) = Some a →
    ∃ r, db_keys (y_db y) !! key = Some r ∧ n <= k_attempt r ∧
      (n < k_attempt r ∨ holds_intent (k_status r) = false → over (y_db y) a) ∧
      (n = k_attempt r → at_claimed a = k_claimed r);
  so_ledger key n : (key, n) ∈ y_ledger y ↔
    ∃ a, y_attempts y !! (key, n) = Some a ∧ at_phase a = Ran;
  so_nodup : NoDup (y_ledger y);
  so_done key r : db_keys (y_db y) !! key = Some r → k_status r = StatusDone →
    (key, k_attempt r) ∈ y_ledger y;
  so_probes p : p ∈ y_probes y →
    (∃ r, db_keys (y_db y) !! ps_key p = Some r ∧ ps_attempt p <= k_attempt r) ∧
    if ps_ran p then (ps_key p, ps_attempt p) ∈ y_ledger y
    else ∀ a, y_attempts y !! (ps_key p, ps_attempt p) = Some a → over (y_db y) a;
}.

(** What the reply of a probe says is what the ledger had. *)
Definition told (p : probe_seen) : Prop :=
  ∀ payload count items, ps_reply p = Response 200 payload →
    decode_probe dep payload = inr (count, items) → (count =? 0) = negb (ps_ran p).

Record sys_ok y : Prop := {
  so_db : db_ok (y_db y);
  so_calls : calls_ok y;
  so_told p : p ∈ y_probes y → told p;
}.

Lemma over_later d d' a : db_now d <= db_now d' → over d a → over d' a.
Proof. unfold over, stale_at. intros Hn [?|[? ?]]; [by left|right]. split; [done|lia]. Qed.

Lemma calls_init d : db_keys d = ∅ → calls_ok (with_db d sys_init).
Proof.
  intros Hd. split; simpl; [done| |apply NoDup_nil_2|by rewrite Hd|by intros p ?%not_elem_of_nil].
  intros key n. split; [by intros ?%not_elem_of_nil|]. by intros (a & Ha & _).
Qed.

Lemma sys_init_ok : sys_ok sys_init.
Proof. split; [apply empty_db_ok|by apply (calls_init empty_db)|by intros p ?%not_elem_of_nil]. Qed.

(** A current attempt that ran is the only one of its key that did. *)
Lemma ran_current y key n r :
  calls_ok y → (key, n) ∈ y_ledger y → db_keys (y_db y) !! key = Some r →
  n = k_attempt r ∧ holds_intent (k_status r) = true.
Proof.
  intros Hok Hin Hr. apply (so_ledger y Hok) in Hin as (a & Ha & Hran).
  destruct (so_attempts y Hok key n a Ha) as (r' & Hr' & Hle & Hover & _).
  rewrite Hr in Hr'. injection Hr' as <-.
  assert (Hnot : ¬ over (y_db y) a) by (intros [?|[? _]]; congruence).
  destruct (holds_intent (k_status r)); [|by destruct Hnot; auto].
  split; [|done]. destruct (decide (n < k_attempt r)); [by destruct Hnot; auto|lia].
Qed.

(** *** What a call does to the rows *)

(** Only time passes. *)
Lemma same_rows_ok y d' :
  calls_ok y → db_keys d' = db_keys (y_db y) → db_now (y_db y) <= db_now d' → calls_ok (with_db d' y).
Proof.
  intros [Hat Hled Hnd Hdn Hpr] Hk Hn.
  assert (Hover : ∀ a, over (y_db y) a → over d' a) by (intros a; by apply over_later).
  split; simpl; rewrite ?Hk; try done.
  - intros key n a Ha. destruct (Hat key n a Ha) as (r & ? & ? & ? & ?). exists r. split_and!; auto.
  - intros p Hp. destruct (Hpr p Hp) as [? Hcase]. split; [done|]. destruct (ps_ran p); auto.
Qed.

(** A pending row ends, as failed only when its attempt is over and as done only when it ran. *)
Lemma ended_row_ok y d' key r r' :
  calls_ok y → db_keys (y_db y) !! key = Some r → k_status r = StatusPending →
  db_keys d' = <[key := r']> (db_keys (y_db y)) → db_now (y_db y) <= db_now d' →
  outcome_status (k_status r') → k_attempt r' = k_attempt r → k_claimed r' = k_claimed r →
  (∀ a, k_status r' = StatusFailed → y_attempts y !! (key, k_attempt r) = Some a → over (y_db y) a) →
  (k_status r' = StatusDone → (key, k_attempt r) ∈ y_ledger y) →
  calls_ok (with_db d' y).
Proof.
  intros [Hat Hled Hnd Hdn Hpr] Hr Hp Hk Hn Hout Ha Hc Hfail Hdone.
  assert (Hover : ∀ a, over (y_db y) a → over d' a) by (intros a; by apply over_later).
  split; simpl; try done.
  - intros key' n a Hatt. destruct (Hat key' n a Hatt) as (r0 & Hr0 & Hle & Hov & Hcl). rewrite Hk.
    destruct (decide (key' = key)) as [->|Hne].
    + rewrite Hr in Hr0. injection Hr0 as <-. exists r'. rewrite lookup_insert_eq.
      split_and!; [done|lia| |rewrite Hc, Ha; done].
      intros Hcase. apply Hover. destruct (decide (n < k_attempt r)) as [Hlt|Hge]; [by apply Hov; left|].
      assert (n = k_attempt r) as -> by lia. apply Hfail; [|done].
      destruct Hcase as [?|Hh]; [lia|]. by destruct Hout as [Ho|[Ho|Ho]]; rewrite Ho in Hh.
    + exists r0. rewrite lookup_insert_ne by done. split_and!; auto.
  - intros key' r0 Hr0 Hd. rewrite Hk in Hr0. destruct (decide (key' = key)) as [->|Hne].
    + rewrite lookup_insert_eq in Hr0. injection Hr0 as <-. rewrite Ha. by apply Hdone.
    + rewrite lookup_insert_ne in Hr0 by done. by apply Hdn.
  - intros p Hin. destruct (Hpr p Hin) as [(r0 & Hr0 & Hle) Hcase]. split.
    + rewrite Hk. destruct (decide (ps_key p = key)) as [He|Hne].
      * exists r'. rewrite He in *. rewrite lookup_insert_eq. rewrite Hr in Hr0. injection Hr0 as <-.
        split; [done|lia].
      * exists r0. by rewrite lookup_insert_ne.
    + destruct (ps_ran p); [done|]. intros a Hatt. by apply Hover, Hcase.
Qed.

(** A claim that is told so starts an attempt. *)
Definition starting (starts : bool) key (row : key_row) (attempts : gmap ((string * string) * Z) attempt) :=
  if starts then <[(key, k_attempt row) := mkAttempt Unsent (k_claimed row)]> attempts else attempts.

Lemma next_row_attempts y key row n a :
  calls_ok y → next_row (db_keys (y_db y) !! key) row → y_attempts y !! (key, n) = Some a →
  n < k_attempt row ∧ over (y_db y) a.
Proof.
  intros Hok Ht Ha. destruct (so_attempts y Hok _ _ _ Ha) as (r & Hr & Hle & Hov & _).
  destruct Ht as [Hn|(r' & Hr' & Hs & Hatt)]; [congruence|]. rewrite Hr in Hr'. injection Hr' as <-.
  split; [lia|]. apply Hov. right. by rewrite Hs.
Qed.

Lemma next_row_probe y key row p :
  calls_ok y → next_row (db_keys (y_db y) !! key) row → p ∈ y_probes y → ps_key p = key →
  ps_attempt p < k_attempt row.
Proof.
  intros Hok Ht Hp Hk. destruct (so_probes y Hok p Hp) as [(r & Hr & Hle) _]. rewrite Hk in Hr.
  destruct Ht as [Hn|(r' & Hr' & _ & Hatt)]; [congruence|]. rewrite Hr in Hr'. injection Hr' as <-. lia.
Qed.

Lemma taken_row_ok y d' key row starts :
  calls_ok y → next_row (db_keys (y_db y) !! key) row →
  db_keys d' = <[key := row]> (db_keys (y_db y)) → db_now (y_db y) <= db_now d' →
  k_status row ≠ StatusDone → (starts = true → k_status row = StatusPending) →
  calls_ok (mkSys d' (starting starts key row (y_attempts y)) (y_ledger y) (y_probes y)).
Proof.
  intros Hok Ht Hk Hn Hnd Hs. unfold starting.
  assert (Hover : ∀ a, over (y_db y) a → over d' a) by (intros a; by apply over_later).
  assert (Hnew : ∀ a, y_attempts y !! (key, k_attempt row) = Some a → False).
  { intros a Hat. destruct (next_row_attempts y key row _ a Hok Ht Hat). lia. }
  assert (Hold : ∀ key' n a, y_attempts y !! (key', n) = Some a → ∃ r,
    <[key := row]> (db_keys (y_db y)) !! key' = Some r ∧ n <= k_attempt r ∧
    (n < k_attempt r ∨ holds_intent (k_status r) = false → over d' a) ∧
    (n = k_attempt r → at_claimed a = k_claimed r)).
  { intros key' n a Hat. destruct (decide (key' = key)) as [->|Hne].
    - destruct (next_row_attempts y key row n a Hok Ht Hat) as [Hlt Hov].
      exists row. rewrite lookup_insert_eq. split_and!; [done|lia|auto|lia].
    - rewrite lookup_insert_ne by done. destruct (so_attempts y Hok key' n a Hat) as (r & ? & ? & ? & ?).
      exists r. split_and!; auto. }
  split; simpl; rewrite ?Hk; try done.
  - intros key' n a Hat. destruct starts; [|by apply Hold].
    apply lookup_insert_Some in Hat as [[[= <- <-] <-]|[Hne Hat]]; [|by apply Hold].
    exists row. rewrite lookup_insert_eq, Hs by done. split_and!; [done|lia|intros [?|?]; [lia|done]|done].
  - intros key' n. rewrite (so_ledger y Hok). destruct starts; [|done]. split; intros (a & Hat & Hph).
    + exists a. split; [|done]. rewrite lookup_insert_ne; [done|]. intros [= <- <-]. by eapply Hnew.
    + apply lookup_insert_Some in Hat as [[_ <-]|[Hne Hat]]; [done|]. by exists a.
  - apply Hok.
  - intros key' r Hr Hd. destruct (decide (key' = key)) as [->|Hne].
    + rewrite lookup_insert_eq in Hr. by injection Hr as <-.
    + rewrite lookup_insert_ne in Hr by done. by apply (so_done y Hok).
  - intros p Hp. destruct (so_probes y Hok p Hp) as [(r & Hr & Hle) Hcase]. split.
    + destruct (decide (ps_key p = key)) as [He|Hne].
      * exists row. rewrite He, lookup_insert_eq. split; [done|].
        pose proof (next_row_probe y key row p Hok Ht Hp He). lia.
      * exists r. by rewrite lookup_insert_ne.
    + destruct (ps_ran p); [done|]. intros a Hat. destruct starts; [|by apply Hover, Hcase].
      apply lookup_insert_Some in Hat as [[He <-]|[Hne Hat]]; [|by apply Hover, Hcase].
      injection He as He1 He2. pose proof (next_row_probe y key row p Hok Ht Hp ltac:(done)). lia.
Qed.

(** *** What happens to the calls *)

(** A call that did not run moves to a phase in which it did not run. *)
Lemma moved_ok y key n a p :
  calls_ok y → y_attempts y !! (key, n) = Some a → at_phase a ≠ Ran → at_phase a ≠ Never → p ≠ Ran →
  calls_ok (mkSys (y_db y) (<[(key, n) := set_phase p a]> (y_attempts y)) (y_ledger y) (y_probes y)).
Proof.
  intros Hok Ha Hran Hnev Hp.
  assert (Hover : over (y_db y) a → over (y_db y) (set_phase p a)).
  { intros [?|[_ Hst]]; [done|]. right. by split. }
  destruct Hok as [Hat Hled Hnd Hdn Hpr]. split; simpl; try done.
  - intros key' m a' [[[= <- <-] <-]|[Hne Hatt]]%lookup_insert_Some; [|by apply Hat].
    destruct (Hat key n a Ha) as (r & Hr & Hle & Hov & Hcl). exists r. split_and!; auto.
  - intros key' m. rewrite Hled. split; intros (a' & Hatt & Hph).
    + exists a'. split; [|done]. rewrite lookup_insert_ne; [done|]. intros [= <- <-]. congruence.
    + apply lookup_insert_Some in Hatt as [[[= <- <-] <-]|[Hne Hatt]]; [done|]. by exists a'.
  - intros q Hq. destruct (Hpr q Hq) as [Hrow Hcase]. split; [done|]. destruct (ps_ran q); [done|].
    intros a' [[He <-]|[Hne Hatt]]%lookup_insert_Some; [|by apply Hcase].
    apply Hover, Hcase. by rewrite <- He.
Qed.

Lemma ran_ok y key n a :
  calls_ok y → y_attempts y !! (key, n) = Some a → at_phase a = Sent →
  ¬ stale_at stale_us (at_claimed a) (y_db y) →
  calls_ok (mkSys (y_db y) (<[(key, n) := set_phase Ran a]> (y_attempts y))
    (y_ledger y ++ [(key, n)]) (y_probes y)).
Proof.
  intros Hok Ha Hp Hst.
  assert (Hnot : ¬ over (y_db y) a) by (intros [?|[_ ?]]; congruence).
  assert (Hfresh : (key, n) ∉ y_ledger y).
  { intros (a' & Ha' & Hran)%(so_ledger y Hok). congruence. }
  destruct Hok as [Hat Hled Hnd Hdn Hpr]. split; simpl; try done.
  - intros key' m a' [[[= <- <-] <-]|[Hne Hatt]]%lookup_insert_Some; [|by apply Hat].
    destruct (Hat key n a Ha) as (r & Hr & Hle & Hov & Hcl). exists r. split_and!; auto.
    intros Hcase. by destruct Hnot; apply Hov.
  - intros key' m. rewrite elem_of_app, list_elem_of_singleton, Hled.
    destruct (decide ((key', m) = (key, n))) as [He|Hne].
    + split; [|by right]. intros _. exists (set_phase Ran a). rewrite He, lookup_insert_eq. done.
    + rewrite lookup_insert_ne by done. naive_solver.
  - apply NoDup_app. split_and!; [done| |apply NoDup_singleton].
    by intros x Hx ->%list_elem_of_singleton.
  - intros key' r Hr Hd. apply elem_of_app. left. by apply Hdn.
  - intros q Hq. destruct (Hpr q Hq) as [Hrow Hcase]. split; [done|].
    destruct (ps_ran q); [apply elem_of_app; by left|].
    intros a' [[He <-]|[Hne Hatt]]%lookup_insert_Some; [|by apply Hcase].
    destruct Hnot. apply Hcase. by rewrite <- He.
Qed.

(** What the probe of a stale key sees stays true. *)
Lemma probed_ok y key r reply :
  calls_ok y → db_keys (y_db y) !! key = Some r → stale_at stale_us (k_claimed r) (y_db y) →
  calls_ok (mkSys (y_db y) (y_attempts y) (y_ledger y)
    (mkSeen key (k_attempt r) reply (0 <? executions key y)%nat :: y_probes y)).
Proof.
  intros Hok Hr Hst. pose proof Hok as [Hat Hled Hnd Hdn Hpr]. split; simpl; try done.
  intros p [->|Hin]%elem_of_cons; [|by apply Hpr]. simpl. split; [by exists r|]. unfold executions.
  destruct (filter (λ e, e.1 = key) (y_ledger y)) as [|[key' n] rest] eqn:Hfil; simpl.
  - intros a Ha. right. destruct (Hat key (k_attempt r) a Ha) as (r' & Hr' & _ & _ & Hcl).
    rewrite Hr in Hr'. injection Hr' as <-. rewrite Hcl by done. split; [|done]. intros Hran.
    assert ((key, k_attempt r) ∈ filter (λ e, e.1 = key) (y_ledger y)) as Hbad.
    { apply list_elem_of_filter. split; [done|]. apply Hled. by exists a. }
    rewrite Hfil in Hbad. by apply not_elem_of_nil in Hbad.
  - assert ((key', n) ∈ filter (λ e, e.1 = key) (y_ledger y)) as Hin by (rewrite Hfil; by left).
    apply list_elem_of_filter in Hin as [He Hin]. simpl in He. subst key'.
    by destruct (ran_current y key n r Hok Hin Hr) as [-> _].
Qed.

Lemma call_step_ok y y' : calls_ok y → call_step stale_us dep y y' → calls_ok y'.
Proof.
  intros Hok Hc. destruct Hc as [key n a z Ha Hp|key n a z Ha Hp|key n a z Ha Hp Hst|key n a z Ha Hp|key r reply z Hr Hp Hst _];
    [apply moved_ok|apply moved_ok|apply ran_ok|apply moved_ok|apply probed_ok]; by rewrite ?Hp.
Qed.

Lemma call_step_told y y' : (∀ p, p ∈ y_probes y → told p) → call_step stale_us dep y y' → ∀ p, p ∈ y_probes y' → told p.
Proof.
  intros Ht Hc. destruct Hc as [| | | |key r reply z _ _ _ Hcount]; simpl; [done..|].
  intros p [->|Hin]%elem_of_cons; [|by apply Ht]. intros payload count items Hrep Hdec.
  rewrite (Hcount payload count items Hrep Hdec). simpl. by destruct (executions key z).
Qed.

Lemma call_step_db y y' : call_step stale_us dep y y' → y_db y' = y_db y.
Proof. by destruct 1. Qed.

(** A report is true of the row it may end, whoever ends it. *)
Lemma report_true y key n a outcome :
  calls_ok y → y_attempts y !! (key, n) = Some a → reported (at_phase a) outcome →
  (statusFor outcome = StatusFailed → over (y_db y) a) ∧ (statusFor outcome = StatusDone → (key, n) ∈ y_ledger y).
Proof.
  intros Hok Ha Hrep. unfold reported in Hrep. split; intros Ho.
  - left. by destruct (at_phase a), outcome.
  - apply (so_ledger y Hok). exists a. split; [done|]. by destruct (at_phase a), outcome.
Qed.

(** *** Claims and completions as atomic steps *)

Lemma complete_row key status result ref detail d b d' :
  complete_step key.1 key.2 status result ref detail d b d' →
  d' = d ∨ ∃ r r', db_keys d !! key = Some r ∧ k_status r = StatusPending ∧
    db_keys d' = <[key := r']> (db_keys d) ∧ db_now d' = db_now d ∧
    k_status r' = status ∧ k_attempt r' = k_attempt r ∧ k_claimed r' = k_claimed r.
Proof.
  intros [|r stored Hr Hp Hj Hx]; [by left|right]. destruct key as [a k]. simpl in *.
  exists r, (completed_row d r status stored (nullable ref) (nullable detail)).
  split_and!; try done; (case_decide; [unfold void_latest; by destruct (head _)|done]).
Qed.

Lemma completed_ok y key status result ref detail b d' :
  sys_ok y → outcome_status status →
  complete_step key.1 key.2 status result ref detail (y_db y) b d' →
  (∀ r a, db_keys (y_db y) !! key = Some r → k_status r = StatusPending → status = StatusFailed →
     y_attempts y !! (key, k_attempt r) = Some a → over (y_db y) a) →
  (∀ r, db_keys (y_db y) !! key = Some r → k_status r = StatusPending → status = StatusDone →
     (key, k_attempt r) ∈ y_ledger y) →
  sys_ok (with_db d' y).
Proof.
  intros [Hdb Hok Htold] Hout Hstep Hfail Hdone.
  split; [exact (complete_step_ok _ _ _ _ _ _ _ _ _ Hdb Hout Hstep)| |done].
  apply complete_row in Hstep as [->|(r & r' & Hr & Hp & Hk & Hn & Hs & Ha & Hc)]; [by apply same_rows_ok|].
  eapply (ended_row_ok y d' key r r'); try done; [lia|by rewrite Hs|intros a; rewrite Hs; by apply Hfail|rewrite Hs; by apply Hdone].
Qed.

Lemma unmoved_ok y : sys_ok y → sys_ok (with_db (y_db y) y).
Proof. intros [Hdb Hok Htold]. split; [done|by apply same_rows_ok|done]. Qed.

Lemma ended_ok y key status result ref detail w :
  sys_ok y → outcome_status status → w_db w = y_db y →
  (∀ r a, db_keys (y_db y) !! key = Some r → k_status r = StatusPending → status = StatusFailed →
     y_attempts y !! (key, k_attempt r) = Some a → over (y_db y) a) →
  (∀ r, db_keys (y_db y) !! key = Some r → k_status r = StatusPending → status = StatusDone →
     (key, k_attempt r) ∈ y_ledger y) →
  sys_ok (with_db (w_db (Complete key.1 key.2 status result ref detail w).2) y).
Proof.
  intros Hok Hout Hw Hfail Hdone.
  destruct (Complete_db key.1 key.2 status result ref detail w) as [Hsame|[b Hstep]].
  - rewrite Hsame, Hw. by apply unmoved_ok.
  - rewrite Hw in Hstep. by eapply completed_ok.
Qed.

(** The reconciler's resolution of a key, whose probe saw what it saw. *)
Lemma resolved_ok y key rec snapshot rtype summary w :
  sys_ok y → w_db w = y_db y → w_env w = [] →
  (∀ status, probe_says (decode_probe dep) rec snapshot (mkStale key.1 key.2 rtype) (head (w_replies w)) = Some status →
     outcome_status status ∧
     (∀ r a, db_keys (y_db y) !! key = Some r → status = StatusFailed →
        y_attempts y !! (key, k_attempt r) = Some a → over (y_db y) a) ∧
     (∀ r, db_keys (y_db y) !! key = Some r → status = StatusDone → (key, k_attempt r) ∈ y_ledger y)) →
  sys_ok (with_db (w_db (resolve (decode_probe dep) rec snapshot (mkStale key.1 key.2 rtype) summary w).2) y).
Proof.
  intros Hok Hw Henv Hsays.
  destruct (resolve_ends (decode_probe dep) rec snapshot (mkStale key.1 key.2 rtype) summary w Henv)
    as [->|(status & Hst & result & ref & detail & Hstep)]; rewrite Hw in *; [by apply unmoved_ok|].
  destruct (Hsays status Hst) as (Hout & Hfail & Hdone).
  eapply completed_ok; [done|done|exact Hstep|..]; eauto.
Qed.

(** What a probe's reply lets the reconciler write. *)
Lemma told_says p rec snapshot c status :
  told p → probe_says (decode_probe dep) rec snapshot c (Some (ps_reply p)) = Some status →
  status = StatusIndeterminate ∨ status = if ps_ran p then StatusDone else StatusFailed.
Proof.
  intros Ht. unfold probe_says. destruct (Lookup_type _ _); [|by intros [= <-]; left].
  destruct (Probe.pc_buildError _); [done|]. destruct (ps_reply p) as [| | | |code payload] eqn:Hrep; try done.
  destruct (Z.eqb_spec code 200) as [->|]; [|done].
  destruct (decode_probe dep payload) as [e|[count items]] eqn:Hdec; [done|]. intros [= <-]. right.
  rewrite (Ht payload count items Hrep Hdec). by destruct (ps_ran p).
Qed.

(** A claim that wrote, with or without an attempt. *)
Lemma took_ok y req row row' i rows (starts : bool) :
  sys_ok y → taken req (y_db y) row → db_ok (wrote req (y_db y) row' i rows) →
  k_attempt row' = k_attempt row → k_status row' ≠ StatusDone → (starts = true → k_status row' = StatusPending) →
  sys_ok (mkSys (wrote req (y_db y) row' i rows) (starting starts (req_key req) row' (y_attempts y))
    (y_ledger y) (y_probes y)).
Proof.
  intros [_ Hok Htold] Ht Hdb Ha Hnd Hs. split; [done| |done]. apply taken_row_ok; [done| |done|done|done|done].
  destruct Ht as [Hn|r Hr _ Hst _]; [by left|right]. exists r. split_and!; [done|done|]. by rewrite Ha.
Qed.

(** A claim step of the tables; the caller may or may not learn of it. *)
Lemma claim_step_sys_ok y req lockWait res d' att :
  sys_ok y → claim_step req lockWait (y_db y) res d' →
  att = started req (db_now (y_db y)) (inr res) (y_attempts y) ∨ att = y_attempts y →
  sys_ok (mkSys d' att (y_ledger y) (y_probes y)).
Proof.
  intros Hok Hstep Hatt. pose proof (claim_step_ok _ _ _ _ _ (so_db y Hok) Hstep) as Hdb.
  apply claim_step_shape in Hstep; [|apply Hok]. unfold started in Hatt.
  destruct Hstep as [v r Hr Hv|row res Ht _ _ _ _ Hv _
    |row res stored rows Ht Hcl Hj Hv Hi [ref Hrec] Hrows
    |row res stored primary rest body Ht Hcl Hj He Ho Hb Hv [ref Hrec]].
  - simpl in Hatt. by destruct Hv as [[-> _]|[-> _]], Hatt as [->| ->], y.
  - rewrite Hv in Hatt. by destruct Hatt as [->| ->], y.
  - rewrite Hv, Hrec in Hatt. simpl in Hatt.
    assert (k_status row = StatusPending ∧ k_claimed row = db_now (y_db y)) as [Hp Hc] by (by destruct Ht).
    destruct Hatt as [->| ->]; [|apply (took_ok y req row row _ _ false); try done; congruence].
    rewrite <- Hc. apply (took_ok y req row row _ _ true); try done; congruence.
  - rewrite Hv in Hatt. by destruct Hatt as [->| ->]; apply (took_ok y req row _ _ _ false).
Qed.

Lemma claimed_ok y req w :
  sys_ok y → w_db w = y_db y →
  sys_ok (mkSys (w_db (Claim req w).2)
    (started req (db_now (y_db y)) (Claim req w).1 (y_attempts y)) (y_ledger y) (y_probes y)).
Proof.
  intros Hok Hw. pose proof (Claim_refines req w) as Href. simpl in Href. rewrite Hw in Href.
  destruct (Claim req w) as [[e|res] w'] eqn:Hc; simpl.
  - destruct Href as (_ & _ & _ & [->|(lw & res & Hs)]); [by destruct y|].
    apply (claim_step_sys_ok y req lw res); auto.
  - destruct Href as (_ & _ & _ & [(Hv & -> & _)|[lw Hs]]); [rewrite Hv; by destruct y|].
    apply (claim_step_sys_ok y req lw res); auto.
Qed.

Lemma sys_step_ok y y' : true_manifests dep → sys_ok y → sys_step stale_us true dep y y' → sys_ok y'.
Proof.
  intros Htrue Hok Hstep.
  destruct Hstep as [t y Ht|req w y Hw|y y' Hcall|key n a c req o result ref detail w y Ha Hk Hdecl Hret Hf Hw
    |p rec snapshot rtype summary w y Hin Hf Hw Henv Hrep|key rec snapshot rtype summary w y Hl Hw Henv].
  - destruct Hok as [Hdb Hok Htold]. split; [by destruct Hdb|by apply same_rows_ok|done].
  - by apply claimed_ok.
  - split; [rewrite (call_step_db _ _ Hcall); apply Hok|by eapply call_step_ok; [apply Hok|]|].
    eapply call_step_told; [apply Hok|done].
  - pose proof (returned_reported _ _ _ _ _ (Htrue _ Hdecl) Hret) as Hreport.
    destruct (Hf eq_refl) as (r0 & Hr0 & Hn). destruct (report_true y key n a (Disposition_ o)) as [Hfail Hdone]; [apply Hok|done..|].
    assert (Hout : outcome_status (statusFor (Disposition_ o))) by (unfold outcome_status; destruct (Disposition_ o); auto).
    apply ended_ok; [done..| |]; intros r; intros; assert (r = r0) as -> by congruence.
    + assert (a0 = a) as -> by congruence. by apply Hfail.
    + rewrite Hn. by apply Hdone.
  - destruct (Hf eq_refl) as (r0 & Hr0 & Hn). destruct (so_probes y (so_calls y Hok) p Hin) as [_ Hcase].
    apply resolved_ok; [done..|]. intros status Hsays. rewrite Hrep in Hsays.
    apply told_says in Hsays as [->|Hst]; [by split_and!; [unfold outcome_status; auto|..]| |by apply (so_told y Hok)].
    unfold outcome_status. destruct (ps_ran p); rewrite Hst; split_and!; auto; try done; intros r.
    + intros Hr _. assert (r = r0) as -> by congruence. by rewrite Hn.
    + intros a Hr _ Ha. assert (r = r0) as -> by congruence. apply Hcase. by rewrite <- Hn.
  - apply resolved_ok; [done..|]. intros status. unfold probe_says. simpl. rewrite Hl. intros [= <-].
    by split_and!; [unfold outcome_status; auto|..].
Qed.

Lemma run_ok y : true_manifests dep → run stale_us true dep y → sys_ok y.
Proof.
  intros Htrue. unfold run. intros Hrun. pose proof sys_init_ok as Hinit. revert Hinit.
  induction Hrun as [|x y z Hstep _ IH]; [done|]. intros Hx. apply IH. by eapply sys_step_ok.
Qed.
End Invariant.

(** ** Theorems *)

Section Theorems.
Context `{!Pg, !Objects} (stale_us : Z) (dep : deployment).

Lemma ledger_of_key y key :
  calls_ok stale_us y →
  filter (λ e, e.1 = key) (y_ledger y) = [] ∨
  ∃ r, db_keys (y_db y) !! key = Some r ∧ holds_intent (k_status r) = true ∧
    filter (λ e, e.1 = key) (y_ledger y) = [(key, k_attempt r)].
Proof.
  intros Hok. destruct (filter _ _) as [|[key' n] rest] eqn:Hf; [by left|right].
  assert (Hall : ∀ e, e ∈ (key', n) :: rest → e.1 = key ∧ e ∈ y_ledger y).
  { intros e He. rewrite <- Hf in He. by apply list_elem_of_filter in He. }
  assert (Hnd : NoDup ((key', n) :: rest)) by (rewrite <- Hf; apply NoDup_filter, Hok).
  destruct (Hall (key', n)) as [He Hin]; [by left|]. simpl in He. subst key'.
  pose proof Hin as (a & Ha & _)%(so_ledger _ y Hok).
  destruct (so_attempts _ y Hok key n a Ha) as (r & Hr & _).
  destruct (ran_current _ y key n r Hok Hin Hr) as [-> Hh].
  exists r. split_and!; [done..|]. f_equal. destruct rest as [|[key2 m] rest]; [done|]. exfalso.
  destruct (Hall (key2, m)) as [He2 Hin2]; [right; by left|]. simpl in He2. subst key2.
  destruct (ran_current _ y key m r Hok Hin2 Hr) as [-> _].
  apply NoDup_cons in Hnd as [Hni _]. apply Hni. by left.
Qed.

(** Executions and status of a key. *)
Definition executed_once y key : Prop :=
  (executions key y <= 1)%nat ∧
  match db_keys (y_db y) !! key with
  | None => executions key y = 0%nat
  | Some r =>
      (k_status r = StatusDone → executions key y = 1%nat) ∧
      (k_status r = StatusFailed ∨ k_status r = StatusRejected → executions key y = 0%nat)
  end.

Lemma calls_executed_once y key : calls_ok stale_us y → executed_once y key.
Proof.
  intros Hok. unfold executed_once, executions. destruct (ledger_of_key y key Hok) as [He|(r & Hr & Hh & He)].
  - rewrite He. simpl. split; [lia|]. destruct (db_keys (y_db y) !! key) as [r|] eqn:Hr; [|done].
    split; [|done]. intros Hd. pose proof (so_done _ y Hok key r Hr Hd) as Hin. exfalso.
    assert ((key, k_attempt r) ∈ filter (λ e, e.1 = key) (y_ledger y)) as Hbad
      by (by apply list_elem_of_filter). rewrite He in Hbad. by apply not_elem_of_nil in Hbad.
  - rewrite He, Hr. simpl. split; [lia|]. split; [done|].
    intros [Hs|Hs]; rewrite Hs in Hh; done.
Qed.

(** C1: at most once: in every run of handlers, downstream and reconciler a write is executed at
    most once, whatever crashes, retries, faults and lost replies there are; a key that is
    done was executed exactly once, and one that is failed, rejected or unknown never was.
    This is so under four assumptions: calls execute before their key is stale, outcomes are
    recorded for the current attempt, the count of a probe's answer is that of the ledger, and
    every declared classification is true of the downstream, unfollowable redirects included.
    What is recorded is what [Execute] and [resolve] return. *)
Theorem at_most_once y key :
  true_manifests dep → run stale_us true dep y →
  (executions key y <= 1)%nat ∧
  match db_keys (y_db y) !! key with
  | None => executions key y = 0%nat
  | Some r =>
      (k_status r = StatusDone → executions key y = 1%nat) ∧
      (k_status r = StatusFailed ∨ k_status r = StatusRejected → executions key y = 0%nat)
  end.
Proof. intros Htrue [_ Hok _]%run_ok; [|done]. by apply calls_executed_once. Qed.
End Theorems.

(** ** Concrete runs *)

Import Demo.

(** Deployments of the fake, with one of the two shipped manifests each; a probe is answered with
    a digit. *)
Definition digit_probe (payload : string) : goerr + (Z * list string) :=
  if String.eqb payload "0" then inr (0, []) else if String.eqb payload "1" then inr (1, []) else inl (errorf "EOF").
Definition subscriptions : deployment :=
  mkDeployment fake_answers (λ c, c = d_Errors subscription_doc) digit_probe.

Lemma subscriptions_true : true_manifests subscriptions.
Proof. intros c ->. apply subscription_true_of_fake. Qed.

Section Runs.
Context (dep : deployment).
Implicit Types (y : sys) (d : DB).

Definition stale300 : Z := interval_us (300 * Second).

Definition key1 : string * string := ("a", "k1").

(** The call of [key1]'s attempts, and a world in which the client is left with [t]. *)
Definition first_request (cl : ErrorClassification) : dRequest :=
  mkDRequest "a" "k1" "ticket" "7" "close" "{}" cl.
Definition some_client : Client := mkClient "http://d" None.
Definition left_with (t : transport) : world := set_replies [t] (world_of empty_db).

(** The tables along the run below. *)
Definition e1 : DB := claimed r1 empty_db.
Definition e2 : DB := ended r1 StatusFailed "" e1.
Definition e3 : DB := claimed r1 e2.
Definition e4 : DB := ended r1 StatusFailed "" e3.
Definition e5 : DB := claimed r1 e4.

#[local] Opaque claimed ended.

(** The attempts of [key1], numbered from 1, in the given phases. *)
Fixpoint phases (n : Z) (l : list phase) : gmap ((string * string) * Z) attempt :=
  match l with
  | [] => ∅
  | p :: rest => <[(key1, n) := mkAttempt p 0]> (phases (n + 1) rest)
  end.

Definition at_ (d : DB) (l : list phase) (led : list ((string * string) * Z)) : sys :=
  mkSys d (phases 1 l) led [].

Lemma phases_snoc p : ∀ l n,
  phases n (l ++ [p]) = <[(key1, n + Z.of_nat (length l)) := mkAttempt p 0]> (phases n l).
Proof.
  induction l as [|q l IH]; intros n.
  - change (Z.of_nat (length (@nil phase))) with 0. by rewrite Z.add_0_r.
  - simpl app. cbn [phases length]. rewrite IH.
    replace (n + 1 + Z.of_nat (length l)) with (n + Z.of_nat (S (length l))) by lia.
    apply insert_insert_ne. intros [= Hn]. lia.
Qed.

Lemma claim_at fenced d l led :
  db_now d = 0 →
  match (Claim r1 (world_of d)).1 with
  | inr res => Verdict_ res = VerdictClaimed ∧
      (AttemptCount <$> Record_of res) = Some (1 + Z.of_nat (length l))
  | inl _ => False
  end →
  sys_step stale300 fenced dep (at_ d l led) (at_ (claimed r1 d) (l ++ [Unsent]) led).
Proof.
  intros Hn Hv. pose proof (sys_claim stale300 fenced dep r1 (world_of d) (at_ d l led) eq_refl) as Hs.
  unfold at_ in *. rewrite phases_snoc, <- Hn. change (w_db (Claim r1 (world_of d)).2) with (claimed r1 d) in Hs.
  destruct (Claim r1 (world_of d)).1 as [e|res]; [done|]. destruct Hv as [Hv Hrec].
  unfold started in Hs. rewrite Hv in Hs. destruct (Record_of res) as [rec|]; [|done].
  injection Hrec as Hrec. rewrite Hrec in Hs. exact Hs.
Qed.

(** The first attempt is reported, perhaps late. *)
Lemma report_at fenced c cl p o d l led :
  declares dep cl → returned (answers dep) c (first_request cl) p o → fence fenced d key1 1 →
  sys_step stale300 fenced dep (at_ d (p :: l) led)
    (at_ (ended r1 (statusFor (Disposition_ o)) "" d) (p :: l) led).
Proof.
  intros Hd Hr Hf.
  refine (sys_report stale300 fenced dep key1 1 (mkAttempt p 0) c (first_request cl) o "" "" "" (world_of d)
    (at_ d (p :: l) led) _ eq_refl Hd Hr Hf eq_refl). apply lookup_insert_eq.
Qed.

(** The call of the last attempt leaves and runs. *)
Lemma run_at fenced d l led :
  db_now d = 0 →
  rtc (sys_step stale300 fenced dep) (at_ d (l ++ [Unsent]) led)
    (at_ d (l ++ [Ran]) (led ++ [(key1, 1 + Z.of_nat (length l))])).
Proof.
  intros Hn. unfold at_. rewrite !phases_snoc. set (n := 1 + Z.of_nat (length l)).
  eapply rtc_l.
  - refine (sys_calls _ _ _ _ _ (call_send stale300 dep key1 n (mkAttempt Unsent 0) (mkSys d _ led []) _ eq_refl)).
    apply lookup_insert_eq.
  - simpl. rewrite insert_insert_eq. apply rtc_once.
    pose proof (call_run stale300 dep key1 n (mkAttempt Sent 0)
      (mkSys d (<[(key1, n) := mkAttempt Sent 0]> (phases 1 l)) led [])) as Hs.
    simpl in Hs. rewrite insert_insert_eq in Hs. apply sys_calls, Hs; [apply lookup_insert_eq|done|].
    unfold stale_at. simpl. rewrite Hn. by vm_compute.
Qed.


Lemma unsendable_at fenced d led :
  sys_step stale300 fenced dep (at_ d [Unsent] led) (at_ d [Never] led).
Proof.
  pose proof (call_unsendable stale300 dep key1 1 (mkAttempt Unsent 0) (at_ d [Unsent] led)) as Hs.
  unfold at_ in *. cbn [phases y_attempts y_db y_ledger y_probes] in *.
  rewrite insert_insert_eq in Hs. apply sys_calls, Hs; [apply lookup_insert_eq|done].
Qed.
End Runs.

#[local] Opaque claimed ended.

(** The steps of the runs. *)
Lemma claim1 dep fenced : sys_step stale300 fenced dep sys_init (at_ e1 [Unsent] []).
Proof. refine (claim_at dep fenced empty_db [] [] eq_refl _); vm_compute; done. Qed.

Lemma claim2 dep : sys_step stale300 false dep (at_ e2 [Never] []) (at_ e3 [Never; Unsent] []).
Proof. refine (claim_at dep false e2 [Never] [] _ _); vm_compute; done. Qed.

Lemma claim3 dep :
  sys_step stale300 false dep (at_ e4 [Never; Ran] [(key1, 2)]) (at_ e5 [Never; Ran; Unsent] [(key1, 2)]).
Proof. refine (claim_at dep false e4 [Never; Ran] [(key1, 2)] _ _); vm_compute; done. Qed.

Lemma db_now_0 : db_now e1 = 0 ∧ db_now e3 = 0 ∧ db_now e5 = 0.
Proof. vm_compute. done. Qed.

Lemma current_e1 fenced : fence fenced e1 key1 1.
Proof. intros _. eexists. split; [vm_compute; reflexivity|reflexivity]. Qed.

(** What [Execute] returns for a call that could not be dialled, and for one that was answered. *)
Lemma undialled_returned ans cl :
  returned ans some_client (first_request cl) Never (mkOut Failed "" "downstream_unreachable: refused").
Proof. exists (left_with (DialError "refused")). by vm_compute. Qed.

Lemma answered_returned ans cl p status :
  p ≠ Unsent → ans p status →
  returned ans some_client (first_request cl) p (classifyResponse cl status "{}").
Proof.
  intros Hp Ha. exists (left_with (Response status "{}")). split; [by vm_compute|].
  destruct (decide _) as [He|_]; [by vm_compute in He|]. by eexists.
Qed.

(** Attempt 1 was sent, ran, was answered 200 and recorded done. *)
Definition done_once : sys := at_ (ended r1 StatusDone "" e1) [Ran] [(key1, 1)].

Lemma at_most_once_witness :
  run stale300 true subscriptions done_once ∧
  k_status <$> (db_keys (y_db done_once) !! key1) = Some StatusDone ∧ executions key1 done_once = 1%nat ∧
  (executions key1 done_once <= 1)%nat.
Proof.
  assert (Hrun : run stale300 true subscriptions done_once).
  { refine (rtc_l _ _ _ _ (claim1 subscriptions true)
      (rtc_r _ _ _ (run_at subscriptions true e1 [] [] (proj1 db_now_0)) _)).
    exact (report_at subscriptions true some_client (d_Errors subscription_doc) Ran _ e1 [] [(key1, 1)] eq_refl
      (answered_returned _ _ Ran 200 ltac:(discriminate) (or_introl eq_refl)) (current_e1 true)). }
  split; [exact Hrun|]. split; [vm_compute; reflexivity|]. split; [vm_compute; reflexivity|].
  exact (proj1 (at_most_once stale300 subscriptions done_once key1 subscriptions_true Hrun)).
Defined.


(** C39: without the fence the promise fails, though the manifest is true of the downstream and calls
    are prompt: attempt 1 cannot be sent and is recorded failed, its recording is repeated late
    (as after a lost acknowledgement), while attempt 2 has run; the key is failed again,
    attempt 3 is admitted, and the write runs twice. *)
Theorem unfenced_runs_twice :
  true_manifests subscriptions ∧ ∃ y, run stale300 false subscriptions y ∧ executions key1 y = 2%nat.
Proof.
  split; [exact subscriptions_true|].
  exists (at_ e5 [Never; Ran; Ran] [(key1, 2); (key1, 3)]). split; [|vm_compute; reflexivity].
  assert (Hreport : ∀ d l led, sys_step stale300 false subscriptions (at_ d (Never :: l) led)
    (at_ (ended r1 StatusFailed "" d) (Never :: l) led)).
  { intros d l led. exact (report_at subscriptions false some_client _ Never _ d l led eq_refl
      (undialled_returned _ _) (λ H, ltac:(discriminate H))). }
  refine (rtc_l _ _ _ _ (claim1 _ false) (rtc_l _ _ _ _ (unsendable_at _ false e1 []) _)).
  refine (rtc_l _ _ _ _ (Hreport e1 [] []) (rtc_l _ _ _ _ (claim2 _) _)).
  refine (transitivity (run_at _ false e3 [Never] [] (proj1 (proj2 db_now_0))) _).
  refine (rtc_l _ _ _ _ (Hreport e3 [Ran] [(key1, 2)]) (rtc_l _ _ _ _ (claim3 _) _)).
  exact (run_at _ false e5 [Never; Ran] [(key1, 2)] (proj2 (proj2 db_now_0))).
Qed.
