(* ===== verification/Concurrent.v ===== *)
(** * Concurrent: executions at most once, transactions running statement by statement

    The system of System.v over the server of Interleave.v: handlers and the reconciler open
    transactions, whose statements interleave in any order and fail anywhere; an attempt starts
    when the commit of its claim is acknowledged.  What a completion records is the outcome that
    [Execute] returned for the call of the attempt, or the status that [resolve] ends a pending
    key with on the reply of the probe.  The assumptions are the four of System.v: a call
    executes, if at all, before its key is stale; in the fenced system an outcome commits only
    while the attempt it belongs to is the current one; the count of a probe's answer is that of
    the ledger; and the declared classifications are true of the downstream. *)

From S2P Require Import Prelude GoString Sha256 Manifest Conflict World Json Claim ClaimSpec ClaimInv.
From S2P Require Import ClaimSafety ClaimProps Downstream Contract ResultStore Reconcile ReconcileProps Api.
From S2P Require Import System Interleave InterleaveInv InterleaveProps.

(** ** State and steps *)

(** Why a transaction was opened. *)
Inductive job :=
| Admitting (req : Request)
| Reporting (key : string * string) (n : Z) (outcome : Disposition)
| Resolving (p : probe_seen) (status : Status)
| Escalating (key : string * string).

(** The server, the job of each open transaction, and the calls and probes of System.v. *)
Record net := mkNet {
  n_server : server;
  n_jobs : list job;
  n_attempts : gmap ((string * string) * Z) attempt;
  n_ledger : list ((string * string) * Z);
  n_probes : list probe_seen;
}.

(** The calls over the committed tables. *)
Definition calls_of (x : net) : sys := mkSys (s_db (n_server x)) (n_attempts x) (n_ledger x) (n_probes x).

Definition with_server (s : server) (x : net) : net := mkNet s (n_jobs x) (n_attempts x) (n_ledger x) (n_probes x).

Definition begun (j : job) (prog : Interleave.prog (report * bool)) (x : net) : net :=
  let s := n_server x in
  mkNet (mkServer (s_db s) (s_threads s ++ [mkThread (db_now (s_db s)) prog nothing]) (s_log s))
    (n_jobs x ++ [j]) (n_attempts x) (n_ledger x) (n_probes x).

Definition with_calls (y : sys) (x : net) : net :=
  mkNet (n_server x) (n_jobs x) (y_attempts y) (y_ledger y) (y_probes y).

Definition dropped (m : nat) (x : net) : net :=
  let s := n_server x in
  mkNet (mkServer (s_db s) (delete m (s_threads s)) (s_log s)) (delete m (n_jobs x))
    (n_attempts x) (n_ledger x) (n_probes x).

(** [claimed_at] of the key's row. *)
Definition claimed_at (key : string * string) (d : DB) : Z :=
  match db_keys d !! key with Some r => k_claimed r | None => 0 end.

(** What the caller learns from an acknowledged commit. *)
Definition learnt (rep : report) (d : DB) (attempts : gmap ((string * string) * Z) attempt) :=
  match rep with
  | Claimed req res => started req (claimed_at (req_key req) d) (inr res) attempts
  | Completed _ _ _ => attempts
  end.

Section Net.
Context `{!Pg, !Objects} (stale_us : Z) (fenced : bool) (dep : deployment).
Implicit Types (x : net).

(** In some world in which the key is pending and the prober is left with [t], [resolve] ends the
    key with this status. *)
Definition ends_with (rec : Reconciler) (snapshot : Snapshot) (c : stale) (t : transport) (status : Status) : Prop :=
  ∃ summary w row row', head (w_replies w) = Some t ∧ w_env w = [] ∧
    db_keys (w_db w) !! (st_agentID c, st_key c) = Some row ∧ k_status row = StatusPending ∧
    db_keys (w_db (resolve (decode_probe dep) rec snapshot c summary w).2) !! (st_agentID c, st_key c) = Some row' ∧
    k_status row' = status ∧ status ≠ StatusPending.

(** The fence of System.v, when the transaction commits. *)
Definition may_commit (j : job) (d : DB) : Prop :=
  match j with
  | Admitting _ | Escalating _ => True
  | Reporting key n _ => fence fenced d key n
  | Resolving p _ => fence fenced d (ps_key p) (ps_attempt p)
  end.

Inductive net_step : net → net → Prop :=
| net_tick t x :
    db_now (s_db (n_server x)) <= t →
    net_step x (with_server (mkServer (set_now t (s_db (n_server x))) (s_threads (n_server x)) (s_log (n_server x))) x)
(** Transactions begin. *)
| net_claim req lockWait x :
    keyed req → net_step x (begun (Admitting req) (claiming req lockWait) x)
| net_report key n a c req o result ref detail x :
    n_attempts x !! (key, n) = Some a → (dr_AgentID req, dr_Key req) = key →
    declares dep (Classification req) → returned (answers dep) c req (at_phase a) o →
    net_step x (begun (Reporting key n (Disposition_ o))
      (completing key.1 key.2 (statusFor (Disposition_ o)) result ref detail) x)
| net_resolve p rec snapshot rtype status result ref detail x :
    p ∈ n_probes x →
    ends_with rec snapshot (mkStale (ps_key p).1 (ps_key p).2 rtype) (ps_reply p) status →
    net_step x (begun (Resolving p status) (completing (ps_key p).1 (ps_key p).2 status result ref detail) x)
| net_escalate key rec snapshot rtype t status result ref detail x :
    Lookup_type snapshot rtype = None → ends_with rec snapshot (mkStale key.1 key.2 rtype) t status →
    net_step x (begun (Escalating key) (completing key.1 key.2 status result ref detail) x)
(** A statement of one of them; a commit, acknowledged or not; the end without a commit. *)
| net_statement m th s' x :
    s_threads (n_server x) !! m = Some th → advances m th (n_server x) s' →
    match t_prog th with Exec _ _ _ => True | _ => False end → net_step x (with_server s' x)
| net_commit m th j rep (told : bool) x :
    s_threads (n_server x) !! m = Some th → n_jobs x !! m = Some j → t_prog th = Ret (rep, true) →
    may_commit j (s_db (n_server x)) →
    let d := overlay (t_pending th) (s_db (n_server x)) in
    net_step x (mkNet (mkServer d (delete m (s_threads (n_server x))) (s_log (n_server x) ++ [rep]))
      (delete m (n_jobs x)) (if told then learnt rep d (n_attempts x) else n_attempts x) (n_ledger x) (n_probes x))
| net_end m x : net_step x (dropped m x)
(** What happens to a call, and what a probe sees. *)
| net_calls y' x : call_step stale_us dep (calls_of x) y' → net_step x (with_calls y' x).

Definition net_init : net := mkNet (mkServer empty_db [] []) [] ∅ [] [].

Definition net_run := rtc net_step net_init.
End Net.

(** ** The reports a program can make *)

Fixpoint leaves {A} (P : A → Prop) (pr : Interleave.prog A) : Prop :=
  match pr with
  | Ret x => P x
  | Throw _ => True
  | Exec _ _ k => ∀ x, leaves P (k x)
  end.

Lemma leaves_bind {A B} (P : B → Prop) (f : A → Interleave.prog B) (pr : Interleave.prog A) :
  (∀ x, leaves P (f x)) → leaves P (pr ≫= f).
Proof. intros Hf. induction pr as [x|e|X context q k IH]; [apply Hf|done|]. intros x. apply IH. Qed.

(** The report of a transaction is that of its job. *)
Definition reports (j : job) (rb : report * bool) : Prop :=
  match j, rb.1 with
  | Admitting req, Claimed req' _ => req' = req
  | Reporting key _ outcome, Completed agent k status => (agent, k) = key ∧ status = statusFor outcome
  | Resolving p st, Completed agent k status => (agent, k) = ps_key p ∧ status = st
  | Escalating key, Completed agent k status => (agent, k) = key ∧ status = StatusIndeterminate
  | _, _ => False
  end.

Lemma claiming_reports req lockWait : leaves (reports (Admitting req)) (claiming req lockWait).
Proof. apply leaves_bind. by intros []. Qed.

Lemma completing_reports j key status result ref detail :
  (∀ b, reports j (Completed key.1 key.2 status, b)) →
  leaves (reports j) (completing key.1 key.2 status result ref detail).
Proof. intros Hj. apply leaves_bind. intros []. apply Hj. Qed.

(** ** The invariant *)

Section Invariant.
Context `{!Pg, !Objects} (stale_us : Z) (dep : deployment).
Implicit Types (x : net) (j : job).

Abbreviation server_ok := (server_ok (λ _, 0) False).

(** What a job knows is still true. *)
Definition job_true x j : Prop :=
  match j with
  | Admitting _ | Escalating _ => True
  | Reporting key n outcome => ∃ a, n_attempts x !! (key, n) = Some a ∧ reported (at_phase a) outcome
  | Resolving p status => p ∈ n_probes x ∧
      (status = StatusIndeterminate ∨ status = if ps_ran p then StatusDone else StatusFailed)
  end.

Record net_ok x : Prop := {
  no_server : server_ok (n_server x);
  no_jobs : length (n_jobs x) = length (s_threads (n_server x));
  no_reports m th j : s_threads (n_server x) !! m = Some th → n_jobs x !! m = Some j → leaves (reports j) (t_prog th);
  no_true j : j ∈ n_jobs x → job_true x j;
  no_calls : calls_ok stale_us (calls_of x);
  no_told p : p ∈ n_probes x → told dep p;
  no_admitted key n : is_Some (n_attempts x !! (key, n)) → (key, n) ∈ omap admitted (s_log (n_server x));
}.

Lemma net_init_ok : net_ok net_init.
Proof.
  split; simpl; [apply server_invariant; constructor|done|done|by intros j ?%not_elem_of_nil|by apply (calls_init stale_us empty_db)|by intros p ?%not_elem_of_nil|by intros key n [? ?]].
Qed.

(** A call moves on, but no report of it becomes false. *)
Lemma call_step_reported y y' key n a outcome : call_step stale_us dep y y' →
  y_attempts y !! (key, n) = Some a → reported (at_phase a) outcome →
  ∃ a', y_attempts y' !! (key, n) = Some a' ∧ reported (at_phase a') outcome.
Proof.
  intros Hc Ha Hrep.
  assert (Hmove : ∀ key0 n0 a0 ph, y_attempts y !! (key0, n0) = Some a0 →
    (reported (at_phase a0) outcome → reported ph outcome) →
    ∃ a', <[(key0, n0) := set_phase ph a0]> (y_attempts y) !! (key, n) = Some a' ∧ reported (at_phase a') outcome).
  { intros key0 n0 a0 ph Ha0 Himp. destruct (decide ((key0, n0) = (key, n))) as [Heq|Hne].
    - rewrite Heq in *. rewrite lookup_insert_eq. eexists. split; [done|]. apply Himp. congruence.
    - rewrite lookup_insert_ne by done. by exists a. }
  destruct Hc as [key0 n0 a0 z Ha0 Hp|key0 n0 a0 z Ha0 Hp|key0 n0 a0 z Ha0 Hp _|key0 n0 a0 z Ha0 Hp|key0 r reply z _ _ _ _]; simpl;
    [..|by exists a]; apply Hmove; [done| |done| |done| |done|]; rewrite Hp; try done; by intros ->.
Qed.

(** What [resolve] ends a key with is what the reply of the probe says. *)
Lemma ends_with_says rec snapshot c t status :
  ends_with dep rec snapshot c t status → probe_says (decode_probe dep) rec snapshot c (Some t) = Some status.
Proof.
  intros (summary & w & row & row' & Hrep & Henv & Hrow & Hp & Hrow' & Hst & Hne).
  destruct (resolve_ends (decode_probe dep) rec snapshot c summary w Henv)
    as [He|(st & Hsays & result & ref & detail & Hstep)]; [by rewrite He in Hrow'; congruence|].
  rewrite Hrep in Hsays. rewrite Hsays. f_equal.
  apply (complete_row (st_agentID c, st_key c)) in Hstep as [Hsame|(r1 & r2 & Hr1 & Hp1 & Hk & _ & Hs2 & _)];
    [rewrite Hsame in Hrow'; congruence|]. rewrite Hk, lookup_insert_eq in Hrow'. congruence.
Qed.

Lemma call_step_probes y y' p : call_step stale_us dep y y' → p ∈ y_probes y → p ∈ y_probes y'.
Proof. destruct 1; simpl; [done..|]. by right. Qed.

Lemma delete_length {A B} (l : list A) (l' : list B) m : length l = length l' → length (delete m l) = length (delete m l').
Proof. revert l' m. induction l as [|y l IH]; intros [|y' l'] [|m]; simpl; try done; intros [= Hl]; [done|]. f_equal. by apply IH. Qed.

(** The jobs of the transactions that are left. *)
Lemma delete_reports m (ths : list thread) (js : list job) :
  (∀ i th j, ths !! i = Some th → js !! i = Some j → leaves (reports j) (t_prog th)) →
  ∀ i th j, delete m ths !! i = Some th → delete m js !! i = Some j → leaves (reports j) (t_prog th).
Proof.
  intros Hr i th j (i1 & _ & H1 & E1)%lookup_delete_other (i2 & _ & H2 & E2)%lookup_delete_other.
  apply (Hr i1); [done|]. congruence.
Qed.

Lemma delete_true x m j : (∀ j, j ∈ n_jobs x → job_true x j) → j ∈ delete m (n_jobs x) → job_true x j.
Proof.
  intros Ht [i (i' & _ & Hj & _)%lookup_delete_other]%list_elem_of_lookup. apply Ht. by eapply list_elem_of_lookup_2.
Qed.

Lemma begun_ok x j prog : net_ok x → job_true x j → leaves (reports j) prog →
  rg (λ _, 0) False (db_now (s_db (n_server x))) prog nothing (s_db (n_server x)) (promised (λ _, 0) False) →
  net_ok (begun j prog x).
Proof.
  intros [Hs Hl Hr Ht Hc Htold Hadm] Hj Hp Hrg. split; cbn [begun n_server n_jobs s_threads].
  - by apply begin_ok.
  - rewrite !length_app. simpl. lia.
  - intros m th j' [[_ Hm]|[Hm <-]]%lookup_snoc_Some [[Hlt Hj']|[-> <-]]%lookup_snoc_Some; [by apply (Hr m)|..|done].
    + apply lookup_lt_Some in Hm. lia.
    + lia.
  - intros j' [Hj'| ->%list_elem_of_singleton]%elem_of_app; [by apply Ht|done].
  - done.
  - done.
  - done.
Qed.

Lemma completing_ok x j key status result ref detail : net_ok x → job_true x j → outcome_status status →
  (∀ b, reports j (Completed key.1 key.2 status, b)) →
  net_ok (begun j (completing key.1 key.2 status result ref detail) x).
Proof.
  intros Hok Hj Hout Hrep. apply begun_ok; [done|done|by apply completing_reports|]. by apply completing_rg.
Qed.

Lemma left_ok x m : net_ok x → net_ok (dropped m x).
Proof.
  intros [Hs Hl Hr Ht Hc Htold Hadm]. split; cbn [dropped n_server n_jobs s_threads].
  - by apply drop_ok.
  - by apply delete_length.
  - by apply delete_reports.
  - intros j. by apply delete_true.
  - done.
  - done.
  - done.
Qed.

Lemma advanced_ok x m th s' : net_ok x → s_threads (n_server x) !! m = Some th → advances m th (n_server x) s' →
  match t_prog th with Exec _ _ _ => True | _ => False end → net_ok (with_server s' x).
Proof.
  intros [Hs Hl Hr Ht Hc Htold Hadm] Hm Hadv Hp. unfold advances in Hadv.
  destruct (t_prog th) as [|?|X context q k] eqn:He; [done..|]. destruct Hadv as (Hw & y & after & Hstmt & ->).
  split; cbn [with_server n_server n_jobs s_threads].
  - by eapply statement_ok.
  - by rewrite length_insert.
  - intros i th' j Hi Hj. destruct (decide (i = m)) as [->|Hne].
    + rewrite list_lookup_insert_eq in Hi by (by eapply lookup_lt_Some). injection Hi as <-. cbn [t_prog].
      pose proof (Hr m th j Hm Hj) as Hlv. rewrite He in Hlv. apply Hlv.
    + rewrite list_lookup_insert_ne in Hi by done. by apply (Hr i).
  - done.
  - eapply (same_rows_ok stale_us (calls_of x)); [exact Hc|done|done].
  - done.
  - done.
Qed.

(** *** Commits *)

(** Only admitted attempts start. *)
Lemma learnt_admitted rep d attempts key n : is_Some (learnt rep d attempts !! (key, n)) →
  is_Some (attempts !! (key, n)) ∨ admitted rep = Some (key, n).
Proof.
  destruct rep as [req res|]; [|by left]. unfold learnt, started, admitted.
  destruct (Verdict_ res); try (by left). destruct (Record_of res) as [record|]; [|by left].
  intros [a [[<- _]|[_ Ha]]%lookup_insert_Some]; [by right|left]. by exists a.
Qed.

Lemma call_step_attempts y y' key n : call_step stale_us dep y y' →
  is_Some (y_attempts y' !! (key, n)) → is_Some (y_attempts y !! (key, n)).
Proof.
  destruct 1 as [key0 n0 a0 z Ha0 Hp|key0 n0 a0 z Ha0 Hp|key0 n0 a0 z Ha0 Hp _|key0 n0 a0 z Ha0 Hp|]; simpl; [..|done];
    intros [a [[<- _]|[_ Ha]]%lookup_insert_Some]; by eexists.
Qed.

(** The commit of a claim. *)
Lemma claim_committed x p req res (told : bool) :
  calls_ok stale_us (calls_of x) → reported_row (Claimed req res) p (s_db (n_server x)) →
  let d := overlay p (s_db (n_server x)) in
  let att := if told then learnt (Claimed req res) d (n_attempts x) else n_attempts x in
  calls_ok stale_us (mkSys d att (n_ledger x) (n_probes x)) ∧
  (∀ key n a, n_attempts x !! (key, n) = Some a → att !! (key, n) = Some a).
Proof.
  intros Hc (row & Hkeys & Hnext & Hcase) d att.
  assert (Hdb : db_keys d = <[req_key req := row]> (db_keys (s_db (n_server x)))).
  { unfold d. simpl. by rewrite Hkeys, insert_union_singleton_l. }
  assert (Hcl : claimed_at (req_key req) d = k_claimed row) by (unfold claimed_at; by rewrite Hdb, lookup_insert_eq).
  assert (Hatt : ∃ starts, att = starting starts (req_key req) row (n_attempts x) ∧ (starts = true → k_status row = StatusPending)).
  { unfold att. destruct told; [|by exists false]. unfold learnt, started. rewrite Hcl.
    destruct (Verdict_ res); try (by exists false). destruct Hcase as (Hp & record & -> & ->). by exists true. }
  destruct Hatt as (starts & -> & Hst).
  assert (Hnd : k_status row ≠ StatusDone).
  { destruct (Verdict_ res); try congruence. destruct Hcase as [-> _]. done. }
  split; [by apply (taken_row_ok stale_us (calls_of x))|].
  intros key n a Ha. unfold starting. destruct starts; [|done]. rewrite lookup_insert_ne; [done|]. intros [= <- Hn].
  destruct (next_row_attempts stale_us (calls_of x) (req_key req) row n a Hc Hnext Ha). lia.
Qed.

(** The commit of a completion: what its job knows is true of the row it ends. *)
Lemma completion_committed x p j agent k status :
  calls_ok stale_us (calls_of x) → job_true x j → may_commit true j (s_db (n_server x)) →
  reports j (Completed agent k status, true) → reported_row (Completed agent k status) p (s_db (n_server x)) →
  calls_ok stale_us (mkSys (overlay p (s_db (n_server x))) (n_attempts x) (n_ledger x) (n_probes x)).
Proof.
  intros Hc Ht Hf Hrep (row & r & Hkeys & Hr & Hp & Hst & Hatt & Hcl).
  assert (Hdb : db_keys (overlay p (s_db (n_server x))) = <[(agent, k) := row]> (db_keys (s_db (n_server x)))).
  { simpl. by rewrite Hkeys, insert_union_singleton_l. }
  assert (Htrue : outcome_status status ∧
    (∀ a, status = StatusFailed → n_attempts x !! ((agent, k), k_attempt r) = Some a → over stale_us (s_db (n_server x)) a) ∧
    (status = StatusDone → ((agent, k), k_attempt r) ∈ n_ledger x)).
  { destruct j as [req|key n outcome|q st|key]; [done|..]; destruct Hrep as [He ->]; subst; cbn [job_true may_commit] in *.
    - destruct (Hf eq_refl) as (r0 & Hr0 & <-). assert (r0 = r) as -> by congruence. destruct Ht as (a & Ha & Hrep).
      destruct (report_true stale_us (calls_of x) _ _ _ _ Hc Ha Hrep) as [Hfail Hdone]. split_and!; [|intros a' Hs Ha'|done].
      + unfold outcome_status. destruct outcome; auto.
      + assert (a' = a) as -> by congruence. by apply Hfail.
    - destruct (Hf eq_refl) as (r0 & Hr0 & Hn). rewrite <- He in *. assert (r0 = r) as -> by congruence. rewrite Hn.
      destruct Ht as [Hq Hst0]. destruct (so_probes _ _ Hc q Hq) as [_ Hcase]. rewrite <- He in Hcase. unfold outcome_status.
      destruct Hst0 as [->| ->]; [by split_and!; auto|].
      destruct (ps_ran q); split_and!; auto; by intros.
    - unfold outcome_status. by split_and!; auto. }
  destruct Htrue as (Hout & Hfail & Hdone).
  eapply (ended_row_ok stale_us (calls_of x) _ (agent, k) r row); try done; rewrite ?Hst; auto.
Qed.

Lemma committed_ok x m th j rep (told : bool) : net_ok x →
  s_threads (n_server x) !! m = Some th → n_jobs x !! m = Some j → t_prog th = Ret (rep, true) →
  may_commit true j (s_db (n_server x)) →
  let d := overlay (t_pending th) (s_db (n_server x)) in
  net_ok (mkNet (mkServer d (delete m (s_threads (n_server x))) (s_log (n_server x) ++ [rep]))
    (delete m (n_jobs x)) (if told then learnt rep d (n_attempts x) else n_attempts x) (n_ledger x) (n_probes x)).
Proof.
  intros [Hs Hl Hr Ht Hc Htold Hadm] Hm Hj Hp Hf d.
  pose proof (Hr m th j Hm Hj) as Hrep. rewrite Hp in Hrep. simpl in Hrep.
  assert (Htj : job_true x j) by (by apply Ht; eapply list_elem_of_lookup_2).
  destruct (ok_promise _ _ _ m th rep Hs Hm Hp) as [_ Hrow].
  assert (Hcalls : calls_ok stale_us (mkSys d (if told then learnt rep d (n_attempts x) else n_attempts x) (n_ledger x) (n_probes x)) ∧
    (∀ key n a, n_attempts x !! (key, n) = Some a →
       (if told then learnt rep d (n_attempts x) else n_attempts x) !! (key, n) = Some a)).
  { destruct rep as [req res|agent k status]; [by apply claim_committed|].
    assert ((if told then learnt (Completed agent k status) d (n_attempts x) else n_attempts x) = n_attempts x) as -> by (by destruct told).
    split; [|done]. by eapply completion_committed. }
  destruct Hcalls as [Hcalls Hkeep]. split; cbn [n_server n_jobs s_threads].
  - by apply commit_ok.
  - by apply delete_length.
  - by apply delete_reports.
  - intros j' Hj'. pose proof (delete_true x m j' Ht Hj') as Hjt. destruct j' as [|key n outcome| |]; try done.
    destruct Hjt as (a & Ha & Hrp). exists a. split; [by apply Hkeep|done].
  - exact Hcalls.
  - exact Htold.
  - intros key n Hn. cbn [n_attempts s_log] in *. rewrite omap_app. apply elem_of_app.
    destruct told; [|left; by apply Hadm]. apply learnt_admitted in Hn as [Hn|Hn]; [left; by apply Hadm|right].
    simpl. rewrite Hn. by left.
Qed.

Lemma net_step_ok x x' : true_manifests dep → net_ok x → net_step stale_us true dep x x' → net_ok x'.
Proof.
  intros Htrue Hok Hstep.
  destruct Hstep as [t x Ht|req lockWait x Hreq|key n a c req o result ref detail x Ha Hkey Hdecl Hret
    |p rec snapshot rtype status result ref detail x Hp Hends|key rec snapshot rtype t status result ref detail x Hl Hends
    |m th s' x Hm Hadv Hp|m th j rep told x Hm Hj Hp Hf|m x|y' x Hc].
  - destruct Hok as [Hs Hl Hr Htr Hc Htold Hadm]. split; try done; [by apply clock_ok|]. by apply (same_rows_ok stale_us (calls_of x)).
  - apply begun_ok; [done|done|apply claiming_reports|]. apply claiming_rg. by split.
  - apply completing_ok; [done| |unfold outcome_status; destruct (Disposition_ o); auto|].
    + exists a. split; [done|]. by apply (returned_reported _ c req _ _ (Htrue _ Hdecl)).
    + intros b. by destruct key.
  - apply ends_with_says in Hends. pose proof (told_says dep p _ _ _ _ (no_told _ Hok p Hp) Hends) as Hst.
    apply completing_ok; [done|done| |].
    + unfold outcome_status. destruct Hst as [->| ->]; [|destruct (ps_ran p)]; auto.
    + intros b. simpl. by rewrite <- surjective_pairing.
  - apply ends_with_says in Hends. unfold probe_says in Hends. simpl in Hends. rewrite Hl in Hends.
    injection Hends as <-. apply completing_ok; [done|done|unfold outcome_status; auto|]. intros b. by destruct key.
  - by eapply advanced_ok.
  - by eapply committed_ok.
  - by apply left_ok.
  - destruct Hok as [Hs Hl Hr Ht Hcl Htold Hadm]. pose proof (call_step_db _ _ _ _ Hc) as Hdb.
    split; try done; simpl.
    + intros j Hj. pose proof (Ht j Hj) as Hjt. destruct j as [|key n outcome|p st|]; try done; simpl in *.
      * destruct Hjt as (a & Ha & Hrep). by eapply (call_step_reported (calls_of x)).
      * destruct Hjt as [Hin Hst]. split; [|done]. by eapply (call_step_probes (calls_of x)).
    + pose proof (call_step_ok _ _ _ _ Hcl Hc) as Hok'. destruct y'. simpl in *. by subst.
    + exact (call_step_told stale_us dep (calls_of x) y' Htold Hc).
    + intros key n Hn. apply Hadm. by eapply (call_step_attempts (calls_of x)).
Qed.

Lemma net_run_ok x : true_manifests dep → net_run stale_us true dep x → net_ok x.
Proof.
  intros Htrue. unfold net_run. intros Hrun. pose proof net_init_ok as Hinit. revert Hinit.
  induction Hrun as [|y z u Hstep _ IH]; [done|]. intros Hx. apply IH. by eapply net_step_ok.
Qed.
End Invariant.

(** ** At most once *)

Section Theorems.
Context `{!Pg, !Objects} (stale_us : Z) (dep : deployment).
Implicit Types (x : net).

(** C2: at most once, transactions interleaving: in every run in which the statements of claims
    and completions interleave in any order, fail anywhere and lose acknowledgements, a write is
    executed at most once; done means exactly once, failed, rejected or unknown never; and
    every execution is of an attempt whose claim was committed and admitted.  The assumptions
    are the four of [at_most_once]: calls execute before their key is stale, outcomes commit for
    the current attempt, the count of a probe's answer is that of the ledger, and every declared
    classification is true of the downstream.  What is recorded is what [Execute] and [resolve]
    return. *)
Theorem concurrent_at_most_once x key :
  true_manifests dep → net_run stale_us true dep x →
  (executions key (calls_of x) <= 1)%nat ∧
  match db_keys (s_db (n_server x)) !! key with
  | None => executions key (calls_of x) = 0%nat
  | Some r =>
      (k_status r = StatusDone → executions key (calls_of x) = 1%nat) ∧
      (k_status r = StatusFailed ∨ k_status r = StatusRejected → executions key (calls_of x) = 0%nat)
  end ∧
  ∀ n, (key, n) ∈ n_ledger x → (key, n) ∈ omap admitted (s_log (n_server x)).
Proof.
  intros Htrue Hok%net_run_ok; [|done].
  destruct (calls_executed_once stale_us (calls_of x) key (no_calls _ _ _ Hok)) as [Hle Hrow].
  split_and!; [done|done|]. intros n (a & Ha & _)%(so_ledger _ _ (no_calls _ _ _ Hok)).
  apply (no_admitted _ _ _ Hok). by exists a.
Qed.
End Theorems.

(** ** A run *)

Section Lifting.
Context `{!Pg, !Objects} (stale_us : Z) (fenced : bool) (dep : deployment).
Implicit Types (x : net) (s : server).

Definition all_claims (js : list job) : Prop := ∀ j, j ∈ js → ∃ req, j = Admitting req.

Lemma all_claims_delete m js : all_claims js → all_claims (delete m js).
Proof. intros Ha j [i (i' & _ & Hj & _)%lookup_delete_other]%list_elem_of_lookup. apply Ha. by eapply list_elem_of_lookup_2. Qed.

(** Attempts that the callers of committed claims have started. *)
Definition has_started (log : list report) (attempts : gmap ((string * string) * Z) attempt) : Prop :=
  ∀ key n, (key, n) ∈ omap admitted log → ∃ t, attempts !! (key, n) = Some (mkAttempt Unsent t).

Lemma learnt_started rep d log attempts : has_started log attempts → has_started (log ++ [rep]) (learnt rep d attempts).
Proof.
  intros Hs key n. rewrite omap_app. unfold learnt, started. intros [Hin|Hin]%elem_of_app.
  - destruct (Hs key n Hin) as [t Ht]. destruct rep as [req res|]; [|by exists t].
    destruct (Verdict_ res); try (by exists t). destruct (Record_of res) as [record|]; [|by exists t].
    destruct (decide ((req_key req, AttemptCount record) = (key, n))) as [->|Hne];
      [rewrite lookup_insert_eq; by eexists|rewrite lookup_insert_ne by done; by exists t].
  - simpl in Hin. unfold admitted in Hin. destruct rep as [req res|]; [|by apply not_elem_of_nil in Hin].
    destruct (Verdict_ res); try (by apply not_elem_of_nil in Hin).
    destruct (Record_of res) as [record|]; [|by apply not_elem_of_nil in Hin].
    apply list_elem_of_singleton in Hin as [= -> ->]. rewrite lookup_insert_eq. by eexists.
Qed.

(** One turn of the server is a step of the system. *)
Lemma lift_turn x s' : turn (n_server x) s' → length (n_jobs x) = length (s_threads (n_server x)) → all_claims (n_jobs x) →
  has_started (s_log (n_server x)) (n_attempts x) →
  ∃ js att, net_step stale_us fenced dep x (mkNet s' js att (n_ledger x) (n_probes x)) ∧ length js = length (s_threads s') ∧
    all_claims js ∧ has_started (s_log s') att.
Proof.
  intros (m & th & Hm & _ & Hst) Hl Ha Hs. destruct x as [s js att led pr]. cbn [n_server n_jobs n_attempts n_ledger n_probes] in *.
  assert (Hend : ∀ s1, s1 = mkServer (s_db s) (delete m (s_threads s)) (s_log s) → ∃ js' att',
    net_step stale_us fenced dep (mkNet s js att led pr) (mkNet s1 js' att' led pr) ∧ length js' = length (s_threads s1) ∧
    all_claims js' ∧ has_started (s_log s1) att').
  { intros s1 ->. exists (delete m js), att. split_and!; [apply (net_end stale_us fenced dep m (mkNet s js att led pr))|
      by apply delete_length|by apply all_claims_delete|done]. }
  destruct Hst as [Hadv|[_ ->]]; [|by apply Hend]. unfold advances in Hadv.
  destruct (t_prog th) as [[r []]|e|X context q k] eqn:Hp; [|by apply Hend..|].
  - assert (∃ j, js !! m = Some j) as [j Hj].
    { apply lookup_lt_is_Some_2. rewrite Hl. by eapply lookup_lt_Some. }
    destruct (Ha j) as [req ->]; [by eapply list_elem_of_lookup_2|]. rewrite Hadv.
    exists (delete m js), (learnt r (overlay (t_pending th) (s_db s)) att). split_and!.
    + by apply (net_commit stale_us fenced dep m th (Admitting req) r true (mkNet s js att led pr)).
    + by apply delete_length.
    + by apply all_claims_delete.
    + by apply learnt_started.
  - destruct Hadv as (Hw & y & after & Hstmt & ->). exists js, att. split_and!; [|simpl; by rewrite length_insert|done|done].
    apply (net_statement stale_us fenced dep m th _ (mkNet s js att led pr)); [done| |by rewrite Hp].
    unfold advances. rewrite Hp. split; [done|]. by exists y, after.
Qed.

Lemma lift_turns s s' : rtc turn s s' → ∀ x, n_server x = s → length (n_jobs x) = length (s_threads s) → all_claims (n_jobs x) →
  has_started (s_log s) (n_attempts x) →
  ∃ js att, rtc (net_step stale_us fenced dep) x (mkNet s' js att (n_ledger x) (n_probes x)) ∧ has_started (s_log s') att.
Proof.
  induction 1 as [s|s s1 s' Hst _ IH]; intros x <- Hl Ha Hs.
  - exists (n_jobs x), (n_attempts x). split; [|done]. by destruct x.
  - destruct (lift_turn x s1 Hst Hl Ha Hs) as (js & att & Hstep & Hl1 & Ha1 & Hs1).
    destruct (IH (mkNet s1 js att (n_ledger x) (n_probes x)) eq_refl Hl1 Ha1 Hs1) as (js' & att' & Hrun & Hs').
    exists js', att'. split; [|done]. by eapply rtc_l.
Qed.
End Lifting.

Section Witness.
Import Demo.

(** [r1] is claimed statement by statement. *)
Lemma claim_net : ∃ x, net_run stale300 true subscriptions x ∧ s_db (n_server x) = d1 ∧ n_ledger x = [] ∧
  ∃ t, n_attempts x !! (key1, 1) = Some (mkAttempt Unsent t).
Proof.
  destruct (Claim r1 (world_of empty_db)) as [[e|res] w'] eqn:Hc; [by vm_compute in Hc|].
  assert (Hres : (Verdict_ res = VerdictClaimed ∧ (AttemptCount <$> Record_of res) = Some 1) ∧ w_db w' = d1).
  { split; [|unfold d1, claimed; by rewrite Hc].
    replace res with (match (Claim r1 (world_of empty_db)).1 with inr res => res | inl _ => res end) by (by rewrite Hc). by vm_compute. }
  destruct Hres as ([Hv Hatt] & Hd).
  destruct (claim_ran r1 [] (world_of empty_db) res w' Hc ltac:(by rewrite Hv)) as (n & log & Hrun & [[_ Hsame]|[-> ->]]).
  { rewrite Hsame in Hd. assert (Hk : db_keys empty_db !! key1 = None) by done.
    change (w_db (world_of empty_db)) with empty_db in Hd. rewrite Hd in Hk. by vm_compute in Hk. }
  set (lw := w_clock _ 1%nat - _) in Hrun.
  assert (Hbegin : net_step stale300 true subscriptions net_init (begun (Admitting r1) (claiming r1 lw) net_init)) by (by apply net_claim).
  destruct (lift_turns stale300 true subscriptions _ _ Hrun (begun (Admitting r1) (claiming r1 lw) net_init)) as (js & att & Hnet & Hs); [done|done| |by intros ? ? ?%not_elem_of_nil|].
  { intros j ->%list_elem_of_singleton. by exists r1. }
  eexists. split; [eapply rtc_l; [exact Hbegin|exact Hnet]|]. split_and!; [simpl; rewrite Hd; by apply set_next_same|done|].
  apply Hs. simpl. rewrite Hv. destruct (Record_of res) as [record|]; [|done]. injection Hatt as ->. by left.
Qed.

(** Its call leaves and runs, while another agent's claim of the same ticket is open. *)
Lemma concurrent_at_most_once_witness :
  ∃ x, net_run stale300 true subscriptions x ∧ n_jobs x ≠ [] ∧ executions key1 (calls_of x) = 1%nat ∧
    (executions key1 (calls_of x) <= 1)%nat.
Proof.
  destruct claim_net as (x & Hrun & Hd & Hled & t & Ha).
  assert (Ht : t = 0).
  { destruct (so_attempts _ _ (no_calls _ _ _ (net_run_ok _ _ _ subscriptions_true Hrun)) key1 1 _ Ha) as (r & Hr & _ & _ & Hcl).
    simpl in Hr. rewrite Hd in Hr. vm_compute in Hr. injection Hr as <-. by apply Hcl. }
  subst t.
  pose (sent := mkSys (s_db (n_server x)) (<[(key1, 1) := mkAttempt Sent 0]> (n_attempts x)) (n_ledger x) (n_probes x)).
  pose (ran := mkSys (s_db (n_server x)) (<[(key1, 1) := mkAttempt Ran 0]> (y_attempts sent)) (n_ledger x ++ [(key1, 1)]) (n_probes x)).
  assert (H1 : net_step stale300 true subscriptions x (with_calls sent x)).
  { apply net_calls, (call_send _ _ key1 1 (mkAttempt Unsent 0) (calls_of x)); done. }
  assert (H2 : net_step stale300 true subscriptions (with_calls sent x) (with_calls ran x)).
  { apply (net_calls _ _ _ ran (with_calls sent x)).
    apply (call_run _ _ key1 1 (mkAttempt Sent 0) (calls_of (with_calls sent x))); [apply lookup_insert_eq|done|].
    unfold stale_at. cbn [y_db calls_of with_calls n_server at_claimed]. rewrite Hd. by vm_compute. }
  pose (y := begun (Admitting r3) (claiming r3 0) (with_calls ran x)).
  assert (H3 : net_step stale300 true subscriptions (with_calls ran x) y) by (by apply net_claim).
  assert (Hy : net_run stale300 true subscriptions y).
  { unfold net_run. etransitivity; [exact Hrun|]. eapply rtc_l; [exact H1|]. eapply rtc_l; [exact H2|]. by apply rtc_once. }
  exists y. split_and!; [exact Hy|..].
  - unfold y, begun. simpl. by destruct (n_jobs x).
  - unfold executions. simpl. by rewrite Hled.
  - exact (proj1 (concurrent_at_most_once stale300 subscriptions y key1 subscriptions_true Hy)).
Defined.
End Witness.
