(* ===== verification/FakeDownstream.v ===== *)
(** * FakeDownstream: cmd/fakedownstream

    The downstream the tests run against: a ledger of executions, written before the answer
    goes out, scripted behaviours per resource, and a listener that can be taken down.  It is
    the oracle of the at-most-once tests and a downstream as Contract.v describes one.
    The file system, the network and the clock are scripts. *)

From S2P Require Import Prelude GoString GoTime GoHttp Sha256 Manifest Conflict World Json Claim ClaimSpec ClaimInv.
From S2P Require Import ClaimSafety ClaimProps Config Downstream ResultStore Api Contract Reconcile ReconcileProps.

(** ** ledger.go *)

Record execution := mkExecution {
  x_Sequence : Z;
  x_CorrelationID : string;
  x_ResourceType : string;
  x_ResourceID : string;
  x_Operation : string;
  x_Behavior : string;
  x_ReceivedAt : Z;
}.

(** How the write of a line and the sync after it go: a failed write may have written a part. *)
Inductive file_io := WriteOk | WriteFails (written : nat) (text : string) | SyncFails (text : string).

Record ledger := mkLedger {
  l_file : string;
  l_records : list execution;
  l_byID : gmap string (list execution);
  l_durable : bool;
}.

(** [openLedger]: the file is kept, the memory starts empty. *)
Definition openLedger (file : string) (durable : bool) : ledger := mkLedger file [] ∅ durable.

Definition execution_json (e : execution) : json :=
  JStruct [("sequence", JInt (x_Sequence e)); ("correlation_id", JStr (x_CorrelationID e));
           ("resource_type", JStr (x_ResourceType e)); ("resource_id", JStr (x_ResourceID e));
           ("operation", JStr (x_Operation e)); ("behavior", JStr (x_Behavior e));
           ("received_at", JStr (FormatRFC3339Nano (x_ReceivedAt e)))].

(** [json.Marshal] of the execution: [time.Time] refuses years of more than four digits. *)
Definition encode_execution (e : execution) : goerr + string :=
  let '(year, _, _) := date (x_ReceivedAt e) in
  if (0 <=? year) && (year <=? 9999) then Marshal (execution_json e)
  else inl (errorf "json: error calling MarshalJSON for type time.Time: year outside of range [0,9999]").

Definition newline : string := bytes_of_codes [10].

Definition set_sequence (n : Z) (e : execution) : execution :=
  mkExecution n (x_CorrelationID e) (x_ResourceType e) (x_ResourceID e) (x_Operation e) (x_Behavior e)
    (x_ReceivedAt e).

Definition appended (text : string) (l : ledger) : ledger :=
  mkLedger (l_file l +:+ text) (l_records l) (l_byID l) (l_durable l).

Definition remembered (e : execution) (l : ledger) : ledger :=
  mkLedger (l_file l) (l_records l ++ [e])
    (<[x_CorrelationID e := default [] (l_byID l !! x_CorrelationID e) ++ [e]]> (l_byID l)) (l_durable l).

(** [ledger.record]. *)
Definition record (io : file_io) (e : execution) (l : ledger) : (goerr + execution) * ledger :=
  let e := set_sequence (Z.of_nat (length (l_records l)) + 1) e in
  match encode_execution e with
  | inl err => (inl (wrap "encode execution" err), l)
  | inr line =>
      match io with
      | WriteFails n text =>
          (inl (wrap "append to ledger" (errorf text)), appended (String.substring 0 n (line +:+ newline)) l)
      | _ =>
          let l := appended (line +:+ newline) l in
          match io, l_durable l with
          | SyncFails text, true => (inl (wrap "sync ledger" (errorf text)), l)
          | _, _ => (inr e, remembered e l)
          end
      end
  end.

Definition byCorrelation (id : string) (l : ledger) : list execution :=
  if String.eqb id "" then l_records l else default [] (l_byID l !! id).

(** ** server.go *)

Definition behaviorSucceed : string := "succeed".
Definition behaviorBusinessFailure : string := "business-failure".
Definition behaviorHang : string := "hang".
Definition behaviorSlow : string := "slow".
Definition behaviorRefuse : string := "refuse".

Abbreviation scripts := (gmap string (list string)).

Definition install (resourceID : string) (behaviors : list string) (s : scripts) : scripts :=
  <[resourceID := behaviors]> s.

Definition pop_script (resourceID : string) (s : scripts) : string * scripts :=
  match default [] (s !! resourceID) with
  | [] => (behaviorSucceed, s)
  | b :: rest => (b, <[resourceID := rest]> s)
  end.

Record executeRequest := mkExecuteRequest {
  q_Type : string;
  q_ID : string;
  q_Op : string;
  q_Body : string;
}.

(** ** main.go: the listener *)

Record switchableListener := mkListener { addr : string; serving : bool }.

(** The fake: its ledger, its scripts, its listener; and how the next writes to the file, the
    next closes and binds of the listener and the readings of the clock go. *)
Record fake := mkFake {
  f_ledger : ledger;
  f_scripts : scripts;
  f_listener : switchableListener;
  f_io : list file_io;
  f_net : list (option string);
  f_clock : nat → Z;
}.

Abbreviation F := (St fake).

Definition put_ledger (l : ledger) (f : fake) : fake :=
  mkFake l (f_scripts f) (f_listener f) (f_io f) (f_net f) (f_clock f).
Definition put_scripts (s : scripts) (f : fake) : fake :=
  mkFake (f_ledger f) s (f_listener f) (f_io f) (f_net f) (f_clock f).
Definition put_serving (b : bool) (f : fake) : fake :=
  mkFake (f_ledger f) (f_scripts f) (mkListener (addr (f_listener f)) b) (f_io f) (f_net f) (f_clock f).

Definition fake_now : F Z := λ f,
  (inr (f_clock f 0%nat),
   mkFake (f_ledger f) (f_scripts f) (f_listener f) (f_io f) (f_net f) (λ n, f_clock f (S n))).

Definition fake_pop (resourceID : string) : F string := λ f,
  let '(b, s) := pop_script resourceID (f_scripts f) in (inr b, put_scripts s f).

Definition fake_record (e : execution) : F execution := λ f,
  let '(r, l) := record (default WriteOk (head (f_io f))) e (f_ledger f) in
  (r, mkFake l (f_scripts f) (f_listener f) (tail (f_io f)) (f_net f) (f_clock f)).

(** A system call on the network: it works or fails with a text. *)
Definition net_call : F unit := λ f,
  let f1 := mkFake (f_ledger f) (f_scripts f) (f_listener f) (f_io f) (tail (f_net f)) (f_clock f) in
  match default None (head (f_net f)) with None => (inr tt, f1) | Some text => (inl (errorf text), f1) end.

(** [down]: closing the server cuts the open connections too. *)
Definition down : F unit :=
  on ← gets (λ f, serving (f_listener f));
  if negb on then mret tt
  else
    _ ← wrapping "close data listener" net_call;
    modify (put_serving false).

Definition up : F unit :=
  on ← gets (λ f, serving (f_listener f));
  if (on : bool) then mret tt
  else
    a ← gets (λ f, addr (f_listener f));
    _ ← wrapping ("rebind " +:+ a) net_call;
    modify (put_serving true).

(** ** The handlers *)

(** What a handler writes; [None] when it returns without writing. *)
Definition applied (e : execution) : response :=
  writeJSON 200 (JObj [("status", JStr "applied"); ("sequence", JInt (x_Sequence e))]).

Definition malformed_body : response := writeJSON 400 (JObj [("error", JStr "malformed body")]).

(** [handleExecute]; [None] is a body that does not decode. *)
Definition handleExecute (body : option executeRequest) (correlation : string) : F (option response) :=
  match body with
  | None => mret (Some malformed_body)
  | Some req =>
      behavior ← fake_pop (q_ID req);
      if String.eqb behavior behaviorRefuse
      then mret (Some (writeJSON 429 (JObj [("status", JStr "refused"); ("reason", JStr "rate_limited")])))
      else
        t ← fake_now;
        recorded ← try (fake_record (mkExecution 0 correlation (q_Type req) (q_ID req) (q_Op req) behavior t));
        match recorded with
        | inl e => mret (Some (writeJSON 500 (JObj [("error", JStr (e_text e))])))
        | inr e =>
            if String.eqb behavior behaviorBusinessFailure
            then mret (Some (writeJSON 422 (JObj [("status", JStr "rejected"); ("reason", JStr "insufficient_funds")])))
            else if String.eqb behavior behaviorHang then mret None
            else mret (Some (applied e))
        end
  end.

(** A nil slice is [null]. *)
Definition probe_json (found : list execution) : json :=
  JObj [("count", JInt (Z.of_nat (length found)));
        ("executions", match found with [] => JNull | _ => JList (execution_json <$> found) end)].

Definition handleProbe (correlation_id : string) : F response :=
  found ← gets (λ f, byCorrelation correlation_id (f_ledger f));
  mret (writeJSON 200 (probe_json found)).

Definition handleScript (body : option (string * list string)) : F response :=
  match body with
  | None => mret malformed_body
  | Some (resourceID, behaviors) =>
      _ ← modify (λ f, put_scripts (install resourceID behaviors (f_scripts f)) f);
      mret (mkResponse 204 [] (JRaw ""))
  end.

Definition handleListener (body : option bool) : F response :=
  match body with
  | None => mret malformed_body
  | Some to =>
      done ← try (if (to : bool) then up else down);
      match done with
      | inl e => mret (writeJSON 500 (JObj [("error", JStr (e_text e))]))
      | inr _ => mret (mkResponse 204 [] (JRaw ""))
      end
  end.

(** A request, whatever the connection did to it before and does to its answer. *)
Inductive incoming :=
| InExecute (body : option executeRequest) (correlation : string)
| InProbe (correlation_id : string)
| InScript (body : option (string * list string))
| InListener (body : option bool).

Definition serve (r : incoming) : F (option response) :=
  match r with
  | InExecute body correlation => handleExecute body correlation
  | InProbe id => Some <$> handleProbe id
  | InScript body => Some <$> handleScript body
  | InListener body => Some <$> handleListener body
  end.

(** The two muxes: the write path with the probes the manifests name, and the controls. *)
Inductive fake_endpoint := ExecuteEndpoint | ProbeEndpoint | ScriptEndpoint | ListenerEndpoint.

Definition dataMux : list (pattern * fake_endpoint) :=
  [(mkPattern "POST" [Literal "v1"; Literal "execute"], ExecuteEndpoint);
   (mkPattern "GET" [Literal "probe"], ProbeEndpoint);
   (mkPattern "GET" [Literal "probe"; Literal "subscription"], ProbeEndpoint)].

Definition controlMux : list (pattern * fake_endpoint) :=
  [(mkPattern "GET" [Literal "probe"], ProbeEndpoint);
   (mkPattern "POST" [Literal "control"; Literal "script"], ScriptEndpoint);
   (mkPattern "POST" [Literal "control"; Literal "listener"], ListenerEndpoint)].

(** A request with its header, its query and what its body decodes to at each endpoint. *)
Record fake_request := mkFakeRequest {
  fr_Method : string;
  fr_Path : list string;
  fr_Correlation : string;
  fr_correlation_id : string;
  fr_Execute : option executeRequest;
  fr_Script : option (string * list string);
  fr_Listener : option bool;
}.

(** What reaches a handler; a request no pattern matches reaches none. *)
Definition incoming_of (mux : list (pattern * fake_endpoint)) (r : fake_request) : option incoming :=
  match dispatch mux (fr_Method r) (fr_Path r) with
  | Found _ ExecuteEndpoint _ => Some (InExecute (fr_Execute r) (fr_Correlation r))
  | Found _ ProbeEndpoint _ => Some (InProbe (fr_correlation_id r))
  | Found _ ScriptEndpoint _ => Some (InScript (fr_Script r))
  | Found _ ListenerEndpoint _ => Some (InListener (fr_Listener r))
  | _ => None
  end.

(** Requests on the data port and, where the flag says so, on the control port. *)
Definition arrived (requests : list (bool * fake_request)) : list incoming :=
  omap (λ x, incoming_of (if x.1 : bool then controlMux else dataMux) x.2) requests.

(** Handlers hold the mutex of what they touch, so a history is a list. *)
Fixpoint serve_all (l : list incoming) (f : fake) : fake :=
  match l with [] => f | r :: rest => serve_all rest (serve r f).2 end.

(** ** Lemmas *)

#[local] Arguments String.append !_ _ /.

Definition line_of (e : execution) : string := marshal (execution_json e) +:+ newline.

Definition of_correlation (id : string) (l : list execution) : list execution :=
  filter (λ e, x_CorrelationID e = id) l.

(** The text of a file that grew piece by piece. *)
Fixpoint concat_text (pieces : list string) : string :=
  match pieces with [] => EmptyString | p :: rest => p +:+ concat_text rest end.

Lemma concat_text_snoc l p : concat_text (l ++ [p]) = concat_text l +:+ p.
Proof. induction l as [|q l IH]; simpl; [apply append_nil_r|]. by rewrite IH, append_assoc. Qed.

(** The index is the ledger by identifier, the sequence numbers count, and the file holds, after
    what it held before, the line of every execution in order; between them only what failed
    writes left. *)
Record ledger_ok (prior : string) (l : ledger) : Prop := {
  lo_index id : default [] (l_byID l !! id) = of_correlation id (l_records l);
  lo_sequence i e : l_records l !! i = Some e → x_Sequence e = Z.of_nat i + 1;
  lo_file : ∃ pieces, l_file l = prior +:+ concat_text pieces ∧ (line_of <$> l_records l) `sublist_of` pieces;
}.

Lemma openLedger_ok prior durable : ledger_ok prior (openLedger prior durable).
Proof.
  split; [done..|]. exists []. split; [simpl; by rewrite append_nil_r|]. constructor.
Qed.

(** A restart on the same file answers every probe with nothing and numbers from one again. *)
Lemma restart_forgets (l : ledger) (id : string) io e :
  let l' := openLedger (l_file l) (l_durable l) in
  byCorrelation id l' = [] ∧ ∀ e' l2, record io e l' = (inr e', l2) → x_Sequence e' = 1.
Proof.
  intros l'. split; [unfold byCorrelation; by destruct (String.eqb id "")|]. intros e' l2.
  unfold record. destruct (encode_execution _); [done|]. destruct io; [by intros [= <- _]|done|].
  destruct (l_durable l') eqn:Hd; simpl in *; rewrite Hd; [done|]. by intros [= <- _].
Qed.

(** The memory and the index are as they were; the file may have grown. *)
Definition unrecorded (l l' : ledger) : Prop := ∃ text, l' = appended text l.

Definition recorded_as (e : execution) (l l' : ledger) : Prop :=
  x_Sequence e = Z.of_nat (length (l_records l)) + 1 ∧ l' = remembered e (appended (line_of e) l).

Lemma record_cases io e l :
  let '(r, l') := record io e l in
  match r with
  | inl _ => unrecorded l l'
  | inr e' => recorded_as e' l l' ∧ e' = set_sequence (Z.of_nat (length (l_records l)) + 1) e
  end.
Proof.
  unfold record, encode_execution. set (e' := set_sequence _ e).
  assert (Hsame : unrecorded l l).
  { exists EmptyString. unfold appended. rewrite append_nil_r. by destruct l. }
  destruct (date (x_ReceivedAt e')) as [[year m] d]. destruct ((0 <=? year) && (year <=? 9999)); [|exact Hsame].
  unfold Marshal. replace (raws_valid (execution_json e')) with true by done.
  destruct io as [|n text|text]; simpl; [by split; [split|]|by eexists|].
  destruct (l_durable l); [by eexists|by split; [split|]].
Qed.

Lemma unrecorded_ok prior l l' : ledger_ok prior l → unrecorded l l' → ledger_ok prior l'.
Proof.
  intros [Hi Hs (pieces & Hf & Hsub)] [text ->]. split; [done..|]. exists (pieces ++ [text]). simpl. split.
  - by rewrite Hf, concat_text_snoc, append_assoc.
  - by apply sublist_inserts_r.
Qed.

Lemma recorded_ok prior e l l' : ledger_ok prior l → recorded_as e l l' → ledger_ok prior l'.
Proof.
  intros [Hi Hs (pieces & Hf & Hsub)] [Hseq ->]. split; simpl.
  - intros id. unfold of_correlation. rewrite filter_app, filter_cons, filter_nil.
    destruct (decide (x_CorrelationID e = id)) as [<-|Hne].
    + rewrite lookup_insert_eq. simpl. by rewrite Hi.
    + rewrite lookup_insert_ne by done. by rewrite app_nil_r, Hi.
  - intros i e1. rewrite lookup_app_Some. intros [?|[Hle Hl]]; [by apply Hs|].
    apply list_lookup_singleton_Some in Hl as [Hz <-]. rewrite Hseq. lia.
  - exists (pieces ++ [line_of e]). split; [by rewrite Hf, concat_text_snoc, append_assoc|].
    rewrite fmap_app. by apply sublist_app.
Qed.

(** What a call does: it leaves no execution and is answered so, or leaves one. *)
Inductive call_effect (id : string) (f f' : fake) : option response → Prop :=
| not_recorded resp :
    unrecorded (f_ledger f) (f_ledger f') → resp_status resp = 429 ∨ resp_status resp = 500 →
    call_effect id f f' (Some resp)
| was_recorded e answer :
    recorded_as e (f_ledger f) (f_ledger f') → x_CorrelationID e = id →
    (∀ resp, answer = Some resp → resp_status resp = 200 ∨ resp_status resp = 422) →
    call_effect id f f' answer.

Lemma unrecorded_refl l : unrecorded l l.
Proof. exists EmptyString. unfold appended. rewrite append_nil_r. by destruct l. Qed.

Lemma handleExecute_cases req id f :
  ∃ answer, (handleExecute (Some req) id f).1 = inr answer ∧
    f_listener (handleExecute (Some req) id f).2 = f_listener f ∧
    call_effect id f (handleExecute (Some req) id f).2 answer.
Proof.
  unfold handleExecute, mbind, St_bind, fake_pop.
  destruct (pop_script (q_ID req) (f_scripts f)) as [b s]. destruct (String.eqb b behaviorRefuse).
  { eexists. split; [done|]. split; [done|]. apply not_recorded; [apply unrecorded_refl|by left]. }
  unfold fake_now, try, fake_record. simpl.
  match goal with |- context [record ?io ?e ?l] => pose proof (record_cases io e l) as Hc; destruct (record io e l) as [r l'] end.
  simpl in *. destruct r as [err|e'].
  { eexists. split; [done|]. split; [done|]. apply not_recorded; [exact Hc|by right]. }
  destruct Hc as [Hrec He].
  assert (Hid : x_CorrelationID e' = id) by (by rewrite He).
  destruct (String.eqb b behaviorBusinessFailure); [|destruct (String.eqb b behaviorHang)]; simpl;
    (eexists; split; [done|]; split; [done|]; apply (was_recorded _ _ _ e'); [exact Hrec|done|]);
    intros resp [= <-]; auto.
Qed.

Lemma net_call_ledger f : f_ledger (net_call f).2 = f_ledger f ∧ f_scripts (net_call f).2 = f_scripts f.
Proof. unfold net_call. by destruct (default None _). Qed.

Lemma toggle_ledger (to : bool) f : f_ledger ((if to then up else down) f).2 = f_ledger f.
Proof.
  pose proof (net_call_ledger f) as [Hl _].
  destruct to; unfold up, down, gets, mbind, St_bind, wrapping; simpl; destruct (serving (f_listener f)); simpl;
    try done; destruct (net_call f) as [[e|u] f1]; done.
Qed.

Lemma serve_ledger r f prior : ledger_ok prior (f_ledger f) → ledger_ok prior (f_ledger (serve r f).2).
Proof.
  intros Hok. destruct r as [[req|] id|id|[[rid l]|]|[to|]]; try exact Hok.
  - destruct (handleExecute_cases req id f) as (answer & _ & _ & Hc). simpl.
    destruct Hc as [resp Hu _|e answer Hr _ _]; [by eapply unrecorded_ok|by eapply recorded_ok].
  - simpl. unfold fmap, St_fmap, handleListener, mbind, St_bind, try.
    pose proof (toggle_ledger to f) as Hl. destruct ((if to then up else down) f) as [[e|u] f1]; simpl in *; by rewrite Hl.
Qed.

Lemma serve_all_ledger l : ∀ f prior, ledger_ok prior (f_ledger f) → ledger_ok prior (f_ledger (serve_all l f)).
Proof. induction l as [|r l IH]; intros f prior Hok; [done|]. apply IH. by apply serve_ledger. Qed.

(** ** The fake as the downstream of the gateway *)

(** What the network does to a call: the listener may be down besides. *)
Inductive delivery :=
| Undialled (text : string)
| LostOnTheWay (text : string)
| AnswerLost (text : string)
| AnswerCut (text : string)
| Delivered.

Definition request_of (c : call) : executeRequest :=
  mkExecuteRequest (call_rtype c) (call_rid c) (call_op c) (call_payload c).

(** What a handler wrote, as it arrives: net/http answers 200 for one that wrote nothing. *)
Definition wire (answer : option response) : transport :=
  match answer with
  | Some resp => Response (resp_status resp) (marshal (resp_body resp) +:+ newline)
  | None => Response 200 ""
  end.

(** A call over the network: what the client gets, and the fake after it. *)
Definition exchange (d : delivery) (c : call) (f : fake) : transport * fake :=
  let '(answer, f') := handleExecute (Some (request_of c)) (call_correlation c) f in
  if negb (serving (f_listener f)) then (DialError "connect: connection refused", f)
  else
    match d with
    | Undialled text => (DialError text, f)
    | LostOnTheWay text => (SendError text, f)
    | AnswerLost text => (SendError text, f')
    | AnswerCut text => (ReadError text, f')
    | Delivered => (wire match answer with inr a => a | inl _ => None end, f')
    end.

(** The classification agrees with what the fake does: what it answers when it executed is not
    declared not executed, and what it answers when it did not is not declared definitive. *)
Definition faithful (c : ErrorClassification) : Prop :=
  (IsDefinitive c 200 = false → IsNotExecuted c 200 = false) ∧
  (IsDefinitive c 422 = false → IsNotExecuted c 422 = false) ∧
  IsDefinitive c 429 = false ∧ IsDefinitive c 500 = false.
#[export] Instance faithful_dec c : Decision (faithful c).
Proof. unfold faithful. apply _. Defined.

Definition executions_of (id : string) (f : fake) : list execution :=
  of_correlation id (l_records (f_ledger f)).

(** Where a call is, for Contract.v: executed, or never to be. *)
Definition phase_of (f f' : fake) : phase :=
  if decide (length (l_records (f_ledger f)) < length (l_records (f_ledger f')))%nat then Ran else Never.

Inductive exchanged (c : call) (f : fake) : transport → fake → Prop :=
| ex_absent t f' :
    unrecorded (f_ledger f) (f_ledger f') →
    match t with RedirectDialError _ _ => False | Response status _ => status = 429 ∨ status = 500 | _ => True end →
    exchanged c f t f'
| ex_present t f' e :
    recorded_as e (f_ledger f) (f_ledger f') → x_CorrelationID e = call_correlation c →
    match t with
    | DialError _ | RedirectDialError _ _ => False
    | Response status _ => status = 200 ∨ status = 422
    | _ => True
    end →
    exchanged c f t f'.

Lemma exchange_cases d c f : exchanged c f (exchange d c f).1 (exchange d c f).2.
Proof.
  unfold exchange. destruct (handleExecute_cases (request_of c) (call_correlation c) f) as (answer & Ha & _ & Hc).
  destruct (handleExecute _ _ f) as [r f']. simpl in *. subst r.
  assert (Hstay : ∀ t, match t with RedirectDialError _ _ | Response _ _ => False | _ => True end → exchanged c f t f).
  { intros t Ht. apply ex_absent; [apply unrecorded_refl|by destruct t]. }
  destruct (negb _); [by apply Hstay|]. destruct d as [text|text|text|text|]; try by apply Hstay.
  - destruct Hc as [resp Hu Hs|e answer Hr Hid Hs]; [by apply ex_absent|by apply (ex_present _ _ _ _ e)].
  - destruct Hc as [resp Hu Hs|e answer Hr Hid Hs]; [by apply ex_absent|by apply (ex_present _ _ _ _ e)].
  - destruct Hc as [resp Hu Hs|e answer Hr Hid Hs]; [by apply ex_absent|].
    apply (ex_present _ _ _ _ e); [done..|]. destruct answer as [resp|]; simpl; [by apply Hs|by left].
Qed.

Lemma unrecorded_records f f' : unrecorded (f_ledger f) (f_ledger f') → l_records (f_ledger f') = l_records (f_ledger f).
Proof. by intros [text ->]. Qed.

Lemma recorded_records e f f' :
  recorded_as e (f_ledger f) (f_ledger f') → l_records (f_ledger f') = l_records (f_ledger f) ++ [e].
Proof. by intros [_ ->]. Qed.

Lemma exchanged_observed c f f' t : exchanged c f t f' → observed fake_answers (phase_of f f') t.
Proof.
  unfold observed, phase_of. intros [t' f0 Hu Ht|t' f0 e Hr Hid Ht].
  - rewrite (unrecorded_records _ _ Hu), decide_False by lia. by destruct t'.
  - rewrite (recorded_records _ _ _ Hr), length_app, decide_True by (simpl; lia). by destruct t'.
Qed.

Lemma faithful_truthful cl : faithful cl ↔ true_of fake_answers cl.
Proof.
  split.
  - intros (Hn2 & Hn4 & Hd4 & Hd5) [] status Hans; try done;
      destruct Hans as [->| ->]; split_and!; try congruence; try (unfold redirecting; rewrite !elem_of_cons, elem_of_nil; lia);
      intros Hd Hn; [rewrite (Hn2 Hd) in Hn|rewrite (Hn4 Hd) in Hn]; done.
  - intros Ht.
    assert (Hran : ∀ status, fake_answers Ran status → IsDefinitive cl status = false → IsNotExecuted cl status = false).
    { intros status Ha Hd. destruct (Ht Ran status Ha) as (_ & Hn & _).
      destruct (IsNotExecuted cl status); [|done]. by specialize (Hn Hd eq_refl). }
    assert (Hnever : ∀ status, fake_answers Never status → IsDefinitive cl status = false).
    { intros status Ha. destruct (Ht Never status Ha) as (Hd & _).
      destruct (IsDefinitive cl status); [|done]. by specialize (Hd eq_refl). }
    split_and!; [apply Hran|apply Hran|apply Hnever|apply Hnever]; simpl; auto.
Qed.

(** ** Counting *)

Definition carries (id : string) (r : incoming) : bool :=
  match r with InExecute _ c => String.eqb c id | _ => false end.

Lemma serve_count id r f :
  (length (executions_of id (serve r f).2) <= length (executions_of id f) + if carries id r then 1 else 0)%nat.
Proof.
  unfold executions_of. destruct r as [[req|] c|c|[[rid l]|]|[to|]]; simpl; try lia.
  - destruct (handleExecute_cases req c f) as (answer & _ & _ & Hc). simpl in Hc.
    destruct Hc as [resp Hu _|e answer Hr Hid _].
    + rewrite (unrecorded_records _ _ Hu). lia.
    + rewrite (recorded_records _ _ _ Hr). unfold of_correlation.
      rewrite filter_app, length_app, filter_cons, filter_nil.
      destruct (decide _) as [He|He], (String.eqb_spec c id) as [Hc|Hc]; simpl; try lia. by rewrite Hid in He.
  - unfold fmap, St_fmap, handleListener, mbind, St_bind, try.
    pose proof (toggle_ledger to f) as Hl. destruct ((if to then up else down) f) as [[e|u] f1]; simpl in *; rewrite Hl; lia.
Qed.

Lemma serve_all_count id l : ∀ f,
  (length (executions_of id (serve_all l f)) <= length (executions_of id f) + length (filter (λ r, carries id r = true) l))%nat.
Proof.
  induction l as [|r l IH]; intros f; [simpl; lia|]. cbn [serve_all].
  pose proof (serve_count id r f). specialize (IH (serve r f).2). rewrite filter_cons.
  destruct (decide _) as [E|E]; [|apply not_true_is_false in E]; rewrite E in *; simpl in *; lia.
Qed.

(** The ledger after a call, by phase. *)
Lemma exchanged_ledger c f t f' :
  exchanged c f t f' →
  (∀ id, id ≠ call_correlation c → executions_of id f' = executions_of id f) ∧
  (phase_of f f' = Never → l_records (f_ledger f') = l_records (f_ledger f)) ∧
  (phase_of f f' = Ran → ∃ e, l_records (f_ledger f') = l_records (f_ledger f) ++ [e] ∧
     x_CorrelationID e = call_correlation c).
Proof.
  unfold executions_of, phase_of. destruct 1 as [t f' Hu _|t f' e Hr Hid _].
  - rewrite (unrecorded_records _ _ Hu), decide_False by lia. done.
  - rewrite (recorded_records _ _ _ Hr), length_app, decide_True by (simpl; lia). split_and!; [|done|by eexists].
    intros id Hne. unfold of_correlation. rewrite filter_app, filter_cons, filter_nil.
    destruct (decide _) as [He|]; [congruence|by rewrite app_nil_r].
Qed.

(** ** Theorems *)

(** The oracle is exact: after any requests on its two ports, with any failures of the file and the network, the
    index answers what a scan of the ledger would, sequence numbers count from one, and the
    file is what it was before with the line of every execution appended in order, apart from
    what failed writes left; an identifier has at most as many executions as calls that
    carried it. *)
Theorem ledger_exact (prior : string) (durable : bool) (f : fake) (requests : list (bool * fake_request)) :
  f_ledger f = openLedger prior durable →
  let history := arrived requests in
  let l := f_ledger (serve_all history f) in
  (∀ id, byCorrelation id l = if decide (id = "") then l_records l else of_correlation id (l_records l)) ∧
  x_Sequence <$> l_records l = seqZ 1 (Z.of_nat (length (l_records l))) ∧
  (∃ pieces, l_file l = prior +:+ concat_text pieces ∧ (line_of <$> l_records l) `sublist_of` pieces) ∧
  ∀ id, (length (of_correlation id (l_records l)) <= length (filter (λ r, carries id r = true) history))%nat.
Proof.
  intros Hf history l. assert (Hok : ledger_ok prior l).
  { apply serve_all_ledger. rewrite Hf. apply openLedger_ok. }
  destruct Hok as [Hi Hs Hfile]. split_and!; [| |done|].
  - intros id. unfold byCorrelation. destruct (String.eqb_spec id "") as [->|Hne]; [done|].
    by rewrite decide_False, Hi.
  - apply list_eq. intros i. rewrite list_lookup_fmap. destruct (l_records l !! i) as [e|] eqn:He; simpl.
    + rewrite (Hs i e He). apply lookup_lt_Some in He. symmetry. apply lookup_seqZ. lia.
    + apply lookup_ge_None in He. symmetry. apply lookup_seqZ_ge. lia.
  - intros id. pose proof (serve_all_count id history f) as Hc. unfold executions_of in Hc. rewrite Hf in Hc.
    exact Hc.
Qed.

(** C33: the fake is a downstream as Contract.v describes one: whatever the network and the file do
    to a call, [Execute] sends at most the one call, the ledger gains at most one execution and
    only of that call's identifier, and what the client is left with is possible in the phase
    the call ended in.  So the outcome is [returned] for that phase, and under a classification
    that is faithful to the fake it means what it says: done only if the call was executed,
    failed only if it never was.  The classification of the shipped invoice manifest is not
    faithful: it counts the refusal of the fake as done. *)
Theorem fake_refines_downstream (c : Client) (req : dRequest) (d : delivery) (f : fake) (w : world) :
  let '(t, after) := exchange d (call_of req) f in
  head (w_replies w) = Some t →
  ∃ o, (Execute c req w).1 = inr o ∧
    let f' := if decide (w_sent (Execute c req w).2 = w_sent w) then f else after in
    returned fake_answers c req (phase_of f f') o ∧
    (faithful (Classification req) → reported (phase_of f f') (Disposition_ o)) ∧
    (∀ id, id ≠ correlation_ID (dr_AgentID req) (dr_Key req) → executions_of id f' = executions_of id f) ∧
    (phase_of f f' = Never → l_records (f_ledger f') = l_records (f_ledger f)) ∧
    (phase_of f f' = Ran → ∃ e, l_records (f_ledger f') = l_records (f_ledger f) ++ [e] ∧
       x_CorrelationID e = correlation_ID (dr_AgentID req) (dr_Key req)).
Proof.
  pose proof (exchange_cases d (call_of req) f) as Hex.
  destruct (exchange d (call_of req) f) as [t after]. simpl in Hex. intros Ht.
  destruct (Execute_spec c req w) as (o & calls & Ho & _ & _). exists o. split; [done|]. cbv zeta.
  assert (Hkeep : phase_of f f = Never) by (unfold phase_of; by rewrite decide_False by lia).
  assert (Hret : returned fake_answers c req
    (phase_of f (if decide (w_sent (Execute c req w).2 = w_sent w) then f else after)) o).
  { exists w. split; [done|]. destruct (decide _); [done|]. exists t. split; [done|].
    by apply (exchanged_observed _ _ _ _ Hex). }
  split; [done|]. split.
  - intros Hf. by apply (returned_reported fake_answers c req _ _ (proj1 (faithful_truthful _) Hf)).
  - destruct (decide _); [rewrite Hkeep; done|apply (exchanged_ledger _ _ _ _ Hex)].
Qed.

(** The probe of the fake tells the ledger: when a probe of a key is answered by the fake, after
    whatever requests, and the answer decodes to what was encoded, the prober reports executed
    with the last execution exactly when the ledger has one of that key, and the reconciler
    records done then and failed when there is none. *)
Theorem probe_truthful `{!Pg, !Objects} (decode : string → goerr + (Z * list string)) (r : Reconciler)
    (snapshot : Snapshot) (path prior : string) (durable : bool) (candidate : stale) (f0 : fake)
    (history : list incoming) (w : world) (resp : response) :
  let f := serve_all history f0 in
  let id := correlation_ID (st_agentID candidate) (st_key candidate) in
  let ran := executions_of id f in
  f_ledger f0 = openLedger prior durable →
  Probe.pc_buildError (prober r) = None →
  (handleProbe id f).1 = inr resp → head (w_replies w) = Some (wire (Some resp)) →
  (∀ found, resp = writeJSON 200 (probe_json found) →
     decode (marshal (probe_json found) +:+ newline) =
       inr (Z.of_nat (length found), marshal ∘ execution_json <$> found)) →
  (Probe.Probe decode (prober r) path (st_agentID candidate) (st_key candidate) w).1 =
    inr match last ran with
        | None => (Probe.NotExecuted, "")
        | Some e => (Probe.Executed, marshal (execution_json e))
        end ∧
  (is_Some (Lookup_type snapshot (st_resourceType candidate)) →
   probe_says decode r snapshot candidate (head (w_replies w)) =
     Some (if decide (ran = []) then StatusFailed else StatusDone)).
Proof.
  intros f id ran Hf0 Hb Hresp Hhead Hdec.
  assert (Hok : ledger_ok prior (f_ledger f)).
  { apply serve_all_ledger. rewrite Hf0. apply openLedger_ok. }
  assert (Hfound : byCorrelation id (f_ledger f) = ran).
  { unfold byCorrelation. destruct (String.eqb_spec id "") as [He|_]; [by apply correlation_ID_nonempty in He|].
    apply (lo_index _ _ Hok). }
  injection Hresp as <-. rewrite Hfound in Hhead, Hdec. specialize (Hdec ran eq_refl). unfold wire in Hhead. simpl resp_status in Hhead.
  simpl resp_body in Hhead. generalize dependent (marshal (probe_json ran) +:+ newline). intros body Hdec Hhead.
  assert (Hcount : (Z.of_nat (length ran) =? 0) = bool_decide (ran = [])) by (by destruct ran).
  split.
  - unfold Probe.Probe, Probe.Executions. rewrite Hb. unfold Probe.fetch, mbind, St_bind. rewrite Hhead. simpl.
    rewrite Hdec. simpl. rewrite Hcount, fmap_last. by destruct ran as [|e ran _] using rev_ind; [|rewrite last_snoc; destruct ran].
  - intros [definition Hdef]. unfold probe_says. rewrite Hdef, Hb, Hhead, Hdec. simpl. rewrite Hcount.
    by destruct ran.
Qed.

(** ** Witnesses *)

(** The classifications that ship: the subscription manifest agrees with the fake; the invoice
    manifest calls every 4xx definitive, the refusal the fake does not execute among them. *)
Definition subscription_errors : ErrorClassification :=
  mkErrors [mkRange 200 299; mkRange 400 428] [mkRange 429 429; mkRange 503 503].
Definition invoice_errors : ErrorClassification := mkErrors [mkRange 200 299; mkRange 400 499] [].

Lemma shipped_faithful : faithful subscription_errors ∧ ¬ faithful invoice_errors.
Proof. split; [by vm_compute|]. intros (_ & _ & H & _). by vm_compute in H. Qed.

Definition fresh_fake (io : list file_io) (script : list string) : fake :=
  mkFake (openLedger "" true) {["7" := script]} (mkListener "127.0.0.1:9" true) io [] (λ _, 0).

Definition pause_request : dRequest := mkDRequest "a" "k" "subscription" "7" "pause" "{}" subscription_errors.

(** The fake refuses a charge, which is not executed, and the invoice manifest has it done. *)
Example refused_charge_is_done :
  let f := fresh_fake [] ["refuse"] in
  let req := mkDRequest "a" "k" "invoice" "7" "create_charge" "{}" invoice_errors in
  let x := exchange Delivered (call_of req) f in
  (λ o, Disposition_ o) <$> (match (Execute (mkClient "http://d" None) req (set_replies [x.1] (world_of empty_db))).1 with
    | inr o => Some o | inl _ => None end) = Some Done ∧ executions_of (correlation_ID "a" "k") x.2 = [].
Proof. by vm_compute. Qed.

(** A call that is executed and whose answer is lost, then a probe. *)
Lemma fake_refines_downstream_witness :
  let f := fresh_fake [] ["business-failure"] in
  let x := exchange (AnswerLost "EOF") (call_of pause_request) f in
  ∃ o, (Execute (mkClient "http://d" None) pause_request (set_replies [x.1] (world_of empty_db))).1 = inr o ∧
    Disposition_ o = Indeterminate ∧ phase_of f x.2 = Ran.
Proof.
  intros f x.
  pose proof (fake_refines_downstream (mkClient "http://d" None) pause_request (AnswerLost "EOF") f
    (set_replies [x.1] (world_of empty_db))) as Hr.
  destruct (exchange (AnswerLost "EOF") (call_of pause_request) f) as [t after] eqn:Hx.
  destruct (Hr eq_refl) as (o & Ho & _). exists o. split; [exact Ho|].
  assert (Hx' : x.1 = t) by reflexivity. split.
  - assert (Ht : t = SendError "EOF") by (vm_compute in Hx; by injection Hx).
    subst x. simpl in Ho. rewrite Ht in Ho. vm_compute in Ho. by injection Ho as <-.
  - subst x. simpl. injection Hx as _ <-. vm_compute. reflexivity.
Defined.

Definition one_call : list incoming := [InExecute (Some (request_of (call_of pause_request))) (correlation_ID "a" "k")].

(** The same call twice on the data port, and once on the control port, which does not know it. *)
Definition execute_request : fake_request :=
  mkFakeRequest "POST" ["v1"; "execute"] (correlation_ID "a" "k") "" (Some (request_of (call_of pause_request))) None None.
Definition three_calls : list (bool * fake_request) := [(false, execute_request); (true, execute_request); (false, execute_request)].

Lemma ledger_exact_witness :
  let l := f_ledger (serve_all (arrived three_calls) (fresh_fake [WriteFails 3 "disk full"] [])) in
  length (l_records l) = 1%nat ∧ String.substring 0 5 (l_file l) = String "{" (String quote_char (String "s" (String "{" (String quote_char "")))) ∧
  x_Sequence <$> l_records l = seqZ 1 (Z.of_nat (length (l_records l))).
Proof.
  intros l. split; [vm_compute; reflexivity|]. split; [vm_compute; reflexivity|].
  exact (proj1 (proj2 (ledger_exact "" true (fresh_fake [WriteFails 3 "disk full"] []) three_calls eq_refl))).
Defined.

Section Probing.
#[local] Existing Instance demo_pg.

Definition demo_prober : Reconciler := mkReconciler (Probe.mkProbeClient "http://d" None) (mkResultStore false 0) 0 10.
Definition demo_candidate : stale := mkStale "a" "k" "subscription".
Definition called_fake : fake := serve_all one_call (fresh_fake [] []).
Definition probe_answer : response := writeJSON 200 (probe_json (byCorrelation (correlation_ID "a" "k") (f_ledger called_fake))).

Lemma probe_truthful_witness :
  let found := executions_of (correlation_ID "a" "k") called_fake in
  let decode := λ _, inr (Z.of_nat (length found), marshal ∘ execution_json <$> found) in
  let w := set_replies [wire (Some probe_answer)] (world_of empty_db) in
  length found = 1%nat ∧
  ∃ result, (Probe.Probe decode (prober demo_prober) "/probe" "a" "k" w).1 = inr (Probe.Executed, result).
Proof.
  intros found decode w. split; [vm_compute; reflexivity|].
  destruct (probe_truthful decode demo_prober (mkSnapshot "v" ∅) "/probe" "" true demo_candidate
    (fresh_fake [] []) one_call w probe_answer eq_refl eq_refl eq_refl eq_refl) as [Hp _].
  - intros found' Hresp. unfold decode. rewrite !list_fmap_compose.
    assert (Hj : execution_json <$> found' = execution_json <$> found).
    { assert (Hlist : ∀ l, (execution_json <$> l) = match probe_json l with
        | JObj [_; (_, JList items)] => items | _ => [] end) by (by intros [|]).
      rewrite (Hlist found'), (Hlist found). unfold probe_answer in Hresp. apply (f_equal resp_body) in Hresp.
      simpl in Hresp. rewrite <- Hresp. reflexivity. }
    rewrite Hj. rewrite <- (length_fmap execution_json found'), Hj, length_fmap. reflexivity.
  - exists (match last found with Some e => marshal (execution_json e) | None => "" end).
    refine (eq_trans Hp _). vm_compute. reflexivity.
Defined.
End Probing.
