(* ===== verification/Harness.v ===== *)
(** * Harness: internal/faketest and the process of cmd/fakedownstream

    The process the tests start ([run_fake]) and the client they drive it with: [Script],
    [SetListener], [Executions], [LedgerLines] and [readAddresses].  Bodies are the texts
    json.Marshal writes and json.Decoder reads, so a test's view of the fake is followed byte
    by byte through both.  [t.Fatalf] is an error. *)

From S2P Require Import Prelude GoString GoTime GoHttp Sha256 Manifest Conflict World Json JsonDecode JsonRound JsonMarshal.
From S2P Require Import Config Api FakeDownstream.

(** ** The bodies *)

(** [json.Decoder.Decode] of the structs of server.go. *)
Definition decode_script (body : string) : option (string * list string) :=
  v ← Decode body; m ← as_object v;
  resourceID ← as_string (field "resource_id" m);
  behaviors ← as_list as_string (field "behaviors" m);
  Some (resourceID, behaviors).

Definition decode_listener (body : string) : option bool :=
  v ← Decode body; m ← as_object v; as_bool (field "up" m).

(** A number of a Go [int]. *)
Definition as_int (v : value) : option Z :=
  match v with
  | VNumber literal => match ParseInt literal with inr z => Some z | inl _ => None end
  | VNull => Some 0
  | _ => None
  end.

(** [time.Time]; its zero value is year one. *)
Definition as_time (v : value) : option Z :=
  match v with VString s => ParseRFC3339 s | VNull => Some (Date 1 1 1 0 0 0 0) | _ => None end.

(** ** faketest.go *)

Record Execution := mkExecution_ {
  e_Sequence : Z;
  e_CorrelationID : string;
  e_ResourceID : string;
  e_Behavior : string;
  e_ReceivedAt : Z;
}.

Definition as_execution (v : value) : option Execution :=
  m ← as_object v;
  sequence ← as_int (field "sequence" m);
  correlation ← as_string (field "correlation_id" m);
  resource ← as_string (field "resource_id" m);
  behavior ← as_string (field "behavior" m);
  received ← as_time (field "received_at" m);
  Some (mkExecution_ sequence correlation resource behavior received).

Definition decode_probe (body : string) : option (list Execution) :=
  v ← Decode body; m ← as_object v; as_list as_execution (field "executions" m).

(** A request on the control port; [query] is what the server reads of the query string. *)
Definition control_request (method : string) (path : list string) (query body : string) : fake_request :=
  mkFakeRequest method path "" query None (decode_script body) (decode_listener body).

(** One exchange with the control port: the transport may fail, and a path that no pattern
    matches is answered by the mux. *)
Definition control (reach : option string) (r : fake_request) : F response :=
  match reach with
  | Some text => throw (errorf text)
  | None =>
      match incoming_of controlMux r with
      | None =>
          match dispatch controlMux (fr_Method r) (fr_Path r) with
          | MethodNotAllowed => mret (mkResponse 405 [] (JRaw ""))
          | _ => mret (mkResponse 404 [] (JRaw ""))
          end
      | Some req =>
          answer ← serve req;
          match answer with Some resp => mret resp | None => throw (errorf "EOF") end
      end
  end.

(** [Fake.post]. *)
Definition post (reach : option string) (path : list string) (body : string) : F unit :=
  resp ← wrapping "post" (control reach (control_request "POST" path "" body));
  if 300 <=? resp_status resp then throw (errorf ("post: " +:+ Itoa (resp_status resp))) else mret tt.

(** No behaviors are a nil slice, which is written [null]. *)
Definition script_body (resourceID : string) (behaviors : list string) : json :=
  JObj [("resource_id", JStr resourceID);
        ("behaviors", match behaviors with [] => JNull | _ => JList (JStr <$> behaviors) end)].

Definition Script (reach : option string) (resourceID : string) (behaviors : list string) : F unit :=
  match Marshal (script_body resourceID behaviors) with
  | inl e => throw (wrap "encode script" e)
  | inr body => post reach ["control"; "script"] body
  end.

Definition SetListener (reach : option string) (to : bool) : F unit :=
  match Marshal (JObj [("up", JBool to)]) with
  | inl e => throw (wrap "encode listener" e)
  | inr body => post reach ["control"; "listener"] body
  end.

(** [Fake.Executions]; the identifier goes into the query as it is. *)
Definition Executions_of (reach : option string) (query : string → string) (correlationID : string) : F (list Execution) :=
  resp ← wrapping "probe" (control reach
    (control_request "GET" ["probe"] (if String.eqb correlationID "" then "" else query correlationID) ""));
  match decode_probe (marshal (resp_body resp)) with
  | None => throw (errorf "decode probe")
  | Some executions => mret executions
  end.

(** The lines of a text, as [bufio.Scanner] gives them: without the newline and a carriage
    return before it, and the last one although no newline ends it. *)
Fixpoint lines_from (line : list Ascii.ascii) (s : string) : list string :=
  let text := String.string_of_list_ascii
    (match line with c :: r => if byte_val c =? 13 then reverse r else reverse line | [] => [] end) in
  match s with
  | EmptyString => match line with [] => [] | _ => [text] end
  | String c r => if byte_val c =? 10 then text :: lines_from [] r else lines_from (c :: line) r
  end.

Definition scanned_lines (s : string) : list string := lines_from [] s.

(** [strings.Cut(line, "=")]. *)
Fixpoint Cut_equals (s : string) : option (string * string) :=
  match s with
  | EmptyString => None
  | String c r => if byte_val c =? 61 then Some ("", r) else '(before, rest) ← Cut_equals r; Some (String c before, rest)
  end.

(** The loop of [readAddresses]: until there are two. *)
Fixpoint scan_addresses (lines : list string) (addrs : gmap string string) : gmap string string :=
  if (2 <=? size addrs)%nat then addrs
  else
    match lines with
    | [] => addrs
    | line :: rest =>
        match Cut_equals line with
        | None => scan_addresses rest addrs
        | Some (key, value) => scan_addresses rest (<[key := value]> addrs)
        end
    end.

(** [readAddresses]; [timely] is that the output came before the timeout. *)
Definition readAddresses (timely : bool) (stdout : string) : goerr + gmap string string :=
  if timely then
    let addrs := scan_addresses (scanned_lines stdout) ∅ in
    if (size addrs <? 2)%nat
    then inl (wrap "read fake addresses" (errorf ("fake reported " +:+ Itoa (Z.of_nat (size addrs)) +:+ " addresses, want 2")))
    else inr addrs
  else inl (errorf "fake did not report addresses within 20s").

Record Fake := mkFakeHandle { DataURL : string; ControlURL : string; LedgerPath : string }.

(** [Fake.LedgerLines], of the text of the file. *)
Fixpoint split_lines (line : string) (s : string) : list string :=
  match s with
  | EmptyString => [line]
  | String c r => if byte_val c =? 10 then line :: split_lines "" r else split_lines (line +:+ String c "") r
  end.

Definition LedgerLines (raw : string) : list string :=
  let trimmed := TrimSpace raw in
  if String.eqb trimmed "" then [] else split_lines "" trimmed.

(** ** The process of cmd/fakedownstream *)

Record fake_flags := mkFakeFlags { fl_data : string; fl_control : string; fl_ledger : string; fl_durable : bool }.

(** What the operating system answers at start-up: the ledger's text or why it does not open,
    and the addresses bound. *)
Record fake_os := mkFakeOS { os_ledger : goerr + string; os_data : goerr + string; os_control : goerr + string }.

(** [newSwitchableListener]. *)
Definition newSwitchableListener (bind : string) (bound : goerr + string) : goerr + switchableListener :=
  match bound with
  | inl e => inl (wrap ("bind " +:+ bind) e)
  | inr a => inr (mkListener a true)
  end.

Definition newScripts : scripts := ∅.

(** [run] up to the serving of the control port: the fake and what is printed. *)
Definition run_fake (flags : fake_flags) (os : fake_os) (io : list file_io) (net : list (option string)) (clock : nat → Z) :
    goerr + (fake * string) :=
  if String.eqb (fl_ledger flags) "" then inl (errorf "-ledger is required")
  else
    match os_ledger os with
    | inl e => inl (wrap ("open ledger " +:+ fl_ledger flags) e)
    | inr text =>
        let records := openLedger text (fl_durable flags) in
        match newSwitchableListener (fl_data flags) (os_data os) with
        | inl e => inl e
        | inr data =>
            match os_control os with
            | inl e => inl (wrap ("bind " +:+ fl_control flags) e)
            | inr control =>
                inr (mkFake records newScripts data io net clock,
                     "data=" +:+ addr data +:+ newline +:+ "control=" +:+ control +:+ newline)
            end
        end
    end.

(** [start], once the binary is built: the flags it passes, and the handle. *)
Definition start_flags (ledger : string) (durable : bool) : fake_flags := mkFakeFlags "127.0.0.1:0" "127.0.0.1:0" ledger durable.

Definition handle_of (ledger : string) (addrs : gmap string string) : Fake :=
  mkFakeHandle ("http://" +:+ default "" (addrs !! "data")) ("http://" +:+ default "" (addrs !! "control")) ledger.

Definition start (ledger : string) (durable timely : bool) (os : fake_os) (io : list file_io) (net : list (option string))
    (clock : nat → Z) : goerr + (Fake * fake) :=
  match run_fake (start_flags ledger durable) os io net clock with
  | inl _ => inl (wrap "read fake addresses" (errorf "fake reported 0 addresses, want 2"))
  | inr (f, stdout) =>
      match readAddresses timely stdout with
      | inl e => inl e
      | inr addrs => inr (handle_of ledger addrs, f)
      end
  end.

(** ** What the fake has recorded *)

(** The times json.Marshal took are within the years it writes. *)
Definition writable (t : Z) : Prop := let '(year, _, _) := date t in 0 <= year < 10000.

Definition dated (l : ledger) : Prop := Forall (λ e, writable (x_ReceivedAt e)) (l_records l).

Lemma record_dated io e l : dated l → dated (record io e l).2.
Proof.
  intros Hd. unfold record, encode_execution. set (e' := set_sequence _ e).
  assert (Hw : let '(year, _, _) := date (x_ReceivedAt e') in (0 <=? year) && (year <=? 9999) = true → writable (x_ReceivedAt e')).
  { unfold writable. destruct (date (x_ReceivedAt e')) as [[year m] d]. intros [H0%Z.leb_le H1%Z.leb_le]%andb_true_iff. lia. }
  destruct (date (x_ReceivedAt e')) as [[year m] d]. destruct ((0 <=? year) && (year <=? 9999)); [|done].
  unfold Marshal. replace (raws_valid (execution_json e')) with true by done.
  assert (Hnew : dated (remembered e' (appended (marshal (execution_json e') +:+ newline) l))).
  { apply Forall_app. split; [done|]. apply Forall_singleton. by apply Hw. }
  destruct io as [|n text|text]; [exact Hnew|done|]. simpl. by destruct (l_durable l).
Qed.

Lemma handleExecute_ledger body id f :
  f_ledger (handleExecute body id f).2 = f_ledger f ∨ ∃ io e, f_ledger (handleExecute body id f).2 = (record io e (f_ledger f)).2.
Proof.
  unfold handleExecute. destruct body as [req|]; [|by left]. unfold mbind, St_bind, fake_pop.
  destruct (pop_script (q_ID req) (f_scripts f)) as [b s]. destruct (String.eqb b behaviorRefuse); [by left|].
  right. unfold fake_now, try, fake_record. simpl. eexists _, _.
  match goal with |- context [record ?io ?e ?l] => destruct (record io e l) as [[err|e'] l'] eqn:Hr end; simpl; [by rewrite Hr|].
  destruct (String.eqb b behaviorBusinessFailure); [|destruct (String.eqb b behaviorHang)]; by rewrite Hr.
Qed.

Lemma serve_dated r f : dated (f_ledger f) → dated (f_ledger (serve r f).2).
Proof.
  intros Hd. destruct r as [body id|id|[[rid l]|]|[to|]]; try exact Hd.
  - simpl. destruct (handleExecute_ledger body id f) as [->|(io & e & ->)]; [done|by apply record_dated].
  - simpl. unfold fmap, St_fmap, handleListener, mbind, St_bind, try.
    pose proof (toggle_ledger to f) as Hl. destruct ((if to then up else down) f) as [[e|u] f1]; simpl in *; by rewrite Hl.
Qed.

Lemma serve_all_dated l : ∀ f, dated (f_ledger f) → dated (f_ledger (serve_all l f)).
Proof. induction l as [|r l IH]; intros f Hd; [done|]. by apply IH, serve_dated. Qed.

(** ** Reading the bodies *)

(** Items of one depth. *)
Lemma deepest_level n l : 0 <= n → Forall (λ j, nesting j = Some n) l → l ≠ [] → deepest (nesting <$> l) = Some n.
Proof.
  intros Hn Hl. induction Hl as [|j l Hj Hl IH]; [done|]. intros _. rewrite fmap_cons, Hj.
  change (deepest (Some n :: ?l)) with (match deepest l with Some y => Some (Z.max n y) | None => None end).
  destruct l as [|k l]; [simpl; f_equal; lia|]. rewrite IH by done. f_equal. lia.
Qed.

(** A struct of one list field, nothing else in it being nested. *)
Lemma decode_script_body resourceID behaviors :
  decode_script (marshal (script_body resourceID behaviors)) = Some (coerced resourceID, coerced <$> behaviors).
Proof.
  unfold script_body. set (items := match behaviors with [] => JNull | _ => JList (JStr <$> behaviors) end).
  assert (Hitems : as_list as_string (read_back items) = Some (coerced <$> behaviors)).
  { unfold items. destruct behaviors; [done|]. apply mapM_as_string. }
  assert (Hn : ∃ n, nesting items = Some n ∧ 0 <= n <= 1).
  { unfold items. destruct behaviors as [|b l]; [by exists 0|]. exists 1. split; [|done].
    change (nesting (JList ?l)) with (Z.succ <$> deepest (nesting <$> l)). rewrite (deepest_level 0); [done..| |done].
    apply Forall_fmap, Forall_forall. done. }
  clearbody items. destruct Hn as (n & Hn & Hle). unfold decode_script.
  rewrite (marshal_reads _ (n + 1)); [|rewrite nesting_obj; cbn [fmap list_fmap snd]; rewrite Hn; simpl; f_equal; lia|unfold maxNestingDepth; lia].
  cbn [mbind option_bind]. rewrite read_back_obj.
  change (merge_sort field_le _) with [("behaviors", items); ("resource_id", JStr resourceID)].
  change (read_back (JStruct _)) with (VObject [("behaviors", read_back items); ("resource_id", VString (coerced resourceID))]).
  cbn [as_object mbind option_bind].
  change (field "resource_id" _) with (VString (coerced resourceID)). change (field "behaviors" _) with (read_back items).
  cbn [as_string mbind option_bind]. by rewrite Hitems.
Qed.

Lemma decode_listener_body (to : bool) : decode_listener (marshal (JObj [("up", JBool to)])) = Some to.
Proof. by destruct to. Qed.

(** [strconv.ParseInt] reads what [strconv.Itoa] writes. *)
Lemma digits_value_pretty x : ∀ s acc, ∃ k, 0 <= k ∧ digits_value acc (pretty_N_go x s) = digits_value (acc * 10 ^ k + Z.of_N x) s.
Proof.
  induction (N.lt_wf_0 x) as [x _ IH]; intros s acc. destruct (decide (x = 0)%N) as [->|Hx].
  { exists 0. split; [done|]. rewrite pretty_N_go_0. f_equal. lia. }
  rewrite pretty_N_go_step by lia.
  destruct (IH (x / 10)%N ltac:(apply N.div_lt; lia) (String (pretty_N_char (x mod 10)) s) acc) as (k & Hk & ->).
  exists (k + 1). split; [lia|]. cbn [digits_value].
  assert (Hd : digit_of (pretty_N_char (x mod 10)) = Some (Z.of_N (x mod 10))).
  { assert (Hlt : (x mod 10 < 10)%N) by (by apply N.mod_lt). revert Hlt. generalize (x mod 10)%N. intros d Hd.
    assert (d = 0 ∨ d = 1 ∨ d = 2 ∨ d = 3 ∨ d = 4 ∨ d = 5 ∨ d = 6 ∨ d = 7 ∨ d = 8 ∨ d = 9)%N as Hc by lia.
    by repeat destruct Hc as [->|Hc]; [..|subst d]. }
  rewrite Hd. f_equal. rewrite Z.pow_add_r by lia. pose proof (N.div_mod x 10 ltac:(done)). lia.
Qed.

Lemma ParseInt_Itoa z : 0 <= z <= int64_max → ParseInt (Itoa z) = inr z.
Proof.
  intros Hz. destruct z as [|x|x]; [done| |lia]. change (Itoa (Z.pos x)) with (pretty (N.pos x)).
  destruct (pretty_digits (N.pos x) "" ltac:(done)) as (c & r & Hp & Hc & _). rewrite append_nil_r in Hp.
  destruct (digits_value_pretty (N.pos x) "" 0) as (k & _ & Hv). rewrite Hp in Hv.
  assert (pretty (N.pos x) = String c r) as -> by exact Hp.
  unfold ParseInt. rewrite (proj2 (Z.eqb_neq (byte_val c) 45)), (proj2 (Z.eqb_neq (byte_val c) 43)) by lia.
  cbn [unsigned_value]. rewrite Hv. cbn [digits_value]. replace (0 * 10 ^ k + Z.of_N (N.pos x)) with (Z.pos x) by lia.
  rewrite decide_True; [done|]. unfold int64_min in *. lia.
Qed.

(** An execution as a test sees it. *)
Definition seen_of (e : execution) : Execution :=
  mkExecution_ (x_Sequence e) (coerced (x_CorrelationID e)) (coerced (x_ResourceID e)) (coerced (x_Behavior e)) (x_ReceivedAt e).

Lemma is_ascii_app a b : is_ascii (a +:+ b) = is_ascii a && is_ascii b.
Proof. induction a as [|c a IH]; [done|]. simpl. by rewrite IH, andb_assoc. Qed.

Lemma is_ascii_digits l : is_digits l → is_ascii (digits_text l) = true.
Proof.
  intros Hl. induction Hl as [|d l Hd _ IH]; [done|]. unfold digits_text. simpl.
  rewrite byte_of_val by lia. rewrite (proj2 (Z.ltb_lt (48 + d) 128)) by lia. exact IH.
Qed.

(** The text of a time is ASCII. *)
Lemma is_ascii_time t : writable t → coerced (FormatRFC3339Nano t) = FormatRFC3339Nano t.
Proof.
  intros Hw. apply coerced_ascii. unfold FormatRFC3339Nano, seconds_text. unfold writable in Hw.
  destruct (date t) as [[y m] d], (clock_of t) as [[hour min] sec].
  assert (Hy : is_ascii (year_text y) = true).
  { unfold year_text. rewrite (proj2 (Z.ltb_ge y 0)), (proj2 (Z.ltb_lt y 10000)) by lia. apply is_ascii_digits, fixed_digits_ok. }
  assert (H2 : ∀ n, is_ascii (two_text n) = true) by (intros n; apply is_ascii_digits, fixed_digits_ok).
  assert (Hf : is_ascii (fraction_text (nanosecond t)) = true).
  { unfold fraction_text. destruct (trim_zeros_spec (fixed_digits 9 (nanosecond t))) as [j Hj].
    pose proof (fixed_digits_ok 9 (nanosecond t)) as Hok. rewrite Hj in Hok. apply Forall_app in Hok as [Hok _].
    destruct (trim_zeros _) as [|x l]; [done|]. change ("." +:+ digits_text (x :: l)) with (String "." (digits_text (x :: l))).
    change (is_ascii (String "." ?r)) with (is_ascii r). by apply is_ascii_digits. }
  by rewrite !is_ascii_app, Hy, !H2, Hf.
Qed.

Lemma as_execution_read e : 0 <= x_Sequence e <= int64_max → writable (x_ReceivedAt e) →
  as_execution (read_back (execution_json e)) = Some (seen_of e).
Proof.
  intros Hs Ht. unfold execution_json. set (time := FormatRFC3339Nano _).
  change (read_back _) with (VObject [("sequence", VNumber (Itoa (x_Sequence e))); ("correlation_id", VString (coerced (x_CorrelationID e)));
    ("resource_type", VString (coerced (x_ResourceType e))); ("resource_id", VString (coerced (x_ResourceID e)));
    ("operation", VString (coerced (x_Operation e))); ("behavior", VString (coerced (x_Behavior e)));
    ("received_at", VString (coerced time))]).
  set (m := [_; _; _; _; _; _; _]). unfold as_execution. cbn [as_object mbind option_bind].
  change (field "sequence" m) with (VNumber (Itoa (x_Sequence e))).
  change (field "correlation_id" m) with (VString (coerced (x_CorrelationID e))).
  change (field "resource_id" m) with (VString (coerced (x_ResourceID e))).
  change (field "behavior" m) with (VString (coerced (x_Behavior e))).
  change (field "received_at" m) with (VString (coerced time)).
  cbn [as_int as_string as_time mbind option_bind]. rewrite ParseInt_Itoa by done. cbn [mbind option_bind].
  unfold time. rewrite is_ascii_time by done. unfold writable in Ht. destruct (date (x_ReceivedAt e)) as [[y mo] d] eqn:Hd.
  rewrite (parse_format _ _ _ _ Hd Ht). done.
Qed.

Lemma nesting_probe found : ∃ n, nesting (probe_json found) = Some n ∧ n <= 3.
Proof.
  unfold probe_json. rewrite nesting_obj. destruct found as [|e l]; [by exists 1|]. exists 3. split; [|done].
  assert (Hd : deepest (nesting <$> (execution_json <$> e :: l)) = Some 1).
  { apply deepest_level; [done| |done]. apply Forall_fmap, Forall_forall. done. }
  revert Hd. generalize (execution_json <$> e :: l). intros items Hd.
  cbn [fmap list_fmap snd]. change (nesting (JList ?l)) with (Z.succ <$> deepest (nesting <$> l)). by rewrite Hd.
Qed.

Lemma probe_read found : Forall (λ e, 0 <= x_Sequence e <= int64_max ∧ writable (x_ReceivedAt e)) found →
  decode_probe (marshal (probe_json found)) = Some (seen_of <$> found).
Proof.
  intros Hall. destruct (nesting_probe found) as (n & Hn & Hle). unfold decode_probe.
  rewrite (marshal_reads _ n Hn ltac:(unfold maxNestingDepth; lia)). cbn [mbind option_bind].
  unfold probe_json. rewrite read_back_obj.
  set (executions := match found with [] => JNull | _ => JList (execution_json <$> found) end).
  change (merge_sort field_le _) with [("count", JInt (Z.of_nat (length found))); ("executions", executions)].
  change (read_back _) with (VObject [("count", VNumber (Itoa (Z.of_nat (length found)))); ("executions", read_back executions)]).
  cbn [as_object mbind option_bind]. change (field "executions" _) with (read_back executions).
  assert (Hitems : mapM as_execution (read_back <$> (execution_json <$> found)) = Some (seen_of <$> found)).
  { clear executions Hn. induction Hall as [|e l [Hs Ht] _ IH]; [done|]. rewrite !fmap_cons. cbn [mapM].
    rewrite as_execution_read by done. cbn [mbind option_bind]. by rewrite IH. }
  unfold executions. destruct found; [done|exact Hitems].
Qed.

(** ** What a test does and sees *)

Lemma control_script body rid behaviors f : decode_script body = Some (rid, behaviors) →
  control None (control_request "POST" ["control"; "script"] "" body) f =
    (inr (mkResponse 204 [] (JRaw "")), put_scripts (install rid behaviors (f_scripts f)) f).
Proof.
  intros Hd. unfold control. replace (incoming_of _ _) with (Some (InScript (decode_script body))) by reflexivity.
  by rewrite Hd.
Qed.

Lemma control_listener body f to : decode_listener body = Some to →
  control None (control_request "POST" ["control"; "listener"] "" body) f = handleListener (Some to) f.
Proof.
  intros Hd. unfold control. replace (incoming_of _ _) with (Some (InListener (decode_listener body))) by reflexivity.
  rewrite Hd. unfold serve, fmap, St_fmap, mbind, St_bind. by destruct (handleListener (Some to) f) as [[e|resp] f'].
Qed.

Lemma control_probe query f :
  control None (control_request "GET" ["probe"] query "") f = (inr (writeJSON 200 (probe_json (byCorrelation query (f_ledger f)))), f).
Proof.
  unfold control. by replace (incoming_of _ _) with (Some (InProbe query)) by reflexivity.
Qed.

Lemma Script_installs resourceID behaviors f :
  Script None resourceID behaviors f =
    (inr tt, put_scripts (install (coerced resourceID) (coerced <$> behaviors) (f_scripts f)) f).
Proof.
  unfold Script. assert (Hm : Marshal (script_body resourceID behaviors) = inr (marshal (script_body resourceID behaviors))).
  { unfold Marshal. replace (raws_valid _) with true; [done|]. symmetry. unfold script_body. destruct behaviors as [|b l]; [done|].
    simpl. induction l as [|c l IH]; [done|exact IH]. }
  rewrite Hm. unfold post, wrapping, mbind, St_bind. by rewrite (control_script _ _ _ _ (decode_script_body resourceID behaviors)).
Qed.

(** A listener that switches serves as asked; one that does not stays, and the test fails. *)
Lemma SetListener_switches to f :
  let '(r, f') := SetListener None to f in
  f_ledger f' = f_ledger f ∧ f_scripts f' = f_scripts f ∧
  match r with
  | inr _ => serving (f_listener f') = to ∧ addr (f_listener f') = addr (f_listener f)
  | inl _ => f_listener f' = f_listener f
  end.
Proof.
  unfold SetListener, post, wrapping, mbind, St_bind.
  replace (Marshal _) with (inr (A := goerr) (marshal (JObj [("up", JBool to)]))) by (by destruct to).
  rewrite (control_listener _ _ _ (decode_listener_body to)). unfold handleListener, mbind, St_bind, try.
  unfold up, down, gets, mbind, St_bind, wrapping. destruct f as [l s [a on] io [|[text|] net] clock], to, on; simpl; done.
Qed.

(** A probe by a test: nothing changes, and the executions come as they were recorded. *)
Lemma Executions_read query id f : query id = id →
  Forall (λ e, 0 <= x_Sequence e <= int64_max ∧ writable (x_ReceivedAt e)) (byCorrelation id (f_ledger f)) →
  Executions_of None query id f = (inr (seen_of <$> byCorrelation id (f_ledger f)), f).
Proof.
  intros Hq Hall. unfold Executions_of, wrapping, mbind, St_bind. rewrite control_probe, Hq.
  assert (Hid : (if String.eqb id "" then "" else id) = id) by (by destruct (String.eqb_spec id "")).
  rewrite Hid. cbn [writeJSON resp_body]. by rewrite probe_read.
Qed.

Lemma serve_records r f : (length (l_records (f_ledger (serve r f).2)) <= S (length (l_records (f_ledger f))))%nat.
Proof.
  destruct r as [body id|id|[[rid l]|]|[to|]]; try (simpl; lia).
  - simpl. destruct (handleExecute_ledger body id f) as [->|(io & e & ->)]; [lia|].
    pose proof (record_cases io e (f_ledger f)) as Hr. destruct (record io e (f_ledger f)) as [[err|e'] l']; simpl.
    + destruct Hr as [text ->]. simpl. lia.
    + destruct Hr as [[_ ->] _]. simpl. rewrite length_app. simpl. lia.
  - simpl. unfold fmap, St_fmap, handleListener, mbind, St_bind, try.
    pose proof (toggle_ledger to f) as Hl. destruct ((if to then up else down) f) as [[e|u] f1]; simpl in *; rewrite Hl; lia.
Qed.

Lemma serve_all_records history : ∀ f,
  (length (l_records (f_ledger (serve_all history f))) <= length history + length (l_records (f_ledger f)))%nat.
Proof.
  induction history as [|r history IH]; intros f; simpl; [lia|]. pose proof (IH (serve r f).2). pose proof (serve_records r f). lia.
Qed.

(** After any requests what a probe finds can be read back. *)
Lemma found_readable prior durable f0 history id : f_ledger f0 = openLedger prior durable → Z.of_nat (length history) <= int64_max →
  Forall (λ e, 0 <= x_Sequence e <= int64_max ∧ writable (x_ReceivedAt e)) (byCorrelation id (f_ledger (serve_all history f0))).
Proof.
  intros Hf Hlen. set (l := f_ledger _).
  assert (Hok : ledger_ok prior l) by (apply serve_all_ledger; rewrite Hf; apply openLedger_ok).
  assert (Hdated : dated l) by (apply serve_all_dated; rewrite Hf; apply Forall_nil_2).
  assert (Hall : Forall (λ e, 0 <= x_Sequence e <= int64_max ∧ writable (x_ReceivedAt e)) (l_records l)).
  { apply Forall_lookup. intros i e He. split; [|by eapply Forall_lookup_1 in Hdated].
    rewrite (lo_sequence _ _ Hok i e He). apply lookup_lt_Some in He.
    pose proof (serve_all_records history f0) as Hn. fold l in Hn. rewrite Hf in Hn. simpl in Hn. lia. }
  unfold byCorrelation. destruct (String.eqb id ""); [done|]. rewrite (lo_index _ _ Hok).
  apply Forall_forall. intros e [_ He]%list_elem_of_filter. by eapply Forall_forall in Hall.
Qed.

(** What executing adds to what a probe finds. *)
Lemma execute_scripted req id left b f :
  pop_script (q_ID req) (f_scripts f) = (b, left) → b ≠ behaviorRefuse → default WriteOk (head (f_io f)) = WriteOk →
  writable (f_clock f 0%nat) →
  let e := mkExecution (Z.of_nat (length (l_records (f_ledger f))) + 1) id (q_Type req) (q_ID req) (q_Op req) b (f_clock f 0%nat) in
  f_ledger (handleExecute (Some req) id f).2 = remembered e (appended (line_of e) (f_ledger f)).
Proof.
  intros Hpop Hb Hio Hw e.
  assert (He : encode_execution e = inr (marshal (execution_json e))).
  { unfold encode_execution. change (x_ReceivedAt e) with (f_clock f 0%nat). unfold writable in Hw.
    destruct (date (f_clock f 0%nat)) as [[y m] d]. by rewrite (proj2 (Z.leb_le 0 y)), (proj2 (Z.leb_le y 9999)) by lia. }
  set (sent := mkExecution 0 id (q_Type req) (q_ID req) (q_Op req) b (f_clock f 0%nat)).
  assert (Hr : record WriteOk sent (f_ledger f) = (inr e, remembered e (appended (line_of e) (f_ledger f)))).
  { unfold record. change (set_sequence _ sent) with e. by rewrite He. }
  unfold handleExecute, mbind, St_bind, fake_pop. rewrite Hpop, (proj2 (String.eqb_neq b behaviorRefuse)) by done.
  unfold fake_now, try, fake_record. cbn [f_io f_ledger f_clock put_scripts]. rewrite Hio. fold sent. rewrite Hr.
  destruct (String.eqb b behaviorBusinessFailure); [|destruct (String.eqb b behaviorHang)]; done.
Qed.

(** An address has no line break in it. *)
Fixpoint one_line (s : string) : bool :=
  match s with EmptyString => true | String c r => negb (byte_val c =? 10) && negb (byte_val c =? 13) && one_line r end.

Lemma lines_from_step a : ∀ line rest, one_line a = true → Forall (λ c, byte_val c ≠ 13) line →
  lines_from line (a +:+ newline +:+ rest) =
    (String.string_of_list_ascii (reverse line) +:+ a) :: lines_from [] rest.
Proof.
  induction a as [|c a IH]; intros line rest Ha Hline.
  - assert (Hnl : newline = String (Ascii.ascii_of_nat 10) "") by reflexivity. rewrite append_nil_r, Hnl. simpl. f_equal.
    destruct line as [|d l]; [done|]. apply Forall_cons in Hline as [Hd _]. by rewrite (proj2 (Z.eqb_neq _ _) Hd).
  - simpl in Ha. apply andb_true_iff in Ha as [[H10 H13]%andb_true_iff Ha]. rewrite negb_true_iff in H10, H13.
    change (String c a +:+ newline +:+ rest) with (String c (a +:+ newline +:+ rest)). cbn [lines_from]. rewrite H10.
    rewrite (IH (c :: line) rest Ha); [|constructor; [by apply Z.eqb_neq|done]]. f_equal. rewrite reverse_cons.
    generalize (reverse line). clear. intros l. induction l as [|d l IHl]; [done|].
    change (String d (String.string_of_list_ascii (l ++ [c]) +:+ a) = String d (String.string_of_list_ascii l +:+ String c a)). by f_equal.
Qed.

(** The handle holds the addresses the process printed. *)
Lemma start_reads ledger durable text bind_data bind_control io net clock :
  ledger ≠ "" → one_line bind_data = true → one_line bind_control = true →
  start ledger durable true (mkFakeOS (inr text) (inr bind_data) (inr bind_control)) io net clock =
    inr (mkFakeHandle ("http://" +:+ bind_data) ("http://" +:+ bind_control) ledger,
         mkFake (openLedger text durable) newScripts (mkListener bind_data true) io net clock).
Proof.
  intros Hl Hd Hc. unfold start, run_fake, start_flags. cbn [fl_ledger fl_data fl_control fl_durable os_ledger os_data os_control].
  rewrite (proj2 (String.eqb_neq ledger "")) by done. cbn [newSwitchableListener addr]. unfold readAddresses, scanned_lines.
  assert (Hlines : lines_from [] ("data=" +:+ bind_data +:+ newline +:+ "control=" +:+ bind_control +:+ newline) =
    ["data=" +:+ bind_data; "control=" +:+ bind_control]).
  { rewrite <- (append_assoc "data=" bind_data), <- (append_assoc "control=" bind_control).
    rewrite <- (append_nil_r newline) at 2. rewrite !lines_from_step; done. }
  rewrite Hlines.
  set (addrs := scan_addresses _ ∅).
  assert (Hsize : size addrs = 2%nat) by (by vm_compute).
  assert (Hdata : addrs !! "data" = Some bind_data) by (by vm_compute).
  assert (Hcontrol : addrs !! "control" = Some bind_control) by (by vm_compute).
  rewrite Hsize. change (2 <? 2)%nat with false. cbv iota zeta. unfold handle_of. by rewrite Hdata, Hcontrol.
Qed.

(** C34: the client the tests use tells the truth.  The handle [start] gives holds the addresses the
    fake bound and printed.  After any requests to it, on a fresh or an old ledger: [Script] installs, through its JSON,
    the behaviours under the resource and leaves the rest; [SetListener] leaves the listener as asked, or fails and leaves it as it was,
    and never touches the ledger; [Executions] changes nothing and gives the executions of the identifier (all
    of them for none), in order, with the fields as recorded; and an execution of the resource
    just scripted appears there, last, with the next number and the behaviour scripted, unless that is to refuse. *)
Theorem harness_truthful (ledger prior data control : string) (durable : bool) io net clock (history : list incoming)
    (query : string → string) :
  ledger ≠ "" → one_line data = true → one_line control = true → Z.of_nat (length history) < int64_max →
  ∃ f0, start ledger durable true (mkFakeOS (inr prior) (inr data) (inr control)) io net clock =
    inr (mkFakeHandle ("http://" +:+ data) ("http://" +:+ control) ledger, f0) ∧
  let f := serve_all history f0 in
  (∀ resourceID behaviors, Script None resourceID behaviors f =
    (inr tt, put_scripts (install (coerced resourceID) (coerced <$> behaviors) (f_scripts f)) f)) ∧
  (∀ to, let '(r, f') := SetListener None to f in
    f_ledger f' = f_ledger f ∧
    match r with inr _ => serving (f_listener f') = to | inl _ => f_listener f' = f_listener f end) ∧
  (∀ id, query id = id → Executions_of None query id f =
    (inr (seen_of <$> match id with EmptyString => l_records (f_ledger f) | _ => executions_of id f end), f)) ∧
  (∀ id behavior rest req, query id = id → let b := coerced behavior in b ≠ behaviorRefuse →
    default WriteOk (head (f_io f)) = WriteOk → writable (f_clock f 0%nat) →
    let f1 := (Script None (q_ID req) (behavior :: rest) f).2 in
    coerced (q_ID req) = q_ID req →
    let f2 := (serve (InExecute (Some req) id) f1).2 in
    (Executions_of None query id f2).1 = inr ((seen_of <$> byCorrelation id (f_ledger f)) ++
      [mkExecution_ (Z.of_nat (length (l_records (f_ledger f))) + 1) (coerced id) (q_ID req) (coerced b) (f_clock f 0%nat)])).
Proof.
  intros Hpath Hd Hc Hlen. eexists. split; [by apply start_reads|]. set (f0 := mkFake _ _ _ _ _ _). intros f.
  assert (Hf : f_ledger f0 = openLedger prior durable) by done.
  assert (Hok : ledger_ok prior (f_ledger f)) by (apply serve_all_ledger; rewrite Hf; apply openLedger_ok).
  split_and!.
  - intros resourceID behaviors. apply Script_installs.
  - intros to. pose proof (SetListener_switches to f) as Hs. destruct (SetListener None to f) as [[e|u] f']; naive_solver.
  - intros id Hq. rewrite (Executions_read query id f Hq) by (by eapply found_readable; [|lia]).
    unfold byCorrelation, executions_of. destruct id as [|c s]; [done|]. by rewrite <- (lo_index _ _ Hok).
  - intros id behavior rest req Hq b Hb Hio Hw f1 Hr f2.
    assert (Hf1 : f1 = put_scripts (install (q_ID req) (b :: (coerced <$> rest)) (f_scripts f)) f).
    { unfold f1. rewrite Script_installs, Hr. done. }
    set (e := mkExecution (Z.of_nat (length (l_records (f_ledger f))) + 1) id (q_Type req) (q_ID req) (q_Op req) b (f_clock f 0%nat)).
    assert (Hl : f_ledger f2 = remembered e (appended (line_of e) (f_ledger f))).
    { unfold f2. simpl. rewrite Hf1. apply (execute_scripted req id (<[q_ID req := coerced <$> rest]> (install (q_ID req) (b :: (coerced <$> rest)) (f_scripts f))) b
        (put_scripts (install (q_ID req) (b :: (coerced <$> rest)) (f_scripts f)) f)); [|done..].
      unfold pop_script, install. simpl. by rewrite lookup_insert_eq. }
    assert (Hfound : byCorrelation id (f_ledger f2) = byCorrelation id (f_ledger f) ++ [e]).
    { rewrite Hl. change (byCorrelation id (f_ledger f)) with (byCorrelation id (appended (line_of e) (f_ledger f))).
      unfold byCorrelation. destruct (String.eqb id ""); [done|]. simpl. by rewrite lookup_insert_eq. }
    rewrite (Executions_read query id f2 Hq).
    + rewrite Hfound, fmap_app. unfold e, seen_of. simpl. by rewrite Hr.
    + rewrite Hfound. apply Forall_app. split; [by eapply found_readable; [|lia]|]. apply Forall_singleton. split; [|done].
      pose proof (serve_all_records history f0) as Hn. fold f in Hn. rewrite Hf in Hn. simpl in Hn |- *. lia.
Qed.

(** A test starts the fake on an old ledger and scripts a failure, the gateway's call is executed, and the test
    reads it back. *)
Lemma harness_truthful_witness : ∃ handle f0,
  start "ledger.jsonl" true true (mkFakeOS (inr "old") (inr "127.0.0.1:1") (inr "127.0.0.1:2")) [] [] (λ _, 0) = inr (handle, f0) ∧
  let f := (Script None "7" ["business-failure"] f0).2 in
  let f2 := (serve (InExecute (Some (mkExecuteRequest "subscription" "7" "pause" "{}")) "c") f).2 in
  (Executions_of None id "c" f2).1 = inr [mkExecution_ 1 "c" "7" "business-failure" 0].
Proof.
  destruct (harness_truthful "ledger.jsonl" "old" "127.0.0.1:1" "127.0.0.1:2" true [] [] (λ _, 0) [] id) as (f0 & Hs & _ & _ & _ & H);
    [done|done|done|by vm_compute|].
  eexists _, f0. split; [exact Hs|].
  rewrite start_reads in Hs by done. injection Hs as <-.
  exact (H "c" "business-failure" [] (mkExecuteRequest "subscription" "7" "pause" "{}") eq_refl ltac:(by vm_compute) eq_refl
    ltac:(by vm_compute) eq_refl).
Defined.
