(* ===== verification/AlertSink.v ===== *)
(** * AlertSink: cmd/alertsink

    The receiver at the end of the alerting chain: it keeps the notifications Alertmanager sends,
    lists them for the drill and forgets them on request.  A handler holds the mutex of the sink
    while it reads or writes it, so a history is the list of the requests in the order of
    their turns.  Listening on the port is not modelled. *)

From S2P Require Import Prelude GoString GoHttp World Json JsonDecode JsonRound JsonMarshal.
From S2P Require Import Api.

(** ** The data; a nil slice or map is not an empty one *)

Record alert := mkAlert {
  al_Status : string;
  al_Labels : option (gmap string string);
  al_Annotations : option (gmap string string);
}.

Record notification := mkNotification {
  n_Receiver : string;
  n_Status : string;
  n_Alerts : option (list alert);
}.

Record sink := mkSink { received : option (list notification) }.

Definition empty_sink : sink := mkSink None.

(** ** Reading a notification *)

Definition as_entry (e : string * value) : option (string * string) := s ← as_string e.2; Some (e.1, s).

Definition as_labels (v : value) : option (option (gmap string string)) :=
  match v with
  | VNull => Some None
  | VObject members => entries ← mapM as_entry members; Some (Some (list_to_map entries))
  | _ => None
  end.

Definition as_alert (v : value) : option alert :=
  m ← as_object v;
  status ← as_string (field "status" m);
  labels ← as_labels (field "labels" m);
  annotations ← as_labels (field "annotations" m);
  Some (mkAlert status labels annotations).

Definition as_alerts (v : value) : option (option (list alert)) :=
  match v with VNull => Some None | _ => alerts ← as_list as_alert v; Some (Some alerts) end.

Definition as_notification (v : value) : option notification :=
  m ← as_object v;
  receiver ← as_string (field "receiver" m);
  status ← as_string (field "status" m);
  alerts ← as_alerts (field "alerts" m);
  Some (mkNotification receiver status alerts).

(** ** Writing them *)

Definition or_null {A} (f : A → json) (x : option A) : json := match x with None => JNull | Some a => f a end.

Definition labels_json (m : gmap string string) : json := JObj (prod_map id JStr <$> map_to_list m).

Definition alert_json (a : alert) : json :=
  JStruct [("status", JStr (al_Status a)); ("labels", or_null labels_json (al_Labels a));
           ("annotations", or_null labels_json (al_Annotations a))].

Definition alerts_json (l : list alert) : json := JList (alert_json <$> l).

Definition notification_json (n : notification) : json :=
  JStruct [("receiver", JStr (n_Receiver n)); ("status", JStr (n_Status n)); ("alerts", or_null alerts_json (n_Alerts n))].

Definition notifications_json (l : list notification) : json := JList (notification_json <$> l).

(** ** The handlers *)

Definition malformed_notification : response :=
  mkResponse 400 [("Content-Type", "text/plain; charset=utf-8"); ("X-Content-Type-Options", "nosniff")]
    (JRaw ("malformed notification" +:+ bytes_of_codes [10])).

Definition no_content : response := mkResponse 204 [] (JRaw "").

Definition receive (body : string) (s : sink) : response * sink :=
  match Decode body ≫= as_notification with
  | None => (malformed_notification, s)
  | Some n => (no_content, mkSink (Some (default [] (received s) ++ [n])))
  end.

Definition list_received (s : sink) : response * sink :=
  (writeJSON 200 (JObj [("notifications", or_null notifications_json (received s))]), s).

Definition reset (s : sink) : response * sink := (no_content, mkSink None).

Inductive sink_endpoint := AlertsEndpoint | ReceivedEndpoint | ResetEndpoint.

Definition sinkMux : list (pattern * sink_endpoint) :=
  [(mkPattern "POST" [Literal "alerts"], AlertsEndpoint);
   (mkPattern "GET" [Literal "received"], ReceivedEndpoint);
   (mkPattern "POST" [Literal "reset"], ResetEndpoint)].

Record sink_request := mkSinkRequest { sr_Method : string; sr_Path : list string; sr_Body : string }.

(** What the server answers; [None] where the mux answers by itself. *)
Definition serve_sink (r : sink_request) (s : sink) : option response * sink :=
  match dispatch sinkMux (sr_Method r) (sr_Path r) with
  | Found _ AlertsEndpoint _ => prod_map Some id (receive (sr_Body r) s)
  | Found _ ReceivedEndpoint _ => prod_map Some id (list_received s)
  | Found _ ResetEndpoint _ => prod_map Some id (reset s)
  | _ => (None, s)
  end.

Fixpoint run_sink (requests : list sink_request) (s : sink) : sink :=
  match requests with [] => s | r :: rest => run_sink rest (serve_sink r s).2 end.

(** ** What a reader of the sink finds *)

Definition is_reset (r : sink_request) : bool := bool_decide (sr_Method r = "POST" ∧ sr_Path r = ["reset"]).

(** The notification a request brings, if it does. *)
Definition noted (r : sink_request) : option notification :=
  if decide (sr_Method r = "POST" ∧ sr_Path r = ["alerts"]) then Decode (sr_Body r) ≫= as_notification else None.

(** The requests after the last reset. *)
Fixpoint since_reset (requests : list sink_request) : list sink_request :=
  match requests with
  | [] => []
  | r :: rest => if existsb is_reset (r :: rest) then since_reset rest else r :: rest
  end.

Definition kept (requests : list sink_request) : list notification := omap noted (since_reset requests).

Lemma since_reset_snoc requests r :
  since_reset (requests ++ [r]) = if is_reset r then [] else since_reset requests ++ [r].
Proof.
  induction requests as [|q l IH]; simpl; [by destruct (is_reset r)|].
  rewrite existsb_app. simpl. rewrite orb_false_r, IH. by destruct (is_reset q), (existsb is_reset l), (is_reset r).
Qed.

Lemma kept_snoc requests r :
  kept (requests ++ [r]) = if is_reset r then [] else kept requests ++ match noted r with Some n => [n] | None => [] end.
Proof.
  unfold kept. rewrite since_reset_snoc. destruct (is_reset r); [done|]. rewrite omap_app. simpl. by destruct (noted r).
Qed.

Lemma match_one text path : match_segments [Literal text] path = if decide (path = [text]) then Some [] else None.
Proof.
  destruct path as [|x [|y path]]; simpl; [done| |].
  - destruct (String.eqb_spec text x) as [->|Hne]; [by rewrite decide_True|]. rewrite decide_False; [done|]. by intros [= ->].
  - rewrite decide_False by done. by destruct (String.eqb text x).
Qed.

Lemma post_matches l m : method_matches (mkPattern "POST" l) m = bool_decide (m = "POST").
Proof.
  unfold method_matches. cbn [p_method]. simpl (String.eqb "POST" "GET"). rewrite orb_false_r.
  destruct (String.eqb_spec "POST" m) as [<-|Hne]; [done|]. symmetry. apply bool_decide_eq_false. congruence.
Qed.

(** One request: a reset forgets, a notification is added, and anything else changes nothing. *)
Lemma serve_sink_cases r s :
  (serve_sink r s).2 =
    if is_reset r then empty_sink
    else match noted r with Some n => mkSink (Some (default [] (received s) ++ [n])) | None => s end.
Proof.
  unfold serve_sink, is_reset, noted, dispatch, sinkMux. destruct r as [m p body]. cbn [sr_Method sr_Path sr_Body find_route p_segments path_known].
  rewrite !match_one, !post_matches.
  destruct (decide (m = "POST")) as [->|Hm].
  - rewrite (bool_decide_eq_true_2 ("POST" = "POST")) by done.
    destruct (decide (p = ["alerts"])) as [->|Ha]; [|destruct (decide (p = ["reset"])) as [->|Hr]].
    + simpl. unfold receive. by destruct (Decode body ≫= as_notification).
    + done.
    + rewrite (decide_False (P := "POST" = "POST" ∧ _)) by tauto. rewrite (bool_decide_eq_false_2 (_ ∧ _)) by tauto.
      destruct (decide (p = ["received"])) as [->|]; [done|]. by repeat case_match.
  - rewrite (bool_decide_eq_false_2 (m = "POST")), (bool_decide_eq_false_2 (_ ∧ _)), (decide_False (P := m = "POST" ∧ _)) by tauto.
    destruct (decide (p = ["alerts"])) as [->|]; [done|]. destruct (decide (p = ["received"])) as [->|]; [|by repeat case_match].
    by destruct (method_matches _ m).
Qed.

Lemma run_sink_snoc requests r : ∀ s, run_sink (requests ++ [r]) s = (serve_sink r (run_sink requests s)).2.
Proof. induction requests as [|q l IH]; intros s; [done|]. apply IH. Qed.

Definition held (l : list notification) : option (list notification) := match l with [] => None | _ => Some l end.

Lemma run_sink_kept requests : received (run_sink requests empty_sink) = held (kept requests).
Proof.
  induction requests as [|r l IH] using rev_ind; [done|]. rewrite run_sink_snoc, serve_sink_cases.
  rewrite kept_snoc. destruct (is_reset r); [done|].
  destruct (noted r) as [n|]; simpl; [|by rewrite app_nil_r]. rewrite IH. by destruct (kept l).
Qed.

(** The drill can trust what it reads: after any requests to a new sink, [GET /received] answers
    with the notifications posted since the last reset, every one that decodes, in the order of
    arrival and with nothing else, and reading them changes nothing; a notification is answered
    204 exactly when it was kept. *)
Theorem sink_exact (requests : list sink_request) (body : string) :
  let s := run_sink requests empty_sink in
  serve_sink (mkSinkRequest "GET" ["received"] body) s =
    (Some (writeJSON 200 (JObj [("notifications", or_null notifications_json (held (kept requests)))])), s) ∧
  (∀ n, Decode body ≫= as_notification = Some n →
    (serve_sink (mkSinkRequest "POST" ["alerts"] body) s).1 = Some no_content ∧
    kept (requests ++ [mkSinkRequest "POST" ["alerts"] body]) = kept requests ++ [n]) ∧
  (Decode body ≫= as_notification = None →
    serve_sink (mkSinkRequest "POST" ["alerts"] body) s = (Some malformed_notification, s)).
Proof.
  intros s. unfold serve_sink. cbn [sr_Method sr_Path sr_Body]. split_and!.
  - change (dispatch _ _ _) with (Found (mkPattern "GET" [Literal "received"]) ReceivedEndpoint []). simpl. unfold list_received.
    unfold s. by rewrite <- run_sink_kept.
  - intros n Hn. change (dispatch _ _ _) with (Found (mkPattern "POST" [Literal "alerts"]) AlertsEndpoint []). simpl. unfold receive.
    rewrite Hn. split; [done|]. rewrite kept_snoc. change (is_reset _) with false.
    change (noted _) with (Decode body ≫= as_notification). by rewrite Hn.
  - intros Hn. change (dispatch _ _ _) with (Found (mkPattern "POST" [Literal "alerts"]) AlertsEndpoint []). simpl. unfold receive.
    by rewrite Hn.
Qed.

Definition page : string := marshal (notification_json (mkNotification "drill" "firing"
  (Some [mkAlert "firing" (Some {["alertname" := "IndeterminateBacklog"]}) None]))).

Lemma sink_exact_witness :
  let post := mkSinkRequest "POST" ["alerts"] page in
  kept [post; mkSinkRequest "POST" ["reset"] ""; post] =
    [mkNotification "drill" "firing" (Some [mkAlert "firing" (Some {["alertname" := "IndeterminateBacklog"]}) None])].
Proof.
  intros post. destruct (sink_exact [post; mkSinkRequest "POST" ["reset"] ""] page) as (_ & H & _).
  destruct (H (mkNotification "drill" "firing" (Some [mkAlert "firing" (Some {["alertname" := "IndeterminateBacklog"]}) None]))
    ltac:(by vm_compute)) as [_ Hk].
  exact Hk.
Defined.
