(* ===== verification/TestDb.v ===== *)
(** * TestDb: internal/testdb

    The databases the tests run on: a template made once by the migrations, under an advisory
    lock that other test processes share, and a clone of it per test.  The server is a map from
    names to databases, each its schema and its schema_migrations as in Store.v; other processes act
    on it while this one waits for the lock.  Connection strings are not modelled: a
    connection is to the database it names. *)

From S2P Require Import Prelude GoString GoTime Sha256 Manifest Conflict World ResultStore Retention Partitions Store.

Section TestDb.
Context {Schema : Type} (run_sql : string → Schema → goerr + Schema).
(** The embedded migrations, by name, and the schema of a new database. *)
Context (FS : list (string * string)) (blank : Schema).

Abbreviation cluster := (gmap string (sdb Schema)).

(** The server, the faults, what others do while this process waits for the lock, the
    key of the lock it holds, the random bytes to come, and what [templateOnce] has kept. *)
Record tworld := mkTWorld {
  t_dbs : cluster;
  t_faults : list fault;
  t_others : list (cluster → cluster);
  t_lock : option Z;
  t_random : list (goerr + list Z);
  t_once : option (goerr + string);
}.

Local Abbreviation TS := (St tworld).

Definition put_dbs (c : cluster) (s : tworld) : tworld :=
  mkTWorld c (t_faults s) (t_others s) (t_lock s) (t_random s) (t_once s).

Definition t_fault (s : tworld) : fault * tworld :=
  (default Fine (head (t_faults s)),
   mkTWorld (t_dbs s) (tail (t_faults s)) (t_others s) (t_lock s) (t_random s) (t_once s)).

(** [admin.Exec] and [QueryRow]. *)
Definition t_exec {A} (f : cluster → goerr + (A * cluster)) : TS A := λ s,
  match t_fault s with
  | (Refused e, s1) => (inl e, s1)
  | (flt, s1) =>
      match f (t_dbs s1) with
      | inl e => (inl e, s1)
      | inr (x, c) => (match flt with LostAck e => inl e | _ => inr x end, put_dbs c s1)
      end
  end.

(** [pgxpool.New] and [pool.Acquire]: no effect, but they may fail. *)
Definition t_connect : TS unit := t_exec (λ c, inr (tt, c)).

Definition t_acquire_lock (lockKey : Z) : TS unit := λ s,
  match t_fault s with
  | (Refused e, s1) => (inl e, s1)
  | (flt, s1) =>
      let c := match t_others s1 with f :: _ => f (t_dbs s1) | [] => t_dbs s1 end in
      (match flt with LostAck e => inl e | _ => inr tt end,
       mkTWorld c (t_faults s1) (tail (t_others s1)) (Some lockKey) (t_random s1) (t_once s1))
  end.

Definition t_release_lock (s : tworld) : tworld :=
  match t_fault s with
  | (Refused _, s1) => s1
  | (_, s1) => mkTWorld (t_dbs s1) (t_faults s1) (t_others s1) None (t_random s1) (t_once s1)
  end.

(** CREATE DATABASE, with a template or without, and DROP DATABASE IF EXISTS. *)
Definition duplicate_database (name : string) : goerr := mkErr (PgError "42P04") ("database " +:+ name +:+ " already exists").
Definition no_database (name : string) : goerr := mkErr (PgError "3D000") ("database " +:+ name +:+ " does not exist").

Definition create_database (name : string) (c : cluster) : goerr + (unit * cluster) :=
  match c !! name with
  | Some _ => inl (duplicate_database name)
  | None => inr (tt, <[name := mkSDB blank None]> c)
  end.

Definition clone_database (name template : string) (c : cluster) : goerr + (unit * cluster) :=
  match c !! name, c !! template with
  | Some _, _ => inl (duplicate_database name)
  | None, None => inl (no_database template)
  | None, Some d => inr (tt, <[name := d]> c)
  end.

Definition drop_database (name : string) (c : cluster) : goerr + (unit * cluster) := inr (tt, delete name c).

(** A run of [store.Migrate] on one database; the lock of the template keeps the others away. *)
Definition migrate_database (name : string) : TS unit := λ s,
  match t_dbs s !! name with
  | None => (inl (no_database name), s)
  | Some d =>
      let '(r, m) := Migrate run_sql FS (mkSWorld d (t_faults s) [] false) in
      (r, mkTWorld (<[name := s_db m]> (t_dbs s)) (s_faults m) (t_others s) (t_lock s) (t_random s) (t_once s))
  end.

(** ** Names *)

(** [migrationsFingerprint], once the files are read. *)
Fixpoint fingerprint_text (files : list (string * string)) : string :=
  match files with [] => EmptyString | (name, body) :: rest => name +:+ body +:+ fingerprint_text rest end.

Definition migrationsFingerprint : string :=
  let files := merge_sort name_le (filter (λ f, HasSuffix f.1 ".sql" = true) FS) in
  String.substring 0 12 (EncodeToString (Sum256 (fingerprint_text files))).

(** [hashToUint32]. *)
Definition hashToUint32 (s : string) : Z :=
  match Sum256 s with
  | b0 :: b1 :: b2 :: b3 :: _ =>
      Z.lor (Z.lor (Z.lor (mask32 (Z.shiftl b0 24)) (mask32 (Z.shiftl b1 16))) (mask32 (Z.shiftl b2 8))) b3
  | _ => 0
  end.

(** [randomSuffix]. *)
Definition randomSuffix : TS string := λ s,
  match t_random s with
  | inr buf :: rest => (inr (EncodeToString (take 8 buf)), mkTWorld (t_dbs s) (t_faults s) (t_others s) (t_lock s) rest (t_once s))
  | inl e :: rest => (inl (wrap "random suffix" e), mkTWorld (t_dbs s) (t_faults s) (t_others s) (t_lock s) rest (t_once s))
  | [] => (inl (wrap "random suffix" (errorf "EOF")), s)
  end.

(** [requireURL]; [raw] is the variable's value. *)
Definition requireURL (raw : string) : goerr + string :=
  let raw := TrimSpace raw in
  if String.eqb raw "" then inl (errorf "IDEMIO_TEST_DATABASE_URL is not set") else inr raw.

(** ** The template *)

Definition build_locked (name : string) : TS unit :=
  exists_ ← wrapping "look up template" (t_exec (λ c, inr (bool_decide (is_Some (c !! name)), c)));
  if (exists_ : bool) then mret tt
  else
    _ ← wrapping "create template" (t_exec (create_database name));
    _ ← wrapping "connect template" t_connect;
    wrapping "migrate template" (migrate_database name).

Definition buildTemplate (name : string) : TS unit :=
  _ ← wrapping "connect admin" t_connect;
  _ ← wrapping "acquire admin connection" t_connect;
  _ ← wrapping "acquire template lock" (t_acquire_lock (hashToUint32 name));
  finally (build_locked name) t_release_lock.

Definition templateName_ : string := "idemio_template_" +:+ migrationsFingerprint.

Definition put_once (r : goerr + string) (s : tworld) : tworld :=
  mkTWorld (t_dbs s) (t_faults s) (t_others s) (t_lock s) (t_random s) (Some r).

(** [ensureTemplate]: the first call builds, and every call gives what the first found. *)
Definition ensureTemplate : TS string := λ s,
  match t_once s with
  | Some (inr name) => (inr name, s)
  | Some (inl e) => (inl (wrap "build template" e), s)
  | None =>
      let '(r, s1) := buildTemplate templateName_ s in
      match r with
      | inl e => (inl (wrap "build template" e), put_once (inl e) s1)
      | inr _ => (inr templateName_, put_once (inr templateName_) s1)
      end
  end.

(** ** The databases of the tests *)

(** [NewWithURL]: the name of the clone. *)
Definition NewWithURL (raw : string) : TS string :=
  match requireURL raw with
  | inl e => throw e
  | inr _ =>
      template ← ensureTemplate;
      suffix ← randomSuffix;
      let name := "idemio_t_" +:+ suffix in
      _ ← wrapping "connect" t_connect;
      _ ← wrapping ("clone template into " +:+ name) (t_exec (clone_database name template));
      _ ← wrapping "connect" t_connect;
      mret name
  end.

Definition NewEmpty (raw : string) : TS string :=
  match requireURL raw with
  | inl e => throw e
  | inr _ =>
      suffix ← randomSuffix;
      let name := "idemio_e_" +:+ suffix in
      _ ← wrapping "connect" t_connect;
      _ ← wrapping ("create " +:+ name) (t_exec (create_database name));
      _ ← wrapping "connect" t_connect;
      mret name
  end.

(** The clean-up of both: a drop that fails is logged. *)
Definition cleanup (name : string) : TS unit :=
  _ ← wrapping "connect" t_connect;
  dropped ← try (t_exec (drop_database name));
  match dropped with _ => mret tt end.

(** ** What a test process does to the server *)

Inductive op := OpNew (raw : string) | OpEmpty (raw : string) | OpDrop (name : string).

Definition run_op (o : op) (s : tworld) : tworld :=
  match o with
  | OpNew raw => (NewWithURL raw s).2
  | OpEmpty raw => (NewEmpty raw s).2
  | OpDrop name => (cleanup name s).2
  end.

Definition run_ops (ops : list op) (s : tworld) : tworld := fold_left (λ s o, run_op o s) ops s.

(** A database with nothing left to migrate, and a template that, where there is one, is such. *)
Definition migrated_db (d : sdb Schema) : Prop := pendingMigrations FS (default [] (db_ledger d)) = [].
Definition ready (c : cluster) : Prop := ∀ d, c !! templateName_ = Some d → migrated_db d.

(** What the process relies on: what it has kept of the template is so, or it has kept that there is none
    and clones nothing. *)
Definition sound (s : tworld) : Prop :=
  match t_once s with
  | None => ready (t_dbs s) ∧ ∀ f, f ∈ t_others s → ∀ c, ready c → ready (f c)
  | Some (inl _) => True
  | Some (inr name) => name = templateName_ ∧ ∃ d, t_dbs s !! name = Some d ∧ migrated_db d
  end.

Lemma t_exec_runs {A} ctx (f : cluster → goerr + (A * cluster)) s r s' : wrapping ctx (t_exec f) s = (r, s') →
  t_once s' = t_once s ∧ t_others s' = t_others s ∧
  ((t_dbs s' = t_dbs s ∧ ∃ e, r = inl e) ∨
   ∃ x c, f (t_dbs s) = inr (x, c) ∧ t_dbs s' = c ∧ (r = inr x ∨ ∃ e, r = inl e)).
Proof.
  unfold wrapping, t_exec, t_fault.
  destruct (default Fine _), (f (t_dbs _)) as [|[x c]] eqn:Hf; intros [= <- <-]; simpl in *; eauto 10.
Qed.

Lemma t_connect_runs ctx s r s' : wrapping ctx t_connect s = (r, s') →
  t_once s' = t_once s ∧ t_others s' = t_others s ∧ t_dbs s' = t_dbs s.
Proof. intros (Ho & Hot & [[Hd _]|(x & c & [= <- <-] & Hd & _)])%t_exec_runs; done. Qed.

Lemma migrate_database_runs name s r s' : wrapping "migrate template" (migrate_database name) s = (r, s') →
  t_once s' = t_once s ∧ (r = inr tt → ∃ d, t_dbs s' !! name = Some d ∧ migrated_db d).
Proof.
  unfold wrapping, migrate_database. destruct (t_dbs s !! name) as [d|] eqn:Hd; [|by intros [= <- <-]].
  destruct (Migrate run_sql FS _) as [r0 m] eqn:Hm.
  intros Hrun. assert (Hs : s' = mkTWorld (<[name := s_db m]> (t_dbs s)) (s_faults m) (t_others s) (t_lock s) (t_random s) (t_once s)).
  { by destruct r0; injection Hrun. }
  subst s'. split; [done|]. intros ->. destruct r0 as [|[]]; [done|]. exists (s_db m). simpl. split; [apply lookup_insert_eq|].
  apply Migrate_runs in Hm as [(e & [=] & _)|(done & rest & _ & _ & Hl & Hr)]. unfold migrated_db. rewrite Hl. by apply Hr.
Qed.

Lemma build_locked_runs s r s' : ready (t_dbs s) → build_locked templateName_ s = (r, s') →
  t_once s' = t_once s ∧ (r = inr tt → ∃ d, t_dbs s' !! templateName_ = Some d ∧ migrated_db d).
Proof.
  intros Hready. unfold build_locked.
  run_first [[e|found] s1] as E; apply t_exec_runs in E as (Ho & _ & Hc); [by intros [= <- <-]|].
  destruct Hc as [[_ [? ?]]|(x & c & [= <- <-] & Hd & [[= ->]|[? ?]])]; [done| |done]. case_bool_decide as Hin.
  { intros [= <- <-]. split; [done|]. intros _. destruct Hin as [d Hin]. exists d. rewrite Hd. split; [done|by apply Hready]. }
  run_first [[e|u] s2] as E; apply t_exec_runs in E as (Ho2 & _ & _); [intros [= <- <-]; split; [congruence|done]|].
  run_first [[e|u3] s3] as E; apply t_connect_runs in E as (Ho3 & _ & _); [intros [= <- <-]; split; [congruence|done]|].
  intros [Ho4 H4]%migrate_database_runs. split; [congruence|done].
Qed.

Lemma t_release_lock_keeps s : t_dbs (t_release_lock s) = t_dbs s ∧ t_once (t_release_lock s) = t_once s.
Proof. unfold t_release_lock, t_fault. by destruct (default Fine _). Qed.

Lemma lock_ready ctx lockKey s r s' : ready (t_dbs s) → (∀ f, f ∈ t_others s → ∀ c, ready c → ready (f c)) →
  wrapping ctx (t_acquire_lock lockKey) s = (r, s') → ready (t_dbs s') ∧ t_once s' = t_once s.
Proof.
  intros Hready Hothers. assert (Hfound : ready (match t_others s with f :: _ => f (t_dbs s) | [] => t_dbs s end)).
  { destruct (t_others s) as [|f l]; [done|]. apply Hothers; [by left|done]. }
  unfold wrapping, t_acquire_lock, t_fault. destruct (default Fine _); intros [= <- <-]; done.
Qed.

Lemma buildTemplate_runs s r s' : ready (t_dbs s) → (∀ f, f ∈ t_others s → ∀ c, ready c → ready (f c)) →
  buildTemplate templateName_ s = (r, s') →
  r = inr tt → ∃ d, t_dbs s' !! templateName_ = Some d ∧ migrated_db d.
Proof.
  intros Hready Hothers. unfold buildTemplate.
  run_first [[e|u] s1] as E; apply t_connect_runs in E as (_ & Hot & Hd); [by intros [= <- <-]|].
  run_first [[e|u2] s2] as E; apply t_connect_runs in E as (_ & Hot2 & Hd2); [by intros [= <- <-]|].
  rewrite <- Hd, <- Hd2 in Hready. rewrite <- Hot, <- Hot2 in Hothers.
  run_first [[e|u3] s3] as E; apply (lock_ready _ _ _ _ _ Hready Hothers) in E as [Hr3 _]; [by intros [= <- <-]|].
  unfold finally. destruct (build_locked templateName_ s3) as [res s4] eqn:E4. intros [= <- <-].
  apply (build_locked_runs _ _ _ Hr3) in E4 as [_ H4]. by rewrite (proj1 (t_release_lock_keeps s4)).
Qed.

Lemma ensureTemplate_runs s r s' : sound s → ensureTemplate s = (r, s') →
  sound s' ∧ ∀ name, r = inr name → name = templateName_ ∧ ∃ d, t_dbs s' !! name = Some d ∧ migrated_db d.
Proof.
  unfold ensureTemplate, sound at 1. destruct (t_once s) as [[e|name]|] eqn:Ho.
  - intros _ [= <- <-]. split; [|done]. unfold sound. by rewrite Ho.
  - intros Hs [= <- <-]. split; [unfold sound; by rewrite Ho|]. by intros ? [= <-].
  - intros [Hready Hothers]. destruct (buildTemplate templateName_ s) as [[e|u] s1] eqn:E; intros [= <- <-]; [done|].
    destruct u. pose proof (buildTemplate_runs _ _ _ Hready Hothers E eq_refl) as Hd.
    split; [done|]. by intros ? [= <-].
Qed.

(** Nothing but the template counts. *)
Lemma sound_template s s' : t_once s' = t_once s → t_others s' = t_others s →
  t_dbs s' !! templateName_ = t_dbs s !! templateName_ → sound s → sound s'.
Proof.
  intros Ho Hot Hd. unfold sound, ready. rewrite Ho, Hot. destruct (t_once s) as [[e|name]|]; [done| |by rewrite Hd].
  intros [-> Hs]. by rewrite Hd.
Qed.

(** A step after [H] that left the databases as [Hd] says. *)
Ltac unchanged H Hd := eapply sound_template; [..|exact H]; [done|done|by rewrite Hd].

Lemma randomSuffix_keeps s r s' : randomSuffix s = (r, s') → t_dbs s' = t_dbs s ∧ t_once s' = t_once s ∧ t_others s' = t_others s.
Proof. unfold randomSuffix. destruct (t_random s) as [|[e|buf] l]; by intros [= <- <-]. Qed.

Lemma clone_runs name template c d x c' : c !! template = Some d → clone_database name template c = inr (x, c') →
  c' !! name = Some d ∧ c' !! template = c !! template.
Proof.
  intros Hd. unfold clone_database. destruct (c !! name) eqn:Hn; [done|]. rewrite Hd. intros [= <- <-].
  split; [apply lookup_insert_eq|]. rewrite lookup_insert_ne; [done|]. congruence.
Qed.

Lemma NewWithURL_runs raw s r s' : sound s → NewWithURL raw s = (r, s') →
  sound s' ∧ ∀ name, r = inr name → ∃ d, t_dbs s' !! name = Some d ∧ migrated_db d.
Proof.
  intros Hs. unfold NewWithURL. destruct (requireURL raw); [by intros [= <- <-]|].
  run_first [[e|T] s1] as E; apply (ensureTemplate_runs _ _ _ Hs) in E as [Hs1 HT]; [by intros [= <- <-]|].
  destruct (HT T eq_refl) as (-> & d & Hd & Hm). clear HT.
  run_first [[e|suffix] s2] as E; apply randomSuffix_keeps in E as (Hd2 & Ho2 & Hot2);
    (assert (Hs2 : sound s2) by (unchanged Hs1 Hd2)); [by intros [= <- <-]|].
  run_first [[e|u3] s3] as E; apply t_connect_runs in E as (Ho3 & Hot3 & Hd3);
    (assert (Hs3 : sound s3) by (unchanged Hs2 Hd3)); [by intros [= <- <-]|].
  run_first [[e|u4] s4] as E; apply t_exec_runs in E as (Ho4 & Hot4 & Hc);
    (assert (HdT : t_dbs s3 !! templateName_ = Some d) by (by rewrite Hd3, Hd2));
    (assert (Hs4 : sound s4) by (eapply sound_template; [done|done| |exact Hs3];
      destruct Hc as [[-> _]|(x & c & Hc & -> & _)]; [done|by eapply clone_runs])); [by intros [= <- <-]|].
  destruct Hc as [[_ [? ?]]|(x & c & Hc & H4 & _)]; [done|]. apply (clone_runs _ _ _ _ _ _ HdT) in Hc as [Hc _].
  run_first [[e|u5] s5] as E; apply t_connect_runs in E as (Ho5 & Hot5 & Hd5);
    (assert (Hs5 : sound s5) by (unchanged Hs4 Hd5)); [by intros [= <- <-]|].
  intros [= <- <-]. split; [done|]. intros ? [= <-]. exists d. split; [|done]. by rewrite Hd5, H4.
Qed.

(** The names of the other databases are not the template's. *)
Lemma not_template prefix suffix : prefix = "idemio_t_" ∨ prefix = "idemio_e_" → prefix +:+ suffix ≠ templateName_.
Proof. by intros [-> | ->]. Qed.

Lemma NewEmpty_runs raw s r s' : sound s → NewEmpty raw s = (r, s') → sound s'.
Proof.
  intros Hs. unfold NewEmpty. destruct (requireURL raw); [by intros [= <- <-]|].
  run_first [[e|suffix] s2] as E; apply randomSuffix_keeps in E as (Hd2 & Ho2 & Hot2);
    (assert (Hs2 : sound s2) by (unchanged Hs Hd2)); [by intros [= <- <-]|].
  run_first [[e|u3] s3] as E; apply t_connect_runs in E as (Ho3 & Hot3 & Hd3);
    (assert (Hs3 : sound s3) by (unchanged Hs2 Hd3)); [by intros [= <- <-]|].
  run_first [[e|u4] s4] as E; apply t_exec_runs in E as (Ho4 & Hot4 & Hc);
    (assert (Hs4 : sound s4)
      by (eapply sound_template; [done|done| |exact Hs3]; destruct Hc as [[-> _]|(x & c & Hc & -> & _)]; [done|];
          unfold create_database in Hc; destruct (t_dbs s3 !! ("idemio_e_" +:+ suffix)); [done|]; injection Hc as _ <-;
          apply lookup_insert_ne, not_template; auto)); [by intros [= <- <-]|].
  run_first [[e|u5] s5] as E; apply t_connect_runs in E as (Ho5 & Hot5 & Hd5);
    intros [= <- <-]; (unchanged Hs4 Hd5).
Qed.

Lemma cleanup_runs name s r s' : name ≠ templateName_ → sound s → cleanup name s = (r, s') → sound s'.
Proof.
  intros Hne Hs. unfold cleanup.
  run_first [[e|u1] s1] as E; apply t_connect_runs in E as (Ho1 & Hot1 & Hd1);
    (assert (Hs1 : sound s1) by (unchanged Hs Hd1)); [by intros [= <- <-]|].
  unfold mbind, St_bind, try. destruct (t_exec (drop_database name) s1) as [r2 s2] eqn:E. intros [= <- <-].
  assert (Hw : ∃ r3, wrapping "" (t_exec (drop_database name)) s1 = (r3, s2)).
  { unfold wrapping. rewrite E. destruct r2; by eexists. }
  destruct Hw as [r3 Hw]. apply t_exec_runs in Hw as (Ho2 & Hot2 & Hc). eapply sound_template; [done|done| |exact Hs1].
  destruct Hc as [[-> _]|(x & c & [= <- <-] & -> & _)]; [done|]. by apply lookup_delete_ne.
Qed.

Lemma run_ops_sound ops : ∀ s, (∀ name, OpDrop name ∈ ops → name ≠ templateName_) → sound s → sound (run_ops ops s).
Proof.
  induction ops as [|o ops IH]; intros s Hdrop Hs; [done|]. apply IH; [intros name Hin; apply Hdrop; by right|].
  destruct o as [raw|raw|name]; simpl.
  - destruct (NewWithURL raw s) as [r s'] eqn:E. by eapply NewWithURL_runs.
  - destruct (NewEmpty raw s) as [r s'] eqn:E. by eapply NewEmpty_runs.
  - destruct (cleanup name s) as [r s'] eqn:E. eapply cleanup_runs; [|done|done]. apply Hdrop. by left.
Qed.

(** A test runs on the schema of the migrations: whatever fails and whatever the process did before,
    if the server's template, where it had one, was completely migrated when the process
    started, and other processes keep it so, the database [NewWithURL] hands out exists and
    has every migration recorded. *)
Theorem clones_migrated (raw : string) (ops : list op) (s0 s' : tworld) (name : string) :
  t_once s0 = None → ready (t_dbs s0) → (∀ f, f ∈ t_others s0 → ∀ c, ready c → ready (f c)) →
  (∀ dropped, OpDrop dropped ∈ ops → dropped ≠ templateName_) →
  NewWithURL raw (run_ops ops s0) = (inr name, s') →
  ∃ d, t_dbs s' !! name = Some d ∧ pendingMigrations FS (default [] (db_ledger d)) = [].
Proof.
  intros Ho Hready Hothers Hdrop Hrun. apply NewWithURL_runs in Hrun as [_ Hr]; [by apply Hr|].
  apply run_ops_sound; [done|]. unfold sound. by rewrite Ho.
Qed.
End TestDb.

(** A first process on an empty server. *)
Definition fresh_server (faults : list fault) : tworld (Schema := list string) :=
  mkTWorld ∅ faults [] None [inr [1; 2; 3; 4; 5; 6; 7; 8]; inr [8; 7; 6; 5; 4; 3; 2; 1]] None.

Lemma clones_migrated_witness : ∃ d,
  t_dbs (NewWithURL demo_sql demo_files [] " postgres://localhost " (fresh_server [])).2 !! "idemio_t_0102030405060708" = Some d ∧
  pendingMigrations demo_files (default [] (db_ledger d)) = [].
Proof.
  destruct (NewWithURL demo_sql demo_files [] " postgres://localhost " (fresh_server [])) as [r s'] eqn:Hrun.
  assert (Hr : r = inr "idemio_t_0102030405060708") by (vm_compute in Hrun; injection Hrun as <-; reflexivity).
  subst r. apply (clones_migrated demo_sql demo_files [] " postgres://localhost " [] (fresh_server []) s' "idemio_t_0102030405060708");
    [reflexivity|intros d Hd; discriminate Hd|intros f Hf; inversion Hf|intros n Hn; inversion Hn|exact Hrun].
Defined.

(** ** A template that is not finished *)

(** A process whose migration fails, or which dies there, leaves a template that the next process takes for a
    finished one: it looks only for the name. *)
Definition next_process (s : tworld (Schema := list string)) : tworld (Schema := list string) :=
  mkTWorld (t_dbs s) [] [] None [inr [8; 7; 6; 5; 4; 3; 2; 1]] None.

Lemma half_built_template_accepted :
  let first := NewWithURL demo_sql demo_files [] "url" (fresh_server [Fine; Fine; Fine; Fine; Fine; Fine; Refused (errorf "EOF")]) in
  let second := NewWithURL demo_sql demo_files [] "url" (next_process first.2) in
  (∃ e, first.1 = inl e) ∧ second.1 = inr "idemio_t_0807060504030201" ∧
  ∃ d, t_dbs second.2 !! "idemio_t_0807060504030201" = Some d ∧
    version <$> pendingMigrations demo_files (default [] (db_ledger d)) = ["0001_init"; "0002_conflict_detection"].
Proof.
  intros first second. split; [by eexists; vm_compute|]. split; [by vm_compute|].
  exists (mkSDB [] None). split; by vm_compute.
Qed.

(** The names and the bodies are hashed without a separator: different migrations can have one
    template. *)
Lemma fingerprint_ambiguous :
  migrationsFingerprint [("1.sql", "A2.sqlB")] = migrationsFingerprint [("1.sql", "A"); ("2.sql", "B")].
Proof. reflexivity. Qed.
