(* ===== verification/Decoding.v ===== *)
(** * Decoding: request bodies and probe answers from their bytes

    The structs that internal/api and internal/probe decode into, as encoding/json fills them
    from the text: the members in the order of the text, the bytes of a [json.RawMessage] as they stand.
    [read_write_body] is what handleWrite takes as its decoded body, [decode_probe] what the probe
    client takes as its decoder. *)

From S2P Require Import Prelude GoString GoTime GoHttp Sha256 Manifest Conflict World Json JsonDecode JsonRound JsonMarshal.
From S2P Require Import Config Claim Downstream ResultStore Api Reconcile ReconcileProps FakeDownstream Harness.

#[local] Arguments String.append !_ _ /.

Local Abbreviation len := String.length.

(** ** Members and items with their bytes *)

Definition parse_at (depth : Z) (s : string) : option (value * string) := parse_value (S (2 * len s)) depth s.

(** The text of the value that [s] starts with. *)
Definition raw_at (depth : Z) (s : string) : option (string * string) :=
  '(_, rest) ← parse_at depth s; Some (String.substring 0 (len s - len rest) s, rest).

Fixpoint raw_members (fuel : nat) (depth : Z) (s : string) : option (list (string * string) * string) :=
  match fuel with
  | O => None
  | S f =>
      if head_is 34 s then
        '(raw, rest) ← string_token InString (drop_bytes 1 s);
        let rest := skip_space rest in
        if head_is 58 rest then
          '(text, rest) ← raw_at depth (after 1 rest);
          let rest := skip_space rest in
          if head_is 125 rest then Some ([(unquote raw, text)], drop_bytes 1 rest)
          else if head_is 44 rest then '(more, rest) ← raw_members f depth (after 1 rest); Some ((unquote raw, text) :: more, rest)
          else None
        else None
      else None
  end.

Fixpoint raw_items (fuel : nat) (depth : Z) (s : string) : option (list string * string) :=
  match fuel with
  | O => None
  | S f =>
      '(text, rest) ← raw_at depth s;
      let rest := skip_space rest in
      if head_is 93 rest then Some ([text], drop_bytes 1 rest)
      else if head_is 44 rest then '(more, rest) ← raw_items f depth (after 1 rest); Some (text :: more, rest)
      else None
  end.

(** The members of the object that a text starts with; [null] leaves the struct as it is. *)
Definition decode_object (text : string) : option (list (string * string)) :=
  let s := skip_space text in
  if head_is 123 s then
    if head_is 125 (after 1 s) then Some []
    else fst <$> raw_members (len s) 1 (after 1 s)
  else match Decode text with Some VNull => Some [] | _ => None end.

(** The items of the array a text holds, which is nested at [depth]; [null] is no items. *)
Definition decode_items (depth : Z) (text : string) : option (list string) :=
  if head_is 91 text then
    if head_is 93 (after 1 text) then Some []
    else fst <$> raw_items (len text) depth (after 1 text)
  else match Decode text with Some VNull => Some [] | _ => None end.

(** ** Fields *)

(** [foldName]: letters without case, and the two other runes that fold to one of them. *)
Fixpoint fold_name (s : string) : string :=
  match s with
  | EmptyString => EmptyString
  | String c r =>
      let v := byte_val c in
      match r with
      | String d q =>
          if (v =? 197) && (byte_val d =? 191) then String (byte_of 83) (fold_name q)
          else
            match q with
            | String e p =>
                if (v =? 226) && (byte_val d =? 132) && (byte_val e =? 170) then String (byte_of 75) (fold_name p)
                else String (if (97 <=? v) && (v <=? 122) then byte_of (v - 32) else c) (fold_name r)
            | EmptyString => String (if (97 <=? v) && (v <=? 122) then byte_of (v - 32) else c) (fold_name r)
            end
      | EmptyString => String (if (97 <=? v) && (v <=? 122) then byte_of (v - 32) else c) (fold_name r)
      end
  end.

Definition names (field key : string) : bool := String.eqb (fold_name field) (fold_name key).

(** A member into a string, an [int] and a slice of raw messages: [null] leaves the first two. *)
Definition into_string (old text : string) : option string :=
  match Decode text with Some (VString s) => Some s | Some VNull => Some old | _ => None end.

Definition into_int (old : Z) (text : string) : option Z :=
  match Decode text with
  | Some (VNumber literal) => match ParseInt literal with inr z => Some z | inl _ => None end
  | Some VNull => Some old
  | _ => None
  end.

(** Every member in the order of the text. *)
Fixpoint fill {A} (set : string → string → A → option A) (members : list (string * string)) (x : A) : option A :=
  match members with [] => Some x | (key, text) :: rest => y ← set key text x; fill set rest y end.

(** ** internal/api: the body of a write *)

Definition set_write (key text : string) (r : writeRequest) : option writeRequest :=
  let '(mkWrite agent rtype rid op payload) := r in
  if names "agent_id" key then s ← into_string agent text; Some (mkWrite s rtype rid op payload)
  else if names "resource_type" key then s ← into_string rtype text; Some (mkWrite agent s rid op payload)
  else if names "resource_id" key then s ← into_string rid text; Some (mkWrite agent rtype s op payload)
  else if names "operation" key then s ← into_string op text; Some (mkWrite agent rtype rid s payload)
  else if names "payload" key then Some (mkWrite agent rtype rid op text)
  else Some r.

Definition decode_write (body : string) : option writeRequest :=
  members ← decode_object body; fill set_write members (mkWrite "" "" "" "" "").

(** The decoder over [http.MaxBytesReader]: it has the first [limit] bytes, and needs one more
    after a value that is not closed by a bracket; a text that goes wrong among them is malformed,
    and one that does not end in them is too large.  [complaint] is the text of the error. *)
Definition read_write_body (complaint : string → string) (limit : Z) (body : string) : body_read :=
  let whole := Z.of_nat (len body) <=? limit in
  match parse_at 0 (skip_space body) with
  | Some (v, rest) =>
      let ended := Z.of_nat (len body - len rest) in
      let fits := match v with VObject _ | VArray _ => ended <=? limit | _ => whole || (ended <? limit) end in
      if fits then
        match decode_write body with Some r => BodyDecoded r | None => BodyMalformed (complaint body) end
      else BodyTooLarge
  | None =>
      if whole then BodyMalformed (complaint body)
      else
        match scan BeginValue [] (String.substring 0 (Z.to_nat limit) body) with
        | None => BodyMalformed (complaint body)
        | Some _ => BodyTooLarge
        end
  end.

(** ** internal/probe: the answer *)

Definition set_probe (key text : string) (x : Z * list string) : option (Z * list string) :=
  if names "count" key then n ← into_int x.1 text; Some (n, x.2)
  else if names "executions" key then items ← decode_items 2 text; Some (x.1, items)
  else Some x.

Definition decode_probe_answer (complaint : string → string) (body : string) : goerr + (Z * list string) :=
  match members ← decode_object body; fill set_probe members (0, []) with
  | Some x => inr x
  | None => inl (errorf (complaint body))
  end.

(** ** internal/manifest: a document *)

(** The members of an object nested at [depth], from its own text. *)
Definition members_at (depth : Z) (text : string) : option (list (string * string)) :=
  if head_is 123 text then
    if head_is 125 (after 1 text) then Some []
    else fst <$> raw_members (len text) depth (after 1 text)
  else None.

Definition is_null (text : string) : bool := String.eqb text "null".

(** A struct: [null] leaves it as it is. *)
Definition into_struct {A} (set : string → string → A → option A) (depth : Z) (old : A) (text : string) : option A :=
  if is_null text then Some old else members ← members_at depth text; fill set members old.

(** A slice, and a map: [null] makes them nil; a map given twice is added to. *)
Definition into_slice {A} (into : string → option A) (depth : Z) (text : string) : option (list A) :=
  items ← decode_items depth text; mapM into items.

Definition into_nilable {A} (into : string → option A) (depth : Z) (text : string) : option (option (list A)) :=
  if is_null text then Some None else Some <$> into_slice into depth text.

Definition into_map {A} (into : string → option A) (depth : Z) (old : gmap string A) (text : string) : option (gmap string A) :=
  if is_null text then Some ∅
  else members ← members_at depth text; fill (λ key text m, x ← into text; Some (<[key := x]> m)) members old.

Definition into_bool (old : bool) (text : string) : option bool :=
  match Decode text with Some (VBool b) => Some b | Some VNull => Some old | _ => None end.

Definition set_range (key text : string) (r : StatusRange) : option StatusRange :=
  let '(mkRange from to) := r in
  if names "from" key then n ← into_int from text; Some (mkRange n to)
  else if names "to" key then n ← into_int to text; Some (mkRange from n)
  else Some r.

Definition set_errors (key text : string) (c : ErrorClassification) : option ErrorClassification :=
  let '(mkErrors definitive not_executed) := c in
  let ranges := into_slice (into_struct set_range 4 (mkRange 0 0)) 3 text in
  if names "definitive" key then l ← ranges; Some (mkErrors l not_executed)
  else if names "not_executed" key then l ← ranges; Some (mkErrors definitive l)
  else Some c.

Definition set_operation (key text : string) (o : Operation) : option Operation :=
  let '(mkOperation class scope) := o in
  if names "class" key then s ← into_string class text; Some (mkOperation s scope)
  else if names "scope" key then l ← into_nilable (into_string "") 4 text; Some (mkOperation class l)
  else Some o.

Definition set_document (key text : string) (d : document) : option document :=
  let '(mkDocument rtype window enforce probe operations errors) := d in
  if names "resource_type" key then s ← into_string rtype text; Some (mkDocument s window enforce probe operations errors)
  else if names "conflict_window_ms" key then n ← into_int window text; Some (mkDocument rtype n enforce probe operations errors)
  else if names "enforce" key then b ← into_bool enforce text; Some (mkDocument rtype window b probe operations errors)
  else if names "probe_path" key then s ← into_string probe text; Some (mkDocument rtype window enforce s operations errors)
  else if names "operations" key
  then m ← into_map (into_struct set_operation 3 (mkOperation "" None)) 2 operations text;
       Some (mkDocument rtype window enforce probe m errors)
  else if names "errors" key
  then c ← into_struct set_errors 2 errors text; Some (mkDocument rtype window enforce probe operations c)
  else Some d.

(** [json.Unmarshal] into a new document: the text as a whole is valid first. *)
Definition unmarshal_document (complaint : string → string) (raw : string) : goerr + document :=
  match (if Valid raw then members ← decode_object raw; fill set_document members (mkDocument "" 0 false "" ∅ (mkErrors [] []))
         else None) with
  | Some d => inr d
  | None => inl (errorf (complaint raw))
  end.

(** A text with its quotes written as apostrophes. *)
Fixpoint quotes (s : string) : string :=
  match s with EmptyString => EmptyString | String c r => String (if byte_val c =? 39 then byte_of 34 else c) (quotes r) end.

(** Names in another case, members of no field, [null] for a payload and for a string, a field given twice; and what is refused. *)
Example decode_write_spellings :
  (decode_write ∘ quotes <$> ["{ 'AGENT_ID' : 'a' , 'x':[1], 'payload': { 'y' : 1 } }"; "{'payload':null,'operation':null}";
     "{'agent_id':'a','Agent_Id':'b'} {"; " null"; "[]"; "{'agent_id':1}"; "{'agent_id':'a',}"; "{'payload':}"]) =
  [Some (mkWrite "a" "" "" "" (quotes "{ 'y' : 1 }")); Some (mkWrite "" "" "" "" "null");
   Some (mkWrite "b" "" "" "" ""); Some (mkWrite "" "" "" "" ""); None; None; None; None].
Proof. by vm_compute. Qed.

(** A value that ends within the limit, one that does not, one that goes wrong before it. *)
Example read_write_limits :
  let read limit s := match read_write_body id limit (quotes s) with BodyTooLarge => 413 | BodyMalformed _ => 400 | BodyDecoded _ => 200 end in
  [read 2 "{}   "; read 1 "{}"; read 4 "{'a':1,x}"; read 8 "{'a':1,x}"; read 4 "null"; read 4 "null "; read 5 "null  "] =
  [200; 413; 413; 400; 200; 413; 200].
Proof. by vm_compute. Qed.

(** The files of manifests/. *)
Definition invoice_json : string := quotes "{
  'resource_type': 'invoice',
  'conflict_window_ms': 5000,
  'enforce': false,
  'probe_path': '/probe',
  'operations': {
    'create_charge': { 'class': 'create' },
    'add_line_item': { 'class': 'append' },
    'update_status': { 'class': 'mutate', 'scope': ['status'] },
    'update_billing_address': { 'class': 'mutate', 'scope': ['billing_address'] }
  },
  'errors': {
    'definitive': [
      { 'from': 200, 'to': 299 },
      { 'from': 400, 'to': 499 }
    ]
  }
}
".

Definition subscription_json : string := quotes "{
  'resource_type': 'subscription',
  'conflict_window_ms': 2000,
  'enforce': false,
  'probe_path': '/probe/subscription',
  'operations': {
    'create_subscription': {
      'class': 'create'
    },
    'add_note': {
      'class': 'append'
    },
    'pause': {
      'class': 'mutate',
      'scope': [
        'state'
      ]
    },
    'change_plan': {
      'class': 'mutate',
      'scope': [
        'plan'
      ]
    }
  },
  'errors': {
    'definitive': [
      {
        'from': 200,
        'to': 299
      },
      {
        'from': 400,
        'to': 428
      }
    ],
    'not_executed': [
      {
        'from': 429,
        'to': 429
      },
      {
        'from': 503,
        'to': 503
      }
    ]
  }
}
".

(** ** What a written document is read as *)

(** The text is one value at the depth, whatever closes after it. *)
Definition reads_at (depth : Z) (text : string) : Prop :=
  starts text ∧ ∃ v, ∀ t, stops t → parse_at depth (text +:+ t) = Some (v, t).

Lemma written_at depth j t : readable depth j → stops t → parse_at depth (marshal j +:+ t) = Some (read_back j, t).
Proof.
  intros [fuel Hf] Ht. unfold parse_at. set (s := marshal j +:+ t). set (g := (S (2 * len s) + fuel)%nat).
  destruct (Hf g ltac:(unfold g; lia)) as [_ Hb]. rewrite <- (Hb t Ht). symmetry.
  apply (parse_enough (S (2 * len s)) g); unfold g; lia.
Qed.

Lemma readable_at depth j : readable depth j → reads_at depth (marshal j).
Proof.
  intros Hr. split; [by destruct Hr as [fuel Hf]; destruct (Hf fuel ltac:(lia))|]. exists (read_back j). intros t. by apply written_at.
Qed.

Lemma len_append a b : len (a +:+ b) = (len a + len b)%nat.
Proof. induction a as [|c a IH]; [done|]. simpl. by rewrite IH. Qed.

Lemma substring_prefix a b : String.substring 0 (len a) (a +:+ b) = a.
Proof. induction a as [|c a IH]; simpl; [by destruct b|]. by rewrite IH. Qed.

Lemma raw_at_reads depth text t : reads_at depth text → stops t → raw_at depth (text +:+ t) = Some (text, t).
Proof.
  intros (_ & v & Hv) Ht. unfold raw_at. rewrite Hv by done. cbn [mbind option_bind].
  rewrite len_append. replace (len text + len t - len t)%nat with (len text) by lia. by rewrite substring_prefix.
Qed.

Lemma raw_one fuel depth k text t : reads_at depth text → stops t →
  raw_members (S fuel) depth ((quoted k +:+ ":" +:+ text) +:+ t) =
    if head_is 125 (skip_space t) then Some ([(coerced k, text)], drop_bytes 1 (skip_space t))
    else if head_is 44 (skip_space t)
    then '(more, rest) ← raw_members fuel depth (after 1 (skip_space t)); Some ((coerced k, text) :: more, rest) else None.
Proof.
  intros Hr Ht. unfold quoted. cbn [raw_members String.append].
  change (head_is 34 (String quote_char ?x)) with true. cbv iota.
  change (drop_bytes 1 (String quote_char ?x)) with x. rewrite !append_assoc. cbn [String.append].
  rewrite token_quoted. cbn [mbind option_bind]. change (skip_space (String ":" ?x)) with (String ":" x).
  change (head_is 58 (String ":" ?x)) with true. cbv iota.
  change (after 1 (String ":" ?x)) with (skip_space x).
  assert (skip_space (text +:+ t) = text +:+ t) as ->.
  { destruct Hr as (_ & v & Hv). eapply starts_value. apply (Hv t Ht). }
  rewrite (raw_at_reads _ _ _ Hr Ht). cbn [mbind option_bind]. by rewrite unquote_escape.
Qed.

Lemma raw_member_texts depth : ∀ (l : list (string * string)) fuel t, l ≠ [] → (length l <= fuel)%nat →
  Forall (λ e, reads_at depth e.2) l →
  raw_members fuel depth (member_texts l +:+ String (byte_of 125) t) = Some (prod_map coerced id <$> l, t).
Proof.
  induction l as [|[k text] l IH]; [done|]. intros [|fuel] t _ Hf [Hh Hl]%Forall_cons; simpl in Hf; [lia|]. simpl in Hh.
  destruct l as [|e l].
  - change (member_texts _) with (quoted k +:+ ":" +:+ text). rewrite raw_one by (try done; simpl; auto). done.
  - change (member_texts ((k, text) :: e :: l)) with ((quoted k +:+ ":" +:+ text) +:+ String (byte_of 44) (member_texts (e :: l))).
    rewrite append_assoc. change (String (byte_of 44) ?a +:+ ?b) with (String (byte_of 44) (a +:+ b)). rewrite raw_one by (try done; simpl; auto).
    change (skip_space (String (byte_of 44) ?x)) with (String (byte_of 44) x).
    change (head_is 125 (String (byte_of 44) ?x)) with false. change (head_is 44 (String (byte_of 44) ?x)) with true. cbv iota.
    change (after 1 (String (byte_of 44) ?x)) with (skip_space x).
    assert (skip_space (member_texts (e :: l) +:+ String (byte_of 125) t) = member_texts (e :: l) +:+ String (byte_of 125) t) as ->.
    { destruct e as [k' text'], l as [|e' l]; done. }
    rewrite (IH fuel t) by (try done; simpl in *; lia). done.
Qed.

Lemma raw_item_texts depth : ∀ (l : list string) fuel t, l ≠ [] → (length l <= fuel)%nat → Forall (reads_at depth) l →
  raw_items fuel depth (Join l "," +:+ String (byte_of 93) t) = Some (l, t).
Proof.
  induction l as [|text l IH]; [done|]. intros [|fuel] t _ Hf [Hh Hl]%Forall_cons; simpl in Hf; [lia|].
  destruct l as [|e l].
  - change (Join [text] ",") with text. cbn [raw_items]. rewrite raw_at_reads by (try done; simpl; auto). done.
  - change (Join (text :: e :: l) ",") with (text +:+ String (byte_of 44) (Join (e :: l) ",")).
    rewrite append_assoc. cbn [String.append raw_items]. rewrite raw_at_reads by (try done; simpl; auto).
    cbn [mbind option_bind]. cbv zeta.
    change (skip_space (String (byte_of 44) ?x)) with (String (byte_of 44) x).
    change (head_is 93 (String (byte_of 44) ?x)) with false. change (head_is 44 (String (byte_of 44) ?x)) with true. cbv iota.
    change (after 1 (String (byte_of 44) ?x)) with (skip_space x).
    assert (skip_space (Join (e :: l) "," +:+ String (byte_of 93) t) = Join (e :: l) "," +:+ String (byte_of 93) t) as ->.
    { apply Forall_cons in Hl as [(_ & v & Hv) _]. destruct l as [|e' l].
      - eapply starts_value. apply (Hv (String (byte_of 93) t)). simpl; auto.
      - change (Join (e :: e' :: l) ",") with (e +:+ String (byte_of 44) (Join (e' :: l) ",")). rewrite append_assoc.
        eapply starts_value. apply (Hv (String (byte_of 44) _)). simpl; auto. }
    rewrite (IH fuel t) by (try done; simpl in *; lia). done.
Qed.

Lemma member_texts_len l : (length l <= len (member_texts l))%nat.
Proof.
  induction l as [|[k text] l IH]; [done|]. destruct l as [|e l]; [simpl; lia|].
  change (member_texts ((k, text) :: e :: l)) with ((quoted k +:+ ":" +:+ text) +:+ ("," +:+ member_texts (e :: l))).
  rewrite !len_append. simpl in *. lia.
Qed.

Lemma reads_at_nonempty depth text : reads_at depth text → (1 <= len text)%nat.
Proof. intros (_ & v & Hv). destruct text; [|simpl; lia]. by specialize (Hv "" I). Qed.

Lemma join_len depth l : Forall (reads_at depth) l → (length l <= len (Join l ","))%nat.
Proof.
  induction 1 as [|text l Hh Hl IH]; [done|]. apply reads_at_nonempty in Hh. destruct l as [|e l]; [simpl in *; lia|].
  change (Join (text :: e :: l) ",") with (text +:+ ("," +:+ Join (e :: l) ",")). rewrite !len_append. simpl in *. lia.
Qed.

(** An object as [json.Marshal] writes it, and a text after it. *)
Lemma decode_object_struct fields t : Forall (λ e, reads_at 1 (marshal e.2)) fields →
  decode_object (marshal (JStruct fields) +:+ t) = Some ((λ e, (coerced e.1, marshal e.2)) <$> fields).
Proof.
  intros Hall. set (l := (λ e : string * json, (e.1, marshal e.2)) <$> fields).
  assert (Hl : Forall (λ e, reads_at 1 e.2) l) by (by apply Forall_fmap).
  assert (Htext : marshal (JStruct fields) = String (byte_of 123) (member_texts l +:+ String (byte_of 125) "")).
  { change (marshal (JStruct fields)) with ("{" +:+ Join ((λ '(k, v), quoted k +:+ ":" +:+ marshal v) <$> fields) "," +:+ "}").
    unfold member_texts, l. rewrite <- list_fmap_compose. change ("{" +:+ ?x) with (String (byte_of 123) x). do 2 f_equal.
    f_equal. apply list_fmap_ext. by intros i [k v] _. }
  assert (Hout : prod_map coerced id <$> l = (λ e, (coerced e.1, marshal e.2)) <$> fields).
  { unfold l. rewrite <- list_fmap_compose. apply list_fmap_ext. by intros i [k v] _. }
  rewrite Htext. change (String (byte_of 123) ?a +:+ ?b) with (String (byte_of 123) (a +:+ b)). rewrite append_assoc.
  change (String (byte_of 125) "" +:+ t) with (String (byte_of 125) t).
  unfold decode_object. change (skip_space (String (byte_of 123) ?x)) with (String (byte_of 123) x).
  change (head_is 123 (String (byte_of 123) ?x)) with true. cbv zeta iota.
  change (after 1 (String (byte_of 123) ?x)) with (skip_space x).
  destruct (decide (l = [])) as [He|Hne].
  { rewrite He in Hout |- *. rewrite <- Hout. done. }
  assert (skip_space (member_texts l +:+ String (byte_of 125) t) = member_texts l +:+ String (byte_of 125) t ∧
          head_is 125 (member_texts l +:+ String (byte_of 125) t) = false) as [-> ->].
  { destruct l as [|[k text] [|e' l']]; done. }
  rewrite raw_member_texts by (try done; simpl; rewrite len_append; pose proof (member_texts_len l); lia). simpl. by rewrite Hout.
Qed.

Lemma decode_items_list depth l : Forall (reads_at depth) l →
  decode_items depth (String (byte_of 91) (Join l "," +:+ String (byte_of 93) "")) = Some l.
Proof.
  intros Hall. unfold decode_items. change (head_is 91 (String (byte_of 91) ?x)) with true. cbv iota.
  change (after 1 (String (byte_of 91) ?x)) with (skip_space x). destruct (decide (l = [])) as [->|Hne]; [done|].
  assert (Hs : skip_space (Join l "," +:+ String (byte_of 93) "") = Join l "," +:+ String (byte_of 93) "" ∧
    head_is 93 (Join l "," +:+ String (byte_of 93) "") = false).
  { destruct l as [|text l]; [done|]. apply Forall_cons in Hall as [(_ & v & Hv) _].
    assert (Hst : ∃ t, stops t ∧ Join (text :: l) "," +:+ String (byte_of 93) "" = text +:+ t).
    { destruct l as [|e l]; [exists (String (byte_of 93) ""); split; [simpl; auto|done]|].
      exists (String (byte_of 44) (Join (e :: l) "," +:+ String (byte_of 93) "")). split; [simpl; auto|].
      change (Join (text :: e :: l) ",") with (text +:+ String (byte_of 44) (Join (e :: l) ",")). by rewrite append_assoc. }
    destruct Hst as (t & Ht & ->). eapply starts_value. apply (Hv t Ht). }
  destruct Hs as [-> ->]. rewrite (raw_item_texts depth) by (try done; simpl; rewrite len_append; pose proof (join_len _ _ Hall); lia).
  done.
Qed.

(** ** A write *)

Lemma into_string_written old s : into_string old (marshal (JStr s)) = Some (coerced s).
Proof. unfold into_string. by rewrite (marshal_reads (JStr s) 0 eq_refl ltac:(by vm_compute)). Qed.

(** What a client sends for a write: the fields in any order would do; the payload as a document. *)
Definition write_body (agent rtype rid op : string) (payload : json) : json :=
  JStruct [("agent_id", JStr agent); ("resource_type", JStr rtype); ("resource_id", JStr rid); ("operation", JStr op); ("payload", payload)].

Lemma write_readable payload n : nesting payload = Some n → 1 + n <= maxNestingDepth →
  ∀ agent rtype rid op, Forall (λ e, reads_at 1 (marshal e.2))
    [("agent_id", JStr agent); ("resource_type", JStr rtype); ("resource_id", JStr rid); ("operation", JStr op); ("payload", payload)].
Proof.
  intros Hn Hle agent rtype rid op.
  repeat (apply Forall_cons_2; [apply readable_at|]); [..|apply Forall_nil_2]; [by apply (marshal_readable _ 1 0)..|].
  by apply (marshal_readable _ 1 n).
Qed.

Lemma decode_write_body agent rtype rid op payload n t : nesting payload = Some n → 1 + n <= maxNestingDepth →
  decode_write (marshal (write_body agent rtype rid op payload) +:+ t) =
    Some (mkWrite (coerced agent) (coerced rtype) (coerced rid) (coerced op) (marshal payload)).
Proof.
  intros Hn Hle. unfold decode_write, write_body. rewrite decode_object_struct by (by eapply write_readable).
  cbn [mbind option_bind fmap list_fmap fst snd fill].
  change (set_write (coerced "agent_id") ?t (mkWrite ?a ?b ?c ?d ?e)) with (s ← into_string a t; Some (mkWrite s b c d e)).
  rewrite into_string_written. cbn [mbind option_bind].
  change (set_write (coerced "resource_type") ?t (mkWrite ?a ?b ?c ?d ?e)) with (s ← into_string b t; Some (mkWrite a s c d e)).
  rewrite into_string_written. cbn [mbind option_bind].
  change (set_write (coerced "resource_id") ?t (mkWrite ?a ?b ?c ?d ?e)) with (s ← into_string c t; Some (mkWrite a b s d e)).
  rewrite into_string_written. cbn [mbind option_bind].
  change (set_write (coerced "operation") ?t (mkWrite ?a ?b ?c ?d ?e)) with (s ← into_string d t; Some (mkWrite a b c s e)).
  rewrite into_string_written. done.
Qed.

(** C7: a write is taken as the client wrote it: of the bytes json.Marshal makes of its fields and
    its payload, handleWrite decodes the fields and, for the payload, exactly the payload's
    bytes, if the body is within the limit; a body one byte longer is refused as too large, not as malformed. *)
Theorem write_body_read (complaint : string → string) (limit : Z) (agent rtype rid op : string) (payload : json) (n : Z) :
  nesting payload = Some n → 1 + n <= maxNestingDepth →
  let body := marshal (write_body agent rtype rid op payload) in
  read_write_body complaint limit body =
    if Z.of_nat (len body) <=? limit
    then BodyDecoded (mkWrite (coerced agent) (coerced rtype) (coerced rid) (coerced op) (marshal payload))
    else BodyTooLarge.
Proof.
  intros Hn Hle body. assert (Hr : readable 0 (write_body agent rtype rid op payload)).
  { apply (readable_members 0); [by vm_compute|]. set (l := [_; _; _; _; _]).
    assert (Hp : readable 1 payload) by (by apply (marshal_readable _ 1 n)).
    unfold l. repeat (apply Forall_cons_2; [by apply (marshal_readable _ 1 0)|]). by apply Forall_singleton. }
  unfold read_write_body. assert (skip_space body = body) as -> by done.
  assert (Hp : parse_at 0 body = Some (read_back (write_body agent rtype rid op payload), "")).
  { rewrite <- (append_nil_r body). by apply (written_at 0). }
  rewrite Hp. change (read_back (write_body agent rtype rid op payload)) with
    (VObject (fold_left (λ m '(k, v), set_member (coerced k) v m)
      [("agent_id", VString (coerced agent)); ("resource_type", VString (coerced rtype)); ("resource_id", VString (coerced rid));
       ("operation", VString (coerced op)); ("payload", read_back payload)] [])).
  cbn [String.length]. rewrite Nat.sub_0_r.
  destruct (Z.of_nat (len body) <=? limit); [|done].
  assert (Hw := decode_write_body agent rtype rid op payload n "" Hn Hle). rewrite append_nil_r in Hw.
  fold body in Hw. by rewrite Hw.
Qed.

(** A body of exactly the limit, and the same one byte over it; names in another case and blanks; and [null]
    for the payload, which is a payload. *)
Lemma write_body_read_witness :
  let payload := JStruct [("amount", JInt 5)] in
  let body := marshal (write_body "a" "invoice" "7" "pay" payload) in
  read_write_body id (Z.of_nat (len body)) body = BodyDecoded (mkWrite "a" "invoice" "7" "pay" (marshal payload)) ∧
  read_write_body id (Z.of_nat (len body) - 1) body = BodyTooLarge.
Proof.
  split.
  - refine (eq_trans (write_body_read id _ "a" "invoice" "7" "pay" (JStruct [("amount", JInt 5)]) 1 eq_refl ltac:(by vm_compute)) _).
    vm_compute. reflexivity.
  - refine (eq_trans (write_body_read id _ "a" "invoice" "7" "pay" (JStruct [("amount", JInt 5)]) 1 eq_refl ltac:(by vm_compute)) _).
    vm_compute. reflexivity.
Defined.

(** ** A probe answer *)

Lemma decode_probe_written complaint found t : Z.of_nat (length found) <= int64_max →
  decode_probe_answer complaint (marshal (probe_json found) +:+ t) =
    inr (Z.of_nat (length found), marshal ∘ execution_json <$> found).
Proof.
  intros Hlen. unfold decode_probe_answer, probe_json. rewrite marshal_obj.
  set (executions := match found with [] => JNull | _ => JList (execution_json <$> found) end).
  change (merge_sort field_le _) with [("count", JInt (Z.of_nat (length found))); ("executions", executions)].
  assert (Hx : ∀ e, reads_at 2 (marshal (execution_json e))) by (intros e; apply readable_at; by apply (marshal_readable _ 2 1)).
  assert (Hitems : decode_items 2 (marshal executions) = Some (marshal ∘ execution_json <$> found)).
  { unfold executions. destruct found as [|e l]; [by vm_compute|].
    change (marshal (JList ?l)) with (String (byte_of 91) (Join (marshal <$> l) "," +:+ String (byte_of 93) "")).
    rewrite <- list_fmap_compose. apply decode_items_list, Forall_fmap, Forall_forall. intros x _. apply Hx. }
  assert (Hn : ∃ n, nesting executions = Some n ∧ n <= 2).
  { unfold executions. destruct found as [|e l]; [by exists 0|]. exists 2. split; [|done].
    change (nesting (JList ?l)) with (Z.succ <$> deepest (nesting <$> l)). rewrite (deepest_level 1); [done..| |done].
    apply Forall_fmap, Forall_forall. done. }
  destruct Hn as (n & Hn & Hle). rewrite decode_object_struct.
  2:{ apply Forall_cons_2; [apply readable_at; by apply (marshal_readable _ 1 0)|]. apply Forall_singleton, readable_at.
      apply (marshal_readable _ 1 n Hn). unfold maxNestingDepth. lia. }
  cbn [mbind option_bind fmap list_fmap fst snd fill].
  change (set_probe (coerced "count") ?t ?x) with (z ← into_int x.1 t; Some (z, x.2)).
  assert (into_int 0 (marshal (JInt (Z.of_nat (length found)))) = Some (Z.of_nat (length found))) as Hcount.
  { unfold into_int. rewrite (marshal_reads (JInt _) 0 eq_refl) by (by vm_compute). cbn [read_back]. by rewrite ParseInt_Itoa by lia. }
  cbn [fst]. rewrite Hcount. cbn [mbind option_bind].
  change (set_probe (coerced "executions") ?t ?x) with (items ← decode_items 2 t; Some (x.1, items)). by rewrite Hitems.
Qed.

(** C18: the probe is right to the byte: against the fake, after any requests on any ledger, the probe
    client with its own decoder reads from the answer's bytes how often the write was executed, and
    for one that was the recorded execution as the fake wrote it, last; so the reconciler records
    done for it, and failed for one that never ran. *)
Theorem probe_reads_fake `{!Pg, !Objects} (complaint : string → string) (r : Reconciler) (snapshot : Snapshot)
    (path prior : string) (durable : bool) (candidate : stale) (f0 : fake) (history : list incoming) (w : world) (resp : response) :
  let f := serve_all history f0 in
  let id := correlation_ID (st_agentID candidate) (st_key candidate) in
  let ran := executions_of id f in
  let decode := decode_probe_answer complaint in
  f_ledger f0 = openLedger prior durable → Z.of_nat (length history) <= int64_max →
  Probe.pc_buildError (prober r) = None →
  (handleProbe id f).1 = inr resp → head (w_replies w) = Some (wire (Some resp)) →
  (Probe.Probe decode (prober r) path (st_agentID candidate) (st_key candidate) w).1 =
    inr match last ran with
        | None => (Probe.NotExecuted, "")
        | Some e => (Probe.Executed, marshal (execution_json e))
        end ∧
  (is_Some (Lookup_type snapshot (st_resourceType candidate)) →
   probe_says decode r snapshot candidate (head (w_replies w)) =
     Some (if decide (ran = []) then StatusFailed else StatusDone)).
Proof.
  intros f id ran decode Hf Hlen Hb Hresp Hhead. apply (probe_truthful decode r snapshot path prior durable candidate f0 history w resp); try done.
  intros found Hfound. apply decode_probe_written.
  assert (Hsame : length found = length (byCorrelation id (f_ledger f))).
  { injection Hresp as Hresp. rewrite Hfound in Hresp. injection Hresp as Hcount _. lia. }
  rewrite Hsame. pose proof (serve_all_records history f0) as Hn. fold f in Hn. rewrite Hf in Hn. simpl in Hn.
  assert (Hfew : (length (byCorrelation id (f_ledger f)) <= length (l_records (f_ledger f)))%nat).
  { assert (Hok : ledger_ok prior (f_ledger f)) by (apply serve_all_ledger; rewrite Hf; apply openLedger_ok).
    unfold byCorrelation. destruct (String.eqb id ""); [done|]. rewrite (lo_index _ _ Hok). apply length_filter. }
  lia.
Qed.

Section Probed.
#[local] Existing Instance demo_pg.

(** One call executed, and its probe answered over the wire. *)
Lemma probe_reads_fake_witness :
  let w := set_replies [wire (Some probe_answer)] (world_of empty_db) in
  (Probe.Probe (decode_probe_answer (λ s, s)) (prober demo_prober) "/probe" "a" "k" w).1 =
    inr match last (executions_of (correlation_ID "a" "k") called_fake) with
        | None => (Probe.NotExecuted, "")
        | Some e => (Probe.Executed, marshal (execution_json e))
        end ∧
  length (executions_of (correlation_ID "a" "k") called_fake) = 1%nat.
Proof.
  intros w. split; [|vm_compute; reflexivity].
  destruct (probe_reads_fake (λ s, s) demo_prober (mkSnapshot "v" ∅) "/probe" "" true demo_candidate
    (fresh_fake [] []) one_call w probe_answer eq_refl ltac:(by vm_compute) eq_refl eq_refl eq_refl) as [Hp _].
  exact Hp.
Defined.
End Probed.

(** ** The manifests that ship *)

Example shipped_texts :
  unmarshal_document id invoice_json = inr invoice_doc ∧ unmarshal_document id subscription_json = inr subscription_doc.
Proof. by vm_compute. Qed.

(** The directory of manifests/ loads, and every operation in it is served. *)
Example shipped_manifests_load : ∃ s,
  Manifest.Load (unmarshal_document id) [("invoice", inr invoice_json); ("subscription", inr subscription_json)] = inr s ∧
  Lookup_type s "invoice" = Some (definition invoice_doc) ∧
  Lookup_type s "subscription" = Some (definition subscription_doc).
Proof. eexists. split; [vm_compute; reflexivity|]. split; vm_compute; reflexivity. Qed.
