(* ===== verification/Processes.v ===== *)
(** * Processes: cmd/idemio, cmd/reconciler and cmd/relay

    How each binary starts: what it loads, verifies and connects before it serves, sweeps or
    publishes, and in which order a failure stops it.  The schema that migrations change, the
    rows and the partitions are one database here.  Goroutines are sequences of their own
    elsewhere: [Watch] in Manifest.v, the sweeps in ReconcileRun.v, the passes below. *)

From S2P Require Import Prelude GoString GoTime GoHttp Sha256 Manifest Conflict World Json Claim Config Downstream.
From S2P Require Import ResultStore ObjectStore Retention Partitions Maintenance Store Reconcile ReconcileRun Api.
From S2P Require Import Relay Telemetry.

Definition minPartitionHeadroom : Z := 14 * 24 * Hour.
Definition drainMargin : Z := 2 * Second.

(** [strings.Split] by one byte. *)
Fixpoint Split (s : string) (sep : Ascii.ascii) : list string :=
  match s with
  | EmptyString => [""]
  | String c r =>
      if bool_decide (c = sep) then "" :: Split r sep
      else match Split r sep with h :: t => String c h :: t | [] => [String c ""] end
  end.

(** ** One database *)

(** What the migrations act on: the rows, the partitions and the constraints of idempotency_keys. *)
Record tables := mkTables { t_rows : DB; t_partitions : catalog; t_constraints : list (list string) }.

(** A process and its database; [p_info] are the labels of the manifest_info gauge. *)
Record process := mkProcess {
  p_house : mworld;
  p_ledger : option (list string);
  p_constraints : list (list string);
  p_others : list (sdb tables → sdb tables);
  p_lock : bool;
  p_info : list string;
}.

Abbreviation MP := (St process).

Definition schema_of (p : process) : sworld tables :=
  mkSWorld (mkSDB (mkTables (w_db (m_world (p_house p))) (m_cat (p_house p)) (p_constraints p)) (p_ledger p))
    (w_faults (m_world (p_house p))) (p_others p) (p_lock p).

Definition with_schema (s : sworld tables) (p : process) : process :=
  let t := db_schema (s_db s) in
  mkProcess (mkMWorld (set_db (t_rows t) (set_faults (s_faults s) (m_world (p_house p)))) (t_partitions t))
    (db_ledger (s_db s)) (t_constraints t) (s_others s) (s_lock s) (p_info p).

Definition set_house (h : mworld) (p : process) : process :=
  mkProcess h (p_ledger p) (p_constraints p) (p_others p) (p_lock p) (p_info p).
Definition set_info (l : list string) (p : process) : process :=
  mkProcess (p_house p) (p_ledger p) (p_constraints p) (p_others p) (p_lock p) l.

Definition on_schema {A} (m : St (sworld tables) A) : MP A := λ p,
  let '(r, s) := m (schema_of p) in (r, with_schema s p).
Definition on_house {A} (m : MM A) : MP A := λ p,
  let '(r, h) := m (p_house p) in (r, set_house h p).
Definition on_rows {A} (m : M A) : MP A := on_house (lift m).

(** [activator]: one label at a time, and a failure to record is only logged. *)
Definition activate (principal : string) (snapshot : Snapshot) : MP unit :=
  _ ← modify (set_info []);
  _ ← modify (λ p, set_info (p_info p ++ [Manifest.version snapshot]) p);
  _ ← try (on_rows (RecordActivation snapshot principal));
  mret tt.

(** The callbacks of [Watch] in the order it makes them. *)
Fixpoint notified (callback : Snapshot → MP unit) (events : list watch_event) : MP unit :=
  match events with
  | [] => mret tt
  | OnActivate s :: rest => _ ← callback s; notified callback rest
  | OnFailure :: rest => _ ← on_rows (emit (Inc "manifest_reload_failures" [])); notified callback rest
  end.

(** ** Start-up *)

(** Why a process did not start. *)
Inductive refusal :=
| Misconfigured (problems : list config_problem)
| Unloadable (e : load_error)
| NotStarted (e : goerr).

Section Start.
Context `{!Minio}.
Context (Getenv : string → string) (unmarshal : string → goerr + document) (dir : directory).
(** What the libraries answer: the pool, the MinIO client, the listener and the validation of a
    URL by [http.NewRequest]. *)
Context (pool_error dialled listen_error : option goerr) (build_error : string → option string).
Context (run_sql : string → tables → goerr + tables) (FS : list (string * string)) (principal : string).

Definition fails (context : string) (e : option goerr) : MP unit :=
  match e with Some e => throw (wrap context e) | None => mret tt end.

Definition options (cfg : Config) : Options :=
  mkOptions (ArchiveEndpoint cfg) (ArchiveBucket cfg) (ArchiveAccessKey cfg) (ArchiveSecretKey cfg) false.

(** [resultstore.New]: a nil client is no store. *)
Definition results_of (objects : option ObjectClient) (cfg : Config) : ResultStore :=
  mkResultStore (bool_decide (is_Some objects)) (ResultInlineBytes cfg).

Definition verify_constraint : MP unit :=
  constraints ← gets p_constraints;
  on_rows (VerifyUniqueConstraint constraints).

(** A registration that panics ends the process too. *)
Definition new_metrics (cfg : Config) : MP Metrics :=
  match Telemetry.New cfg with inl e => throw e | inr m => mret m end.

(** What cmd/idemio serves. *)
Record service := mkService {
  sv_server : Server;
  sv_manifests : Manifest.Store;
  sv_objects : option ObjectClient;
  sv_metrics : Metrics;
}.

(** [run] of cmd/idemio after the configuration and the manifests, up to the listener. *)
Definition start_service (cfg : Config) (manifests : Manifest.Store) : MP service :=
  _ ← fails "connect database" pool_error;
  _ ← on_schema (Migrate run_sql FS);
  _ ← verify_constraint;
  _ ← on_house (VerifyPartitionHeadroom minPartitionHeadroom);
  objects ← on_rows (ObjectStore.New dialled (options cfg));
  metrics ← new_metrics cfg;
  _ ← activate principal (current manifests);
  _ ← fails ("bind " +:+ ListenAddr cfg) listen_error;
  mret (mkService
    (mkServer cfg (mkClient (DownstreamBaseURL cfg) (build_error (DownstreamBaseURL cfg))) (results_of objects cfg))
    manifests objects metrics).

(** The configuration and the manifests, then the rest. *)
Definition configured_run {A} (start : Config → Manifest.Store → MP A) (p : process) : (refusal + A) * process :=
  match Config.Load Getenv with
  | inl problems => (inl (Misconfigured problems), p)
  | inr cfg =>
      match NewStore unmarshal dir with
      | inl e => (inl (Unloadable e), p)
      | inr manifests =>
          let '(r, p') := start cfg manifests p in
          (match r with inl e => inl (NotStarted e) | inr x => inr x end, p')
      end
  end.

Definition run_service : process → (refusal + service) * process := configured_run start_service.

(** What cmd/reconciler runs; with [-restore-partition] it restores and exits instead. *)
Record sweeper := mkSweeper {
  sw_cfg : Config;
  sw_manifests : Manifest.Store;
  sw_objects : option ObjectClient;
  sw_reconciler : Reconciler;
  sw_metrics : Metrics;
}.

Inductive reconciler_mode := Restoring (objects : option ObjectClient) (partition : string) | Sweeping (s : sweeper).

Definition start_reconciler (restorePartition : string) (cfg : Config) (manifests : Manifest.Store) : MP reconciler_mode :=
  _ ← fails "connect database" pool_error;
  _ ← verify_constraint;
  objects ← on_rows (ObjectStore.New dialled (options cfg));
  if negb (String.eqb restorePartition "") then mret (Restoring objects restorePartition)
  else
    metrics ← new_metrics cfg;
    _ ← modify (λ p, set_info (p_info p ++ [Manifest.version (current manifests)]) p);
    mret (Sweeping (mkSweeper cfg manifests objects
      (mkReconciler (Probe.mkProbeClient (DownstreamBaseURL cfg) (build_error (DownstreamBaseURL cfg)))
         (results_of objects cfg) (ReconcileStaleAfter cfg) defaultBatch) metrics)).

Definition run_reconciler (restorePartition : string) : process → (refusal + reconciler_mode) * process :=
  configured_run (start_reconciler restorePartition).

(** The reconciler's callback of [Watch]. *)
Definition relabel (snapshot : Snapshot) : MP unit :=
  _ ← modify (set_info []);
  modify (λ p, set_info (p_info p ++ [Manifest.version snapshot]) p).

(** What cmd/relay publishes with. *)
Record publisher := mkPublisher { pb_cfg : Config; pb_brokers : list string; pb_topic : string; pb_metrics : Metrics }.

Definition run_relay (p : process) : (refusal + publisher) * process :=
  match Config.Load Getenv with
  | inl problems => (inl (Misconfigured problems), p)
  | inr cfg =>
      if String.eqb (KafkaBrokers cfg) ""
      then (inl (NotStarted (errorf "IDEMIO_KAFKA_BROKERS is required to run the relay")), p)
      else
        let '(r, p') := (_ ← fails "connect database" pool_error;
                         metrics ← new_metrics cfg;
                         mret (mkPublisher cfg (Split (KafkaBrokers cfg) ","%char) (KafkaTopic cfg) metrics)) p in
        (match r with inl e => inl (NotStarted e) | inr x => inr x end, p')
  end.
End Start.

(** ** Serving and stopping *)

(** How serving ends: [Serve] returns, or a signal comes and [Shutdown] is given its grace. *)
Inductive serving := ServeEnded (e : option goerr) | Signalled (Shutdown : Z → option goerr).

Definition grace (cfg : Config) : Z :=
  wrap64 (wrap64 (DownstreamConnectTimeout cfg + DownstreamTimeout cfg) + drainMargin).

Definition serveUntilSignal (cfg : Config) (s : serving) : goerr + unit :=
  match s with
  | ServeEnded None => inr tt
  | ServeEnded (Some e) => inl (wrap "serve" e)
  | Signalled Shutdown =>
      match Shutdown (grace cfg) with
      | Some e => inl (wrap "shutdown" e)
      | None => inr tt
      end
  end.

(** [serveMetrics] of cmd/reconciler and cmd/relay: the one pattern of their mux. *)
Definition metrics_mux : list (pattern * unit) := [(mkPattern "GET" [Literal "metrics"], tt)].

Definition serve_metrics (page : M string) (method : string) (path : list string) : M (Z * string) :=
  match dispatch metrics_mux method path with
  | Found _ _ _ => (λ text, (200, text)) <$> page
  | MethodNotAllowed => mret method_not_allowed_text
  | NotFound => mret not_found_text
  end.

(** [maintain]: a pass, then the next tick or the end; [others t] are the replicas before the
    pass with [t] ticks to come. *)
Section Maintain.
Context `{!Objects} (scan : DB → list ((string * string) * key_row)).
Context (cfg : Config) (archiver : archiver_value) (results : option ResultStore).

Fixpoint maintain (others : nat → catalog → catalog) (fuel ticks : nat) : MM pass :=
  pass ← runMaintenance scan cfg archiver results (others ticks) fuel;
  match pass with
  | PassDone => match ticks with O => mret PassDone | S t => maintain others fuel t end
  | ended => mret ended
  end.
End Maintain.

(** ** Lemmas *)

(** Between two points of a start-up: the schema, its ledger and the partitions are as they were,
    the rows too but for the activations, and nothing went downstream. *)
Definition kept (p p' : process) : Prop :=
  p_ledger p' = p_ledger p ∧ p_constraints p' = p_constraints p ∧ m_cat (p_house p') = m_cat (p_house p) ∧
  w_sent (m_world (p_house p')) = w_sent (m_world (p_house p)) ∧
  ∃ l, w_db (m_world (p_house p')) = set_activations (λ _, l) (w_db (m_world (p_house p))).

#[export] Instance kept_preorder : PreOrder kept.
Proof.
  split.
  - intros p. split_and!; try done. exists (db_activations (w_db (m_world (p_house p)))).
    by destruct (w_db (m_world (p_house p))).
  - intros p1 p2 p3 (H1 & H2 & H3 & H4 & l & H5) (K1 & K2 & K3 & K4 & k & K5). split_and!; try congruence.
    exists k. rewrite K5, H5. done.
Qed.

Lemma kept_rows p w : w_sent w = w_sent (m_world (p_house p)) → w_db w = w_db (m_world (p_house p)) →
  kept p (set_house (mkMWorld w (m_cat (p_house p))) p).
Proof.
  intros Hs Hd. split_and!; try done. simpl. exists (db_activations (w_db (m_world (p_house p)))). rewrite Hd.
  by destruct (w_db (m_world (p_house p))).
Qed.

Lemma fails_kept c e : frames kept (fails c e).
Proof. unfold fails. destruct e; frames_auto. Qed.

Lemma info_kept f : frames kept (modify (λ p, set_info (f p) p)).
Proof. intros p. pose proof (reflexivity (R := kept) p) as H. by destruct H. Qed.

Lemma verify_constraint_kept : frames kept verify_constraint.
Proof.
  intros p. unfold verify_constraint. rewrite (bind_inr _ _ _ _ _ (eq_refl : gets p_constraints p = (inr (p_constraints p), p))).
  unfold on_rows, on_house, lift. destruct (VerifyUniqueConstraint (p_constraints p) (m_world (p_house p))) as [r w] eqn:E.
  simpl. apply kept_rows; revert E; unfold VerifyUniqueConstraint, wrapping, query, mbind, St_bind;
    destruct (default Fine _); simpl; repeat case_match; by intros [= <- <-].
Qed.

Lemma headroom_kept : frames kept (on_house (VerifyPartitionHeadroom minPartitionHeadroom)).
Proof.
  intros p. unfold on_house. destruct (VerifyPartitionHeadroom _ (p_house p)) as [r h] eqn:E.
  apply verify_tables_inv in E as (Hc & Hd & Hs & _). simpl. destruct h as [w c]. simpl in *. subst c.
  by apply kept_rows.
Qed.

Lemma activate_kept principal snapshot : frames kept (activate principal snapshot).
Proof.
  unfold activate. apply frames_bind; [apply _|exact (info_kept (λ _, []))|]. intros _.
  apply frames_bind; [apply _|exact (info_kept (λ p, p_info p ++ [Manifest.version snapshot]))|]. intros _.
  apply frames_bind; [apply _| |intros ?; apply frames_ret; apply _]. apply frames_try.
  intros p. unfold on_rows, on_house, lift, RecordActivation, wrapping, query, recordActivation.
  assert (Hrefl : kept p p) by reflexivity. destruct Hrefl as (_ & _ & _ & _ & l & Hl).
  destruct (default Fine (head (w_faults (m_world (p_house p))))); simpl; try destruct (existsb _ _);
    (split_and!; [done..|]); simpl; eauto.
Qed.

Section Started.
Context `{!Minio}.

Lemma objects_kept dialled opts : frames kept (on_rows (ObjectStore.New dialled opts)).
Proof.
  intros p. unfold on_rows, on_house, lift.
  assert (Hf : obj_frame (m_world (p_house p)) (ObjectStore.New dialled opts (m_world (p_house p))).2).
  { revert p. enough (frames obj_frame (ObjectStore.New dialled opts)) as Hall by (intros p; apply Hall).
    unfold ObjectStore.New. destruct (negb _); [apply frames_ret; apply _|].
    destruct dialled; [apply frames_throw; apply _|].
    apply frames_bind; [apply _|apply frames_wrapping; intros w; apply BucketExists_frame|]. intros [].
    - apply frames_bind; [apply _|apply frames_ret; apply _|intros; apply frames_ret; apply _].
    - apply frames_bind; [apply _|apply frames_wrapping; intros w; apply MakeBucket_frame|intros; apply frames_ret; apply _]. }
  destruct (ObjectStore.New dialled opts (m_world (p_house p))) as [r w]. simpl in *.
  apply kept_rows; by rewrite Hf.
Qed.

Lemma new_metrics_kept cfg : frames kept (new_metrics cfg).
Proof. unfold new_metrics. destruct (Telemetry.New cfg); frames_auto. Qed.
End Started.

#[export] Hint Resolve fails_kept verify_constraint_kept headroom_kept activate_kept objects_kept new_metrics_kept : frames.

(** The migrations touch neither the downstream nor the metrics. *)
Lemma on_schema_sent {A} (m : St (sworld tables) A) p :
  w_sent (m_world (p_house (on_schema m p).2)) = w_sent (m_world (p_house p)).
Proof. unfold on_schema. by destruct (m (schema_of p)). Qed.

Lemma kept_sent p p' : kept p p' → w_sent (m_world (p_house p')) = w_sent (m_world (p_house p)).
Proof. by intros (_ & _ & _ & ? & _). Qed.

(** What a successful check says of the state it leaves. *)
Lemma verify_constraint_ok p p' : verify_constraint p = (inr tt, p') →
  constraintColumns (p_constraints p') = Some expectedKeyConstraint.
Proof.
  unfold verify_constraint. rewrite (bind_inr _ _ _ _ _ (eq_refl : gets p_constraints p = (inr (p_constraints p), p))).
  unfold on_rows, on_house, lift, VerifyUniqueConstraint, wrapping, query, mbind, St_bind.
  destruct (default Fine _); simpl; try done. destruct (constraintColumns (p_constraints p)) as [c|] eqn:Hc; [|done].
  destruct (String.eqb_spec c expectedKeyConstraint) as [->|]; [|done]. simpl. by intros [= <-].
Qed.

Lemma objects_ok `{!Minio} dialled opts p o p' : on_rows (ObjectStore.New dialled opts) p = (inr o, p') →
  bool_decide (is_Some o) = Configured opts.
Proof.
  unfold on_rows, on_house, lift. destruct (ObjectStore.New dialled opts (m_world (p_house p))) as [[e|x] w] eqn:E; [done|].
  intros [= -> _]. revert E. unfold ObjectStore.New. destruct (Configured opts); simpl; [|by intros [= <- _]].
  destruct dialled; [done|]. unfold wrapping, mbind, St_bind.
  destruct (BucketExists _ _) as [[e|[]] w1]; simpl; [done|by intros [= <- _]|].
  destruct (MakeBucket _ _) as [[e|[]] w2]; simpl; [done|by intros [= <- _]].
Qed.

(** After an activation the gauge has one label. *)
Lemma activate_info principal snapshot p r p' : activate principal snapshot p = (r, p') →
  p_info p' = [Manifest.version snapshot].
Proof.
  unfold activate, mbind, St_bind, modify, try, on_rows, on_house, lift. cbn [p_info set_info p_house app].
  destruct (RecordActivation _ _ _) as [[e|u] w]; by intros [= <- <-].
Qed.

(** Nothing was sent downstream. *)
Definition unsent (p p' : process) : Prop := w_sent (m_world (p_house p')) = w_sent (m_world (p_house p)).
#[export] Instance unsent_preorder : PreOrder unsent.
Proof. split; [by intros p|]. unfold unsent. intros p1 p2 p3. congruence. Qed.

Lemma kept_unsent {A} (m : MP A) : frames kept m → frames unsent m.
Proof. intros Hm p. by apply kept_sent, Hm. Qed.

Lemma on_schema_unsent {A} (m : St (sworld tables) A) : frames unsent (on_schema m).
Proof. intros p. apply on_schema_sent. Qed.
#[export] Hint Resolve on_schema_unsent : frames.
#[export] Hint Extern 3 (frames unsent _) => (apply kept_unsent; solve [auto with frames]) : frames.

Section Ready.
Context `{!Minio}.
Context (Getenv : string → string) (unmarshal : string → goerr + document) (dir : directory).
Context (pool_error dialled listen_error : option goerr) (build_error : string → option string).
Context (run_sql : string → tables → goerr + tables) (FS : list (string * string)) (principal : string).

Lemma start_service_unsent cfg manifests :
  frames unsent (start_service pool_error dialled listen_error build_error run_sql FS principal cfg manifests).
Proof. unfold start_service. frames_auto. Qed.

Lemma start_reconciler_unsent restorePartition cfg manifests :
  frames unsent (start_reconciler pool_error dialled build_error restorePartition cfg manifests).
Proof.
  unfold start_reconciler. frames_auto. apply kept_unsent.
  exact (info_kept (λ p, p_info p ++ [Manifest.version (current manifests)])).
Qed.

(** What the migrations leave: every file recorded. *)
Definition all_migrated (p : process) : Prop := ∃ l, p_ledger p = Some l ∧ pendingMigrations FS l = [].

Lemma on_schema_migrated p u p' : on_schema (Migrate run_sql FS) p = (inr u, p') → all_migrated p'.
Proof.
  unfold on_schema. destruct (Migrate run_sql FS (schema_of p)) as [r s] eqn:E. intros [= -> <-].
  destruct (Migrate_runs run_sql FS _ _ _ E) as [(e & [=] & _)|(done_ & rest & _ & _ & Hl & Hok)].
  destruct u. destruct (Hok eq_refl) as [_ Hp]. eexists. split; [exact Hl|exact Hp].
Qed.

(** Every table has a partition that ends two weeks after the reading of the clock with which
    the table was checked; the readings are the first three from [p0] on. *)
Definition headroom_checked (p0 p : process) : Prop :=
  ∀ t, t ∈ Tables → ∃ q us j, q ∈ attached (m_cat (p_house p)) ∧ pt_table q = Name t ∧ pt_upper q = Some us ∧
    (j < 3)%nat ∧ w_clock (m_world (p_house p0)) j + 14 * 24 * Hour <= us * 1000.

Lemma headroom_ok p p' : on_house (VerifyPartitionHeadroom minPartitionHeadroom) p = (inr tt, p') →
  headroom_checked p p'.
Proof.
  unfold on_house. destruct (VerifyPartitionHeadroom _ (p_house p)) as [r h] eqn:E. intros [= -> <-].
  apply verify_tables_inv in E as (Hc & _ & _ & Hok). intros t Ht.
  destruct (Hok eq_refl (Name t)) as (us & j & Hj & Hus & Hle).
  { rewrite headroom_tables_all. by apply list_elem_of_fmap_2. }
  apply latest_reached in Hus as (q & Hq & Hqt & Hqu). exists q, us, j. cbn [p_house set_house]. rewrite Hc.
  split_and!; [done..|]. unfold Sub, minPartitionHeadroom, Hour, Minute, Second, int64_min in *. lia.
Qed.

Lemma checked_kept p0 p p' : kept p p' →
  (all_migrated p → all_migrated p') ∧
  (constraintColumns (p_constraints p) = Some expectedKeyConstraint →
   constraintColumns (p_constraints p') = Some expectedKeyConstraint) ∧
  (headroom_checked p0 p → headroom_checked p0 p').
Proof. unfold all_migrated, headroom_checked. by intros (-> & -> & -> & _). Qed.

(** Nothing before that check reads the clock. *)
Definition unread (p p' : process) : Prop := w_clock (m_world (p_house p')) = w_clock (m_world (p_house p)).

Lemma verify_constraint_unread p : unread p (verify_constraint p).2.
Proof.
  unfold verify_constraint. rewrite (bind_inr _ _ _ _ _ (eq_refl : gets p_constraints p = (inr (p_constraints p), p))).
  unfold unread, on_rows, on_house, lift.
  destruct (VerifyUniqueConstraint (p_constraints p) (m_world (p_house p))) as [r w] eqn:E. simpl.
  revert E. unfold VerifyUniqueConstraint, wrapping, query, mbind, St_bind.
  destruct (default Fine _); simpl; repeat case_match; by intros [= <- <-].
Qed.

Lemma on_schema_unread {A} (m : St (sworld tables) A) p : unread p (on_schema m p).2.
Proof. unfold unread, on_schema. by destruct (m (schema_of p)). Qed.

Ltac kept_of E lemma := let K := fresh "K" in
  match type of E with ?m ?p = (_, ?p') => pose proof (lemma p) as K; rewrite E in K; cbn [snd] in K end.

(** A service that started has passed every check. *)
Lemma start_service_ready cfg manifests p sv p' :
  start_service pool_error dialled listen_error build_error run_sql FS principal cfg manifests p = (inr sv, p') →
  all_migrated p' ∧ constraintColumns (p_constraints p') = Some expectedKeyConstraint ∧
  headroom_checked p p' ∧
  Telemetry.New cfg = inr (sv_metrics sv) ∧ Api.cfg (sv_server sv) = cfg ∧ sv_manifests sv = manifests ∧
  configured (srv_results (sv_server sv)) = bool_decide (is_Some (sv_objects sv)) ∧
  bool_decide (is_Some (sv_objects sv)) = Configured (options cfg) ∧ p_info p' = [Manifest.version (current manifests)].
Proof.
  unfold start_service. run_first [[e|[]] p1] as E1; [done|].
  assert (p1 = p) as -> by (revert E1; unfold fails; destruct pool_error; [done|by intros [= <-]]).
  run_first [[e|u2] p2] as E2; [done|]. pose proof (on_schema_unread (Migrate run_sql FS) p) as C2.
  rewrite E2 in C2. cbn [snd] in C2. apply on_schema_migrated in E2.
  run_first [[e|[]] p3] as E3; [done|]. pose proof (verify_constraint_unread p2) as C3.
  rewrite E3 in C3. cbn [snd] in C3. kept_of E3 verify_constraint_kept. apply verify_constraint_ok in E3.
  run_first [[e|[]] p4] as E4; [done|]. kept_of E4 headroom_kept. apply headroom_ok in E4.
  run_first [[e|objects] p5] as E5; [done|]. kept_of E5 (objects_kept dialled (options cfg)). apply objects_ok in E5.
  run_first [[e|metrics] p6] as E6; [done|]. kept_of E6 (new_metrics_kept cfg).
  assert (Hm : Telemetry.New cfg = inr metrics) by (revert E6; unfold new_metrics; destruct (Telemetry.New cfg); [done|by intros [= -> _]]).
  run_first [[e|[]] p7] as E7; [done|]. kept_of E7 (activate_kept principal (current manifests)).
  assert (Hinfo : p_info p7 = [Manifest.version (current manifests)]) by by eapply activate_info.
  run_first [[e|[]] p8] as E8; [done|]. intros [= <- <-].
  assert (p8 = p7) as -> by (revert E8; destruct listen_error; [done|by intros [= <-]]).
  assert (K46 : kept p4 p7) by (trans p5; [done|]; by trans p6). assert (K37 : kept p3 p7) by by trans p4.
  pose proof (checked_kept p p2 p7 (transitivity K K37)) as (H1 & _ & _).
  pose proof (checked_kept p p3 p7 K37) as (_ & H2 & _).
  pose proof (checked_kept p3 p4 p7 K46) as (_ & _ & H3).
  assert (Hhead : headroom_checked p p7).
  { intros t Ht. destruct (H3 E4 t Ht) as (q & us & j & Hj). exists q, us, j. unfold unread in *.
    rewrite <- C2, <- C3. exact Hj. }
  split; [exact (H1 E2)|]. split; [exact (H2 E3)|]. split; [exact Hhead|]. split; [exact Hm|].
  do 3 (split; [reflexivity|]). split; [exact E5|exact Hinfo].
Qed.

(** So has a reconciler, whose checks are fewer. *)
Lemma start_reconciler_ready restorePartition cfg manifests p m p' :
  start_reconciler pool_error dialled build_error restorePartition cfg manifests p = (inr m, p') →
  constraintColumns (p_constraints p') = Some expectedKeyConstraint ∧
  match m with
  | Restoring objects name => name = restorePartition ∧ name ≠ "" ∧ bool_decide (is_Some objects) = Configured (options cfg)
  | Sweeping sw => restorePartition = "" ∧ Telemetry.New cfg = inr (sw_metrics sw) ∧ sw_cfg sw = cfg ∧
      sw_manifests sw = manifests ∧ staleAfter (sw_reconciler sw) = ReconcileStaleAfter cfg ∧
      batch (sw_reconciler sw) = defaultBatch ∧
      configured (results (sw_reconciler sw)) = Configured (options cfg)
  end.
Proof.
  unfold start_reconciler. run_first [[e|[]] p1] as E1; [done|].
  run_first [[e|[]] p2] as E2; [done|]. apply verify_constraint_ok in E2.
  run_first [[e|objects] p3] as E3; [done|]. kept_of E3 (objects_kept dialled (options cfg)). apply objects_ok in E3.
  assert (Hc : constraintColumns (p_constraints p3) = Some expectedKeyConstraint) by (destruct K as (_ & -> & _); exact E2).
  destruct (String.eqb_spec restorePartition "") as [Hr|Hr]; cbn [negb].
  - run_first [[e|metrics] p4] as E4; [done|]. kept_of E4 (new_metrics_kept cfg).
    assert (Hm : Telemetry.New cfg = inr metrics) by (revert E4; unfold new_metrics; destruct (Telemetry.New cfg); [done|by intros [= -> _]]).
    run_first [[e|[]] p5] as E5; [done|]. intros [= <- <-]. split; [|split; [exact Hr|split; [exact Hm|]]].
    + injection E5 as <-. cbn [p_constraints set_info]. destruct K0 as (_ & -> & _). exact Hc.
    + do 4 (split; [reflexivity|]). exact E3.
  - intros [= <- <-]. split; [exact Hc|]. by split_and!.
Qed.
End Ready.

(** ** Activations *)

Definition activated (p : process) : list (string * string) :=
  (λ a, (a_version a, a_principal a)) <$> db_activations (w_db (m_world (p_house p))).

Definition reload_failures (events : list watch_event) : list metric :=
  omap (λ e, match e with OnFailure => Some (Inc "manifest_reload_failures" []) | OnActivate _ => None end) events.

Section Activations.
Context (principal : string).

(** The activation is there, or it is added, or the statement was refused. *)
Lemma activate_cases snapshot p : ∃ p', activate principal snapshot p = (inr tt, p') ∧
  w_metrics (m_world (p_house p')) = w_metrics (m_world (p_house p)) ∧
  (World.quiet (m_world (p_house p)) → World.quiet (m_world (p_house p'))) ∧
  ((activated p' = activated p ∧
    (World.quiet (m_world (p_house p)) → (Manifest.version snapshot, principal) ∈ activated p)) ∨
   (activated p' = activated p ++ [(Manifest.version snapshot, principal)] ∧
    (Manifest.version snapshot, principal) ∉ activated p)).
Proof.
  unfold activate, mbind, St_bind, modify, try, on_rows, on_house, lift, RecordActivation, wrapping, query, recordActivation.
  cbn [p_info set_info p_house set_house m_world]. set (w := m_world (p_house p)).
  pose proof (quiet_head w) as Hhead. pose proof (quiet_tail w) as Htail.
  set (seen := existsb _ _). assert (Hseen : seen = true ↔ (Manifest.version snapshot, principal) ∈ activated p).
  { unfold seen, activated. rewrite existsb_exists, list_elem_of_fmap. fold w. split.
    - intros (a & Ha & [Hv Hp]%andb_true_iff). apply String.eqb_eq in Hv, Hp. exists a.
      split; [by f_equal|by apply list_elem_of_In].
    - intros (a & [= -> ->] & Ha). exists a. split; [by apply list_elem_of_In|]. by rewrite !String.eqb_refl. }
  assert (Hadd : ∀ q, db_activations (w_db (m_world (p_house q))) = db_activations (w_db w) ++
      [mkActivation (Manifest.version snapshot) principal (Types snapshot) (db_now (w_db w))] →
    activated q = activated p ++ [(Manifest.version snapshot, principal)])
    by (intros q Hq; unfold activated; rewrite Hq, fmap_app; reflexivity).
  destruct (default Fine (head (w_faults w))) as [|e|e]; [destruct seen| |destruct seen];
    (eexists; split; [reflexivity|]); (split; [reflexivity|]); (split; [exact Htail|]).
  - left. split; [reflexivity|]. intros _. by apply Hseen.
  - right. split; [by apply Hadd|]. rewrite <- Hseen. done.
  - left. split; [reflexivity|]. intros Hq. by specialize (Hhead Hq).
  - left. split; [reflexivity|]. intros _. by apply Hseen.
  - right. split; [by apply Hadd|]. rewrite <- Hseen. done.
Qed.

(** All the callbacks of a watch. *)
Lemma notified_runs events : ∀ p, let p' := (notified (activate principal) events p).2 in
  w_metrics (m_world (p_house p')) = w_metrics (m_world (p_house p)) ++ reload_failures events ∧
  (∃ l, activated p' = activated p ++ l) ∧ (NoDup (activated p) → NoDup (activated p')) ∧
  (World.quiet (m_world (p_house p)) →
     ∀ s, OnActivate s ∈ events → (Manifest.version s, principal) ∈ activated p').
Proof.
  induction events as [|[s|] events IH]; intros p; cbn [notified].
  - simpl. split_and!; [by rewrite app_nil_r|by exists []; rewrite app_nil_r|done|by intros _ s ?%not_elem_of_nil].
  - destruct (activate_cases s p) as (p1 & Hrun & Hm & Hq & Hcase). rewrite (bind_inr _ _ _ _ _ Hrun).
    destruct (IH p1) as (Hm' & [l Hl] & Hnd & Hin). rewrite Hm in Hm'. split; [exact Hm'|].
    assert (Hfirst : World.quiet (m_world (p_house p)) → (Manifest.version s, principal) ∈ activated p1).
    { intros Hw. destruct Hcase as [[-> Hc]|[-> _]]; [by apply Hc|]. apply elem_of_app. right. by left. }
    split_and!.
    + destruct Hcase as [[Hc _]|[Hc _]]; rewrite Hc in Hl; [by exists l|]. rewrite <- app_assoc in Hl. eauto.
    + intros Hn. apply Hnd. destruct Hcase as [[-> _]|[-> Hnew]]; [done|]. apply NoDup_app.
      split_and!; [done| |apply NoDup_singleton]. by intros x Hx ->%list_elem_of_singleton.
    + intros Hw s' [[= ->]|Hs']%elem_of_cons; [|by apply Hin; [apply Hq|]].
      rewrite Hl. apply elem_of_app. left. by apply Hfirst.
  - rewrite (bind_inr _ _ p tt (on_rows (emit (Inc "manifest_reload_failures" [])) p).2 eq_refl).
    set (p1 := (on_rows _ p).2). destruct (IH p1) as (Hm' & Hl & Hnd & Hin). split_and!.
    + rewrite Hm'. unfold p1. cbn. by rewrite <- app_assoc.
    + exact Hl.
    + exact Hnd.
    + intros Hw s [[=]|Hs]%elem_of_cons. by apply Hin.
Qed.

(** The label follows the store. *)
Lemma notified_info unmarshal ticks : ∀ store p, p_info p = [Manifest.version (current store)] →
  p_info (notified (activate principal) (Watch unmarshal store ticks).2 p).2 =
    [Manifest.version (current (Watch unmarshal store ticks).1)].
Proof.
  induction ticks as [|dir ticks IH]; intros store p Hp; [done|]. cbn [Watch].
  unfold reload. destruct (Manifest.Load unmarshal dir) as [e|snapshot] eqn:Hl.
  - specialize (IH store (on_rows (emit (Inc "manifest_reload_failures" [])) p).2 Hp).
    destruct (Watch unmarshal store ticks) as [final events]. exact IH.
  - destruct (String.eqb _ _).
    + specialize (IH store p Hp). by destruct (Watch unmarshal store ticks) as [final events].
    + destruct (activate_cases snapshot p) as (p1 & Hrun & _).
      specialize (IH (mkStore snapshot) p1 (activate_info _ _ _ _ _ Hrun)).
      destruct (Watch unmarshal (mkStore snapshot) ticks) as [final events]. simpl. by rewrite (bind_inr _ _ _ _ _ Hrun).
Qed.
End Activations.

(** ** Theorems *)

(** C32: what a process that started has checked.  For every one the configuration is valid.
    cmd/idemio: the manifests are loaded and are those it serves, every migration file is
    recorded, the unique constraint of the live database is the one the claims rest on, every
    partitioned table has a partition that ends at least fourteen days after the reading of the
    clock with which it was checked, results are offloaded exactly when object storage is
    configured, and no metric panicked.  cmd/reconciler: the manifests and the constraint, and
    it sweeps with the configured threshold unless it was asked to restore; it checks neither
    migrations nor partitions.  cmd/relay: there are brokers.  A start, failed or not, sends
    nothing downstream. *)
Theorem start_checked `{!Minio} (Getenv : string → string) (unmarshal : string → goerr + document) (dir : directory)
    (pool_error dialled listen_error : option goerr) (build_error : string → option string)
    (run_sql : string → tables → goerr + tables) (FS : list (string * string)) (principal restorePartition : string)
    (p : process) :
  (let '(r, p') := run_service Getenv unmarshal dir pool_error dialled listen_error build_error run_sql FS principal p in
   unsent p p' ∧ ∀ sv, r = inr sv → ∃ cfg, Config.Load Getenv = inr cfg ∧ valid_config cfg ∧ Api.cfg (sv_server sv) = cfg ∧
     NewStore unmarshal dir = inr (sv_manifests sv) ∧ all_migrated FS p' ∧
     constraintColumns (p_constraints p') = Some "agent_id,idempotency_key" ∧
     headroom_checked p p' ∧ Telemetry.New cfg = inr (sv_metrics sv) ∧
     configured (srv_results (sv_server sv)) = Configured (options cfg) ∧
     p_info p' = [Manifest.version (current (sv_manifests sv))]) ∧
  (let '(r, p') := run_reconciler Getenv unmarshal dir pool_error dialled build_error restorePartition p in
   unsent p p' ∧ ∀ m, r = inr m → ∃ cfg, Config.Load Getenv = inr cfg ∧ valid_config cfg ∧
     constraintColumns (p_constraints p') = Some "agent_id,idempotency_key" ∧
     match m with
     | Restoring objects name => name = restorePartition ∧ name ≠ ""
     | Sweeping sw => restorePartition = "" ∧ NewStore unmarshal dir = inr (sw_manifests sw) ∧
         staleAfter (sw_reconciler sw) = ReconcileStaleAfter cfg ∧ batch (sw_reconciler sw) = 200%nat ∧
         configured (results (sw_reconciler sw)) = Configured (options cfg)
     end) ∧
  (let '(r, p') := run_relay Getenv pool_error p in
   unsent p p' ∧ ∀ pb, r = inr pb → Config.Load Getenv = inr (pb_cfg pb) ∧ KafkaBrokers (pb_cfg pb) ≠ "").
Proof.
  split_and!.
  - unfold run_service, configured_run. destruct (Config.Load Getenv) as [ps|cfg] eqn:Hl; [by split|].
    destruct (NewStore unmarshal dir) as [e|manifests] eqn:Hs; [by split|].
    pose proof (start_service_unsent pool_error dialled listen_error build_error run_sql FS principal cfg manifests p) as Hu.
    destruct (start_service _ _ _ _ _ _ _ _ _ p) as [[e|sv] p'] eqn:E; simpl in Hu; (split; [exact Hu|]); [done|].
    intros x [= <-]. apply start_service_ready in E as (H1 & H2 & H3 & H4 & H5 & H6 & H7 & H8 & H9).
    exists cfg. split; [reflexivity|]. split; [by eapply Load_valid|]. split; [exact H5|]. rewrite H6.
    split; [reflexivity|]. split; [exact H1|]. split; [exact H2|]. split; [exact H3|]. split; [exact H4|].
    rewrite H7, H8. split; [reflexivity|exact H9].
  - unfold run_reconciler, configured_run. destruct (Config.Load Getenv) as [ps|cfg] eqn:Hl; [by split|].
    destruct (NewStore unmarshal dir) as [e|manifests] eqn:Hs; [by split|].
    pose proof (start_reconciler_unsent pool_error dialled build_error restorePartition cfg manifests p) as Hu.
    destruct (start_reconciler _ _ _ _ _ _ p) as [[e|m] p'] eqn:E; simpl in Hu; (split; [exact Hu|]); [done|].
    intros x [= <-]. apply start_reconciler_ready in E as [H1 H2]. exists cfg.
    split; [reflexivity|]. split; [by eapply Load_valid|]. split; [exact H1|].
    destruct m as [objects name|sw]; [by destruct H2 as (? & ? & _)|].
    destruct H2 as (? & _ & _ & -> & ? & ? & ?). by split_and!.
  - unfold run_relay. destruct (Config.Load Getenv) as [ps|cfg] eqn:Hl; [by split|].
    destruct (String.eqb_spec (KafkaBrokers cfg) "") as [Hb|Hb]; [by split|].
    assert (Hu : frames unsent (_ ← fails "connect database" pool_error; metrics ← new_metrics cfg;
      mret (mkPublisher cfg (Split (KafkaBrokers cfg) ","%char) (KafkaTopic cfg) metrics))) by frames_auto.
    specialize (Hu p). match type of Hu with unsent _ ?x.2 => destruct x as [[e|pb] p'] eqn:E end; (split; [exact Hu|]); [done|]. intros x [= <-].
    revert E. run_first [[e|[]] p1] as E1; [done|]. run_first [[e|m] p2] as E2; [done|]. intros Hinj. injection Hinj as <- _.
    split; [reflexivity|exact Hb].
Qed.

(** A process says which manifests it serves: whatever the directory holds at each tick and
    whatever fails, the manifest_info gauge has one label, the version in force; every failed
    reload is counted; activations are only added, one per version and process, and without a
    fault every version that was served has one. *)
Theorem activations_follow (principal : string) (unmarshal : string → goerr + document) (store : Manifest.Store)
    (ticks : list directory) (p : process) :
  let '(final, events) := Watch unmarshal store ticks in
  let p' := (notified (activate principal) events p).2 in
  (p_info p = [Manifest.version (current store)] → p_info p' = [Manifest.version (current final)]) ∧
  w_metrics (m_world (p_house p')) = w_metrics (m_world (p_house p)) ++ reload_failures events ∧
  (∃ l, activated p' = activated p ++ l) ∧ (NoDup (activated p) → NoDup (activated p')) ∧
  (World.quiet (m_world (p_house p)) →
     ∀ s, OnActivate s ∈ events → (Manifest.version s, principal) ∈ activated p').
Proof.
  pose proof (notified_info principal unmarshal ticks store p) as Hi.
  destruct (Watch unmarshal store ticks) as [final events]. split; [exact Hi|]. apply notified_runs.
Qed.

(** ** Witness *)

Section Witness.
(** A first start: the one migration makes the tables with a year of partitions. *)
Definition demo_partition (table : string) : partition :=
  mkPartition table (table +:+ "_2026") (Some (0, 365 * 24 * 3600 * 1000000)).
Definition demo_migration (text : string) (t : tables) : goerr + tables :=
  inr (mkTables (t_rows t) (mkCatalog (demo_partition ∘ Name <$> Tables) [] [] []) [["agent_id"; "idempotency_key"]]).
Definition empty_process : process :=
  mkProcess (mkMWorld (world_of empty_db) (mkCatalog [] [] [] [])) None [] [] false [].

Definition demo_start : (refusal + service) * process :=
  run_service demo_env shipped_unmarshal shipped_dir None None None (λ _, None) demo_migration
    [("0001_init.sql", "CREATE")] "host/1" empty_process.

Lemma start_checked_witness : ∃ sv p', demo_start = (inr sv, p') ∧
  all_migrated [("0001_init.sql", "CREATE")] p' ∧
  constraintColumns (p_constraints p') = Some "agent_id,idempotency_key" ∧ headroom_checked empty_process p' ∧
  p_info p' = [Manifest.version (current (sv_manifests sv))].
Proof.
  destruct (start_checked demo_env shipped_unmarshal shipped_dir None None None (λ _, None) demo_migration
    [("0001_init.sql", "CREATE")] "host/1" "" empty_process) as [Hs _].
  fold demo_start in Hs. destruct demo_start as [[e|sv] p'] eqn:E; [vm_compute in E; discriminate E|].
  exists sv, p'. destruct Hs as [_ Hs]. destruct (Hs sv eq_refl) as (cfg & _ & _ & _ & _ & Hm & Hc & Hh & _ & _ & Hi).
  split; [reflexivity|]. split; [exact Hm|]. split; [exact Hc|]. split; [exact Hh|exact Hi].
Defined.

(** A reload that fails and one that changes the manifests. *)
Lemma activations_follow_witness :
  match Manifest.Load shipped_unmarshal shipped_dir with
  | inr s =>
      let store := mkStore (mkSnapshot "old" ∅) in
      let p := set_info ["old"] empty_process in
      (Manifest.version s, "host/1") ∈
        activated (notified (activate "host/1") (Watch shipped_unmarshal store [[]; shipped_dir]).2 p).2
  | inl _ => False
  end.
Proof.
  destruct (Manifest.Load shipped_unmarshal shipped_dir) as [e|s] eqn:Hl; [vm_compute in Hl; discriminate Hl|].
  intros store p.
  pose proof (activations_follow "host/1" shipped_unmarshal store [[]; shipped_dir] p) as H.
  assert (Hw : (Watch shipped_unmarshal store [[]; shipped_dir]).2 = [OnFailure; OnActivate s]).
  { cbn [Watch]. unfold reload. rewrite Hl. assert (Hv : String.eqb (Manifest.version s) "old" = false).
    { vm_compute in Hl. injection Hl as <-. vm_compute. reflexivity. }
    cbn [current store]. cbn. rewrite Hv. reflexivity. }
  destruct (Watch shipped_unmarshal store [[]; shipped_dir]) as [final events]. cbn [snd] in *. subst events.
  destruct H as (_ & _ & _ & _ & Hin). apply Hin; [apply Forall_nil; exact I|]. right. left.
Defined.
End Witness.
